(** * FTS time-discipline core: a shallow embedding and its verified properties

    The development follows the C sources component by component:

    - [CInt]   : the fixed-width integer conversions the C code relies on;
    - [Clock]  : [clock_unwrap] of [components/clock/clock.c];
    - [Dtr]    : the TEZ interrupt handler, the start-up sequence and the
                 MAC/timer offset measurement of [components/dtr/dtr.c];
    - [Fp]     : IEEE-754 binary64 / binary32 conversions used by the
                 regression and by the controller, and the exact rational
                 value of a double;
    - [Crm]    : the sample ring and [perform_regression] of
                 [components/crm/crm.c];
    - [Dtc]    : the projection arithmetic of [components/dtc/dtc.c];
    - [Ftm]    : the sync packets, the report handler and the poll task of
                 [components/ftm/ftm.c];
    - [Main]   : the application callback of [main/fts_main.c].

    Machine integers are values of [Z]; every place where C converts or
    wraps is written out with the conversions of [CInt].  Doubles are Rocq's
    primitive binary64 floats, so every definition evaluates. *)

From Stdlib Require Import ZArith QArith Qabs Qpower Lia Lqa List Bool Sorted.
From Stdlib Require Import Floats.PrimFloat Floats.SpecFloat Floats.FloatOps
  Floats.FloatAxioms.
Import ListNotations.
Local Open Scope Z_scope.

(* ====================================================================== *)
(** * Part I -- the embedding                                              *)
(* ====================================================================== *)

(** ** Fixed-width integers *)

Module CInt.

(** Conversion to an unsigned type of [w] bits: reduction modulo [2^w]. *)
Definition to_unsigned (w z : Z) : Z := z mod 2 ^ w.

(** Conversion to a signed type of [w] bits (two's complement). *)
Definition to_signed (w z : Z) : Z := (z + 2 ^ (w - 1)) mod 2 ^ w - 2 ^ (w - 1).

Definition to_uint8  : Z -> Z := to_unsigned 8.
Definition to_uint16 : Z -> Z := to_unsigned 16.
Definition to_uint32 : Z -> Z := to_unsigned 32.
Definition to_uint64 : Z -> Z := to_unsigned 64.
Definition to_int32  : Z -> Z := to_signed 32.
Definition to_int64  : Z -> Z := to_signed 64.

Definition INT64_MAX : Z := 2 ^ 63 - 1.
Definition UINT32_MAX : Z := 2 ^ 32 - 1.

Definition in_uint16 (z : Z) : Prop := 0 <= z < 2 ^ 16.
Definition in_uint32 (z : Z) : Prop := 0 <= z < 2 ^ 32.
Definition in_uint64 (z : Z) : Prop := 0 <= z < 2 ^ 64.
Definition in_int32 (z : Z) : Prop := - 2 ^ 31 <= z < 2 ^ 31.
Definition in_int64 (z : Z) : Prop := - 2 ^ 63 <= z < 2 ^ 63.

End CInt.
Import CInt.

(** ** Counter unwrapping ([components/clock]) *)

Module Clock.

(** [unwrap_state_t]: [last_val] and [offset] are [int64_t], [wrap_count]
    is [uint32_t], the two moduli are [uint64_t]. *)
Record unwrap_state_t := mk_unwrap {
  last_val : Z;
  offset : Z;
  wrap_count : Z;
  wrap_value : Z;
  wrap_value2 : Z
}.

(** [clock_unwrap(val, state)]: the returned value and the updated state. *)
Definition clock_unwrap (val : Z) (state : unwrap_state_t) : Z * unwrap_state_t :=
  let state1 :=
    if negb (last_val state =? 0) && (val <? last_val state) then
      let wc := to_uint32 (wrap_count state + 1) in
      if (0 <? wrap_value2 state)
         && (last_val state <? to_int64 (wrap_value2 state))
      then mk_unwrap (last_val state)
             (to_int64 (offset state + to_int64 (wrap_value2 state)))
             wc (wrap_value state) (wrap_value2 state)
      else mk_unwrap (last_val state)
             (to_int64 (offset state + to_int64 (wrap_value state)))
             wc (wrap_value state) (wrap_value2 state)
    else state in
  let state2 := mk_unwrap val (offset state1) (wrap_count state1)
                  (wrap_value state1) (wrap_value2 state1) in
  (to_int64 (val + offset state2), state2).

(** Successive calls on one state, as [process_ftm_report] and
    [clock_get_us] make them: the outputs in call order, and the final
    state. *)
Fixpoint unwrap_seq (vals : list Z) (state : unwrap_state_t)
  : list Z * unwrap_state_t :=
  match vals with
  | [] => ([], state)
  | v :: vs =>
      let '(r, state') := clock_unwrap v state in
      let '(rs, state'') := unwrap_seq vs state' in
      (r :: rs, state'')
  end.

(** The initialiser [{0, 0, 0, wrap, wrap2}] used for every tracker. *)
Definition unwrap_init (wrap wrap2 : Z) : unwrap_state_t :=
  mk_unwrap 0 0 0 wrap wrap2.

Definition MAC_CLOCK_WRAP_US : Z := 2 ^ 32.
Definition WRAP_48BIT : Z := 2 ^ 48.
Definition WRAP_32BIT_1E6 : Z := 2 ^ 32 * 1000000.
Definition WRAP2_T1_T4 : Z := WRAP_32BIT_1E6 mod WRAP_48BIT.

(** The state is well formed when every field lies in its C type. *)
Definition wf (state : unwrap_state_t) : Prop :=
  in_int64 (last_val state) /\ in_int64 (offset state) /\
  in_uint32 (wrap_count state) /\
  in_uint64 (wrap_value state) /\ in_uint64 (wrap_value2 state).

(** A wrap is registered: the C condition [last_val != 0 && val < last_val]. *)
Definition wrap_detected (raw : Z) (st : unwrap_state_t) : Prop :=
  last_val st <> 0 /\ raw < last_val st.

(** The short-wrap case: [wrap_value2 > 0 && last_val < (int64_t)wrap_value2]. *)
Definition short_wrap (st : unwrap_state_t) : Prop :=
  0 < wrap_value2 st /\ last_val st < to_int64 (wrap_value2 st).

(** Both moduli fit in an [int64_t], as every initialiser in the sources
    does ([2^32], [2^48], [2^32 * 10^6] and its residue modulo [2^48]). *)
Definition moduli_fit (st : unwrap_state_t) : Prop :=
  0 < wrap_value st < 2 ^ 63 /\ 0 <= wrap_value2 st < 2 ^ 63.

Definition max_modulus (st : unwrap_state_t) : Z :=
  Z.max (wrap_value st) (wrap_value2 st).
(** *** The MAC clock ([clock_init], [clock_get_us], [clock_get_base_us])

    The statics [s_initialized] and [s_unwrap_state].  The mutex only
    serialises the callers; what is read from the MAC counter
    ([esp_wifi_internal_get_mac_clock_time], a [uint32_t]) is an input. *)
Record clock_t := mk_clock {
  s_initialized : bool;
  s_unwrap_state : unwrap_state_t
}.

(** The statics as the program starts: [{0, 0, 0, MAC_CLOCK_WRAP_US, 0}]. *)
Definition clock_boot : clock_t :=
  mk_clock false (unwrap_init MAC_CLOCK_WRAP_US 0).

Inductive esp_err_t := ESP_OK | ESP_FAIL.

(** [clock_init]: [mac_clock1_us] and [mac_clock2_us] are its two reads of
    the MAC counter, [mutex_ok] and [task_ok] tell whether
    [xSemaphoreCreateMutex] and [xTaskCreate] succeed. *)
Definition clock_init (mac_clock1_us mac_clock2_us : Z) (mutex_ok task_ok : bool)
  (c : clock_t) : esp_err_t * clock_t :=
  if s_initialized c then (ESP_OK, c)
  else if mac_clock2_us =? mac_clock1_us then (ESP_FAIL, c)
  else if negb mutex_ok then (ESP_FAIL, c)
  else
    let st := s_unwrap_state c in
    let st' := mk_unwrap mac_clock2_us (offset st) (wrap_count st)
                 (wrap_value st) (wrap_value2 st) in
    if task_ok then (ESP_OK, mk_clock true st')
    else (ESP_FAIL, mk_clock false st').

(** [clock_get_us]: [None] is the call of [abort()]; otherwise the unwrapped
    value and the updated tracker. *)
Definition clock_get_us (mac_clock_us : Z) (c : clock_t) : option (Z * clock_t) :=
  if negb (s_initialized c) then None
  else
    let '(unwrapped, st) := clock_unwrap mac_clock_us (s_unwrap_state c) in
    Some (unwrapped, mk_clock (s_initialized c) st).

(** [clock_get_base_us]. *)
Definition clock_get_base_us (c : clock_t) : option Z :=
  if negb (s_initialized c) then None else Some (offset (s_unwrap_state c)).

(** Successive calls of [clock_get_us], as the watchdog task and the other
    callers make them, on the values read from the counter. *)
Fixpoint clock_get_us_seq (reads : list Z) (c : clock_t)
  : option (list Z * clock_t) :=
  match reads with
  | [] => Some ([], c)
  | m :: rest =>
      match clock_get_us m c with
      | None => None
      | Some (u, c') =>
          match clock_get_us_seq rest c' with
          | None => None
          | Some (us, c'') => Some (u :: us, c'')
          end
      end
  end.

(** A counter that wraps at [W] is sampled while its unwrapped value is
    [Ts], in this order, after it was [T0]: it does not run backwards, and
    between two samples it advances by less than [W]. *)
Fixpoint paced (W T0 : Z) (Ts : list Z) : Prop :=
  match Ts with
  | [] => True
  | T :: rest => T0 <= T < T0 + W /\ paced W T rest
  end.


End Clock.

(** ** Outcomes of fallible code

    [abort()] and a failed [assert] end the program; a loop that needs more
    iterations than the supplied bound is reported separately. *)

Inductive abort_reason :=
| PeriodOutOfRange        (* dtr_tez_handler: period_ticks not in [1, 65535] *)
| AssertFeedbackNotReady  (* dtr_tez_handler: assert(!s_align_feedback.ready) *)
| AssertTimerBelowMac     (* refine: assert(timer_abs_after < mac_at_transition) *)
| AssertMinLeMax          (* refine: assert(new_min <= new_max) *)
| TimerAlreadyStarted.    (* dtr_start_timer called twice *)

Inductive result (A : Type) :=
| Ok (a : A)
| Abort (why : abort_reason)
| Diverge.
Arguments Ok {A} a.
Arguments Abort {A} why.
Arguments Diverge {A}.

Definition bind {A B : Type} (r : result A) (k : A -> result B) : result B :=
  match r with
  | Ok a => k a
  | Abort why => Abort why
  | Diverge => Diverge
  end.

Notation "x <- r ;; k" := (bind r (fun x => k))
  (at level 61, r at next level, right associativity).

(** ** The disciplined timer ([components/dtr]) *)

Module Dtr.

Definition DTR_TIMER_RESOLUTION_HZ : Z := 40000000.
Definition DTR_TIMER_PERIOD_US : Z := 500.
Definition DTR_PULSE_DUTY_PERCENT : Z := 5.
Definition DTR_COMPENSATION_NS : Z := -200.
Definition TIMER_TICKS_PER_US : Z := DTR_TIMER_RESOLUTION_HZ / 1000000.
Definition DTR_TIMER_PERIOD_TICKS : Z := DTR_TIMER_PERIOD_US * TIMER_TICKS_PER_US.
Definition DTR_PULSE_WIDTH_TICKS : Z :=
  DTR_TIMER_PERIOD_TICKS * DTR_PULSE_DUTY_PERCENT / 100.
Definition DTR_MAC_TIMER_ALIGNMENT_MAX_SAMPLES : Z := 100000.
Definition DTR_PS_PER_TICK : Z := 1000000000000 / DTR_TIMER_RESOLUTION_HZ.
(** [(int32_t)((ns) * (int64_t)TIMER_TICKS_PER_US / 1000)]: signed
    arithmetic, division truncating toward zero. *)
Definition DTR_NS_TO_TICKS (ns : Z) : Z :=
  to_int32 (Z.quot (to_int64 (ns * TIMER_TICKS_PER_US)) 1000).
Definition FP16_SCALE : Z := 65536.

Inductive dtr_mode_t := DTR_MODE_MASTER | DTR_MODE_SLAVE.

Inductive dtr_state_t :=
| DTR_STATE_NOT_STARTED
| DTR_STATE_RUNNING
| DTR_STATE_ALIGNED.

Definition dtr_state_eqb (a b : dtr_state_t) : bool :=
  match a, b with
  | DTR_STATE_NOT_STARTED, DTR_STATE_NOT_STARTED
  | DTR_STATE_RUNNING, DTR_STATE_RUNNING
  | DTR_STATE_ALIGNED, DTR_STATE_ALIGNED => true
  | _, _ => false
  end.

(** The position of a state in the enum, to speak about its order. *)
Definition state_rank (st : dtr_state_t) : Z :=
  match st with
  | DTR_STATE_NOT_STARTED => 0
  | DTR_STATE_RUNNING => 1
  | DTR_STATE_ALIGNED => 2
  end.

Record align_request_t := mk_request {
  pending : bool;
  aligned_local_ticks : Z;        (* int64_t *)
  aligned_cycle_counter : Z;      (* int64_t *)
  aligned_base_period_fp16 : Z    (* int64_t *)
}.

Record align_feedback_t := mk_feedback {
  ready : bool;
  fb_cycle_counter : Z;           (* int64_t *)
  fb_cycle_delta : Z;             (* int32_t *)
  fb_period_ticks : Z;            (* int32_t *)
  fb_period_ticks_delta : Z       (* int32_t *)
}.

(** The module-level variables of [dtr.c], and the two pieces of hardware
    state the claims speak about: whether the MCPWM timer has been enabled
    and started (only then does it raise TEZ), and the force level of the
    generator ([Some 0]: held low, [None]: released). *)
Record dtr_t := mk_dtr {
  s_mode : dtr_mode_t;
  s_state : dtr_state_t;
  cycle_counter : Z;              (* int64_t *)
  active_period_ticks : Z;        (* uint16_t *)
  shadow_period_ticks : Z;        (* uint16_t *)
  timer_base_ticks : Z;           (* int64_t *)
  period_ticks : Z;               (* int64_t *)
  base_period_fp16 : Z;           (* uint32_t *)
  period_ticks_frac_acc : Z;      (* int32_t *)
  s_align_request : align_request_t;
  s_align_feedback : align_feedback_t;
  s_app_callback : bool;          (* is a callback installed *)
  s_tez_listener_task : option nat;
  hw_timer_started : bool;
  hw_force_level : option Z
}.

(** What the interrupt handler does to the outside, in program order. *)
Inductive isr_event :=
| EvSetPeriod (ticks : Z)         (* mcpwm_timer_set_period *)
| EvNotify (task : nat)           (* xTaskNotifyFromISR *)
| EvAppCallback (master_cycle : Z).

(** *** MAC clock / timer start offset measurement *)

(** What one call of [s_catch_mac_clock_transition] reads from the hardware
    and from shared variables, in program order.  [loop_reads] holds, for
    each pass of the tight loop, [(timer_before, mac_clock_us_1,
    mac_clock_us_2, timer_after)].  Counter reads are [uint32_t]; the two
    bases are [int64_t]. *)
Record catch_reads := mk_reads {
  timer_pre : Z;
  mac_clock_us_pre : Z;
  mac_clock_base_us : Z;            (* clock_get_base_us() *)
  timer_base_ticks_pre : Z;         (* timer_base_ticks, inside the lock *)
  loop_reads : list (Z * Z * Z * Z);
  timer_post : Z;
  mac_clock_us_post : Z
}.

(** The [do ... while (mac_clock_us_2 == mac_clock_us_1)] loop: the reads of
    the pass that saw the MAC counter change, and the number of passes.
    [None]: the counter did not change within the supplied reads. *)
Fixpoint catch_loop (reads : list (Z * Z * Z * Z)) (iterations : Z)
  : option (Z * Z * Z * Z * Z) :=
  match reads with
  | [] => None
  | (timer_before, mac_1, mac_2, timer_after) :: rest =>
      let iterations := to_uint32 (iterations + 1) in
      if mac_2 =? mac_1 then catch_loop rest iterations
      else Some (timer_before, mac_1, mac_2, timer_after, iterations)
  end.

(** [s_catch_mac_clock_transition]: [Ok None] is the [false] return (a wrap
    was seen, discard); [Ok (Some (timer_abs_before_ticks,
    mac_clock_transition_us, timer_abs_after_ticks, iterations))] is [true]
    with the values stored through the pointers. *)
Definition s_catch_mac_clock_transition (r : catch_reads)
  : result (option (Z * Z * Z * Z)) :=
  match catch_loop (loop_reads r) 0 with
  | None => Diverge
  | Some (timer_before, mac_clock_us_1, mac_clock_us_2, timer_after, iterations) =>
      if (timer_before <? timer_pre r) || (timer_after <? timer_before)
         || (timer_post r <? timer_after)
      then Ok None
      else if (mac_clock_us_1 <? mac_clock_us_pre r)
              || (mac_clock_us_2 <? mac_clock_us_1)
              || (mac_clock_us_post r <? mac_clock_us_2)
      then Ok None
      else Ok (Some (to_int64 (timer_base_ticks_pre r + timer_before),
                     to_int64 (mac_clock_base_us r + mac_clock_us_2),
                     to_int64 (timer_base_ticks_pre r + timer_after),
                     iterations))
  end.

(** [s_refine_mac_clock_timer_start_offset], on the pair [(min, max)].  The
    product with [TIMER_TICKS_PER_US] is unsigned and converted back. *)
Definition s_refine_mac_clock_timer_start_offset
  (min max timer_abs_before_ticks mac_clock_transition_us timer_abs_after_ticks : Z)
  : result (Z * Z) :=
  let mac_at_transition_ticks :=
    to_int64 (to_uint64 (to_uint64 mac_clock_transition_us * TIMER_TICKS_PER_US)) in
  if negb (timer_abs_after_ticks <? mac_at_transition_ticks)
  then Abort AssertTimerBelowMac
  else
    let new_min := to_int64 (mac_at_transition_ticks - timer_abs_after_ticks) in
    let new_max := to_int64 (mac_at_transition_ticks - timer_abs_before_ticks) in
    if negb (new_min <=? new_max) then Abort AssertMinLeMax
    else
      let min := if min <? new_min then new_min else min in
      let max := if new_max <? max then new_max else max in
      Ok (min, max).

(** The loop of [s_measure_mac_clock_timer_start_offset] over the reads of
    its iterations, carrying the bounds. *)
Fixpoint measure_loop (samples : list catch_reads) (bounds : Z * Z)
  : result (Z * Z) :=
  match samples with
  | [] => Ok bounds
  | r :: rest =>
      c <- s_catch_mac_clock_transition r ;;
      match c with
      | None => measure_loop rest bounds
      | Some (timer_abs_before, mac_clock_transition_us, timer_abs_after, _) =>
          b <- s_refine_mac_clock_timer_start_offset (fst bounds) (snd bounds)
                 timer_abs_before mac_clock_transition_us timer_abs_after ;;
          measure_loop rest b
      end
  end.

(** [s_measure_mac_clock_timer_start_offset]: the bounds start at
    [0, INT64_MAX]; the loop makes [DTR_MAC_TIMER_ALIGNMENT_MAX_SAMPLES]
    iterations; the result is the midpoint and the final bounds. *)
Definition s_measure_mac_clock_timer_start_offset (samples : list catch_reads)
  : result (Z * (Z * Z)) :=
  b <- measure_loop
         (firstn (Z.to_nat DTR_MAC_TIMER_ALIGNMENT_MAX_SAMPLES) samples)
         (0, INT64_MAX) ;;
  Ok (Z.quot (to_int64 (fst b + snd b)) 2, b).

(** The reads of one measurement iteration lie in their C types, and the two
    bases are far enough from the ends of [int64_t] for the sums and the
    product by [TIMER_TICKS_PER_US] not to overflow. *)
Definition reads_in_range (r : catch_reads) : Prop :=
  Forall (fun '(timer_before, mac_1, mac_2, timer_after) =>
            in_uint32 timer_before /\ in_uint32 mac_1 /\
            in_uint32 mac_2 /\ in_uint32 timer_after) (loop_reads r) /\
  in_uint32 (timer_pre r) /\ in_uint32 (timer_post r) /\
  in_uint32 (mac_clock_us_pre r) /\ in_uint32 (mac_clock_us_post r) /\
  - 2 ^ 61 <= timer_base_ticks_pre r <= 2 ^ 61 /\
  - 2 ^ 55 <= mac_clock_base_us r <= 2 ^ 55.

(** One iteration of the measurement shortly after start-up: the MAC
    counter steps from 7000 to 7001 microseconds in the second pass of the
    tight loop. *)
Definition catch_example_reads : catch_reads :=
  mk_reads 100 7000 0 0 [(105, 7000, 7000, 110); (115, 7000, 7001, 121)]
    130 7001.

(** The sum of a list of integers. *)
Definition zsum (l : list Z) : Z := fold_right Z.add 0 l.

(** [base_period_fp16 = P * 65536 + f], as the spec writes it. *)
Definition fp16_parts (base P f : Z) : Prop :=
  base = P * FP16_SCALE + f /\ 0 <= f < FP16_SCALE /\ 0 <= P < FP16_SCALE.

(** The ticks added by [k] passes of the roll-forward loop that start from a
    zero accumulator: [k] integer parts and the carries of [k] fractions. *)
Definition rolled_ticks (base k : Z) : Z :=
  k * (base / FP16_SCALE) + k * (base mod FP16_SCALE) / FP16_SCALE.

(** A slave that tracks a master running 2 ppm fast, over 65536 periods. *)
Definition dither_example_state : dtr_t :=
  mk_dtr DTR_MODE_SLAVE DTR_STATE_ALIGNED 100 20000 20000 2000000
    20000 (20000 * 65536 + 2621) 0 (mk_request false 0 0 0)
    (mk_feedback false 0 0 0 0) false None true None.

Section Config.

(** Build-time configuration (Kconfig), not part of the sources. *)
Variable CONFIG_FTS_MIN_PERIOD_CPU_CYCLES : Z.
Variable CONFIG_ESP_DEFAULT_CPU_FREQ_MHZ : Z.
Variable CONFIG_FTS_ROLE_SLAVE : bool.

(** [DTR_TIMER_RESOLUTION_HZ] carries the suffix [ULL], so the macro is
    evaluated in [unsigned long long]; the divisor is an [int] product
    converted to that type.  (Division by zero does not compile in C;
    here it yields 0.) *)
Definition DTR_MIN_PERIOD_TICKS : Z :=
  to_uint64 (to_uint64 CONFIG_FTS_MIN_PERIOD_CPU_CYCLES * DTR_TIMER_RESOLUTION_HZ)
  / to_uint64 (to_int32 (CONFIG_ESP_DEFAULT_CPU_FREQ_MHZ * 1000000)).

(** One pass of the body of the roll-forward loop, on the three
    variables it changes: [period_ticks], [period_ticks_frac_acc],
    [cycle_counter].  [base] is [base_period_fp16] (a [uint32_t]). *)
Definition roll_step (base : Z) (v : Z * Z * Z) : Z * Z * Z :=
  let '(period, acc, cycle) := v in
  let period := to_int64 (period + base / FP16_SCALE) in
  let acc := to_int32 (to_uint32 (to_uint32 acc + base mod FP16_SCALE)) in
  let '(period, acc) :=
    if FP16_SCALE <=? acc
    then (to_int64 (period + 1), to_int32 (acc - FP16_SCALE))
    else (period, acc) in
  (period, acc, to_int64 (cycle + 1)).

(** [while (period_ticks < DTR_MIN_PERIOD_TICKS) { ... }].  The macro is
    unsigned, so [period_ticks] is converted to [uint64_t] for the
    comparison.  [None]: the bound on iterations was reached. *)
Fixpoint roll_forward (fuel : nat) (base : Z) (v : Z * Z * Z)
  : option (Z * Z * Z) :=
  let '(period, _, _) := v in
  if to_uint64 period <? DTR_MIN_PERIOD_TICKS then
    match fuel with
    | O => None
    | S fuel' => roll_forward fuel' base (roll_step base v)
    end
  else Some v.

(** The dithering of the branch without a pending request. *)
Definition dither (base acc : Z) : Z * Z :=
  let period := base / FP16_SCALE in
  let acc := to_int32 (to_uint32 (to_uint32 acc + base mod FP16_SCALE)) in
  if FP16_SCALE <=? acc
  then (to_int64 (period + 1), to_int32 (acc - FP16_SCALE))
  else (period, acc).

(** The part of [dtr_tez_handler] after the critical section. *)
Definition tez_common_end (s : dtr_t) : result (dtr_t * list isr_event) :=
  if (period_ticks s <=? 0) || (65535 <? period_ticks s) then
    Abort PeriodOutOfRange
  else
    let p := to_uint16 (period_ticks s) in
    let s' := mk_dtr (s_mode s) (s_state s) (cycle_counter s)
                (active_period_ticks s) p (timer_base_ticks s)
                (period_ticks s) (base_period_fp16 s)
                (period_ticks_frac_acc s) (s_align_request s)
                (s_align_feedback s) (s_app_callback s)
                (s_tez_listener_task s) (hw_timer_started s)
                (hw_force_level s) in
    let notify :=
      match s_tez_listener_task s with
      | Some task => [EvNotify task]
      | None => []
      end in
    let callback :=
      if dtr_state_eqb (s_state s) DTR_STATE_ALIGNED && s_app_callback s
      then [EvAppCallback (to_uint32 (cycle_counter s))]
      else [] in
    Ok (s', EvSetPeriod p :: notify ++ callback).

(** [dtr_tez_handler]. *)
Definition dtr_tez_handler (fuel : nat) (s : dtr_t)
  : result (dtr_t * list isr_event) :=
  (* common beginning *)
  let cycle1 := to_int64 (cycle_counter s + 1) in
  let base1 := to_int64 (timer_base_ticks s + active_period_ticks s) in
  let active1 := shadow_period_ticks s in
  let req := s_align_request s in
  if pending req then
    let old_cycle_counter := cycle1 in
    let old_period_ticks := period_ticks s in
    let cycle2 := aligned_cycle_counter req in
    let period2 := to_int64 (aligned_local_ticks req - base1) in
    let fp16 := to_uint32 (aligned_base_period_fp16 req) in
    match roll_forward fuel fp16 (period2, 0, cycle2) with
    | None => Diverge
    | Some (period3, acc3, cycle3) =>
        if ready (s_align_feedback s) then Abort AssertFeedbackNotReady
        else
          let fb := mk_feedback true cycle3
                      (to_int32 (to_int64 (cycle3 - old_cycle_counter)))
                      (to_int32 period3)
                      (to_int32 (to_int64 (period3 - old_period_ticks))) in
          let req' := mk_request false (aligned_local_ticks req)
                        (aligned_cycle_counter req)
                        (aligned_base_period_fp16 req) in
          let running := dtr_state_eqb (s_state s) DTR_STATE_RUNNING in
          let state' := if running then DTR_STATE_ALIGNED else s_state s in
          let force' := if running && CONFIG_FTS_ROLE_SLAVE
                        then None else hw_force_level s in
          tez_common_end
            (mk_dtr (s_mode s) state' cycle3 active1
               (shadow_period_ticks s) base1 period3 fp16 acc3 req' fb
               (s_app_callback s) (s_tez_listener_task s)
               (hw_timer_started s) force')
    end
  else
    let '(period2, acc2) :=
      dither (base_period_fp16 s) (period_ticks_frac_acc s) in
    tez_common_end
      (mk_dtr (s_mode s) (s_state s) cycle1 active1
         (shadow_period_ticks s) base1 period2 (base_period_fp16 s) acc2
         req (s_align_feedback s) (s_app_callback s)
         (s_tez_listener_task s) (hw_timer_started s) (hw_force_level s)).

(** [dtr_init]: the state it leaves, the timer created but not started;
    in the slave role the generator is forced low. *)
Definition dtr_init (mode : dtr_mode_t) (callback : bool) : dtr_t :=
  mk_dtr mode DTR_STATE_NOT_STARTED (-1) 0
    (to_uint16 DTR_TIMER_PERIOD_TICKS) 0 DTR_TIMER_PERIOD_TICKS
    (to_uint32 (to_uint32 DTR_TIMER_PERIOD_TICKS * FP16_SCALE)) 0
    (mk_request false 0 0 0) (mk_feedback false 0 0 0 0)
    callback None false
    (if CONFIG_FTS_ROLE_SLAVE then Some 0 else None).

(** [s_enable_and_start_timer]. *)
Definition s_enable_and_start_timer (s : dtr_t) : dtr_t :=
  mk_dtr (s_mode s) DTR_STATE_RUNNING 0 (active_period_ticks s)
    (shadow_period_ticks s) 0 (period_ticks s) (base_period_fp16 s)
    (period_ticks_frac_acc s) (s_align_request s) (s_align_feedback s)
    (s_app_callback s) (s_tez_listener_task s) true (hw_force_level s).

(** [dtr_start_timer] up to the point where the timer runs: the guard on
    the state, then [s_enable_and_start_timer].  The offset measurement
    that follows runs with interrupts enabled between its samples, so the
    final addition is a step of its own. *)
Definition dtr_start_timer_enable (s : dtr_t) : result dtr_t :=
  if negb (dtr_state_eqb (s_state s) DTR_STATE_NOT_STARTED)
  then Abort TimerAlreadyStarted
  else Ok (s_enable_and_start_timer s).

(** The end of [dtr_start_timer]: [timer_base_ticks += offset]. *)
Definition dtr_start_timer_add_offset (offset_ticks : Z) (s : dtr_t) : dtr_t :=
  mk_dtr (s_mode s) (s_state s) (cycle_counter s) (active_period_ticks s)
    (shadow_period_ticks s) (to_int64 (timer_base_ticks s + offset_ticks))
    (period_ticks s) (base_period_fp16 s) (period_ticks_frac_acc s)
    (s_align_request s) (s_align_feedback s) (s_app_callback s)
    (s_tez_listener_task s) (hw_timer_started s) (hw_force_level s).

(** [dtr_set_align_request]. *)
Definition dtr_set_align_request
  (aligned_cycle aligned_local aligned_fp16 : Z) (s : dtr_t) : dtr_t :=
  let fb := s_align_feedback s in
  mk_dtr (s_mode s) (s_state s) (cycle_counter s) (active_period_ticks s)
    (shadow_period_ticks s) (timer_base_ticks s) (period_ticks s)
    (base_period_fp16 s) (period_ticks_frac_acc s)
    (mk_request true aligned_local aligned_cycle aligned_fp16)
    (mk_feedback false (fb_cycle_counter fb) (fb_cycle_delta fb)
       (fb_period_ticks fb) (fb_period_ticks_delta fb))
    (s_app_callback s) (s_tez_listener_task s) (hw_timer_started s)
    (hw_force_level s).

(** [dtr_register_tez_listener]. *)
Definition dtr_register_tez_listener (task : option nat) (s : dtr_t) : dtr_t :=
  mk_dtr (s_mode s) (s_state s) (cycle_counter s) (active_period_ticks s)
    (shadow_period_ticks s) (timer_base_ticks s) (period_ticks s)
    (base_period_fp16 s) (period_ticks_frac_acc s) (s_align_request s)
    (s_align_feedback s) (s_app_callback s) task (hw_timer_started s)
    (hw_force_level s).

Definition dtr_get_timer_base_ticks (s : dtr_t) : Z := timer_base_ticks s.

(** The request [dtr_align_master_timer] issues from the sampled
    [timer_base_ticks]: [(cycle, local ticks, period in FP16)].  The
    period constant is unsigned, so the division and the products are. *)
Definition master_align_request (timer_base : Z) : Z * Z * Z :=
  let current_cycle_count :=
    to_int64 (to_uint64 timer_base / DTR_TIMER_PERIOD_TICKS) in
  let aligned_cycle_count := to_int64 (current_cycle_count + 2) in
  let aligned_local_ticks :=
    to_int64 (to_uint64 (to_uint64 aligned_cycle_count * DTR_TIMER_PERIOD_TICKS)) in
  (aligned_cycle_count, aligned_local_ticks,
   to_int64 (to_uint64 (DTR_TIMER_PERIOD_TICKS * FP16_SCALE))).

(** *** Runs of the handler without a pending request *)

(** [n] consecutive TEZ interrupts: the state each of them leaves, in
    order. *)
Fixpoint tez_run (fuel : nat) (n : nat) (s : dtr_t) : result (list dtr_t) :=
  match n with
  | O => Ok []
  | S n' =>
      r <- dtr_tez_handler fuel s ;;
      rest <- tez_run fuel n' (fst r) ;;
      Ok (fst r :: rest)
  end.

(** *** The operations that change the DTR state, as labelled steps *)

Inductive label :=
| LStartTimer
| LAddOffset (offset_ticks : Z)
| LSetAlignRequest (cycle local fp16 : Z)
| LRegisterListener (task : option nat)
| LTez (applied : bool).     (* [applied]: a pending request was consumed *)

Inductive step : dtr_t -> label -> dtr_t -> Prop :=
| step_start : forall s s',
    dtr_start_timer_enable s = Ok s' ->
    step s LStartTimer s'
| step_offset : forall s off,
    step s (LAddOffset off) (dtr_start_timer_add_offset off s)
| step_request : forall s c l b,
    step s (LSetAlignRequest c l b) (dtr_set_align_request c l b s)
| step_listener : forall s t,
    step s (LRegisterListener t) (dtr_register_tez_listener t s)
| step_tez : forall fuel s s' evs,
    hw_timer_started s = true ->
    dtr_tez_handler fuel s = Ok (s', evs) ->
    step s (LTez (pending (s_align_request s))) s'.

(** [run s tr s']: [tr] lists the labels of a run from [s] to [s'],
    oldest first. *)
Inductive run : dtr_t -> list label -> dtr_t -> Prop :=
| run_nil : forall s, run s [] s
| run_snoc : forall s tr s1 l s2,
    run s tr s1 -> step s1 l s2 -> run s (tr ++ [l]) s2.
(** [dtr_align_master_timer], with the two interrupts it waits for.
    [task] is the calling task.  [Ok None] is the failure of the assertion
    of [dtr_grab_n_log_align_feedback]. *)
Definition dtr_align_master_timer (fuel : nat) (task : nat) (s : dtr_t)
  : result (option dtr_t) :=
  let s := dtr_register_tez_listener (Some task) s in
  r1 <- dtr_tez_handler fuel s ;;
  let s := fst r1 in
  let timer_base := dtr_get_timer_base_ticks s in
  let s := dtr_set_align_request (fst (fst (master_align_request timer_base)))
             (snd (fst (master_align_request timer_base)))
             (snd (master_align_request timer_base)) s in
  r2 <- dtr_tez_handler fuel s ;;
  let s := fst r2 in
  if ready (s_align_feedback s)
  then Ok (Some (dtr_register_tez_listener None s))
  else Ok None.


End Config.

(** A master whose timer base is 39500 ticks after a TEZ, with the request
    [dtr_align_master_timer] computes from that sample: the target lies 500
    ticks after the next TEZ, closer than the minimum period. *)
Definition align_example_state : dtr_t :=
  let '(cycle, local, fp16) := master_align_request 39500 in
  dtr_set_align_request cycle local fp16
    (mk_dtr DTR_MODE_MASTER DTR_STATE_RUNNING 1 20000 20000 39500 20000
       (20000 * 65536) 0 (mk_request false 0 0 0) (mk_feedback false 0 0 0 0)
       true (Some 1%nat) true None).
(** [dtr_get_master_cycle]: the cycle counter, converted to [uint32_t]. *)
Definition dtr_get_master_cycle (s : dtr_t) : Z := to_uint32 (cycle_counter s).


(** A slave with an application callback, after [dtr_start_timer] and a
    request to align cycle 5 at tick 30000 with the nominal period. *)
Definition handshake_example_state : dtr_t :=
  dtr_set_align_request 5 30000 (20000 * 65536)
    (s_enable_and_start_timer (dtr_init true DTR_MODE_SLAVE true)).

(** The tick at which the interrupt after next is due: [timer_base_ticks]
    is the tick of the last interrupt, [active_period_ticks] the period that
    runs, [shadow_period_ticks] the one the hardware loads next. *)
Definition tez_due (s : dtr_t) : Z :=
  timer_base_ticks s + active_period_ticks s + shadow_period_ticks s.

(** The offsets a measurement iteration allows, when its sample is kept:
    from [mac_at_transition_ticks - timer_abs_after_ticks] to
    [mac_at_transition_ticks - timer_abs_before_ticks]. *)
Definition sample_bracket (r : catch_reads) : option (Z * Z) :=
  match s_catch_mac_clock_transition r with
  | Ok (Some (timer_abs_before, mac_clock_transition_us, timer_abs_after, _)) =>
      Some (mac_clock_transition_us * TIMER_TICKS_PER_US - timer_abs_after,
            mac_clock_transition_us * TIMER_TICKS_PER_US - timer_abs_before)
  | _ => None
  end.

(** An iteration whose timer reads go backwards (the timer wrapped): the
    sample is discarded. *)
Definition discarded_example_reads : catch_reads :=
  mk_reads 100 7000 0 0 [(105, 7000, 7001, 90)] 130 7001.

(** A master that has been running at the nominal period, 39500 ticks
    after its start, with an application callback. *)
Definition master_example_state : dtr_t :=
  mk_dtr DTR_MODE_MASTER DTR_STATE_RUNNING 1 20000 20000 39500 20000
    (20000 * 65536) 0 (mk_request false 0 0 0) (mk_feedback false 0 0 0 0)
    true None true None.


End Dtr.


(** ** Floating point ([double] and [float] of the target) *)

Module Fp.

(** [(double)z] for an integer [z]: rounding to nearest, ties to even. *)
Definition of_Z (z : Z) : float :=
  SF2Prim (binary_normalize 53 1024 z 0 false).

(** [(int64_t)x]: truncation toward zero.  Outside the range of [int64_t]
    the conversion is undefined in C; the model saturates, and maps NaN
    to 0. *)
Definition to_int64_trunc (x : float) : Z :=
  match Prim2SF x with
  | S754_zero _ => 0
  | S754_nan => 0
  | S754_infinity s => if s then - 2 ^ 63 else INT64_MAX
  | S754_finite s m e =>
      let mag := if 0 <=? e then Z.shiftl (Zpos m) e else Z.shiftr (Zpos m) (- e) in
      let v := if s then - mag else mag in
      Z.max (- 2 ^ 63) (Z.min INT64_MAX v)
  end.

(** [(float)x]: rounding of a binary64 value to binary32.  The result is
    kept in a binary64, which holds every binary32 value exactly. *)
Definition to_float32 (x : float) : float :=
  match Prim2SF x with
  | S754_finite s m e => SF2Prim (binary_round 24 128 s m e)
  | _ => x
  end.

(** The exact value of a double, as a rational: [(-1)^s * m * 2^e] for a
    finite one, nothing for NaN and the infinities. *)
Definition signq (s : bool) : Q := (if s then - (1) else 1)%Q.

Definition SFvalue (x : spec_float) : option Q :=
  match x with
  | S754_zero _ => Some 0%Q
  | S754_finite s m e => Some (signq s * (inject_Z (Zpos m) * 2 ^ e))%Q
  | _ => None
  end.

Definition value (x : float) : option Q := SFvalue (Prim2SF x).

(** The unit roundoff of binary64. *)
Definition UNIT_ROUNDOFF : Q := (2 ^ (-53))%Q.

(** Where a real [x] lies with respect to the mantissa [m] that truncates
    it: on it, in the lower half of [(m, m + 1)], in the middle, or in the
    upper half.  This is what the round and sticky bits of [SpecFloat]
    record. *)
Definition inbetween (m : Z) (l : location) (x : Q) : Prop :=
  match l with
  | loc_Exact => (x == inject_Z m)%Q
  | loc_Inexact Lt => (inject_Z m < x /\ x < inject_Z m + (1 # 2))%Q
  | loc_Inexact Eq => (x == inject_Z m + (1 # 2))%Q
  | loc_Inexact Gt => (inject_Z m + (1 # 2) < x /\ x < inject_Z m + 1)%Q
  end.

End Fp.

(** ** The clock relationship model ([components/crm]) *)

Module Crm.

Definition FTM_FRAMES_PER_SESSION : Z := 64.
Definition MAX_REGRESSION_SAMPLES : Z := 2 * FTM_FRAMES_PER_SESSION.
Definition MIN_REGRESSION_SAMPLES : Z := FTM_FRAMES_PER_SESSION / 2.
(** [0.999f] *)
#[warnings="-inexact-float"]
Definition CRM_R_SQUARED_THRESHOLD : float := Fp.to_float32 0.999%float.

(** The bound 0.999 of the specification, as a double. *)
#[warnings="-inexact-float"]
Definition R_SQUARED_BOUND : float := 0.999%float.

(** Arrays of [int64_t] as lists.  An index outside the array is undefined
    in C; here a read gives 0 and a write changes nothing. *)
Definition array_get (a : list Z) (i : Z) : Z := nth (Z.to_nat i) a 0.

Fixpoint array_set_nat (a : list Z) (i : nat) (v : Z) : list Z :=
  match a, i with
  | [], _ => []
  | _ :: t, O => v :: t
  | x :: t, S i' => x :: array_set_nat t i' v
  end.

Definition array_set (a : list Z) (i : Z) (v : Z) : list Z :=
  if i <? 0 then a else array_set_nat a (Z.to_nat i) v.

(** [s_regression_samples]: two arrays of [MAX_REGRESSION_SAMPLES] entries,
    [count] and [head] ([uint32_t]). *)
Record regression_samples_t := mk_samples {
  local_ps : list Z;
  remote_ps : list Z;
  count : Z;
  head : Z
}.

(** The exported globals of [crm.h]. *)
Record crm_model_t := mk_model {
  crm_valid : bool;
  crm_slope_lr_m1 : float;
  crm_slope_rl_m1 : float;
  crm_local_ref_ps : Z;
  crm_remote_ref_ps : Z
}.

(** The defect of the symmetric-inverse identity of the specification,
    [(1 + slope_lr_m1) * (1 + slope_rl_m1) - 1], over the exact values of
    the two published slopes. *)
Definition symmetric_inverse_residual (m : crm_model_t) : option Q :=
  match Fp.value (crm_slope_lr_m1 m), Fp.value (crm_slope_rl_m1 m) with
  | Some a, Some b => Some ((1 + a) * (1 + b) - 1)%Q
  | _, _ => None
  end.

Section Callback.

(** The rest of the system, as far as the registered callback changes it.
    The callback reads the exported globals. *)
Variable Env : Type.

Definition crm_update_callback_t : Type := crm_model_t -> Env -> Env.

Record crm_t := mk_crm {
  model : crm_model_t;
  s_regression_samples : regression_samples_t;
  s_callback : option crm_update_callback_t;
  s_r_squared : float;
  s_residual_std_ns : float;
  s_sample_count : Z
}.

(** [add_regression_sample]. *)
Definition add_regression_sample (local remote : Z) (r : regression_samples_t)
  : regression_samples_t :=
  if count r <? MAX_REGRESSION_SAMPLES then
    mk_samples (array_set (local_ps r) (count r) local)
      (array_set (remote_ps r) (count r) remote)
      (to_uint32 (count r + 1)) (head r)
  else
    mk_samples (array_set (local_ps r) (head r) local)
      (array_set (remote_ps r) (head r) remote)
      (count r)
      (to_uint32 (head r + 1) mod MAX_REGRESSION_SAMPLES).

(** The indices [0 .. n-1] of a [for] loop. *)
Definition upto (n : Z) : list Z := map Z.of_nat (seq 0 (Z.to_nat n)).

(** The first two loops of [perform_regression]: the centroid
    [(mean_x, mean_y)] and the sums [(num, den)]. *)
Definition regression_sums (r : regression_samples_t)
  : (float * float) * (float * float) :=
  let n := count r in
  let ref_x := array_get (remote_ps r) 0 in
  let ref_y := array_get (local_ps r) 0 in
  let '(sum_dx, sum_dy) :=
    fold_left
      (fun '(sum_dx, sum_dy) i =>
         ((sum_dx + Fp.of_Z (to_int64 (array_get (remote_ps r) i - ref_x)))%float,
          (sum_dy + Fp.of_Z (to_int64 (array_get (local_ps r) i - ref_y)))%float))
      (upto n) (0%float, 0%float) in
  let mean_dx := (sum_dx / Fp.of_Z n)%float in
  let mean_dy := (sum_dy / Fp.of_Z n)%float in
  let mean_x := (Fp.of_Z ref_x + mean_dx)%float in
  let mean_y := (Fp.of_Z ref_y + mean_dy)%float in
  let sums :=
    fold_left
      (fun '(num, den) i =>
         let dx := (Fp.of_Z (array_get (remote_ps r) i) - mean_x)%float in
         let dy := (Fp.of_Z (array_get (local_ps r) i) - mean_y)%float in
         ((num + dx * dy)%float, (den + dx * dx)%float))
      (upto n) (0%float, 0%float) in
  ((mean_x, mean_y), sums).

(** The third loop: [(ss_tot, ss_res)]. *)
Definition regression_residuals (r : regression_samples_t)
  (t_ref_local_ps t_ref_remote_ps : Z) (slope_lr_m1 mean_y : float)
  : float * float :=
  fold_left
    (fun '(ss_tot, ss_res) i =>
       let delta_remote :=
         (Fp.of_Z (array_get (remote_ps r) i) - Fp.of_Z t_ref_remote_ps)%float in
       let y_pred :=
         (Fp.of_Z t_ref_local_ps + delta_remote + delta_remote * slope_lr_m1)%float in
       let residual := (Fp.of_Z (array_get (local_ps r) i) - y_pred)%float in
       let dy := (Fp.of_Z (array_get (local_ps r) i) - mean_y)%float in
       ((ss_tot + dy * dy)%float, (ss_res + residual * residual)%float))
    (upto (count r)) (0%float, 0%float).

(** The value of [r_squared] computed from the two sums. *)
Definition r_squared_of (ss_tot ss_res : float) : float :=
  Fp.to_float32
    (if (0 <? ss_tot)%float then (1 - ss_res / ss_tot)%float else 0%float).

(** The quantities of a fit, named as the specification names them. *)
Definition regression_mean_x (r : regression_samples_t) : float :=
  fst (fst (regression_sums r)).
Definition regression_mean_y (r : regression_samples_t) : float :=
  snd (fst (regression_sums r)).
Definition regression_num (r : regression_samples_t) : float :=
  fst (snd (regression_sums r)).
Definition regression_den (r : regression_samples_t) : float :=
  snd (snd (regression_sums r)).

(** [r_squared] of the fit over the samples [r]. *)
Definition regression_r_squared (r : regression_samples_t) : float :=
  let num := regression_num r in
  let den := regression_den r in
  let '(ss_tot, ss_res) :=
    regression_residuals r
      (Fp.to_int64_trunc (regression_mean_y r))
      (Fp.to_int64_trunc (regression_mean_x r))
      ((num - den) / den)%float (regression_mean_y r) in
  r_squared_of ss_tot ss_res.

(** The fit is skipped: too few samples, or a zero numerator or
    denominator (the comparisons of the C code, on doubles). *)
Definition fit_skipped (r : regression_samples_t) : Prop :=
  count r < MIN_REGRESSION_SAMPLES \/
  (regression_num r =? 0)%float = true \/
  (regression_den r =? 0)%float = true.

(** The fit succeeds. *)
Definition fit_succeeds (r : regression_samples_t) : Prop :=
  MIN_REGRESSION_SAMPLES <= count r /\
  (regression_num r =? 0)%float = false /\
  (regression_den r =? 0)%float = false.

(** [perform_regression]: its return value and the state it leaves. *)
Definition perform_regression (c : crm_t) : bool * crm_t :=
  let r := s_regression_samples c in
  if count r <? MIN_REGRESSION_SAMPLES then (false, c)
  else
    let n := count r in
    let '((mean_x, mean_y), (num, den)) := regression_sums r in
    if (den =? 0)%float || (num =? 0)%float then (false, c)
    else
      let slope_lr_m1 := ((num - den) / den)%float in
      let slope_rl_m1 := ((den - num) / num)%float in
      let t_ref_local_ps := Fp.to_int64_trunc mean_y in
      let t_ref_remote_ps := Fp.to_int64_trunc mean_x in
      let '(ss_tot, ss_res) :=
        regression_residuals r t_ref_local_ps t_ref_remote_ps slope_lr_m1 mean_y in
      let r_squared := r_squared_of ss_tot ss_res in
      let residual_std :=
        Fp.to_float32 (sqrt (ss_res / Fp.of_Z n) / 1000)%float in
      (true,
       mk_crm
         (mk_model (CRM_R_SQUARED_THRESHOLD <? r_squared)%float
            slope_lr_m1 slope_rl_m1 t_ref_local_ps t_ref_remote_ps)
         r (s_callback c) r_squared residual_std n).

(** [crm_init]. *)
Definition crm_init : crm_t :=
  mk_crm (mk_model false 0%float 0%float 0 0)
    (mk_samples (repeat 0 (Z.to_nat MAX_REGRESSION_SAMPLES))
       (repeat 0 (Z.to_nat MAX_REGRESSION_SAMPLES)) 0 0)
    None 0%float 0%float 0.

(** [crm_register_callback]. *)
Definition crm_register_callback (cb : option crm_update_callback_t) (c : crm_t)
  : crm_t :=
  mk_crm (model c) (s_regression_samples c) cb (s_r_squared c)
    (s_residual_std_ns c) (s_sample_count c).

(** The loop of [crm_process_ftm_report] that derives the samples and
    appends them to the ring. *)
Definition add_report_samples (t1_ps t2_ps t3_ps t4_ps : list Z) (cnt : Z)
  (r : regression_samples_t) : regression_samples_t :=
  fold_left
    (fun r i =>
       let rtt_ps :=
         to_int64 (to_int64 (array_get t4_ps i - array_get t1_ps i)
                   - to_int64 (array_get t3_ps i - array_get t2_ps i)) in
       let local_at_t2_ps := array_get t2_ps i in
       let remote_at_t2_ps := to_int64 (array_get t1_ps i + Z.quot rtt_ps 2) in
       add_regression_sample local_at_t2_ps remote_at_t2_ps r)
    (upto cnt) r.

(** [crm_process_ftm_report]; [cnt] is the [uint8_t] argument [count]. *)
Definition crm_process_ftm_report (t1_ps t2_ps t3_ps t4_ps : list Z) (cnt : Z)
  (c : crm_t) (env : Env) : crm_t * Env :=
  if cnt =? 0 then (c, env)
  else
    let c1 := mk_crm (model c)
                (add_report_samples t1_ps t2_ps t3_ps t4_ps cnt
                   (s_regression_samples c))
                (s_callback c) (s_r_squared c) (s_residual_std_ns c)
                (s_sample_count c) in
    let '(ok, c2) := perform_regression c1 in
    if ok then
      match s_callback c2 with
      | Some cb => (c2, cb (model c2) env)
      | None => (c2, env)
      end
    else (c2, env).

End Callback.

(** *** Example data *)

(** A model published earlier, and a state that holds it, with a callback
    that counts its invocations. *)
#[warnings="-inexact-float"]
Definition example_prior_model : crm_model_t :=
  mk_model true 0.000002%float (-0.000002)%float 5000000 7000000.

Definition example_crm : crm_t nat :=
  mk_crm nat example_prior_model (s_regression_samples nat (crm_init nat))
    (Some (fun _ n => S n)) 0%float 0%float 0.

(** 32 identical timestamps: a degenerate regression. *)
Definition degenerate_report : list Z := repeat 1000000 32.

(** 32 remote timestamps 1000 ps apart, and local timestamps that follow
    them with an error of 0 or 5000 ps in turn: a poor fit. *)
Definition noisy_remote : list Z := map (fun i => 1000 * i) (upto 32).
Definition noisy_local : list Z :=
  map (fun i => 1000 * i + 5000 * (i mod 2)) (upto 32).

(** The ring after a report whose frames carry the given remote and local
    timestamps (with [t1 = t4] and [t2 = t3], so that the round trip is 0),
    in a state with no callback. *)
Definition crm_after_report (remote local : list Z) : crm_t nat :=
  mk_crm nat example_prior_model
    (add_report_samples remote local local remote 32
       (s_regression_samples nat (crm_init nat)))
    None 0%float 0%float 0.

Definition noisy_fit_crm : crm_t nat := crm_after_report noisy_remote noisy_local.

(** 32 remote timestamps 3 ps apart and local timestamps 1000003 ps apart,
    with a jitter of 0, 1 or 2 ps: a slope of about 333333. *)
Definition steep_remote : list Z := map (fun i => 3 * i) (upto 32).
Definition steep_local : list Z :=
  map (fun i => 1000003 * i + i mod 3) (upto 32).
Definition steep_fit_crm : crm_t nat := crm_after_report steep_remote steep_local.

Arguments mk_crm {Env}.
Arguments model {Env}.
Arguments s_regression_samples {Env}.
Arguments s_callback {Env}.
Arguments s_r_squared {Env}.
Arguments s_residual_std_ns {Env}.
Arguments s_sample_count {Env}.
Arguments perform_regression {Env}.
Arguments crm_init {Env}.
Arguments crm_register_callback {Env}.
Arguments crm_process_ftm_report {Env}.
(** *** The ring and the samples of a report *)

(** Calls of [add_regression_sample] on the samples [(local_ps, remote_ps)],
    in order. *)
Definition add_samples (samples : list (Z * Z)) (r : regression_samples_t)
  : regression_samples_t :=
  fold_left (fun r s => add_regression_sample (fst s) (snd s) r) samples r.

(** The ring after [memset]: [crm_init], and the program start. *)
Definition empty_ring : regression_samples_t :=
  mk_samples (repeat 0 (Z.to_nat MAX_REGRESSION_SAMPLES))
    (repeat 0 (Z.to_nat MAX_REGRESSION_SAMPLES)) 0 0.

(** The sample [crm_process_ftm_report] derives from frame [i] of a report:
    [(local_at_t2_ps, remote_at_t2_ps)]. *)
Definition report_sample (t1_ps t2_ps t3_ps t4_ps : list Z) (i : Z) : Z * Z :=
  let rtt_ps :=
    to_int64 (to_int64 (array_get t4_ps i - array_get t1_ps i)
              - to_int64 (array_get t3_ps i - array_get t2_ps i)) in
  (array_get t2_ps i, to_int64 (array_get t1_ps i + Z.quot rtt_ps 2)).

(** Successive reports, each [(t1_ps, t2_ps, t3_ps, t4_ps, count)], handed
    to [crm_process_ftm_report] in order. *)
Definition crm_process_reports {Env : Type}
  (reports : list (list Z * list Z * list Z * list Z * Z))
  (c : crm_t Env) (env : Env) : crm_t Env * Env :=
  fold_left
    (fun ce '(t1_ps, t2_ps, t3_ps, t4_ps, cnt) =>
       crm_process_ftm_report t1_ps t2_ps t3_ps t4_ps cnt (fst ce) (snd ce))
    reports (c, env).

(** What the ring holds after [n] samples were added to an empty ring: the
    newest [MAX_REGRESSION_SAMPLES] of them, each at its index modulo the
    size of the ring. *)
Definition ring_holds (l : list (Z * Z)) (r : regression_samples_t) : Prop :=
  let n := Z.of_nat (length l) in
  length (local_ps r) = Z.to_nat MAX_REGRESSION_SAMPLES /\
  length (remote_ps r) = Z.to_nat MAX_REGRESSION_SAMPLES /\
  count r = Z.min n MAX_REGRESSION_SAMPLES /\
  head r = (if n <=? MAX_REGRESSION_SAMPLES then 0
            else n mod MAX_REGRESSION_SAMPLES) /\
  forall j, 0 <= j < n -> n - MAX_REGRESSION_SAMPLES <= j ->
    array_get (local_ps r) (j mod MAX_REGRESSION_SAMPLES)
      = fst (nth (Z.to_nat j) l (0, 0)) /\
    array_get (remote_ps r) (j mod MAX_REGRESSION_SAMPLES)
      = snd (nth (Z.to_nat j) l (0, 0)).


End Crm.

(** ** The disciplined timer controller ([components/dtc]) *)

Module Dtc.

Import Dtr Crm.

(** [dtc_local_to_remote]. *)
Definition dtc_local_to_remote (m : crm_model_t)
  (local_ticks crm_ref_local_ticks crm_ref_remote_ticks : Z) : Z :=
  let delta_local_ticks := to_int64 (local_ticks - crm_ref_local_ticks) in
  let delta_remote_ticks :=
    to_int64 (delta_local_ticks
              + Fp.to_int64_trunc (Fp.of_Z delta_local_ticks * crm_slope_rl_m1 m)%float) in
  to_int64 (crm_ref_remote_ticks + delta_remote_ticks).

(** [dtc_remote_to_local]. *)
Definition dtc_remote_to_local (m : crm_model_t)
  (remote_ticks crm_ref_local_ticks crm_ref_remote_ticks : Z) : Z :=
  let delta_remote_ticks := to_int64 (remote_ticks - crm_ref_remote_ticks) in
  let delta_local_ticks :=
    to_int64 (delta_remote_ticks
              + Fp.to_int64_trunc (Fp.of_Z delta_remote_ticks * crm_slope_lr_m1 m)%float) in
  to_int64 (crm_ref_local_ticks + delta_local_ticks).

(** [dtc_calculate_period_fp16]. *)
Definition dtc_calculate_period_fp16 (m : crm_model_t) : Z :=
  let master_base_period_fp16 :=
    (Fp.of_Z DTR_TIMER_PERIOD_TICKS * Fp.of_Z FP16_SCALE)%float in
  Fp.to_int64_trunc
    (master_base_period_fp16 + master_base_period_fp16 * crm_slope_lr_m1 m)%float.

(** Steps 3 to 7 of [dtc_crm_updated]: from the value of [timer_base_ticks]
    sampled after the TEZ wait to the arguments of [dtr_set_align_request],
    [(aligned_cycle_counter, aligned_local_ticks, aligned_base_period_fp16)].
    The period and picosecond constants are unsigned, so the divisions and
    products with them are. *)
Definition dtc_align_request (m : crm_model_t) (timer_base : Z) : Z * Z * Z :=
  let crm_ref_local_ticks :=
    to_int64 (to_uint64 (crm_local_ref_ps m) / DTR_PS_PER_TICK) in
  let crm_ref_remote_ticks :=
    to_int64 (to_uint64 (crm_remote_ref_ps m) / DTR_PS_PER_TICK) in
  let remote_ticks :=
    dtc_local_to_remote m timer_base crm_ref_local_ticks crm_ref_remote_ticks in
  let aligned_cycle_counter :=
    to_int64 (to_uint64
                (to_uint64 (to_uint64 remote_ticks + DTR_TIMER_PERIOD_TICKS / 2)
                 / DTR_TIMER_PERIOD_TICKS + 2)) in
  let aligned_remote_ticks :=
    to_int64 (to_uint64 (to_uint64 aligned_cycle_counter * DTR_TIMER_PERIOD_TICKS)) in
  let aligned_local_ticks :=
    dtc_remote_to_local m aligned_remote_ticks crm_ref_local_ticks
      crm_ref_remote_ticks in
  let compensation_ticks := DTR_NS_TO_TICKS DTR_COMPENSATION_NS in
  let aligned_local_ticks := to_int64 (aligned_local_ticks + compensation_ticks) in
  (aligned_cycle_counter, aligned_local_ticks, dtc_calculate_period_fp16 m).

(** The two slope corrections the projections add, as [dtc_align_request]
    computes them: the first to the local distance from the reference
    (local to remote), the second to the remote distance of the aligned
    boundary (remote to local). *)
Definition rl_correction (m : crm_model_t) (timer_base : Z) : Z :=
  let crm_ref_local_ticks :=
    to_int64 (to_uint64 (crm_local_ref_ps m) / DTR_PS_PER_TICK) in
  Fp.to_int64_trunc
    (Fp.of_Z (to_int64 (timer_base - crm_ref_local_ticks)) * crm_slope_rl_m1 m)%float.

Definition lr_correction (m : crm_model_t) (timer_base : Z) : Z :=
  let crm_ref_remote_ticks :=
    to_int64 (to_uint64 (crm_remote_ref_ps m) / DTR_PS_PER_TICK) in
  let aligned_remote_ticks :=
    to_int64 (to_uint64 (to_uint64 (fst (fst (dtc_align_request m timer_base)))
                         * DTR_TIMER_PERIOD_TICKS)) in
  Fp.to_int64_trunc
    (Fp.of_Z (to_int64 (aligned_remote_ticks - crm_ref_remote_ticks))
     * crm_slope_lr_m1 m)%float.

(** The reference point and the sampled timer base are non-negative tick
    counts well inside [int64_t], the corrections are too, and the projected
    remote tick count is not below [-PERIOD/2] (so that the unsigned division
    by the period is the mathematical one). *)
Definition dtc_in_range (m : crm_model_t) (timer_base : Z) : Prop :=
  0 <= crm_local_ref_ps m < 2 ^ 62 /\
  0 <= crm_remote_ref_ps m < 2 ^ 62 /\
  - 2 ^ 60 <= timer_base <= 2 ^ 60 /\
  - 2 ^ 60 <= rl_correction m timer_base <= 2 ^ 60 /\
  - 2 ^ 60 <= lr_correction m timer_base <= 2 ^ 60 /\
  0 <= crm_remote_ref_ps m / DTR_PS_PER_TICK
       + (timer_base - crm_local_ref_ps m / DTR_PS_PER_TICK)
       + rl_correction m timer_base + DTR_TIMER_PERIOD_TICKS / 2.

(** A local clock that gains 2 ppm on the remote one. *)
#[warnings="-inexact-float"]
Definition tracking_model : crm_model_t :=
  mk_model true 0.000002%float (-0.000002)%float 1000000000 2000000000.

(** A model whose forward slope is [2^-13]: [slope_lr_m1 = 2^-13 - 1] and
    [slope_rl_m1 = 2^13 - 1], both exact doubles; reference point at 0. *)
Definition slow_model : crm_model_t :=
  mk_model true (-0.9998779296875)%float 8191%float 0 0.

(** [dtc_crm_updated], seen from the task: [None] when it returns before
    issuing a request.  [align_once] is [CONFIG_FTS_TEST_ALIGN_ONCE]. *)
Definition dtc_crm_updated (align_once : bool) (s_first_update : bool)
  (m : crm_model_t) (timer_base : Z) : option (Z * Z * Z) :=
  if negb (crm_valid m) then None
  else if align_once && negb s_first_update then None
  else Some (dtc_align_request m timer_base).

(** The callback [dtc_init] registers with the CRM, for a task that samples
    [timer_base] after its TEZ wait: the environment it changes is the
    request handed to the DTR, if any. *)
Definition dtc_callback (timer_base : Z)
  : crm_update_callback_t (option (Z * Z * Z)) :=
  fun m _ => dtc_crm_updated false true m timer_base.

(** 32 samples on the exact line [local = remote / 8192] (remote timestamps
    8192 ticks apart, local ones one tick apart), fed to a CRM on which the
    controller is registered. *)
Definition slow_fit_remote : list Z := map (fun i => 204800000 * i) (upto 32).
Definition slow_fit_local : list Z := map (fun i => 25000 * i) (upto 32).
Definition slow_fit_crm : crm_t (option (Z * Z * Z)) :=
  crm_register_callback (Some (dtc_callback 15)) crm_init.
(** [dtc_crm_updated] with the flag it keeps: [s_first_update] is cleared
    at the end of the first update that goes through. *)
Definition dtc_update (align_once : bool) (s_first_update : bool)
  (m : crm_model_t) (timer_base : Z) : option (Z * Z * Z) * bool :=
  match dtc_crm_updated align_once s_first_update m timer_base with
  | None => (None, s_first_update)
  | Some req => (Some req, false)
  end.

(** Successive updates, each with the model the CRM published and the
    timer base sampled for it: the requests handed to the DTR, in order. *)
Fixpoint dtc_updates (align_once : bool) (s_first_update : bool)
  (updates : list (crm_model_t * Z)) : list (option (Z * Z * Z)) :=
  match updates with
  | [] => []
  | (m, timer_base) :: rest =>
      let '(req, s_first_update') :=
        dtc_update align_once s_first_update m timer_base in
      req :: dtc_updates align_once s_first_update' rest
  end.

(** A model whose slopes are inverse to each other as the regression
    publishes them: the local clock gains [2^-20] (about 1 ppm) on the
    remote one, and the reverse slope is computed from it in doubles. *)
Definition matched_model : crm_model_t :=
  mk_model true 0x1p-20%float (1 / (1 + 0x1p-20) - 1)%float 0 0.


End Dtc.

(** ** The FTM sessions and the sync packets ([components/ftm]) *)

Module Ftm.

Import Clock Crm.

Definition FTM_SYNC_MAGIC : Z := 0x46545330.
Definition FTM_REPORT_MAX_ENTRIES : Z := FTM_FRAMES_PER_SESSION.

(** *** The sync packet *)

(** [ftm_sync_packet_t]: [magic] and [run_id] are [uint32_t],
    [mac_clock_us] is [uint64_t]; the struct is packed, 16 bytes. *)
Record ftm_sync_packet_t := mk_packet {
  magic : Z;
  run_id : Z;
  pkt_mac_clock_us : Z
}.

Definition SIZEOF_SYNC_PACKET : Z := 16.

(** The bytes of an unsigned integer of [n] bytes, and back.  The ESP32 is
    little-endian; the master sends the bytes of the struct as they lie in
    memory and the slave reads the fields through a cast of the received
    buffer. *)
Fixpoint le_bytes (n : nat) (v : Z) : list Z :=
  match n with
  | O => []
  | S n' => v mod 256 :: le_bytes n' (v / 256)
  end.

Fixpoint le_value (bytes : list Z) : Z :=
  match bytes with
  | [] => 0
  | b :: rest => b + 256 * le_value rest
  end.

Definition packet_bytes (p : ftm_sync_packet_t) : list Z :=
  le_bytes 4 (magic p) ++ le_bytes 4 (run_id p) ++ le_bytes 8 (pkt_mac_clock_us p).

Definition packet_of_bytes (data : list Z) : ftm_sync_packet_t :=
  mk_packet (le_value (firstn 4 data))
    (le_value (firstn 4 (skipn 4 data)))
    (le_value (firstn 8 (skipn 8 data))).

(** What one pass of the loop of [ftm_sync_broadcast_task] hands to
    [esp_now_send]: the bytes and their number.  [clock_us] is the value of
    [clock_get_us()], an [int64_t] stored into the unsigned field. *)
Definition ftm_sync_broadcast (s_run_id clock_us : Z) : list Z * Z :=
  (packet_bytes (mk_packet FTM_SYNC_MAGIC s_run_id (to_uint64 clock_us)),
   SIZEOF_SYNC_PACKET).

(** The slave's sync state. *)
Record sync_t := mk_sync {
  s_remote_run_id : Z;
  s_sync_valid : bool;
  s_remote_mac_clock_us : Z
}.

Definition sync_boot : sync_t := mk_sync 0 false 0.

(** [ftm_sync_recv_cb]. *)
Definition ftm_sync_recv_cb (data : list Z) (len : Z) (s : sync_t) : sync_t :=
  if negb (len =? SIZEOF_SYNC_PACKET) then s
  else
    let pkt := packet_of_bytes data in
    if negb (magic pkt =? FTM_SYNC_MAGIC) then s
    else mk_sync (run_id pkt) true (pkt_mac_clock_us pkt).

(** The callback on the datagrams received, in order; ESP-NOW passes each
    with its length. *)
Definition ftm_sync_recv_all (datagrams : list (list Z)) (s : sync_t) : sync_t :=
  fold_left (fun s d => ftm_sync_recv_cb d (Z.of_nat (length d)) s) datagrams s.

(** *** The FTM report *)

(** An entry of the driver's report: the four time stamps, 64-bit unsigned
    picosecond counts. *)
Record ftm_report_entry := mk_entry {
  t1 : Z;
  t2 : Z;
  t3 : Z;
  t4 : Z
}.

Definition entry_zero : ftm_report_entry := mk_entry 0 0 0 0.

(** The static state of the module that the event handler and the poll task
    share; the two bits of [s_ftm_event_group]. *)
Record ftm_t := mk_ftm {
  s_ftm_session_number : Z;
  s_ftm_report_buffer : list ftm_report_entry;
  s_ftm_report_count : Z;
  s_t1_ps : list Z;
  s_t2_ps : list Z;
  s_t3_ps : list Z;
  s_t4_ps : list Z;
  FTM_REPORT_BIT : bool;
  FTM_FAILURE_BIT : bool
}.

Definition ftm_boot : ftm_t :=
  mk_ftm 0 (repeat entry_zero (Z.to_nat FTM_REPORT_MAX_ENTRIES)) 0
    (repeat 0 (Z.to_nat FTM_REPORT_MAX_ENTRIES))
    (repeat 0 (Z.to_nat FTM_REPORT_MAX_ENTRIES))
    (repeat 0 (Z.to_nat FTM_REPORT_MAX_ENTRIES))
    (repeat 0 (Z.to_nat FTM_REPORT_MAX_ENTRIES))
    false false.

(** The events [ftm_event_handler] is registered for.  An FTM report event
    carries its status and its number of entries ([uint8_t]); [report] is
    what [esp_wifi_ftm_get_report] would copy, [None] when it fails. *)
Inductive wifi_event :=
| WIFI_EVENT_FTM_REPORT (status_success : bool) (ftm_report_num_entries : Z)
    (report : option (list ftm_report_entry))
| WIFI_EVENT_OTHER.

(** [esp_wifi_ftm_get_report(buffer, num_entries)]: the first [num_entries]
    entries of the buffer are overwritten. *)
Definition get_report (report buffer : list ftm_report_entry) (num_entries : Z)
  : list ftm_report_entry :=
  firstn (Z.to_nat num_entries)
    (report ++ repeat entry_zero (Z.to_nat num_entries))
  ++ skipn (Z.to_nat num_entries) buffer.

(** [ftm_event_handler]; [None] is [abort()]. *)
Definition ftm_event_handler (ev : wifi_event) (s : ftm_t) : option ftm_t :=
  match ev with
  | WIFI_EVENT_FTM_REPORT status_success ftm_report_num_entries report =>
      if status_success && (0 <? ftm_report_num_entries) then
        let num_entries := ftm_report_num_entries in
        if FTM_REPORT_MAX_ENTRIES <? num_entries then None
        else
          match report with
          | None =>
              Some (mk_ftm (s_ftm_session_number s) (s_ftm_report_buffer s)
                      (s_ftm_report_count s) (s_t1_ps s) (s_t2_ps s)
                      (s_t3_ps s) (s_t4_ps s) (FTM_REPORT_BIT s) true)
          | Some entries =>
              Some (mk_ftm (s_ftm_session_number s)
                      (get_report entries (s_ftm_report_buffer s) num_entries)
                      num_entries (s_t1_ps s) (s_t2_ps s)
                      (s_t3_ps s) (s_t4_ps s) true (FTM_FAILURE_BIT s))
          end
      else
        Some (mk_ftm (s_ftm_session_number s) (s_ftm_report_buffer s)
                (s_ftm_report_count s) (s_t1_ps s) (s_t2_ps s)
                (s_t3_ps s) (s_t4_ps s) (FTM_REPORT_BIT s) true)
  | WIFI_EVENT_OTHER => Some s
  end.

(** The four trackers, local variables of [ftm_poll_task]. *)
Record unwraps_t := mk_unwraps {
  t1_unwrap : unwrap_state_t;
  t2_unwrap : unwrap_state_t;
  t3_unwrap : unwrap_state_t;
  t4_unwrap : unwrap_state_t
}.

Definition unwraps_init : unwraps_t :=
  mk_unwraps (unwrap_init WRAP_48BIT WRAP2_T1_T4)
    (unwrap_init WRAP_32BIT_1E6 0)
    (unwrap_init WRAP_32BIT_1E6 0)
    (unwrap_init WRAP_48BIT WRAP2_T1_T4).

(** One pass of the loop of [process_ftm_report], on the trackers and the
    four static arrays.  The unsigned stamps are converted to the [int64_t]
    parameter of [clock_unwrap]. *)
Definition unwrap_entry (buffer : list ftm_report_entry)
  (acc : unwraps_t * (list Z * list Z * list Z * list Z)) (i : Z)
  : unwraps_t * (list Z * list Z * list Z * list Z) :=
  let '(u, (a1, a2, a3, a4)) := acc in
  let e := nth (Z.to_nat i) buffer entry_zero in
  let '(v1, u1) := clock_unwrap (to_int64 (t1 e)) (t1_unwrap u) in
  let '(v2, u2) := clock_unwrap (to_int64 (t2 e)) (t2_unwrap u) in
  let '(v3, u3) := clock_unwrap (to_int64 (t3 e)) (t3_unwrap u) in
  let '(v4, u4) := clock_unwrap (to_int64 (t4 e)) (t4_unwrap u) in
  (mk_unwraps u1 u2 u3 u4,
   (array_set a1 i v1, array_set a2 i v2, array_set a3 i v3, array_set a4 i v4)).

Section Task.

Variable Env : Type.

(** [process_ftm_report]. *)
Definition process_ftm_report (u : unwraps_t) (s : ftm_t) (c : crm_t Env)
  (env : Env) : unwraps_t * ftm_t * (crm_t Env * Env) :=
  if s_ftm_report_count s =? 0 then (u, s, (c, env))
  else
    let session := to_uint32 (s_ftm_session_number s + 1) in
    let '(u', (a1, a2, a3, a4)) :=
      fold_left (unwrap_entry (s_ftm_report_buffer s))
        (upto (s_ftm_report_count s))
        (u, (s_t1_ps s, s_t2_ps s, s_t3_ps s, s_t4_ps s)) in
    (u',
     mk_ftm session (s_ftm_report_buffer s) 0 a1 a2 a3 a4
       (FTM_REPORT_BIT s) (FTM_FAILURE_BIT s),
     crm_process_ftm_report a1 a2 a3 a4 (s_ftm_report_count s) c env).

(** One pass of the loop of [ftm_poll_task], from the return of
    [esp_wifi_ftm_initiate_session] ([initiated]: it returned [ESP_OK]) to
    the delay: [xEventGroupWaitBits] returns the bits and clears them. *)
Definition ftm_poll_pass (initiated : bool) (u : unwraps_t) (s : ftm_t)
  (c : crm_t Env) (env : Env) : unwraps_t * ftm_t * (crm_t Env * Env) :=
  if negb initiated then (u, s, (c, env))
  else
    let bit := FTM_REPORT_BIT s in
    let s1 := mk_ftm (s_ftm_session_number s) (s_ftm_report_buffer s)
                (s_ftm_report_count s) (s_t1_ps s) (s_t2_ps s) (s_t3_ps s)
                (s_t4_ps s) false false in
    if bit then process_ftm_report u s1 c env else (u, s1, (c, env)).

(** What the event task and the poll task do, in any order. *)
Inductive ftm_action :=
| FtmEvent (ev : wifi_event)
| FtmPoll (initiated : bool).

Definition ftm_step (a : ftm_action)
  (st : unwraps_t * ftm_t * (crm_t Env * Env))
  : option (unwraps_t * ftm_t * (crm_t Env * Env)) :=
  let '(u, s, (c, env)) := st in
  match a with
  | FtmEvent ev =>
      match ftm_event_handler ev s with
      | Some s' => Some (u, s', (c, env))
      | None => None
      end
  | FtmPoll initiated => Some (ftm_poll_pass initiated u s c env)
  end.

Fixpoint ftm_run (actions : list ftm_action)
  (st : unwraps_t * ftm_t * (crm_t Env * Env))
  : option (unwraps_t * ftm_t * (crm_t Env * Env)) :=
  match actions with
  | [] => Some st
  | a :: rest =>
      match ftm_step a st with
      | Some st' => ftm_run rest st'
      | None => None
      end
  end.

End Task.

Arguments process_ftm_report {Env}.
Arguments ftm_poll_pass {Env}.
Arguments ftm_step {Env}.
Arguments ftm_run {Env}.


(** The four unwrapped streams of a session, from the trackers as the
    session before left them, with the trackers as this one leaves them. *)
Definition unwrap_session (entries : list ftm_report_entry) (u : unwraps_t)
  : (list Z * list Z * list Z * list Z * Z) * unwraps_t :=
  let r1 := unwrap_seq (map (fun e => to_int64 (t1 e)) entries) (t1_unwrap u) in
  let r2 := unwrap_seq (map (fun e => to_int64 (t2 e)) entries) (t2_unwrap u) in
  let r3 := unwrap_seq (map (fun e => to_int64 (t3 e)) entries) (t3_unwrap u) in
  let r4 := unwrap_seq (map (fun e => to_int64 (t4 e)) entries) (t4_unwrap u) in
  ((fst r1, fst r2, fst r3, fst r4, Z.of_nat (length entries)),
   mk_unwraps (snd r1) (snd r2) (snd r3) (snd r4)).

Fixpoint unwrap_sessions (sessions : list (list ftm_report_entry)) (u : unwraps_t)
  : list (list Z * list Z * list Z * list Z * Z) * unwraps_t :=
  match sessions with
  | [] => ([], u)
  | entries :: rest =>
      let '(r, u') := unwrap_session entries u in
      let '(rs, u'') := unwrap_sessions rest u' in
      (r :: rs, u'')
  end.

(** The slave-side stamps of a report handed to the CRM. *)
Definition report_t2 (r : list Z * list Z * list Z * list Z * Z) : list Z :=
  snd (fst (fst (fst r))).
Definition report_t3 (r : list Z * list Z * list Z * list Z * Z) : list Z :=
  snd (fst (fst r)).

(** The static buffers have [FTM_REPORT_MAX_ENTRIES] entries each, and the
    number of entries waiting in the report buffer is no more. *)
Definition ftm_wf (s : ftm_t) : Prop :=
  0 <= s_ftm_report_count s <= FTM_REPORT_MAX_ENTRIES /\
  length (s_ftm_report_buffer s) = Z.to_nat FTM_REPORT_MAX_ENTRIES /\
  length (s_t1_ps s) = Z.to_nat FTM_REPORT_MAX_ENTRIES /\
  length (s_t2_ps s) = Z.to_nat FTM_REPORT_MAX_ENTRIES /\
  length (s_t3_ps s) = Z.to_nat FTM_REPORT_MAX_ENTRIES /\
  length (s_t4_ps s) = Z.to_nat FTM_REPORT_MAX_ENTRIES.

End Ftm.

(** ** The application callback ([main/fts_main.c]) *)

Module Main.

Definition TOGGLE_LED_GPIO_DTR_CYCLES : Z := 2500.

(** [fts_callback]: the level it writes to the LED pin (the LED is active
    low).  [master_cycle] is a [uint32_t], so the remainder is taken in
    unsigned arithmetic and then stored in an [int]. *)
Definition fts_callback (master_cycle : Z) : Z :=
  let led_phase :=
    to_int32 (to_uint32 master_cycle mod to_uint32 TOGGLE_LED_GPIO_DTR_CYCLES) in
  let led_state :=
    if led_phase <? Z.quot TOGGLE_LED_GPIO_DTR_CYCLES 5 then 0 else 1 in
  led_state.

(** The cycles [first, first + 1, ...], [n] of them, and in how many of
    them the callback lights the LED. *)
Definition cycles_from (first : Z) (n : nat) : list Z :=
  map Z.of_nat (seq (Z.to_nat first) n).

Definition led_on_count (first : Z) (n : nat) : nat :=
  length (filter (fun c => fts_callback c =? 0) (cycles_from first n)).

End Main.


(* ====================================================================== *)
(** * Part II -- properties                                                *)
(* ====================================================================== *)

(** ** Facts about the integer conversions *)

Section CIntFacts.

Lemma to_int64_id z : in_int64 z -> to_int64 z = z.
Proof.
  unfold in_int64, to_int64, to_signed. intros H.
  change (64 - 1) with 63. rewrite Z.mod_small; lia.
Qed.

Lemma to_int64_range z : in_int64 (to_int64 z).
Proof.
  unfold in_int64, to_int64, to_signed. change (64 - 1) with 63.
  pose proof (Z.mod_pos_bound (z + 2 ^ 63) (2 ^ 64) ltac:(lia)). lia.
Qed.

Lemma to_int64_eqm z : exists k, to_int64 z = z + k * 2 ^ 64.
Proof.
  unfold to_int64, to_signed. change (64 - 1) with 63.
  exists (- ((z + 2 ^ 63) / 2 ^ 64)).
  pose proof (Z.div_mod (z + 2 ^ 63) (2 ^ 64) ltac:(lia)). lia.
Qed.

Lemma to_int64_idem_add a b : to_int64 (to_int64 a + b) = to_int64 (a + b).
Proof.
  destruct (to_int64_eqm a) as [k Hk]. rewrite Hk.
  unfold to_int64, to_signed. f_equal.
  replace (a + k * 2 ^ 64 + b + 2 ^ (64 - 1)) with (a + b + 2 ^ (64 - 1) + k * 2 ^ 64) by ring.
  apply Z.mod_add. lia.
Qed.

Lemma to_int32_id z : in_int32 z -> to_int32 z = z.
Proof.
  unfold in_int32, to_int32, to_signed. intros H.
  change (32 - 1) with 31. rewrite Z.mod_small; lia.
Qed.

Lemma to_uint64_id z : in_uint64 z -> to_uint64 z = z.
Proof. unfold in_uint64, to_uint64, to_unsigned. intros H. apply Z.mod_small; lia. Qed.

Lemma to_uint32_id z : in_uint32 z -> to_uint32 z = z.
Proof. unfold in_uint32, to_uint32, to_unsigned. intros H. apply Z.mod_small; lia. Qed.

Lemma to_uint16_id z : in_uint16 z -> to_uint16 z = z.
Proof. unfold in_uint16, to_uint16, to_unsigned. intros H. apply Z.mod_small; lia. Qed.

Lemma to_uint64_range z : in_uint64 (to_uint64 z).
Proof. unfold in_uint64, to_uint64, to_unsigned. apply Z.mod_pos_bound. lia. Qed.

Lemma to_uint32_range z : in_uint32 (to_uint32 z).
Proof. unfold in_uint32, to_uint32, to_unsigned. apply Z.mod_pos_bound. lia. Qed.

(** A negative [int64_t] converts to an [uint64_t] of at least [2^63]. *)
Lemma to_uint64_neg z : - 2 ^ 63 <= z < 0 -> to_uint64 z = z + 2 ^ 64.
Proof.
  unfold to_uint64, to_unsigned. intros H.
  replace z with (z + 2 ^ 64 + (-1) * 2 ^ 64) at 1 by ring.
  rewrite Z.mod_add by lia. apply Z.mod_small. lia.
Qed.

End CIntFacts.

Create HintDb cint.
#[global] Hint Resolve to_int64_range to_uint64_range to_uint32_range : cint.

(** Rewrites the conversions away when the side conditions hold by [lia]. *)
Ltac cint_simpl :=
  repeat match goal with
    | |- context [to_int64 ?z] => rewrite (to_int64_id z) by (unfold in_int64; lia)
    | |- context [to_int32 ?z] => rewrite (to_int32_id z) by (unfold in_int32; lia)
    | |- context [to_uint64 ?z] => rewrite (to_uint64_id z) by (unfold in_uint64; lia)
    | |- context [to_uint32 ?z] => rewrite (to_uint32_id z) by (unfold in_uint32; lia)
    | |- context [to_uint16 ?z] => rewrite (to_uint16_id z) by (unfold in_uint16; lia)
    end.

(** ** The unwrapper *)

Section UnwrapFacts.

Import Clock.

Lemma wrap_detected_dec raw st : {wrap_detected raw st} + {~ wrap_detected raw st}.
Proof.
  unfold wrap_detected.
  destruct (Z.eq_dec (last_val st) 0); destruct (Z_lt_dec raw (last_val st));
    (left; lia) || (right; lia).
Qed.

Lemma clock_unwrap_wrapped_short raw st :
  wrap_detected raw st -> short_wrap st ->
  clock_unwrap raw st =
    (to_int64 (raw + to_int64 (offset st + to_int64 (wrap_value2 st))),
     mk_unwrap raw (to_int64 (offset st + to_int64 (wrap_value2 st)))
       (to_uint32 (wrap_count st + 1)) (wrap_value st) (wrap_value2 st)).
Proof.
  intros [Hnz Hlt] [Hw2 Hsh]. unfold clock_unwrap.
  apply Z.eqb_neq in Hnz. apply Z.ltb_lt in Hlt, Hw2, Hsh.
  rewrite Hnz, Hlt, Hw2, Hsh. reflexivity.
Qed.

Lemma clock_unwrap_wrapped_long raw st :
  wrap_detected raw st -> ~ short_wrap st ->
  clock_unwrap raw st =
    (to_int64 (raw + to_int64 (offset st + to_int64 (wrap_value st))),
     mk_unwrap raw (to_int64 (offset st + to_int64 (wrap_value st)))
       (to_uint32 (wrap_count st + 1)) (wrap_value st) (wrap_value2 st)).
Proof.
  intros [Hnz Hlt] Hns. unfold clock_unwrap.
  apply Z.eqb_neq in Hnz. apply Z.ltb_lt in Hlt. rewrite Hnz, Hlt. simpl.
  destruct (0 <? wrap_value2 st) eqn:E1;
    destruct (last_val st <? to_int64 (wrap_value2 st)) eqn:E2; simpl;
    try reflexivity.
  exfalso. apply Hns. split; [apply Z.ltb_lt, E1 | apply Z.ltb_lt, E2].
Qed.

Lemma clock_unwrap_no_wrap raw st :
  ~ wrap_detected raw st ->
  clock_unwrap raw st =
    (to_int64 (raw + offset st),
     mk_unwrap raw (offset st) (wrap_count st) (wrap_value st) (wrap_value2 st)).
Proof.
  intros Hn. unfold clock_unwrap.
  destruct (last_val st =? 0) eqn:E1; simpl; [reflexivity|].
  destruct (raw <? last_val st) eqn:E2; [|reflexivity].
  exfalso. apply Hn. split; [apply Z.eqb_neq, E1 | apply Z.ltb_lt, E2].
Qed.

(** In every case the call stores [raw] and returns [raw + offset]. *)
Lemma clock_unwrap_result raw st :
  last_val (snd (clock_unwrap raw st)) = raw /\
  fst (clock_unwrap raw st) = to_int64 (raw + offset (snd (clock_unwrap raw st))) /\
  wrap_value (snd (clock_unwrap raw st)) = wrap_value st /\
  wrap_value2 (snd (clock_unwrap raw st)) = wrap_value2 st.
Proof.
  unfold clock_unwrap.
  destruct (negb (last_val st =? 0) && (raw <? last_val st)); simpl;
    [destruct ((0 <? wrap_value2 st) && (last_val st <? to_int64 (wrap_value2 st)))|];
    simpl; auto.
Qed.

(** C3 (as amended): a call [clock_unwrap raw st] stores [raw] in [last_val]
    and returns [raw + offset] (in [int64_t]); when [last_val <> 0] and
    [raw < last_val] it increments [wrap_count] and adds to the offset
    [wrap_value2], if [wrap_value2 > 0] and [last_val] is below it read as an
    [int64_t], and [wrap_value] otherwise; when no wrap is detected offset and
    count are unchanged.  From the zero-initialised state with
    [wrap_value = 2^48] and [wrap_value2 = W2], where [1 < W2] and [W2 + 1] is
    an [int64_t], the inputs [(W2 - 1, 0)] return [(W2 - 1, W2)] and the inputs
    [(W2 + 1, 0)] return [(W2 + 1, 2^48)]. *)
Theorem clock_unwrap_apply_dual_wrap :
  (forall raw st,
      let st' := snd (clock_unwrap raw st) in
      last_val st' = raw /\
      fst (clock_unwrap raw st) = to_int64 (raw + offset st') /\
      (wrap_detected raw st -> short_wrap st ->
       offset st' = to_int64 (offset st + to_int64 (wrap_value2 st))) /\
      (wrap_detected raw st -> ~ short_wrap st ->
       offset st' = to_int64 (offset st + to_int64 (wrap_value st))) /\
      (wrap_detected raw st -> wrap_count st' = to_uint32 (wrap_count st + 1)) /\
      (~ wrap_detected raw st ->
       offset st' = offset st /\ wrap_count st' = wrap_count st)) /\
  (forall W2, 1 < W2 -> W2 + 1 < 2 ^ 63 ->
      fst (unwrap_seq [W2 - 1; 0] (unwrap_init WRAP_48BIT W2)) = [W2 - 1; W2] /\
      fst (unwrap_seq [W2 + 1; 0] (unwrap_init WRAP_48BIT W2)) = [W2 + 1; WRAP_48BIT]).
Proof.
  split.
  - intros raw st st'. subst st'.
    destruct (clock_unwrap_result raw st) as (H1 & H2 & _).
    split; [exact H1|]. split; [exact H2|].
    split; [intros Hw Hs; rewrite (clock_unwrap_wrapped_short _ _ Hw Hs); reflexivity|].
    split; [intros Hw Hs; rewrite (clock_unwrap_wrapped_long _ _ Hw Hs); reflexivity|].
    split.
    + intros Hw. destruct (Z_lt_dec 0 (wrap_value2 st)) as [Ha|Ha];
        [destruct (Z_lt_dec (last_val st) (to_int64 (wrap_value2 st))) as [Hb|Hb]|].
      * rewrite (clock_unwrap_wrapped_short _ _ Hw (conj Ha Hb)). reflexivity.
      * rewrite (clock_unwrap_wrapped_long _ _ Hw); [reflexivity|].
        unfold short_wrap. lia.
      * rewrite (clock_unwrap_wrapped_long _ _ Hw); [reflexivity|].
        unfold short_wrap. lia.
    + intros Hn. rewrite (clock_unwrap_no_wrap _ _ Hn). simpl. auto.
  - intros W2 Hlo Hhi. unfold WRAP_48BIT, unwrap_init. split.
    + cbn [unwrap_seq].
      rewrite (clock_unwrap_no_wrap (W2 - 1)) by (unfold wrap_detected; cbn [last_val]; lia).
      rewrite clock_unwrap_wrapped_short;
        [| unfold wrap_detected; cbn [last_val]; lia
         | unfold short_wrap; cbn [last_val wrap_value2]; cint_simpl; lia ].
      cbn [fst snd offset wrap_value wrap_value2 last_val wrap_count].
      cint_simpl. repeat (f_equal; try lia).
    + cbn [unwrap_seq].
      rewrite (clock_unwrap_no_wrap (W2 + 1)) by (unfold wrap_detected; cbn [last_val]; lia).
      rewrite clock_unwrap_wrapped_long;
        [| unfold wrap_detected; cbn [last_val]; lia
         | unfold short_wrap; cbn [last_val wrap_value2]; cint_simpl; lia ].
      cbn [fst snd offset wrap_value wrap_value2 last_val wrap_count].
      cint_simpl. repeat (f_equal; try lia).
Qed.

(** The dual-wrap test of the unwrapper on the moduli of the FTM timestamps
    [t1] and [t4]. *)
Lemma clock_unwrap_apply_dual_wrap_witness :
  fst (unwrap_seq [WRAP2_T1_T4 - 1; 0] (unwrap_init WRAP_48BIT WRAP2_T1_T4))
    = [WRAP2_T1_T4 - 1; WRAP2_T1_T4] /\
  fst (unwrap_seq [WRAP2_T1_T4 + 1; 0] (unwrap_init WRAP_48BIT WRAP2_T1_T4))
    = [WRAP2_T1_T4 + 1; WRAP_48BIT].
Proof.
  apply (proj2 clock_unwrap_apply_dual_wrap WRAP2_T1_T4); vm_compute; reflexivity.
Defined.

(** C3 as stated fails at [W2 = 1]: the first input is then [0], which is the
    sentinel that switches wrap detection off, so the second call returns
    [0] and not [W2]. *)
Lemma clock_unwrap_dual_wrap_sentinel :
  0 < 1 /\
  fst (unwrap_seq [1 - 1; 0] (unwrap_init WRAP_48BIT 1)) = [0; 0] /\
  [0; 0] <> [1 - 1; 1].
Proof. split; [lia|]. split; [vm_compute; reflexivity | discriminate]. Qed.

End UnwrapFacts.

Section UnwrapMonotone.

Import Clock.

(** What one call does to the offset when nothing overflows. *)
Lemma clock_unwrap_offset raw st :
  moduli_fit st -> in_int64 (offset st) ->
  offset st + max_modulus st < 2 ^ 63 ->
  let st' := snd (clock_unwrap raw st) in
  (wrap_detected raw st -> short_wrap st -> offset st' = offset st + wrap_value2 st) /\
  (wrap_detected raw st -> ~ short_wrap st -> offset st' = offset st + wrap_value st) /\
  (~ wrap_detected raw st -> offset st' = offset st).
Proof.
  intros [HW HW2] Hoff Hb st'. subst st'. unfold max_modulus, in_int64 in *.
  repeat split.
  - intros Hw Hs. rewrite (clock_unwrap_wrapped_short _ _ Hw Hs). cbn [snd offset].
    cint_simpl. reflexivity.
  - intros Hw Hs. rewrite (clock_unwrap_wrapped_long _ _ Hw Hs). cbn [snd offset].
    cint_simpl. reflexivity.
  - intros Hn. rewrite (clock_unwrap_no_wrap _ _ Hn). reflexivity.
Qed.

Lemma short_wrap_dec st : {short_wrap st} + {~ short_wrap st}.
Proof.
  unfold short_wrap.
  destruct (Z_lt_dec 0 (wrap_value2 st));
    destruct (Z_lt_dec (last_val st) (to_int64 (wrap_value2 st)));
    (left; lia) || (right; lia).
Qed.

(** One call after a previous call that stored [last_val] in
    [[0, wrap_value)]: the new output is not below the previous one. *)
Lemma clock_unwrap_step_monotone raw st :
  moduli_fit st -> in_int64 (offset st) ->
  0 <= last_val st < wrap_value st ->
  0 <= raw < wrap_value st ->
  offset st + max_modulus st + wrap_value st < 2 ^ 63 ->
  let st' := snd (clock_unwrap raw st) in
  last_val st + offset st <= fst (clock_unwrap raw st) /\
  fst (clock_unwrap raw st) = raw + offset st' /\
  offset st <= offset st' <= offset st + max_modulus st.
Proof.
  intros Hfit Hoff Hlast Hraw Hb st'. subst st'.
  assert (Hb' : offset st + max_modulus st < 2 ^ 63) by (destruct Hfit; lia).
  destruct (clock_unwrap_offset raw st Hfit Hoff Hb') as (Hs & Hl & Hn).
  destruct (clock_unwrap_result raw st) as (_ & Hr & _).
  destruct Hfit as [HW HW2]. unfold max_modulus, in_int64 in *.
  rewrite Hr.
  destruct (wrap_detected_dec raw st) as [Hw|Hw];
    [destruct (short_wrap_dec st) as [Hsw|Hsw]|].
  - rewrite (Hs Hw Hsw). cint_simpl.
    destruct Hsw as [_ Hsw]. rewrite to_int64_id in Hsw by (unfold in_int64; lia).
    lia.
  - rewrite (Hl Hw Hsw). cint_simpl. lia.
  - rewrite (Hn Hw). cint_simpl. unfold wrap_detected in Hw. lia.
Qed.

Lemma unwrap_seq_cons v vs st :
  unwrap_seq (v :: vs) st =
    (fst (clock_unwrap v st) :: fst (unwrap_seq vs (snd (clock_unwrap v st))),
     snd (unwrap_seq vs (snd (clock_unwrap v st)))).
Proof.
  cbn [unwrap_seq]. destruct (clock_unwrap v st) as [r st1]. cbn [fst snd].
  destruct (unwrap_seq vs st1) as [rs st2]. reflexivity.
Qed.

(** The outputs of a run that follows a call with output
    [last_val + offset] never decrease, starting from that output. *)
Lemma unwrap_seq_sorted_from raws : forall st,
  moduli_fit st -> in_int64 (offset st) ->
  0 <= last_val st < wrap_value st ->
  Forall (fun r => 0 <= r < wrap_value st) raws ->
  offset st + Z.of_nat (length raws) * max_modulus st + wrap_value st < 2 ^ 63 ->
  Sorted Z.le (last_val st + offset st :: fst (unwrap_seq raws st)).
Proof.
  induction raws as [|r rs IH]; intros st Hfit Hoff Hlast Hall Hb.
  - cbn. constructor; constructor.
  - rewrite unwrap_seq_cons. cbn [fst].
    inversion Hall as [|? ? Hr Hrs]; subst.
    assert (Hm : 0 < max_modulus st) by (unfold max_modulus; destruct Hfit; lia).
    cbn [length] in Hb. rewrite Nat2Z.inj_succ in Hb.
    assert (Hpos : 0 <= Z.of_nat (length rs) * max_modulus st) by nia.
    destruct (clock_unwrap_step_monotone r st Hfit Hoff Hlast Hr ltac:(nia))
      as (Hle & Heq & Ho1 & Ho2).
    destruct (clock_unwrap_result r st) as (Hlv & _ & Hwv & Hwv2).
    set (st1 := snd (clock_unwrap r st)) in *.
    assert (Hfit1 : moduli_fit st1) by (unfold moduli_fit; rewrite Hwv, Hwv2; exact Hfit).
    assert (Hmm : max_modulus st1 = max_modulus st)
      by (unfold max_modulus; rewrite Hwv, Hwv2; reflexivity).
    constructor.
    + rewrite Heq, <- Hlv. apply IH; auto.
      * unfold in_int64 in *. destruct Hfit. nia.
      * rewrite Hlv, Hwv. exact Hr.
      * rewrite Hwv. exact Hrs.
      * rewrite Hmm, Hwv. nia.
    + constructor. exact Hle.
Qed.

(** C4: on a state whose moduli fit in an [int64_t], for raw inputs that all
    lie in [[0, wrap_value)] (in particular those read from a counter that
    runs modulo [wrap_value]), and as long as the accumulated offset does not
    overflow, the outputs of successive calls of [clock_unwrap] on the same
    state are non-decreasing. *)
Theorem clock_unwrap_outputs_monotone raws st :
  wf st -> moduli_fit st ->
  Forall (fun r => 0 <= r < wrap_value st) raws ->
  offset st + Z.of_nat (length raws) * max_modulus st + wrap_value st < 2 ^ 63 ->
  Sorted Z.le (fst (unwrap_seq raws st)).
Proof.
  intros (_ & Hoff & _) Hfit Hall Hb.
  destruct raws as [|r rs]; [constructor|].
  rewrite unwrap_seq_cons. cbn [fst].
  inversion Hall as [|? ? Hr Hrs]; subst.
  assert (Hm : 0 < max_modulus st) by (unfold max_modulus; destruct Hfit; lia).
  cbn [length] in Hb. rewrite Nat2Z.inj_succ in Hb.
  assert (Hpos : 0 <= Z.of_nat (length rs) * max_modulus st) by nia.
  destruct (clock_unwrap_offset r st Hfit Hoff ltac:(destruct Hfit; nia))
    as (Hs & Hl & Hn).
  destruct (clock_unwrap_result r st) as (Hlv & Hres & Hwv & Hwv2).
  set (st1 := snd (clock_unwrap r st)) in *.
  assert (Ho : offset st <= offset st1 <= offset st + max_modulus st).
  { unfold max_modulus in *. destruct Hfit.
    destruct (wrap_detected_dec r st) as [Hw|Hw];
      [destruct (short_wrap_dec st) as [Hsw|Hsw]|].
    - rewrite (Hs Hw Hsw). lia.
    - rewrite (Hl Hw Hsw). lia.
    - rewrite (Hn Hw). lia. }
  assert (Hfit1 : moduli_fit st1) by (unfold moduli_fit; rewrite Hwv, Hwv2; exact Hfit).
  assert (Hmm : max_modulus st1 = max_modulus st)
    by (unfold max_modulus; rewrite Hwv, Hwv2; reflexivity).
  assert (Hin : in_int64 (offset st1)) by (unfold in_int64 in *; destruct Hfit; nia).
  rewrite Hres, to_int64_id by (unfold in_int64 in *; destruct Hfit; nia).
  rewrite <- Hlv at 1. apply unwrap_seq_sorted_from; auto.
  - rewrite Hlv, Hwv. exact Hr.
  - rewrite Hwv. exact Hrs.
  - rewrite Hmm, Hwv. nia.
Qed.

(** The MAC clock across a wrap of its 32-bit microsecond counter. *)
Lemma clock_unwrap_outputs_monotone_witness :
  Sorted Z.le
    (fst (unwrap_seq [2 ^ 32 - 10; 5; 7; 2 ^ 32 - 1; 0]
            (mk_unwrap 4000000000 0 0 MAC_CLOCK_WRAP_US 0))).
Proof.
  apply clock_unwrap_outputs_monotone.
  - unfold wf, in_int64, in_uint32, in_uint64, MAC_CLOCK_WRAP_US; cbn; lia.
  - unfold moduli_fit, MAC_CLOCK_WRAP_US; cbn; lia.
  - unfold MAC_CLOCK_WRAP_US; cbn [wrap_value]; repeat constructor; lia.
  - unfold max_modulus, MAC_CLOCK_WRAP_US; cbn; lia.
Defined.

End UnwrapMonotone.

(** ** The TEZ handler: fractional-period dithering *)

Section DitherFacts.

Import Dtr.

Variable CONFIG_FTS_MIN_PERIOD_CPU_CYCLES : Z.
Variable CONFIG_ESP_DEFAULT_CPU_FREQ_MHZ : Z.
Variable CONFIG_FTS_ROLE_SLAVE : bool.

Local Abbreviation dtr_tez_handler :=
  (dtr_tez_handler CONFIG_FTS_MIN_PERIOD_CPU_CYCLES
     CONFIG_ESP_DEFAULT_CPU_FREQ_MHZ CONFIG_FTS_ROLE_SLAVE).
Local Abbreviation tez_run :=
  (tez_run CONFIG_FTS_MIN_PERIOD_CPU_CYCLES
     CONFIG_ESP_DEFAULT_CPU_FREQ_MHZ CONFIG_FTS_ROLE_SLAVE).

Lemma fp16_parts_div base P f : fp16_parts base P f -> base / FP16_SCALE = P.
Proof.
  unfold fp16_parts, FP16_SCALE. intros (-> & Hf & HP).
  rewrite Z.div_add_l by lia. rewrite Z.div_small by lia. lia.
Qed.

Lemma fp16_parts_mod base P f : fp16_parts base P f -> base mod FP16_SCALE = f.
Proof.
  unfold fp16_parts, FP16_SCALE. intros (-> & Hf & HP).
  rewrite Z.add_comm, Z.mod_add by lia. apply Z.mod_small. lia.
Qed.

(** The carry of the fractional accumulator. *)
Lemma div_mod_carry a b :
  a / 65536 + (a mod 65536 + b) / 65536 = (a + b) / 65536.
Proof.
  rewrite (Z.div_mod a 65536) at 3 by lia.
  replace (65536 * (a / 65536) + a mod 65536 + b)
    with (a / 65536 * 65536 + (a mod 65536 + b)) by ring.
  rewrite Z.div_add_l by lia. reflexivity.
Qed.

Lemma mod_mod_carry a b : (a mod 65536 + b) mod 65536 = (a + b) mod 65536.
Proof. rewrite Z.add_mod_idemp_l by lia. reflexivity. Qed.

(** The dithering block computes the integer part plus the carry, and keeps
    the accumulator reduced. *)
Lemma dither_spec base P f acc :
  fp16_parts base P f -> 0 <= acc < FP16_SCALE ->
  dither base acc = (P + (acc + f) / FP16_SCALE, (acc + f) mod FP16_SCALE).
Proof.
  intros Hp Hacc. unfold dither.
  rewrite (fp16_parts_div _ _ _ Hp), (fp16_parts_mod _ _ _ Hp).
  destruct Hp as (_ & Hf & HP). unfold FP16_SCALE in *.
  cint_simpl.
  destruct (65536 <=? acc + f) eqn:E.
  - apply Z.leb_le in E. cint_simpl.
    assert ((acc + f) / 65536 = 1) as ->
      by (symmetry; apply Z.div_unique with (acc + f - 65536); lia).
    f_equal. apply Z.mod_unique with 1; lia.
  - apply Z.leb_gt in E.
    rewrite Z.div_small, Z.mod_small by lia. f_equal. lia.
Qed.

(** The handler when no request is pending. *)
Lemma tez_handler_no_request fuel s :
  pending (s_align_request s) = false ->
  dtr_tez_handler fuel s =
    tez_common_end
      (mk_dtr (s_mode s) (s_state s) (to_int64 (cycle_counter s + 1))
         (shadow_period_ticks s) (shadow_period_ticks s)
         (to_int64 (timer_base_ticks s + active_period_ticks s))
         (fst (dither (base_period_fp16 s) (period_ticks_frac_acc s)))
         (base_period_fp16 s)
         (snd (dither (base_period_fp16 s) (period_ticks_frac_acc s)))
         (s_align_request s) (s_align_feedback s) (s_app_callback s)
         (s_tez_listener_task s) (hw_timer_started s) (hw_force_level s)).
Proof.
  intros Hp. unfold Dtr.dtr_tez_handler. rewrite Hp.
  destruct (dither (base_period_fp16 s) (period_ticks_frac_acc s)). reflexivity.
Qed.

(** [tez_common_end] changes nothing but the shadow period. *)
Lemma tez_common_end_ok s s' evs :
  tez_common_end s = Ok (s', evs) ->
  1 <= period_ticks s <= 65535 /\
  period_ticks s' = period_ticks s /\
  period_ticks_frac_acc s' = period_ticks_frac_acc s /\
  base_period_fp16 s' = base_period_fp16 s /\
  s_align_request s' = s_align_request s /\
  cycle_counter s' = cycle_counter s /\
  timer_base_ticks s' = timer_base_ticks s /\
  s_state s' = s_state s /\
  hw_timer_started s' = hw_timer_started s /\
  shadow_period_ticks s' = period_ticks s /\
  s_align_feedback s' = s_align_feedback s.
Proof.
  unfold tez_common_end.
  destruct (period_ticks s <=? 0) eqn:E1; [discriminate|].
  destruct (65535 <? period_ticks s) eqn:E2; [discriminate|].
  cbn [orb]. intros H. inversion H; subst; clear H. cbn.
  apply Z.leb_gt in E1. apply Z.ltb_ge in E2.
  rewrite to_uint16_id by (unfold in_uint16; lia). repeat split; lia.
Qed.

Lemma tez_common_end_total s :
  1 <= period_ticks s <= 65535 -> exists s' evs, tez_common_end s = Ok (s', evs).
Proof.
  intros H. unfold tez_common_end.
  destruct (period_ticks s <=? 0) eqn:E1; [apply Z.leb_le in E1; lia|].
  destruct (65535 <? period_ticks s) eqn:E2; [apply Z.ltb_lt in E2; lia|].
  cbn [orb]. eauto.
Qed.

(** One interrupt without a pending request. *)
Lemma tez_dither_step fuel s P f s1 evs :
  pending (s_align_request s) = false ->
  fp16_parts (base_period_fp16 s) P f ->
  0 <= period_ticks_frac_acc s < FP16_SCALE ->
  dtr_tez_handler fuel s = Ok (s1, evs) ->
  period_ticks s1 = P + (period_ticks_frac_acc s + f) / FP16_SCALE /\
  period_ticks_frac_acc s1 = (period_ticks_frac_acc s + f) mod FP16_SCALE /\
  base_period_fp16 s1 = base_period_fp16 s /\
  pending (s_align_request s1) = false.
Proof.
  intros Hp Hparts Hacc Hrun.
  rewrite (tez_handler_no_request _ _ Hp) in Hrun.
  rewrite (dither_spec _ _ _ _ Hparts Hacc) in Hrun.
  apply tez_common_end_ok in Hrun. cbn in Hrun.
  destruct Hrun as (_ & H1 & H2 & H3 & H4 & _).
  rewrite H1, H2, H3, H4. auto.
Qed.

Lemma tez_dither_step_total fuel s P f :
  pending (s_align_request s) = false ->
  fp16_parts (base_period_fp16 s) P f ->
  0 <= period_ticks_frac_acc s < FP16_SCALE ->
  1 <= P <= 65534 ->
  exists s1 evs, dtr_tez_handler fuel s = Ok (s1, evs).
Proof.
  intros Hp Hparts Hacc HP.
  rewrite (tez_handler_no_request _ _ Hp).
  rewrite (dither_spec _ _ _ _ Hparts Hacc).
  apply tez_common_end_total. cbn [period_ticks fst].
  destruct Hparts as (_ & Hf & _). unfold FP16_SCALE in *.
  assert (0 <= (period_ticks_frac_acc s + f) / 65536 <= 1).
  { split; [apply Z.div_pos; lia|].
    assert ((period_ticks_frac_acc s + f) / 65536 < 2)
      by (apply Z.div_lt_upper_bound; lia).
    lia. }
  lia.
Qed.

Lemma last_cons_default {A : Type} (l : list A) : forall x d,
  last (x :: l) d = last l x.
Proof.
  induction l as [|a l IH]; intros x d; [reflexivity|].
  change (last (x :: a :: l) d) with (last (a :: l) d).
  rewrite (IH a d), (IH a x). reflexivity.
Qed.

(** [n] interrupts from an accumulator [acc0]: the periods add up to
    [n * P] plus the carries, and the accumulator stays reduced. *)
Lemma tez_run_dither fuel P f n : forall s sts,
  pending (s_align_request s) = false ->
  fp16_parts (base_period_fp16 s) P f ->
  0 <= period_ticks_frac_acc s < FP16_SCALE ->
  tez_run fuel n s = Ok sts ->
  length sts = n /\
  zsum (map period_ticks sts) =
    Z.of_nat n * P + (period_ticks_frac_acc s + Z.of_nat n * f) / FP16_SCALE /\
  Forall (fun st => 0 <= period_ticks_frac_acc st < FP16_SCALE) sts /\
  period_ticks_frac_acc (last sts s) =
    (period_ticks_frac_acc s + Z.of_nat n * f) mod FP16_SCALE.
Proof.
  induction n as [|n IH]; intros s sts Hp Hparts Hacc Hrun.
  - cbn in Hrun. inversion Hrun; subst. cbn.
    unfold FP16_SCALE in *. rewrite Z.add_0_r, Z.div_small, Z.mod_small by lia.
    repeat split; auto.
  - cbn [Dtr.tez_run] in Hrun.
    destruct (dtr_tez_handler fuel s) as [[s1 evs]| |] eqn:E1; cbn in Hrun;
      try discriminate.
    destruct (tez_run fuel n s1) as [rest| |] eqn:E2; cbn in Hrun; try discriminate.
    inversion Hrun; subst; clear Hrun.
    destruct (tez_dither_step _ _ _ _ _ _ Hp Hparts Hacc E1) as (Hper & Hacc1 & Hbase & Hp1).
    assert (Hacc1' : 0 <= period_ticks_frac_acc s1 < FP16_SCALE).
    { rewrite Hacc1. apply Z.mod_pos_bound. unfold FP16_SCALE. lia. }
    rewrite <- Hbase in Hparts.
    destruct (IH s1 rest Hp1 Hparts Hacc1' E2) as (Hlen & Hsum & Hall & Hlast).
    rewrite Nat2Z.inj_succ. unfold FP16_SCALE in *.
    split; [cbn; congruence|]. split; [|split].
    + cbn [map zsum fold_right]. fold (zsum (map period_ticks rest)).
      rewrite Hsum, Hper, Hacc1.
      replace (period_ticks_frac_acc s + Z.succ (Z.of_nat n) * f)
        with (period_ticks_frac_acc s + f + Z.of_nat n * f) by ring.
      rewrite <- (div_mod_carry (period_ticks_frac_acc s + f) (Z.of_nat n * f)).
      ring.
    + constructor; assumption.
    + rewrite last_cons_default.
      rewrite Hlast, Hacc1, mod_mod_carry. f_equal. ring.
Qed.

Lemma tez_run_dither_total fuel P f n : forall s,
  pending (s_align_request s) = false ->
  fp16_parts (base_period_fp16 s) P f ->
  0 <= period_ticks_frac_acc s < FP16_SCALE ->
  1 <= P <= 65534 ->
  exists sts, tez_run fuel n s = Ok sts.
Proof.
  induction n as [|n IH]; intros s Hp Hparts Hacc HP.
  - exists []. reflexivity.
  - destruct (tez_dither_step_total fuel s P f Hp Hparts Hacc HP) as (s1 & evs & E1).
    destruct (tez_dither_step _ _ _ _ _ _ Hp Hparts Hacc E1) as (_ & Hacc1 & Hbase & Hp1).
    assert (Hacc1' : 0 <= period_ticks_frac_acc s1 < FP16_SCALE).
    { rewrite Hacc1. apply Z.mod_pos_bound. unfold FP16_SCALE. lia. }
    rewrite <- Hbase in Hparts.
    destruct (IH s1 Hp1 Hparts Hacc1' HP) as (rest & E2).
    exists (s1 :: rest). cbn [Dtr.tez_run]. rewrite E1. cbn. rewrite E2. reflexivity.
Qed.

(** C2: with [base_period_fp16 = P * 65536 + f] and no alignment request,
    [N] consecutive TEZ interrupts that start from a zero accumulator produce
    periods whose sum is exactly [N * P + floor (N * f / 65536)], for every
    [N] (so also for every [N >= 65536]), and after each of them the
    accumulator lies in [[0, 65536)].  Such a run exists for every [N] when
    [1 <= P <= 65534], the range in which no period leaves [[1, 65535]]. *)
Theorem tez_dither_long_run_sum fuel s P f N :
  pending (s_align_request s) = false ->
  fp16_parts (base_period_fp16 s) P f ->
  period_ticks_frac_acc s = 0 ->
  (forall sts, tez_run fuel N s = Ok sts ->
     length sts = N /\
     zsum (map period_ticks sts) = Z.of_nat N * P + Z.of_nat N * f / FP16_SCALE /\
     Forall (fun st => 0 <= period_ticks_frac_acc st < FP16_SCALE) sts) /\
  (1 <= P <= 65534 -> exists sts, tez_run fuel N s = Ok sts).
Proof.
  intros Hp Hparts Hacc.
  assert (Hacc' : 0 <= period_ticks_frac_acc s < FP16_SCALE)
    by (rewrite Hacc; unfold FP16_SCALE; lia).
  split.
  - intros sts Hrun.
    destruct (tez_run_dither fuel P f N s sts Hp Hparts Hacc' Hrun)
      as (Hlen & Hsum & Hall & _).
    rewrite Hacc, Z.add_0_l in Hsum. auto.
  - intros HP. apply (tez_run_dither_total fuel P f N s Hp Hparts Hacc' HP).
Qed.

End DitherFacts.

Lemma tez_dither_long_run_sum_witness :
  exists sts,
    Dtr.tez_run 5000 240 true 0 (Z.to_nat 65536) Dtr.dither_example_state = Ok sts /\
    Dtr.zsum (map Dtr.period_ticks sts) = 65536 * 20000 + 2621.
Proof.
  destruct (tez_dither_long_run_sum 5000 240 true 0 Dtr.dither_example_state
              20000 2621 (Z.to_nat 65536) eq_refl) as [Hsum Htotal].
  - unfold Dtr.fp16_parts, Dtr.FP16_SCALE. cbn. lia.
  - reflexivity.
  - destruct (Htotal ltac:(lia)) as [sts Hrun]. exists sts.
    split; [exact Hrun|].
    destruct (Hsum sts Hrun) as (_ & H & _). rewrite H. reflexivity.
Defined.

(** ** The TEZ handler: applying an alignment request *)

Section AlignFacts.

Import Dtr.

Variable CONFIG_FTS_MIN_PERIOD_CPU_CYCLES : Z.
Variable CONFIG_ESP_DEFAULT_CPU_FREQ_MHZ : Z.
Variable CONFIG_FTS_ROLE_SLAVE : bool.

Local Abbreviation MIN_TICKS :=
  (DTR_MIN_PERIOD_TICKS CONFIG_FTS_MIN_PERIOD_CPU_CYCLES
     CONFIG_ESP_DEFAULT_CPU_FREQ_MHZ).
Local Abbreviation roll_forward :=
  (roll_forward CONFIG_FTS_MIN_PERIOD_CPU_CYCLES CONFIG_ESP_DEFAULT_CPU_FREQ_MHZ).
Local Abbreviation dtr_tez_handler :=
  (dtr_tez_handler CONFIG_FTS_MIN_PERIOD_CPU_CYCLES
     CONFIG_ESP_DEFAULT_CPU_FREQ_MHZ CONFIG_FTS_ROLE_SLAVE).

Local Abbreviation period_of v := (fst (fst v)).

(** A [uint32_t] splits into its two FP16 parts. *)
Lemma fp16_parts_of_uint32 base :
  in_uint32 base -> fp16_parts base (base / FP16_SCALE) (base mod FP16_SCALE).
Proof.
  unfold in_uint32, fp16_parts, FP16_SCALE. intros H.
  pose proof (Z.div_mod base 65536 ltac:(lia)).
  pose proof (Z.mod_pos_bound base 65536 ltac:(lia)).
  assert (0 <= base / 65536) by (apply Z.div_pos; lia).
  assert (base / 65536 < 65536) by (apply Z.div_lt_upper_bound; lia).
  lia.
Qed.

Lemma rolled_ticks_0 base : rolled_ticks base 0 = 0.
Proof. reflexivity. Qed.

(** [rolled_ticks base k] is [floor (k * base / 65536)]. *)
Lemma rolled_ticks_floor base k :
  rolled_ticks base k = k * base / FP16_SCALE.
Proof.
  unfold rolled_ticks, FP16_SCALE.
  rewrite (Z.div_mod base 65536) at 3 by lia.
  replace (k * (65536 * (base / 65536) + base mod 65536))
    with (k * (base / 65536) * 65536 + k * (base mod 65536)) by ring.
  rewrite Z.div_add_l by lia. reflexivity.
Qed.

(** One pass of the loop body, away from overflow. *)
Lemma roll_step_spec base P f period acc cycle :
  fp16_parts base P f -> 0 <= acc < FP16_SCALE -> 0 <= period < 2 ^ 62 ->
  roll_step base (period, acc, cycle) =
    (period + P + (acc + f) / FP16_SCALE, (acc + f) mod FP16_SCALE,
     to_int64 (cycle + 1)).
Proof.
  intros Hp Hacc Hper. unfold roll_step.
  rewrite (fp16_parts_div _ _ _ Hp), (fp16_parts_mod _ _ _ Hp).
  destruct Hp as (_ & Hf & HP). unfold FP16_SCALE in *.
  cint_simpl.
  destruct (65536 <=? acc + f) eqn:E.
  - apply Z.leb_le in E. cint_simpl.
    assert ((acc + f) / 65536 = 1) as ->
      by (symmetry; apply Z.div_unique with (acc + f - 65536); lia).
    f_equal. f_equal. apply Z.mod_unique with 1; lia.
  - apply Z.leb_gt in E.
    rewrite Z.div_small, Z.mod_small by lia. f_equal. f_equal. lia.
Qed.

(** The loop stops after [k] passes: the passes before saw a period below
    the minimum, the last value is not below it. *)
Lemma roll_forward_some base fuel : forall v v',
  roll_forward fuel base v = Some v' ->
  exists k, (k <= fuel)%nat /\ v' = Nat.iter k (roll_step base) v /\
    (forall j, (j < k)%nat ->
       to_uint64 (period_of (Nat.iter j (roll_step base) v)) < MIN_TICKS) /\
    MIN_TICKS <= to_uint64 (period_of v').
Proof.
  induction fuel as [|fuel IH]; intros [[period acc] cycle] v' H; cbn [Dtr.roll_forward] in H.
  - destruct (to_uint64 period <? MIN_TICKS) eqn:E; [discriminate|].
    inversion H; subst. exists O. apply Z.ltb_ge in E.
    repeat split; auto; intros; lia.
  - destruct (to_uint64 period <? MIN_TICKS) eqn:E.
    + destruct (IH _ _ H) as (k & Hk & Hv & Hlt & Hge).
      exists (S k). rewrite Nat.iter_succ_r. repeat split; auto; [lia|].
      intros [|j] Hj; [cbn; apply Z.ltb_lt, E|].
      rewrite Nat.iter_succ_r. apply Hlt. lia.
    + inversion H; subst. exists O. apply Z.ltb_ge in E.
      repeat split; auto; intros; lia.
Qed.

(** The loop runs out of its bound only if every pass saw a period below
    the minimum. *)
Lemma roll_forward_none base fuel : forall v,
  roll_forward fuel base v = None ->
  forall j, (j <= fuel)%nat ->
    to_uint64 (period_of (Nat.iter j (roll_step base) v)) < MIN_TICKS.
Proof.
  induction fuel as [|fuel IH]; intros [[period acc] cycle] H j Hj;
    cbn [Dtr.roll_forward] in H;
    destruct (to_uint64 period <? MIN_TICKS) eqn:E; try discriminate.
  - replace j with O by lia. cbn. apply Z.ltb_lt, E.
  - destruct j as [|j]; [cbn; apply Z.ltb_lt, E|].
    rewrite Nat.iter_succ_r. apply (IH _ H). lia.
Qed.

(** The values after [k] passes, in closed form, when the passes before saw
    periods in [[0, MIN)]. *)
Lemma roll_iter_closed_bounded base P f p0 c0 k :
  fp16_parts base P f -> MIN_TICKS <= 65535 -> in_int64 p0 -> in_int64 c0 ->
  (forall j, (j < k)%nat ->
     to_uint64 (period_of (Nat.iter j (roll_step base) (p0, 0, c0))) < MIN_TICKS) ->
  Nat.iter k (roll_step base) (p0, 0, c0) =
    (p0 + Z.of_nat k * P + Z.of_nat k * f / FP16_SCALE,
     (Z.of_nat k * f) mod FP16_SCALE,
     to_int64 (c0 + Z.of_nat k)) /\
  p0 + Z.of_nat k * P + Z.of_nat k * f / FP16_SCALE <= Z.max p0 131071.
Proof.
  intros Hp Hmin Hp0 Hc0. induction k as [|k IH]; intros Hlt.
  - cbn [Nat.iter Z.of_nat]. unfold FP16_SCALE.
    rewrite !Z.mul_0_l, Z.div_0_l, Z.mod_0_l, !Z.add_0_r by lia.
    rewrite to_int64_id by assumption. split; [reflexivity | lia].
  - rewrite Nat.iter_succ.
    assert (Hk := Hlt k ltac:(lia)).
    destruct IH as [IH Hbound]; [intros j Hj; apply Hlt; lia|].
    rewrite IH in *. cbn [fst] in Hk.
    assert (Hf : 0 <= f < 65536) by (destruct Hp as (_ & Hf & _); exact Hf).
    assert (HP : 0 <= P < 65536) by (destruct Hp as (_ & _ & HP); exact HP).
    assert (Hroll : 0 <= Z.of_nat k * P + Z.of_nat k * f / FP16_SCALE).
    { unfold FP16_SCALE.
      assert (0 <= Z.of_nat k * f / 65536) by (apply Z.div_pos; nia). nia. }
    set (pk := p0 + Z.of_nat k * P + Z.of_nat k * f / FP16_SCALE) in *.
    assert (Hpk : 0 <= pk < MIN_TICKS).
    { unfold in_int64 in Hp0.
      destruct (Z_lt_dec pk 0) as [Hneg|Hpos].
      - assert (Hrange : - 2 ^ 63 <= pk < 0) by (unfold pk in *; lia).
        rewrite (to_uint64_neg _ Hrange) in Hk. lia.
      - rewrite to_uint64_id in Hk by (unfold in_uint64; lia). lia. }
    rewrite (roll_step_spec _ _ _ _ _ _ Hp) by
      (try apply Z.mod_pos_bound; unfold FP16_SCALE; lia).
    rewrite Nat2Z.inj_succ.
    assert (Hnext : pk + P + (Z.of_nat k * f mod FP16_SCALE + f) / FP16_SCALE
                    = p0 + Z.succ (Z.of_nat k) * P
                      + Z.succ (Z.of_nat k) * f / FP16_SCALE).
    { unfold pk, FP16_SCALE.
      replace (Z.succ (Z.of_nat k) * f) with (Z.of_nat k * f + f) by ring.
      rewrite <- (div_mod_carry (Z.of_nat k * f) f). ring. }
    split.
    + f_equal; [f_equal|].
      * exact Hnext.
      * unfold FP16_SCALE. rewrite mod_mod_carry. f_equal. ring.
      * rewrite to_int64_idem_add. f_equal. ring.
    + rewrite <- Hnext.
      assert ((Z.of_nat k * f mod FP16_SCALE + f) / FP16_SCALE < 2).
      { unfold FP16_SCALE. apply Z.div_lt_upper_bound; [lia|].
        pose proof (Z.mod_pos_bound (Z.of_nat k * f) 65536 ltac:(lia)). lia. }
      lia.
Qed.

(** The handler when a request is pending. *)
Lemma tez_handler_request fuel s s' evs :
  pending (s_align_request s) = true ->
  dtr_tez_handler fuel s = Ok (s', evs) ->
  exists p3 a3 c3,
    roll_forward fuel (to_uint32 (aligned_base_period_fp16 (s_align_request s)))
      (to_int64 (aligned_local_ticks (s_align_request s)
                 - to_int64 (timer_base_ticks s + active_period_ticks s)),
       0, aligned_cycle_counter (s_align_request s)) = Some (p3, a3, c3) /\
    1 <= p3 <= 65535 /\
    period_ticks s' = p3 /\ cycle_counter s' = c3 /\
    timer_base_ticks s' = to_int64 (timer_base_ticks s + active_period_ticks s) /\
    pending (s_align_request s') = false /\
    ready (s_align_feedback s') = true /\
    s_state s' = (if dtr_state_eqb (s_state s) DTR_STATE_RUNNING
                  then DTR_STATE_ALIGNED else s_state s) /\
    hw_timer_started s' = hw_timer_started s.
Proof.
  intros Hp Hrun. unfold Dtr.dtr_tez_handler in Hrun. rewrite Hp in Hrun.
  match type of Hrun with
  | match ?r with _ => _ end = _ => destruct r as [[[p3 a3] c3]|] eqn:Eroll
  end; [|discriminate].
  destruct (ready (s_align_feedback s)); [discriminate|].
  apply tez_common_end_ok in Hrun. cbn in Hrun.
  destruct Hrun as (Hr & H1 & _ & _ & H4 & H5 & H6 & H7 & H8 & _ & H10).
  exists p3, a3, c3. rewrite H1, H4, H5, H6, H7, H8, H10. cbn.
  repeat split; auto; lia.
Qed.

(** C1 (as amended): when the TEZ handler runs with a pending request
    carrying [target_cycle = C] and [target_local_ticks = L] (and the
    subtraction [L - timer_base_ticks] does not overflow) and returns, there
    is a [k >= 0] such that the cycle counter is [C + k] (as an [int64_t]),
    [k] is the least number of roll-forward passes after which the period is
    at least [DTR_MIN_PERIOD_TICKS], and
    [timer_base_ticks + period_ticks = L + rolled_ticks base k]: the target
    plus the [k] dithered periods that were rolled forward.  In particular
    the sum is [L], and the counter [C], when [L] is at least the minimum
    period ahead.  The handler does return (it may abort) whenever the
    requested period is non-zero and the minimum is a valid period. *)
Theorem tez_applies_alignment s :
  let req := s_align_request s in
  let C := aligned_cycle_counter req in
  let L := aligned_local_ticks req in
  let base := to_uint32 (aligned_base_period_fp16 req) in
  let tb1 := to_int64 (timer_base_ticks s + active_period_ticks s) in
  pending req = true -> in_int64 C -> in_int64 (L - tb1) ->
  (forall fuel s' evs,
     dtr_tez_handler fuel s = Ok (s', evs) ->
     exists k, 0 <= k /\
       cycle_counter s' = to_int64 (C + k) /\
       timer_base_ticks s' = tb1 /\
       timer_base_ticks s' + period_ticks s' = L + rolled_ticks base k /\
       (forall j, 0 <= j < k -> 0 <= L - tb1 + rolled_ticks base j < MIN_TICKS) /\
       MIN_TICKS <= period_ticks s' /\
       (MIN_TICKS <= L - tb1 ->
        cycle_counter s' = C /\ timer_base_ticks s' + period_ticks s' = L) /\
       pending (s_align_request s') = false) /\
  (base <> 0 -> MIN_TICKS <= 65535 ->
   forall fuel, (Z.to_nat (FP16_SCALE * MIN_TICKS) <= fuel)%nat ->
     dtr_tez_handler fuel s <> Diverge).
Proof.
  intros req C L base tb1 Hp HC HL.
  assert (Hbase : fp16_parts base (base / FP16_SCALE) (base mod FP16_SCALE))
    by (apply fp16_parts_of_uint32, to_uint32_range).
  assert (Hp0 : to_int64 (L - tb1) = L - tb1) by (apply to_int64_id, HL).
  split.
  - intros fuel s' evs Hrun.
    destruct (tez_handler_request _ _ _ _ Hp Hrun)
      as (p3 & a3 & c3 & Hroll & Hr & Hper & Hcyc & Htb & Hpend & _).
    fold req in Hroll. fold L C base tb1 in Hroll. rewrite Hp0 in Hroll.
    destruct (roll_forward_some _ _ _ _ Hroll) as (k & _ & Hv & Hlt & Hge).
    cbn [fst] in Hge.
    rewrite to_uint64_id in Hge by (unfold in_uint64; lia).
    assert (Hmin : MIN_TICKS <= 65535) by lia.
    destruct (roll_iter_closed_bounded _ _ _ _ _ k Hbase Hmin HL HC Hlt)
      as [Hclosed _].
    rewrite Hclosed in Hv. injection Hv as Ep Ea Ec.
    rewrite Ep in Hper, Hr, Hge. rewrite Ec in Hcyc. clear Ep Ea Ec.
    assert (Hbelow : forall j, 0 <= j < Z.of_nat k ->
                       0 <= L - tb1 + rolled_ticks base j < MIN_TICKS).
    { intros j Hj.
      assert (Hjk : (Z.to_nat j < k)%nat) by lia.
      assert (Hltj := Hlt _ Hjk).
      destruct (roll_iter_closed_bounded _ _ _ _ C (Z.to_nat j) Hbase Hmin HL HC)
        as [Hcj Hbj]; [intros i Hi; apply Hlt; lia|].
      rewrite Hcj in Hltj. cbn [fst] in Hltj.
      rewrite Z2Nat.id in * by lia.
      unfold rolled_ticks.
      set (pj := L - tb1 + j * (base / FP16_SCALE)
                 + j * (base mod FP16_SCALE) / FP16_SCALE) in *.
      assert (0 <= pj < MIN_TICKS).
      { unfold in_int64 in HL.
        assert (0 <= j * (base / FP16_SCALE) + j * (base mod FP16_SCALE) / FP16_SCALE).
        { destruct Hbase as (_ & Hf & HP). unfold FP16_SCALE in *.
          assert (0 <= j * (base mod 65536) / 65536) by (apply Z.div_pos; nia).
          nia. }
        destruct (Z_lt_dec pj 0) as [Hneg|Hpos].
        - rewrite to_uint64_neg in Hltj by (unfold pj in *; lia). lia.
        - rewrite to_uint64_id in Hltj by (unfold in_uint64; lia). lia. }
      lia. }
    change (to_int64 (timer_base_ticks s + active_period_ticks s)) with tb1 in Htb.
    assert (Hsum : timer_base_ticks s' + period_ticks s'
                   = L + rolled_ticks base (Z.of_nat k))
      by (rewrite Htb, Hper; unfold rolled_ticks; lia).
    exists (Z.of_nat k).
    split; [lia|]. split; [exact Hcyc|]. split; [exact Htb|].
    split; [exact Hsum|]. split; [exact Hbelow|].
    split; [rewrite Hper; lia|]. split; [|exact Hpend].
    intros Hahead.
    assert (Hk0 : k = O).
    { destruct k as [|k']; [reflexivity|]. exfalso.
      specialize (Hbelow 0 ltac:(lia)). rewrite rolled_ticks_0 in Hbelow. lia. }
    subst k. cbn [Z.of_nat] in *. rewrite rolled_ticks_0 in Hsum.
    rewrite Z.add_0_r in Hcyc, Hsum.
    split; [rewrite Hcyc; apply to_int64_id, HC | exact Hsum].
  - intros Hnz Hmin fuel Hfuel Hdiv.
    pose proof Hp as Hp'. unfold req in Hp'.
    unfold Dtr.dtr_tez_handler in Hdiv. rewrite Hp' in Hdiv.
    fold req in Hdiv. fold L C base tb1 in Hdiv. rewrite Hp0 in Hdiv.
    match type of Hdiv with
    | match ?r with _ => _ end = _ => destruct r as [[[p3 a3] c3]|] eqn:Eroll
    end.
    { destruct (ready (s_align_feedback s)); [discriminate|].
      unfold tez_common_end in Hdiv.
      match type of Hdiv with
      | (if ?c then _ else _) = _ => destruct c; discriminate
      end. }
    clear Hdiv.
    set (F := Z.to_nat (FP16_SCALE * MIN_TICKS)) in *.
    assert (Hall := roll_forward_none _ _ _ Eroll).
    destruct (roll_iter_closed_bounded _ _ _ _ C F Hbase Hmin HL HC)
      as [Hclosed Hbound]; [intros j Hj; apply Hall; lia|].
    assert (HF := Hall F Hfuel). rewrite Hclosed in HF. cbn [fst] in HF.
    assert (H0 := Hall O ltac:(lia)). cbn in H0.
    assert (Hpos : 0 <= L - tb1 < MIN_TICKS).
    { unfold in_int64 in HL. destruct (Z_lt_dec (L - tb1) 0).
      - rewrite to_uint64_neg in H0 by lia. lia.
      - rewrite to_uint64_id in H0 by (unfold in_uint64; lia). lia. }
    assert (HFz : Z.of_nat F = FP16_SCALE * MIN_TICKS)
      by (unfold F; rewrite Z2Nat.id; unfold FP16_SCALE; lia).
    fold (rolled_ticks base (Z.of_nat F)) in HF, Hbound.
    replace (L - tb1 + Z.of_nat F * (base / FP16_SCALE)
             + Z.of_nat F * (base mod FP16_SCALE) / FP16_SCALE)
      with (L - tb1 + rolled_ticks base (Z.of_nat F)) in HF, Hbound
      by (unfold rolled_ticks; ring).
    rewrite rolled_ticks_floor, HFz in HF, Hbound.
    pose proof (to_uint32_range (aligned_base_period_fp16 req)) as Hb32.
    fold base in Hb32. unfold in_uint32 in Hb32.
    assert (MIN_TICKS <= FP16_SCALE * MIN_TICKS * base / FP16_SCALE).
    { unfold FP16_SCALE. apply Z.div_le_lower_bound; nia. }
    rewrite to_uint64_id in HF by (unfold in_uint64; lia). lia.
Qed.

End AlignFacts.

(** Closes a goal made of comparisons between closed integer terms. *)
Ltac zclosed :=
  vm_compute; repeat split;
  solve [ reflexivity | discriminate | intro; discriminate ].

(** The example on the reference configuration (5000 CPU cycles at 240 MHz:
    a minimum period of 833 ticks): one pass is rolled forward. *)
Lemma tez_applies_alignment_witness :
  exists s' evs k,
    Dtr.dtr_tez_handler 5000 240 false 10 Dtr.align_example_state = Ok (s', evs) /\
    0 <= k /\
    Dtr.cycle_counter s' = to_int64 (3 + k) /\
    Dtr.timer_base_ticks s' + Dtr.period_ticks s'
      = 60000 + Dtr.rolled_ticks (20000 * 65536) k.
Proof.
  destruct (tez_applies_alignment 5000 240 false Dtr.align_example_state
              eq_refl ltac:(zclosed) ltac:(zclosed)) as [Hret _].
  eexists. eexists.
  assert (Hrun : Dtr.dtr_tez_handler 5000 240 false 10 Dtr.align_example_state
                 = Ok _) by (vm_compute; reflexivity).
  destruct (Hret _ _ _ Hrun) as (k & Hk & Hcyc & _ & Hsum & _).
  exists k. split; [exact Hrun|]. split; [exact Hk|].
  split; [exact Hcyc | exact Hsum].
Defined.

(** C1 as stated fails on the same example: the target is 60000, and after
    the TEZ [timer_base_ticks + period_ticks] is 80000, one period later. *)
Lemma tez_alignment_rolls_past_target :
  exists s' evs,
    Dtr.dtr_tez_handler 5000 240 false 10 Dtr.align_example_state = Ok (s', evs) /\
    Dtr.pending (Dtr.s_align_request Dtr.align_example_state) = true /\
    Dtr.aligned_cycle_counter (Dtr.s_align_request Dtr.align_example_state) = 3 /\
    Dtr.aligned_local_ticks (Dtr.s_align_request Dtr.align_example_state) = 60000 /\
    Dtr.cycle_counter s' = 3 + 1 /\
    Dtr.timer_base_ticks s' + Dtr.period_ticks s' = 80000 /\
    80000 <> 60000.
Proof.
  eexists. eexists. split; [vm_compute; reflexivity|].
  repeat split; try reflexivity. discriminate.
Qed.

(** ** The DTR state machine *)

Section StateFacts.

Import Dtr.

Variable CONFIG_FTS_MIN_PERIOD_CPU_CYCLES : Z.
Variable CONFIG_ESP_DEFAULT_CPU_FREQ_MHZ : Z.
Variable CONFIG_FTS_ROLE_SLAVE : bool.

Local Abbreviation dtr_tez_handler :=
  (dtr_tez_handler CONFIG_FTS_MIN_PERIOD_CPU_CYCLES
     CONFIG_ESP_DEFAULT_CPU_FREQ_MHZ CONFIG_FTS_ROLE_SLAVE).
Local Abbreviation step :=
  (step CONFIG_FTS_MIN_PERIOD_CPU_CYCLES CONFIG_ESP_DEFAULT_CPU_FREQ_MHZ
     CONFIG_FTS_ROLE_SLAVE).
Local Abbreviation run :=
  (run CONFIG_FTS_MIN_PERIOD_CPU_CYCLES CONFIG_ESP_DEFAULT_CPU_FREQ_MHZ
     CONFIG_FTS_ROLE_SLAVE).
Local Abbreviation dtr_init := (dtr_init CONFIG_FTS_ROLE_SLAVE).

(** What a TEZ does to the state variable. *)
Lemma tez_handler_state fuel s s' evs :
  dtr_tez_handler fuel s = Ok (s', evs) ->
  s_state s' =
    (if pending (s_align_request s) && dtr_state_eqb (s_state s) DTR_STATE_RUNNING
     then DTR_STATE_ALIGNED else s_state s) /\
  hw_timer_started s' = hw_timer_started s.
Proof.
  intros Hrun. destruct (pending (s_align_request s)) eqn:Hp.
  - destruct (tez_handler_request _ _ _ _ _ _ _ Hp Hrun)
      as (? & ? & ? & _ & _ & _ & _ & _ & _ & _ & Hst & Hhw).
    cbn [andb]. auto.
  - rewrite (tez_handler_no_request _ _ _ _ _ Hp) in Hrun.
    apply tez_common_end_ok in Hrun. cbn in Hrun.
    destruct Hrun as (_ & _ & _ & _ & _ & _ & _ & Hst & Hhw & _). auto.
Qed.

Lemma step_start_inv s s' :
  Dtr.dtr_start_timer_enable s = Ok s' ->
  s_state s = DTR_STATE_NOT_STARTED /\ s_state s' = DTR_STATE_RUNNING /\
  hw_timer_started s' = true.
Proof.
  unfold dtr_start_timer_enable. destruct (s_state s); cbn; intros H;
    inversion H; subst; cbn; auto.
Qed.

(** No operation moves the state backward. *)
Lemma step_state_rank s l s' :
  step s l s' -> state_rank (s_state s) <= state_rank (s_state s').
Proof.
  intros Hstep. inversion Hstep; subst; cbn; try lia.
  - match goal with H : dtr_start_timer_enable _ = _ |- _ =>
      destruct (step_start_inv _ _ H) as (-> & -> & _) end. cbn. lia.
  - match goal with H : Dtr.dtr_tez_handler _ _ _ _ _ = _ |- _ =>
      destruct (tez_handler_state _ _ _ _ H) as [-> _] end.
    destruct (pending (s_align_request s)); destruct (s_state s); cbn; lia.
Qed.

(** From [Running], the state becomes [Aligned] exactly by a TEZ that
    applies a pending request. *)
Lemma step_running_aligned s l s' :
  step s l s' -> s_state s = DTR_STATE_RUNNING ->
  (s_state s' = DTR_STATE_ALIGNED <-> l = LTez true).
Proof.
  intros Hstep Hr. inversion Hstep; subst; cbn.
  - match goal with H : dtr_start_timer_enable _ = _ |- _ =>
      destruct (step_start_inv _ _ H) as (Hs & _) end. congruence.
  - rewrite Hr. split; discriminate.
  - rewrite Hr. split; discriminate.
  - rewrite Hr. split; discriminate.
  - match goal with H : Dtr.dtr_tez_handler _ _ _ _ _ = _ |- _ =>
      destruct (tez_handler_state _ _ _ _ H) as [-> _] end.
    rewrite Hr. destruct (pending (s_align_request s)); cbn; split;
      congruence.
Qed.

Lemma in_snoc {A : Type} (x l : A) (tr : list A) :
  In x (tr ++ [l]) <-> In x tr \/ x = l.
Proof.
  rewrite in_app_iff. cbn. intuition congruence.
Qed.

(** The three kinds of step, by their effect on the state variable and on
    the timer hardware. *)
Lemma step_effect s l s' :
  step s l s' ->
  (l = LStartTimer /\ s_state s = DTR_STATE_NOT_STARTED /\
   s_state s' = DTR_STATE_RUNNING /\ hw_timer_started s' = true) \/
  (l <> LStartTimer /\ l <> LTez true /\ s_state s' = s_state s /\
   hw_timer_started s' = hw_timer_started s) \/
  (l = LTez true /\ hw_timer_started s = true /\ hw_timer_started s' = true /\
   s_state s' = (if dtr_state_eqb (s_state s) DTR_STATE_RUNNING
                 then DTR_STATE_ALIGNED else s_state s)).
Proof.
  intros Hstep. inversion Hstep as
    [s1 s2 Hen | s1 off | s1 c lt b | s1 t | fuel s1 s2 evs Hhw Hrun]; subst.
  - left. destruct (step_start_inv _ _ Hen) as (H1 & H2 & H3). auto.
  - right; left. cbn. repeat split; discriminate || reflexivity.
  - right; left. cbn. repeat split; discriminate || reflexivity.
  - right; left. cbn. repeat split; discriminate || reflexivity.
  - destruct (tez_handler_state _ _ _ _ Hrun) as [Hst Hhw'].
    destruct (pending (s_align_request s)) eqn:Hp; cbn [andb] in Hst.
    + right; right. rewrite Hhw'. auto.
    + right; left. repeat split; discriminate || assumption.
Qed.

(** Along a run from [dtr_init]: the timer hardware runs exactly when the
    state has left [NotStarted], which is exactly when [dtr_start_timer] has
    been called; and the state is [Aligned] exactly when some TEZ has applied
    a request. *)
Lemma run_state_invariant mode cb tr s :
  run (dtr_init mode cb) tr s ->
  (hw_timer_started s = true <-> s_state s <> DTR_STATE_NOT_STARTED) /\
  (s_state s = DTR_STATE_NOT_STARTED <-> ~ In LStartTimer tr) /\
  (s_state s = DTR_STATE_ALIGNED <-> In (LTez true) tr).
Proof.
  intros Hrun. remember (dtr_init mode cb) as s0 eqn:Es0.
  induction Hrun as [s|s tr s1 l s2 Hrun IH Hstep].
  - subst s. cbn. intuition (try discriminate).
  - specialize (IH Es0). destruct IH as (Ihw & Ins & Ial).
    rewrite !in_snoc.
    destruct (step_effect _ _ _ Hstep)
      as [(Hl & Hs1 & Hs2 & Hhw2) | [(Hl1 & Hl2 & Hs2 & Hhw2) | (Hl & Hhw1 & Hhw2 & Hs2)]].
    + subst l. rewrite Hs2, Hhw2. rewrite Hs1 in Ial.
      split; [intuition discriminate|]. split; [intuition discriminate|].
      split; [discriminate|]. intros [Hin|Heq]; [|discriminate].
      apply Ial in Hin. discriminate.
    + rewrite Hs2, Hhw2. intuition congruence.
    + subst l. rewrite Hhw2, Hs2.
      assert (Hns : s_state s1 <> DTR_STATE_NOT_STARTED) by (apply Ihw; assumption).
      destruct (s_state s1) eqn:E; cbn; [congruence | |]; intuition discriminate.
Qed.

(** C9: no operation on the DTR (starting the timer, adding the measured
    offset, publishing a request, registering a listener, a TEZ with or
    without a pending request) lowers the state in the order
    [NotStarted < Running < Aligned]; a step leaves [Running] for [Aligned]
    exactly when it is a TEZ that applies a pending request; and along every
    run from [dtr_init] the state is [Aligned] exactly when some TEZ has
    applied a request, so the change happens on the first alignment apply. *)
Theorem dtr_state_only_advances :
  (forall s l s', step s l s' ->
     state_rank (s_state s) <= state_rank (s_state s')) /\
  (forall s l s', step s l s' -> s_state s = DTR_STATE_RUNNING ->
     (s_state s' = DTR_STATE_ALIGNED <-> l = LTez true)) /\
  (forall mode cb tr s, run (dtr_init mode cb) tr s ->
     (s_state s = DTR_STATE_NOT_STARTED <-> ~ In LStartTimer tr) /\
     (s_state s = DTR_STATE_ALIGNED <-> In (LTez true) tr)).
Proof.
  split; [exact step_state_rank|]. split; [exact step_running_aligned|].
  intros mode cb tr s Hrun.
  destruct (run_state_invariant _ _ _ _ Hrun) as (_ & H1 & H2). auto.
Qed.

End StateFacts.

(** A slave from [dtr_init] through [dtr_start_timer], a request and the TEZ
    that applies it. *)
Lemma dtr_state_only_advances_witness :
  exists s,
    Dtr.run 5000 240 true (Dtr.dtr_init true Dtr.DTR_MODE_SLAVE true)
      [Dtr.LStartTimer; Dtr.LSetAlignRequest 5 30000 (20000 * 65536);
       Dtr.LTez true] s /\
    Dtr.s_state s = Dtr.DTR_STATE_ALIGNED.
Proof.
  destruct (dtr_state_only_advances 5000 240 true) as (_ & _ & Hinv).
  set (s0 := Dtr.dtr_init true Dtr.DTR_MODE_SLAVE true).
  set (s1 := Dtr.s_enable_and_start_timer s0).
  set (s2 := Dtr.dtr_set_align_request 5 30000 (20000 * 65536) s1).
  assert (H3 : exists s3 evs, Dtr.dtr_tez_handler 5000 240 true 0 s2 = Ok (s3, evs))
    by (eexists; eexists; vm_compute; reflexivity).
  destruct H3 as (s3 & evs & H3).
  assert (Hrun : Dtr.run 5000 240 true s0
                   [Dtr.LStartTimer; Dtr.LSetAlignRequest 5 30000 (20000 * 65536);
                    Dtr.LTez true] s3).
  { apply (Dtr.run_snoc _ _ _ s0
             [Dtr.LStartTimer; Dtr.LSetAlignRequest 5 30000 (20000 * 65536)]
             s2 (Dtr.LTez true) s3).
    - apply (Dtr.run_snoc _ _ _ s0 [Dtr.LStartTimer] s1
               (Dtr.LSetAlignRequest 5 30000 (20000 * 65536)) s2).
      + apply (Dtr.run_snoc _ _ _ s0 [] s0 Dtr.LStartTimer s1).
        * apply Dtr.run_nil.
        * apply Dtr.step_start. reflexivity.
      + apply Dtr.step_request.
    - apply (Dtr.step_tez _ _ _ 0 s2 s3 evs); [reflexivity | exact H3]. }
  exists s3. split; [exact Hrun|].
  apply (Hinv _ _ _ _ Hrun). cbn. auto.
Defined.

(** ** The MAC clock / timer offset measurement *)

Section OffsetFacts.

Import Dtr.

Lemma to_int64_of_uint64 z : to_int64 (to_uint64 z) = to_int64 z.
Proof.
  unfold to_int64, to_signed, to_uint64, to_unsigned. change (64 - 1) with 63.
  f_equal. rewrite Z.add_mod_idemp_l by lia. reflexivity.
Qed.

Lemma to_uint64_mul_l x y : to_uint64 (to_uint64 x * y) = to_uint64 (x * y).
Proof.
  unfold to_uint64, to_unsigned. apply Z.mul_mod_idemp_l. lia.
Qed.

(** The tight loop returns one of the passes it read, the first in which the
    two MAC samples differ. *)
Lemma catch_loop_in reads : forall n tb m1 m2 ta its,
  catch_loop reads n = Some (tb, m1, m2, ta, its) ->
  In (tb, m1, m2, ta) reads /\ m2 <> m1.
Proof.
  induction reads as [|[[[tb0 m10] m20] ta0] rest IH]; intros n tb m1 m2 ta its H.
  - discriminate.
  - cbn [catch_loop] in H. destruct (m20 =? m10) eqn:E.
    + destruct (IH _ _ _ _ _ _ H) as [Hin Hne]. split; [right; exact Hin | exact Hne].
    + inversion H; subst. apply Z.eqb_neq in E. split; [left; reflexivity | exact E].
Qed.

(** A sample that is kept passed both monotonicity checks. *)
Lemma s_catch_kept r b m a its :
  s_catch_mac_clock_transition r = Ok (Some (b, m, a, its)) ->
  exists timer_before mac_1 mac_2 timer_after,
    In (timer_before, mac_1, mac_2, timer_after) (loop_reads r) /\
    timer_pre r <= timer_before <= timer_after /\ timer_after <= timer_post r /\
    mac_clock_us_pre r <= mac_1 < mac_2 /\ mac_2 <= mac_clock_us_post r /\
    b = to_int64 (timer_base_ticks_pre r + timer_before) /\
    m = to_int64 (mac_clock_base_us r + mac_2) /\
    a = to_int64 (timer_base_ticks_pre r + timer_after).
Proof.
  unfold s_catch_mac_clock_transition.
  destruct (catch_loop (loop_reads r) 0) as [[[[[tb m1] m2] ta] n]|] eqn:El;
    [|discriminate].
  destruct (catch_loop_in _ _ _ _ _ _ _ El) as [Hin Hne].
  destruct (tb <? timer_pre r) eqn:E1; [discriminate|].
  destruct (ta <? tb) eqn:E2; [discriminate|].
  destruct (timer_post r <? ta) eqn:E3; [discriminate|]. cbn [orb].
  destruct (m1 <? mac_clock_us_pre r) eqn:E4; [discriminate|].
  destruct (m2 <? m1) eqn:E5; [discriminate|].
  destruct (mac_clock_us_post r <? m2) eqn:E6; [discriminate|]. cbn [orb].
  intros H. inversion H; subst; clear H.
  apply Z.ltb_ge in E1, E2, E3, E4, E5, E6.
  exists tb, m1, m2, ta. repeat split; auto; lia.
Qed.

(** The refinement never widens the interval, whatever the sample. *)
Lemma s_refine_monotone mn mx b m a mn' mx' :
  s_refine_mac_clock_timer_start_offset mn mx b m a = Ok (mn', mx') ->
  mn <= mn' /\ mx' <= mx.
Proof.
  unfold s_refine_mac_clock_timer_start_offset.
  match goal with |- (if ?c then _ else _) = _ -> _ => destruct c end;
    [discriminate|].
  match goal with |- (if ?c then _ else _) = _ -> _ => destruct c end;
    [discriminate|].
  intros H. inversion H; subst; clear H. split.
  - match goal with |- _ <= (if ?x <? ?y then _ else _) =>
      destruct (Z.ltb_spec x y) end; lia.
  - match goal with |- (if ?x <? ?y then _ else _) <= _ =>
      destruct (Z.ltb_spec x y) end; lia.
Qed.

(** Across the whole loop the lower bound only grows and the upper bound
    only shrinks. *)
Lemma measure_loop_monotone samples : forall bounds bounds',
  measure_loop samples bounds = Ok bounds' ->
  fst bounds <= fst bounds' /\ snd bounds' <= snd bounds.
Proof.
  induction samples as [|r rest IH]; intros bounds bounds' H; cbn [measure_loop] in H.
  - inversion H; subst. lia.
  - destruct (s_catch_mac_clock_transition r) as [[[[[b m] a] its]|]| |];
      cbn [bind] in H; try discriminate.
    + destruct (s_refine_mac_clock_timer_start_offset (fst bounds) (snd bounds) b m a)
        as [[mn mx]| |] eqn:Er; cbn [bind] in H; try discriminate.
      destruct (s_refine_monotone _ _ _ _ _ _ _ Er).
      destruct (IH _ _ H). cbn [fst snd] in *. lia.
    + apply IH. exact H.
Qed.

(** C8: in an iteration of the offset measurement whose samples pass the
    monotonicity checks (reads in their C types, bases away from overflow),
    [timer_abs_before <= timer_abs_after], so the candidate bounds satisfy
    [new_min = mac_at_transition_ticks - timer_abs_after
     <= mac_at_transition_ticks - timer_abs_before = new_max] and the
    assertion [new_min <= new_max] does not fire; when the refinement returns,
    [min] has become [max min new_min] and [max] has become
    [min max new_max].  Across the iterations of the loop [min] only
    increases and [max] only decreases. *)
Theorem offset_bounds_tighten :
  (forall r b m a its,
     reads_in_range r ->
     s_catch_mac_clock_transition r = Ok (Some (b, m, a, its)) ->
     b <= a /\
     forall mn mx,
       let mac_at_transition_ticks := m * TIMER_TICKS_PER_US in
       let new_min := mac_at_transition_ticks - a in
       let new_max := mac_at_transition_ticks - b in
       new_min <= new_max /\
       s_refine_mac_clock_timer_start_offset mn mx b m a <> Abort AssertMinLeMax /\
       forall mn' mx',
         s_refine_mac_clock_timer_start_offset mn mx b m a = Ok (mn', mx') ->
         mn' = Z.max mn new_min /\ mx' = Z.min mx new_max /\
         mn <= mn' /\ mx' <= mx) /\
  (forall samples bounds bounds',
     measure_loop samples bounds = Ok bounds' ->
     fst bounds <= fst bounds' /\ snd bounds' <= snd bounds).
Proof.
  split; [|exact measure_loop_monotone].
  intros r b m a its (Hloop & Hpre & Hpost & Hmpre & Hmpost & Htb & Hmb) Hcatch.
  destruct (s_catch_kept _ _ _ _ _ Hcatch)
    as (tb & m1 & m2 & ta & Hin & Ht1 & Ht2 & Hm1 & Hm2 & -> & -> & ->).
  rewrite Forall_forall in Hloop. specialize (Hloop _ Hin). cbn in Hloop.
  destruct Hloop as (Htbr & Hm1r & Hm2r & Htar).
  unfold in_uint32 in *.
  rewrite (to_int64_id (timer_base_ticks_pre r + tb)) by (unfold in_int64; lia).
  rewrite (to_int64_id (timer_base_ticks_pre r + ta)) by (unfold in_int64; lia).
  rewrite (to_int64_id (mac_clock_base_us r + m2)) by (unfold in_int64; lia).
  split; [lia|]. intros mn mx. cbv zeta.
  set (mt := (mac_clock_base_us r + m2) * TIMER_TICKS_PER_US).
  set (new_min := mt - (timer_base_ticks_pre r + ta)).
  set (new_max := mt - (timer_base_ticks_pre r + tb)).
  assert (Hmt : mt = (mac_clock_base_us r + m2) * 40) by reflexivity.
  assert (Hle : new_min <= new_max) by (unfold new_min, new_max; lia).
  split; [exact Hle|].
  unfold s_refine_mac_clock_timer_start_offset.
  rewrite to_uint64_mul_l, to_int64_of_uint64. fold mt.
  rewrite (to_int64_id mt) by (unfold in_int64; lia).
  destruct (timer_base_ticks_pre r + ta <? mt) eqn:E1; cbn [negb];
    [|split; [discriminate | intros; discriminate]].
  apply Z.ltb_lt in E1. fold new_min new_max.
  rewrite (to_int64_id new_min) by (unfold in_int64, new_min; lia).
  rewrite (to_int64_id new_max) by (unfold in_int64, new_max; lia).
  destruct (new_min <=? new_max) eqn:E2; [|apply Z.leb_gt in E2; lia].
  cbn [negb]. split; [discriminate|].
  intros mn' mx' H. inversion H; subst mn' mx'; clear H.
  destruct (Z.ltb_spec mn new_min); destruct (Z.ltb_spec new_max mx); lia.
Qed.

Lemma offset_bounds_tighten_witness :
  exists b m a its mn' mx',
    Dtr.s_catch_mac_clock_transition Dtr.catch_example_reads
      = Ok (Some (b, m, a, its)) /\
    b <= a /\
    Dtr.s_refine_mac_clock_timer_start_offset 0 INT64_MAX b m a = Ok (mn', mx') /\
    0 <= mn' /\ mx' <= INT64_MAX.
Proof.
  destruct offset_bounds_tighten as [Hiter _].
  assert (Hcatch : Dtr.s_catch_mac_clock_transition Dtr.catch_example_reads
                   = Ok (Some (115, 7001, 121, 2))) by reflexivity.
  assert (Hrange : Dtr.reads_in_range Dtr.catch_example_reads).
  { unfold Dtr.reads_in_range, in_uint32. cbn.
    repeat split; repeat constructor; lia. }
  destruct (Hiter _ _ _ _ _ Hrange Hcatch) as [Hba Hrefine].
  destruct (Hrefine 0 INT64_MAX) as (_ & _ & Hok).
  exists 115, 7001, 121, 2. eexists. eexists.
  split; [exact Hcatch|]. split; [exact Hba|].
  assert (Hr : Dtr.s_refine_mac_clock_timer_start_offset 0 INT64_MAX 115 7001 121
               = Ok _) by (vm_compute; reflexivity).
  split; [exact Hr|]. destruct (Hok _ _ Hr) as (_ & _ & H1 & H2). auto.
Defined.

End OffsetFacts.

(** ** The regression: when the model is published *)

Section CrmFacts.

Import Crm.

Variable Env : Type.

Implicit Types (c : crm_t Env) (r : regression_samples_t).

Lemma regression_sums_eta r :
  regression_sums r =
    ((regression_mean_x r, regression_mean_y r),
     (regression_num r, regression_den r)).
Proof.
  unfold regression_mean_x, regression_mean_y, regression_num, regression_den.
  destruct (regression_sums r) as [[mx my] [num den]]. reflexivity.
Qed.

(** A skipped fit returns [false] and writes nothing. *)
Lemma perform_regression_skipped c :
  fit_skipped (s_regression_samples c) -> perform_regression c = (false, c).
Proof.
  unfold fit_skipped, perform_regression. intros H.
  destruct (count (s_regression_samples c) <? MIN_REGRESSION_SAMPLES) eqn:E;
    [reflexivity|].
  apply Z.ltb_ge in E. rewrite regression_sums_eta.
  destruct H as [H|[H|H]]; [lia| |]; rewrite H;
    [rewrite orb_true_r | rewrite orb_true_l]; reflexivity.
Qed.

(** A successful fit returns [true] and publishes slopes, centroid and
    validity; the callback registration is untouched. *)
Lemma perform_regression_succeeds c :
  let r := s_regression_samples c in
  let num := regression_num r in
  let den := regression_den r in
  fit_succeeds r ->
  fst (perform_regression c) = true /\
  model (snd (perform_regression c)) =
    mk_model (CRM_R_SQUARED_THRESHOLD <? regression_r_squared r)%float
      ((num - den) / den)%float ((den - num) / num)%float
      (Fp.to_int64_trunc (regression_mean_y r))
      (Fp.to_int64_trunc (regression_mean_x r)) /\
  s_callback (snd (perform_regression c)) = s_callback c /\
  s_regression_samples (snd (perform_regression c)) = r /\
  s_r_squared (snd (perform_regression c)) = regression_r_squared r.
Proof.
  intros r num den (Hcount & Hnum & Hden).
  unfold perform_regression, regression_r_squared. subst num den. fold r.
  destruct (count r <? MIN_REGRESSION_SAMPLES) eqn:E;
    [apply Z.ltb_lt in E; lia|].
  rewrite regression_sums_eta. rewrite Hnum, Hden. cbn [orb].
  destruct (regression_residuals r (Fp.to_int64_trunc (regression_mean_y r))
              (Fp.to_int64_trunc (regression_mean_x r))
              ((regression_num r - regression_den r) / regression_den r)%float
              (regression_mean_y r)) as [ss_tot ss_res].
  cbn [fst snd model s_callback s_regression_samples s_r_squared].
  repeat split; reflexivity.
Qed.

(** C5: when a fit is attempted on a ring with fewer than
    [MIN_REGRESSION_SAMPLES] samples, or with [num == 0] or [den == 0],
    [perform_regression] returns [false] without writing anything, and
    [crm_process_ftm_report] leaves every field of the published model as it
    was and does not invoke the registered callback (the environment the
    callback acts on is unchanged, whatever the callback). *)
Theorem crm_skipped_fit_keeps_model c (env : Env) t1_ps t2_ps t3_ps t4_ps cnt :
  let r := add_report_samples t1_ps t2_ps t3_ps t4_ps cnt (s_regression_samples c) in
  let out := crm_process_ftm_report t1_ps t2_ps t3_ps t4_ps cnt c env in
  fit_skipped r ->
  model (fst out) = model c /\
  crm_valid (model (fst out)) = crm_valid (model c) /\
  crm_slope_lr_m1 (model (fst out)) = crm_slope_lr_m1 (model c) /\
  crm_slope_rl_m1 (model (fst out)) = crm_slope_rl_m1 (model c) /\
  crm_local_ref_ps (model (fst out)) = crm_local_ref_ps (model c) /\
  crm_remote_ref_ps (model (fst out)) = crm_remote_ref_ps (model c) /\
  snd out = env.
Proof.
  intros r out Hskip.
  assert (H : model (fst out) = model c /\ snd out = env).
  { unfold out, crm_process_ftm_report.
    destruct (cnt =? 0); [split; reflexivity|].
    rewrite perform_regression_skipped by exact Hskip. split; reflexivity. }
  destruct H as [Hm He]. rewrite Hm. repeat split; auto.
Qed.

End CrmFacts.

(** The degenerate regression of the specification: 32 identical points
    leave the earlier model in place and the callback count at 0. *)
Lemma crm_skipped_fit_keeps_model_witness :
  let out := Crm.crm_process_ftm_report Crm.degenerate_report
               Crm.degenerate_report Crm.degenerate_report
               Crm.degenerate_report 32 Crm.example_crm 0%nat in
  Crm.model (fst out) = Crm.example_prior_model /\ snd out = 0%nat.
Proof.
  intros out.
  destruct (crm_skipped_fit_keeps_model nat Crm.example_crm 0%nat
              Crm.degenerate_report Crm.degenerate_report
              Crm.degenerate_report Crm.degenerate_report 32)
    as (Hm & _ & _ & _ & _ & _ & He).
  - right. left. vm_compute. reflexivity.
  - split; [exact Hm | exact He].
Defined.

Section CrmValidity.

Import Crm.

Variable Env : Type.

(** Two positive finite doubles with the same exponent compare by their
    mantissas. *)
Lemma sf_leb_ltb_same_exponent (m mc mt : positive) (e ec : Z) :
  (mc < mt)%positive ->
  SFleb (S754_finite false m e) (S754_finite false mc ec) = true ->
  SFltb (S754_finite false mt ec) (S754_finite false m e) = false.
Proof.
  intros Hlt. unfold SFleb, SFltb, SFcompare.
  rewrite (Z.compare_antisym e ec).
  destruct (Z.compare_spec e ec) as [He|He|He]; cbn [CompOpp];
    [|reflexivity|discriminate].
  fold (Pos.compare m mc). fold (Pos.compare mt m).
  intros H.
  destruct (Pos.compare_spec mt m) as [Hm|Hm|Hm]; try reflexivity;
    destruct (Pos.compare_spec m mc) as [Hc|Hc|Hc]; try discriminate; lia.
Qed.

(** A value of [r_squared] that is at most 0.999 does not pass the test
    [r_squared > CRM_R_SQUARED_THRESHOLD], whose threshold [0.999f] lies just
    above 0.999. *)
Lemma r_squared_at_most_threshold (x : float) :
  (x <=? R_SQUARED_BOUND)%float = true ->
  (CRM_R_SQUARED_THRESHOLD <? x)%float = false.
Proof.
  rewrite leb_spec, ltb_spec.
  assert (E1 : Prim2SF R_SQUARED_BOUND = S754_finite false 8998192055486251 (-53))
    by (vm_compute; reflexivity).
  assert (E2 : Prim2SF CRM_R_SQUARED_THRESHOLD
               = S754_finite false 8998192171450368 (-53))
    by (vm_compute; reflexivity).
  rewrite E1, E2.
  destruct (Prim2SF x) as [s|s| |s m e].
  - destruct s; reflexivity.
  - destruct s; [reflexivity | discriminate].
  - discriminate.
  - destruct s; [reflexivity|].
    apply sf_leb_ltb_same_exponent. reflexivity.
Qed.

(** C10: when the regression succeeds (enough samples, [num] and [den] not
    zero) and [r_squared <= 0.999], [crm_process_ftm_report] still overwrites
    the slopes and the reference point with the new fit, sets [valid] to
    false, and still invokes the registered callback, on the new model. *)
Theorem crm_publishes_invalid_fit (c : crm_t Env) (env : Env)
  t1_ps t2_ps t3_ps t4_ps cnt cb :
  let r := add_report_samples t1_ps t2_ps t3_ps t4_ps cnt (s_regression_samples c) in
  let out := crm_process_ftm_report t1_ps t2_ps t3_ps t4_ps cnt c env in
  let num := regression_num r in
  let den := regression_den r in
  cnt <> 0 -> s_callback c = Some cb ->
  fit_succeeds r ->
  (regression_r_squared r <=? R_SQUARED_BOUND)%float = true ->
  crm_valid (model (fst out)) = false /\
  crm_slope_lr_m1 (model (fst out)) = ((num - den) / den)%float /\
  crm_slope_rl_m1 (model (fst out)) = ((den - num) / num)%float /\
  crm_local_ref_ps (model (fst out)) = Fp.to_int64_trunc (regression_mean_y r) /\
  crm_remote_ref_ps (model (fst out)) = Fp.to_int64_trunc (regression_mean_x r) /\
  snd out = cb (model (fst out)) env.
Proof.
  intros r out num den Hcnt Hcb Hfit Hr2.
  set (c1 := mk_crm (model c) r (s_callback c) (s_r_squared c)
               (s_residual_std_ns c) (s_sample_count c)).
  assert (Hout : out = (let '(ok, c2) := perform_regression c1 in
                        if ok then
                          match s_callback c2 with
                          | Some cb => (c2, cb (model c2) env)
                          | None => (c2, env)
                          end
                        else (c2, env))).
  { unfold out, crm_process_ftm_report. apply Z.eqb_neq in Hcnt.
    rewrite Hcnt. reflexivity. }
  destruct (perform_regression_succeeds Env c1 Hfit) as (Hok & Hm & Hcb' & _).
  destruct (perform_regression c1) as [ok c2]. cbn [fst snd] in *.
  subst ok. change (s_callback c1) with (s_callback c) in Hcb'.
  rewrite Hcb in Hcb'. rewrite Hcb' in Hout. rewrite Hout. cbn [fst snd].
  change (s_regression_samples c1) with r in Hm. rewrite Hm.
  cbn [crm_valid crm_slope_lr_m1 crm_slope_rl_m1 crm_local_ref_ps crm_remote_ref_ps].
  rewrite (r_squared_at_most_threshold _ Hr2). repeat split; reflexivity.
Qed.

End CrmValidity.

(** A poor fit (r_squared about 0.93) over the state that held a valid model:
    the model is replaced, marked invalid, and the callback has run once. *)
Lemma crm_publishes_invalid_fit_witness :
  let out := Crm.crm_process_ftm_report Crm.noisy_remote Crm.noisy_local
               Crm.noisy_local Crm.noisy_remote 32 Crm.example_crm 0%nat in
  Crm.crm_valid (Crm.model (fst out)) = false /\
  Crm.crm_local_ref_ps (Crm.model (fst out)) = 18000 /\
  Crm.crm_remote_ref_ps (Crm.model (fst out)) = 15500 /\
  snd out = 1%nat.
Proof.
  intros out.
  destruct (crm_publishes_invalid_fit nat Crm.example_crm 0%nat
              Crm.noisy_remote Crm.noisy_local Crm.noisy_local
              Crm.noisy_remote 32 (fun _ n => S n))
    as (Hv & _ & _ & Hl & Hr & He).
  - discriminate.
  - reflexivity.
  - unfold Crm.fit_succeeds. split; [zclosed|].
    split; vm_compute; reflexivity.
  - vm_compute. reflexivity.
  - fold out in Hv, Hl, Hr, He. split; [exact Hv|].
    split; [rewrite Hl; vm_compute; reflexivity|].
    split; [rewrite Hr; vm_compute; reflexivity | exact He].
Defined.

(** ** Rounding of binary64 subtraction and division

    The slopes of a fit are two quotients of rounded differences.  The
    bounds below are derived from the definitions of [SpecFloat], which the
    primitive operations are specified to follow: a shifted mantissa keeps
    track of the real it truncates ([inbetween]), rounding to nearest even
    moves it by at most half a unit, and the exponent chosen by [fexp]
    turns that into a relative error of [2^-prec]. *)

Section Dyadic.

Import Fp.

Local Open Scope Q_scope.

(** Powers of two, as rationals. *)
Lemma pow2_pos e : 0 < 2 ^ e.
Proof. apply Qpower_0_lt. reflexivity. Qed.

Lemma pow2_add a b : 2 ^ (a + b) == 2 ^ a * 2 ^ b.
Proof. apply Qpower_plus. discriminate. Qed.

Lemma pow2_le a b : (a <= b)%Z -> 2 ^ a <= 2 ^ b.
Proof. intros H. apply Qpower_le_compat_l; [exact H | discriminate]. Qed.

Lemma pow2_lt a b : (a < b)%Z -> 2 ^ a < 2 ^ b.
Proof. intros H. apply Qpower_lt_compat_l; [exact H | reflexivity]. Qed.

Lemma pow2_lt_inv a b : 2 ^ a < 2 ^ b -> (a < b)%Z.
Proof. intros H. apply (Qpower_lt_compat_l_inv 2); [exact H | reflexivity]. Qed.

Lemma pow2_Z n : (0 <= n)%Z -> 2 ^ n == inject_Z (2 ^ n).
Proof. intros H. symmetry. apply (Zpower_Qpower 2 n H). Qed.

Lemma pow2_succ a : 2 ^ (a + 1) == 2 * 2 ^ a.
Proof. rewrite pow2_add. change (2 ^ 1) with 2. ring. Qed.

Lemma pow2_pred a : 2 ^ (a - 1) == (1 # 2) * 2 ^ a.
Proof.
  replace a with ((a - 1) + 1)%Z at 2 by lia. rewrite pow2_succ. field.
Qed.

Lemma inject_Z_xI p : inject_Z (Zpos p~1) == 2 * inject_Z (Zpos p) + 1.
Proof. rewrite (Pos2Z.inj_xI p), inject_Z_plus, inject_Z_mult. reflexivity. Qed.

Lemma inject_Z_xO p : inject_Z (Zpos p~0) == 2 * inject_Z (Zpos p).
Proof. rewrite (Pos2Z.inj_xO p), inject_Z_mult. reflexivity. Qed.

Lemma inject_Z_double k : inject_Z (2 * k) == 2 * inject_Z k.
Proof. rewrite inject_Z_mult. reflexivity. Qed.

Lemma inject_Z_cond_Zopp s z :
  inject_Z (cond_Zopp s z) == signq s * inject_Z z.
Proof.
  destruct s; cbn [cond_Zopp signq]; [rewrite inject_Z_opp|]; ring.
Qed.

(** [digits2_pos p] is the number of binary digits of [p]. *)
Lemma digits2_pos_bounds p :
  (2 ^ (Zpos (digits2_pos p) - 1) <= Zpos p < 2 ^ Zpos (digits2_pos p))%Z.
Proof.
  induction p as [p IH|p IH|]; cbn [digits2_pos].
  - rewrite Pos2Z.inj_succ, (Pos2Z.inj_xI p).
    replace (Z.succ (Zpos (digits2_pos p)) - 1)%Z
      with (Z.succ (Zpos (digits2_pos p) - 1)) by lia.
    rewrite !Z.pow_succ_r by lia.
    destruct IH as [Hl Hu]. revert Hl Hu.
    generalize (2 ^ (Zpos (digits2_pos p) - 1))%Z (2 ^ Zpos (digits2_pos p))%Z.
    intros; lia.
  - rewrite Pos2Z.inj_succ, (Pos2Z.inj_xO p).
    replace (Z.succ (Zpos (digits2_pos p)) - 1)%Z
      with (Z.succ (Zpos (digits2_pos p) - 1)) by lia.
    rewrite !Z.pow_succ_r by lia.
    destruct IH as [Hl Hu]. revert Hl Hu.
    generalize (2 ^ (Zpos (digits2_pos p) - 1))%Z (2 ^ Zpos (digits2_pos p))%Z.
    intros; lia.
  - split; [now vm_compute | reflexivity].
Qed.

Lemma Zdigits2_nonneg m : (0 <= Zdigits2 m)%Z.
Proof. destruct m; cbn; lia. Qed.

Lemma Zdigits2_bounds m :
  (0 < m)%Z ->
  2 ^ (Zdigits2 m - 1) <= inject_Z m /\ inject_Z m < 2 ^ Zdigits2 m.
Proof.
  intros H. destruct m as [|p|p]; try lia. cbn [Zdigits2].
  pose proof (digits2_pos_bounds p) as [Hl Hu].
  rewrite !pow2_Z by lia. split.
  - rewrite <- Zle_Qle. exact Hl.
  - rewrite <- Zlt_Qlt. exact Hu.
Qed.

Lemma Zdigits2_succ_le m : (0 <= m)%Z -> inject_Z m + 1 <= 2 ^ Zdigits2 m.
Proof.
  intros H. destruct m as [|p|p]; [discriminate| |lia].
  cbn [Zdigits2]. pose proof (digits2_pos_bounds p) as [_ Hu].
  rewrite pow2_Z by lia. change 1 with (inject_Z 1).
  rewrite <- inject_Z_plus, <- Zle_Qle. lia.
Qed.

Lemma Zdigits2_succ_le_Z q : (0 <= q)%Z -> (q + 1 <= 2 ^ Zdigits2 q)%Z.
Proof.
  intros H. destruct q as [|p|p]; [cbn; lia| |lia].
  cbn [Zdigits2]. pose proof (digits2_pos_bounds p). lia.
Qed.

Lemma Zdigits2_le m k :
  (0 <= k)%Z -> (0 <= m < 2 ^ k)%Z -> (Zdigits2 m <= k)%Z.
Proof.
  intros Hk [H0 Hm]. destruct m as [|p|p]; [exact Hk| |lia].
  cbn [Zdigits2]. pose proof (digits2_pos_bounds p) as [Hl _].
  assert (H : (2 ^ (Zpos (digits2_pos p) - 1) < 2 ^ k)%Z) by lia.
  apply Z.pow_lt_mono_r_iff in H; lia.
Qed.

Lemma Zdigits2_pow2 k : (0 <= k)%Z -> Zdigits2 (2 ^ k) = (k + 1)%Z.
Proof.
  intros Hk. assert (H : (0 < 2 ^ k)%Z) by (apply Z.pow_pos_nonneg; lia).
  destruct (2 ^ k)%Z as [|p|p] eqn:E; try lia.
  cbn [Zdigits2]. pose proof (digits2_pos_bounds p) as [Hl Hu].
  rewrite <- E in Hl, Hu.
  apply Z.pow_le_mono_r_iff in Hl; [|lia|lia].
  apply Z.pow_lt_mono_r_iff in Hu; lia.
Qed.

Lemma Zdigits2_unique m d :
  (0 < m)%Z -> (2 ^ (d - 1) <= m < 2 ^ d)%Z -> Zdigits2 m = d.
Proof.
  intros Hm [Hl Hu]. destruct m as [|p|p]; try lia. cbn [Zdigits2].
  pose proof (digits2_pos_bounds p) as [Hl' Hu'].
  assert (Hd : (1 <= d)%Z).
  { destruct (Z.le_gt_cases 1 d) as [H|H]; [exact H|].
    assert (H0 : (2 ^ d <= 2 ^ 0)%Z) by (apply Z.pow_le_mono_r; lia).
    change (2 ^ 0)%Z with 1%Z in H0. lia. }
  assert (H1 : (2 ^ (Zpos (digits2_pos p) - 1) < 2 ^ d)%Z) by lia.
  assert (H2 : (2 ^ (d - 1) < 2 ^ Zpos (digits2_pos p))%Z) by lia.
  apply Z.pow_lt_mono_r_iff in H1; [|lia|lia].
  apply Z.pow_lt_mono_r_iff in H2; [|lia|lia].
  lia.
Qed.

Lemma Zdigits2_mul_pow2 m n :
  (0 < m)%Z -> (0 <= n)%Z -> Zdigits2 (m * 2 ^ n) = (Zdigits2 m + n)%Z.
Proof.
  intros Hm Hn.
  assert (Hp : (0 < 2 ^ n)%Z) by (apply Z.pow_pos_nonneg; lia).
  apply Zdigits2_unique; [nia|].
  destruct m as [|p|p]; try lia. cbn [Zdigits2].
  pose proof (digits2_pos_bounds p) as [Hl Hu].
  replace (Zpos (digits2_pos p) + n - 1)%Z
    with ((Zpos (digits2_pos p) - 1) + n)%Z by lia.
  rewrite !Z.pow_add_r by lia.
  revert Hl Hu Hp.
  generalize (2 ^ (Zpos (digits2_pos p) - 1))%Z (2 ^ Zpos (digits2_pos p))%Z
    (2 ^ n)%Z.
  intros A B C Hl Hu Hp. split; nia.
Qed.

(** Appending [d] zero bits multiplies by [2^d]. *)
Lemma Pos_iter_xO m d : Zpos (Pos.iter xO m d) = (Zpos m * 2 ^ Zpos d)%Z.
Proof.
  rewrite (Pos.iter_swap_gen _ _ Zpos xO (Z.mul 2)) by reflexivity.
  change (Pos.iter (Z.mul 2) (Zpos m) d) with (Z.shiftl (Zpos m) (Zpos d)).
  apply Z.shiftl_mul_pow2. lia.
Qed.

(** Signs and magnitudes of finite values. *)
Lemma signq_abs s q : 0 <= q -> Qabs (signq s * q) == q.
Proof.
  intros H. destruct s; cbn [signq].
  - setoid_replace (- (1) * q) with (- q) by ring.
    rewrite Qabs_opp. apply Qabs_pos. exact H.
  - setoid_replace (1 * q) with q by ring. apply Qabs_pos. exact H.
Qed.

Lemma signq_mul s1 s2 : signq (xorb s1 s2) == signq s1 * signq s2.
Proof. destruct s1, s2; reflexivity. Qed.

Lemma mag_nonneg m e : 0 <= inject_Z (Zpos m) * 2 ^ e.
Proof.
  apply Qmult_le_0_compat; [discriminate|apply Qlt_le_weak, pow2_pos].
Qed.

Lemma mag_pos m e : 0 < inject_Z (Zpos m) * 2 ^ e.
Proof.
  apply Qmult_lt_0_compat; [reflexivity|apply pow2_pos].
Qed.

(** The position of a proper fraction [K / N] with respect to one half. *)
Lemma frac_lt_half K N t :
  t * N == K -> 0 < K -> 2 * K < N -> 0 < t /\ t < 1 # 2.
Proof. intros Ht HK H. split; nra. Qed.

Lemma frac_gt_half K N t :
  t * N == K -> 0 < K -> K < N -> N < 2 * K -> 1 # 2 < t /\ t < 1.
Proof. intros Ht HK H1 H2. split; nra. Qed.

Lemma frac_eq_half K N t :
  t * N == K -> 0 < N -> 2 * K == N -> t == 1 # 2.
Proof.
  intros Ht HN H. assert (H0 : (t - (1 # 2)) * N == 0) by lra.
  apply Qmult_integral in H0. destruct H0 as [H0|H0]; lra.
Qed.

End Dyadic.

Section Location.

Import Fp.

Local Open Scope Q_scope.

Lemma inbetween_ext m l x y : x == y -> inbetween m l x -> inbetween m l y.
Proof. intros E. destruct l as [|[]]; cbn; rewrite E; auto. Qed.

Lemma inbetween_bounds m l x :
  inbetween m l x -> inject_Z m <= x /\ x < inject_Z m + 1.
Proof. destruct l as [|[]]; cbn; intros; lra. Qed.

Lemma shr_record_of_loc_m m l : shr_m (shr_record_of_loc m l) = m.
Proof. destruct l as [|[]]; reflexivity. Qed.

Lemma loc_of_shr_record_of_loc m l :
  loc_of_shr_record (shr_record_of_loc m l) = l.
Proof. destruct l as [|[]]; reflexivity. Qed.

Ltac shr_cases r s E :=
  destruct r, s; cbn; intros H; (split; [lia|]);
  change (inject_Z 0) with 0 in *; change (inject_Z 1) with 1 in *;
  pose proof E as HE; revert H HE;
  repeat match goal with
         | |- context [inject_Z (Zpos ?p)] => generalize (inject_Z (Zpos p))
         end;
  intros; lra.

(** Dropping one bit of the mantissa halves the real it stands for; the
    round and sticky bits keep its position. *)
Lemma shr_1_inbetween mrs x :
  (0 <= shr_m mrs)%Z ->
  inbetween (shr_m mrs) (loc_of_shr_record mrs) x ->
  (0 <= shr_m (shr_1 mrs))%Z /\
  inbetween (shr_m (shr_1 mrs)) (loc_of_shr_record (shr_1 mrs)) (x * (1 # 2)).
Proof.
  destruct mrs as [m r s]. cbn [shr_m]. intros Hm.
  destruct m as [|p|p]; [| |lia].
  - shr_cases r s I.
  - destruct p as [p|p|].
    + shr_cases r s (inject_Z_xI p).
    + shr_cases r s (inject_Z_xO p).
    + shr_cases r s I.
Qed.

Lemma iter_pos_shr_1_inbetween p : forall mrs x,
  (0 <= shr_m mrs)%Z ->
  inbetween (shr_m mrs) (loc_of_shr_record mrs) x ->
  (0 <= shr_m (iter_pos shr_1 p mrs))%Z /\
  inbetween (shr_m (iter_pos shr_1 p mrs))
    (loc_of_shr_record (iter_pos shr_1 p mrs)) (x * 2 ^ (- Zpos p)).
Proof.
  induction p as [p IH|p IH|]; intros mrs x Hm Hx; cbn [iter_pos].
  - destruct (shr_1_inbetween mrs x Hm Hx) as [Hm1 Hx1].
    destruct (IH _ _ Hm1 Hx1) as [Hm2 Hx2].
    destruct (IH _ _ Hm2 Hx2) as [Hm3 Hx3].
    split; [exact Hm3|]. eapply inbetween_ext; [|exact Hx3].
    replace (- Zpos p~1)%Z with (-1 + (- Zpos p + - Zpos p))%Z by lia.
    rewrite !pow2_add. change (2 ^ (-1)) with (1 # 2). ring.
  - destruct (IH _ _ Hm Hx) as [Hm2 Hx2].
    destruct (IH _ _ Hm2 Hx2) as [Hm3 Hx3].
    split; [exact Hm3|]. eapply inbetween_ext; [|exact Hx3].
    replace (- Zpos p~0)%Z with (- Zpos p + - Zpos p)%Z by lia.
    rewrite !pow2_add. ring.
  - exact (shr_1_inbetween mrs x Hm Hx).
Qed.

(** Rounding to nearest even moves to an integer at distance at most 1/2. *)
Lemma round_nearest_even_spec m l x :
  (0 <= m)%Z -> inbetween m l x ->
  (m <= round_nearest_even m l <= m + 1)%Z /\
  Qabs (inject_Z (round_nearest_even m l) - x) <= 1 # 2 /\
  (l = loc_Exact -> round_nearest_even m l = m).
Proof.
  intros Hm Hx.
  assert (E1 : inject_Z (m + 1) == inject_Z m + 1)
    by (rewrite inject_Z_plus; reflexivity).
  split; [|split].
  - destruct l as [|[]]; cbn; try destruct (Z.even m); lia.
  - apply Qabs_Qle_condition.
    destruct l as [|[]]; cbn in *; try destruct (Z.even m);
      rewrite ?E1; lra.
  - intros ->. reflexivity.
Qed.

(** The location computed from the remainder [k] of a division by [nb]. *)
Lemma new_location_spec q nb k :
  (0 < nb)%Z -> (0 <= k < nb)%Z ->
  inbetween q (new_location nb k) (inject_Z q + inject_Z k / inject_Z nb).
Proof.
  intros Hnb [Hk0 Hk1].
  assert (HN : 0 < inject_Z nb)
    by (change 0 with (inject_Z 0); rewrite <- Zlt_Qlt; exact Hnb).
  assert (Ht : inject_Z k / inject_Z nb * inject_Z nb == inject_Z k)
    by (field; lra).
  assert (Hlt : (2 * k < nb)%Z -> (0 < k)%Z ->
                inbetween q (loc_Inexact Lt)
                  (inject_Z q + inject_Z k / inject_Z nb)).
  { intros H2 H0. rewrite Zlt_Qlt, inject_Z_double in H2.
    rewrite Zlt_Qlt in H0. change (inject_Z 0) with 0 in H0.
    destruct (frac_lt_half _ _ _ Ht H0 H2). cbn [inbetween]. split; lra. }
  assert (Hgt : (nb < 2 * k)%Z -> (0 < k)%Z ->
                inbetween q (loc_Inexact Gt)
                  (inject_Z q + inject_Z k / inject_Z nb)).
  { intros H2 H0. rewrite Zlt_Qlt, inject_Z_double in H2.
    rewrite Zlt_Qlt in H0, Hk1. change (inject_Z 0) with 0 in H0.
    destruct (frac_gt_half _ _ _ Ht H0 Hk1 H2). cbn [inbetween]. split; lra. }
  unfold new_location.
  destruct (Z.even nb) eqn:Ev.
  - unfold new_location_even. destruct (Z.eqb_spec k 0) as [->|Hk0'].
    + cbn. change (inject_Z 0) with 0. field. lra.
    + destruct (Z.compare_spec (2 * k) nb) as [He|Hl|Hg].
      * cbn [inbetween].
        assert (H2 : 2 * inject_Z k == inject_Z nb)
          by (rewrite <- He, inject_Z_mult; reflexivity).
        rewrite (frac_eq_half _ _ _ Ht HN H2). reflexivity.
      * apply Hlt; lia.
      * apply Hgt; lia.
  - unfold new_location_odd. destruct (Z.eqb_spec k 0) as [->|Hk0'].
    + cbn. change (inject_Z 0) with 0. field. lra.
    + assert (Hodd : exists m, nb = (2 * m + 1)%Z).
      { apply Z.odd_spec. rewrite <- Z.negb_even, Ev. reflexivity. }
      destruct Hodd as [m Hm].
      destruct (Z.compare_spec (2 * k + 1) nb) as [He|Hl|Hg].
      * apply Hlt; lia.
      * apply Hlt; lia.
      * apply Hgt; lia.
Qed.

End Location.

Section Rounding.

Import Fp.

Local Open Scope Q_scope.

(** A binary format: [prec] bits of mantissa, exponents below [emax]. *)
Variables prec emax : Z.
Hypothesis Hprec : (0 < prec)%Z.
Hypothesis Hemax : (2 <= emax)%Z.

Local Abbreviation emin := (SpecFloat.emin prec emax).
Local Abbreviation fexp := (SpecFloat.fexp prec emax).

Lemma fexp_spec e : fexp e = Z.max (e - prec) emin.
Proof. reflexivity. Qed.

Lemma fexp_cases mx ex :
  (0 <= mx)%Z -> (ex <= fexp (Zdigits2 mx + ex))%Z ->
  fexp (Zdigits2 mx + ex) = emin \/
  ((0 < mx)%Z /\ fexp (Zdigits2 mx + ex) = (Zdigits2 mx + ex - prec)%Z).
Proof.
  rewrite fexp_spec. intros Hm He.
  destruct mx as [|p|p]; [left; cbn [Zdigits2] in *; lia| |lia].
  destruct (Z.max_spec (Zdigits2 (Zpos p) + ex - prec) emin) as [[_ H]|[_ H]];
    [left; exact H|right; split; [lia|exact H]].
Qed.

(** The first shift of [binary_round_aux] brings the exponent to [fexp]. *)
Lemma shr_fexp_inbetween mx ex lx x :
  (0 <= mx)%Z -> inbetween mx lx x ->
  (ex <= fexp (Zdigits2 mx + ex))%Z ->
  exists mrs,
    shr_fexp prec emax mx ex lx = (mrs, fexp (Zdigits2 mx + ex)) /\
    (0 <= shr_m mrs)%Z /\
    inbetween (shr_m mrs) (loc_of_shr_record mrs)
      (x * 2 ^ (ex - fexp (Zdigits2 mx + ex))) /\
    (fexp (Zdigits2 mx + ex) = ex -> mrs = shr_record_of_loc mx lx).
Proof.
  intros Hm Hx He. unfold shr_fexp, shr.
  set (E := fexp (Zdigits2 mx + ex)) in *.
  destruct (E - ex)%Z as [|p|p] eqn:En; [| |lia].
  - assert (E = ex) as -> by lia. eexists. split; [reflexivity|].
    rewrite shr_record_of_loc_m, loc_of_shr_record_of_loc.
    split; [exact Hm|]. split; [|reflexivity].
    eapply inbetween_ext; [|exact Hx]. rewrite Z.sub_diag.
    change (2 ^ 0) with 1. ring.
  - eexists. split; [f_equal; lia|].
    destruct (iter_pos_shr_1_inbetween p (shr_record_of_loc mx lx) x) as [H1 H2].
    + rewrite shr_record_of_loc_m. exact Hm.
    + rewrite shr_record_of_loc_m, loc_of_shr_record_of_loc. exact Hx.
    + split; [exact H1|]. split; [|lia].
      replace (ex - E)%Z with (- Zpos p)%Z by lia. exact H2.
Qed.

(** The second shift does nothing, unless rounding carried into a new bit. *)
Lemma shr_fexp_small m e :
  (0 <= m < 2 ^ prec)%Z -> (emin <= e)%Z ->
  shr_fexp prec emax m e loc_Exact = (Build_shr_record m false false, e).
Proof.
  intros Hm He. unfold shr_fexp, shr. cbn [shr_record_of_loc].
  pose proof (Zdigits2_le m prec ltac:(lia) Hm) as Hd.
  rewrite fexp_spec.
  destruct (Z.max (Zdigits2 m + e - prec) emin - e)%Z eqn:En;
    [reflexivity|lia|reflexivity].
Qed.

Lemma shr_fexp_carry e :
  (emin <= e)%Z ->
  shr_fexp prec emax (2 ^ prec) e loc_Exact =
    (Build_shr_record (2 ^ (prec - 1)) false false, (e + 1)%Z).
Proof.
  intros He. unfold shr_fexp, shr. cbn [shr_record_of_loc].
  rewrite Zdigits2_pow2 by lia. rewrite fexp_spec.
  replace (Z.max (prec + 1 + e - prec) emin - e)%Z with 1%Z by lia.
  cbn [iter_pos]. f_equal.
  replace (2 ^ prec)%Z with (2 * 2 ^ (prec - 1))%Z
    by (rewrite <- Z.pow_succ_r by lia; f_equal; lia).
  assert (H : (0 < 2 ^ (prec - 1))%Z) by (apply Z.pow_pos_nonneg; lia).
  destruct (2 ^ (prec - 1))%Z as [|q|q]; try lia. reflexivity.
Qed.

(** [binary_round_aux] on a located mantissa: the result is [m1 * 2^E], at
    most half a unit [2^E] away from the real it rounds, and exact when
    nothing is shifted out. *)
Theorem binary_round_aux_correct sx mx ex lx x :
  (0 <= mx)%Z -> inbetween mx lx x ->
  (ex <= fexp (Zdigits2 mx + ex))%Z ->
  let E := fexp (Zdigits2 mx + ex) in
  exists m1 e2 : Z,
    (0 <= m1 <= 2 ^ prec)%Z /\
    Qabs (inject_Z m1 * 2 ^ E - x * 2 ^ ex) <= (1 # 2) * 2 ^ E /\
    (lx = loc_Exact -> E = ex -> inject_Z m1 == x) /\
    (e2 = E \/ (e2 = E + 1 /\ m1 = 2 ^ prec)%Z) /\
    ((e2 <= emax - prec)%Z ->
     exists v, SFvalue (binary_round_aux prec emax sx mx ex lx) = Some v /\
               v == signq sx * (inject_Z m1 * 2 ^ E)).
Proof.
  intros Hm Hx He E.
  destruct (shr_fexp_inbetween mx ex lx x Hm Hx He) as (mrs & Hs & Hms & Hin & Hex).
  fold E in Hs, Hin, Hex.
  assert (HE : (emin <= E)%Z) by (unfold E; rewrite fexp_spec; lia).
  assert (HEd : (Zdigits2 mx + ex - prec <= E)%Z)
    by (unfold E; rewrite fexp_spec; lia).
  set (x' := x * 2 ^ (ex - E)) in *.
  destruct (round_nearest_even_spec _ _ _ Hms Hin) as (Hr1 & Hr2 & Hr3).
  set (m1 := round_nearest_even (shr_m mrs) (loc_of_shr_record mrs)) in *.
  assert (Hxx : x' * 2 ^ E == x * 2 ^ ex).
  { unfold x'. rewrite <- Qmult_assoc, <- pow2_add.
    replace (ex - E + E)%Z with ex by lia. reflexivity. }
  assert (Hlt : (shr_m mrs < 2 ^ prec)%Z).
  { rewrite Zlt_Qlt, <- pow2_Z by lia.
    destruct (inbetween_bounds _ _ _ Hin) as [Hl _].
    destruct (inbetween_bounds _ _ _ Hx) as [_ Hu].
    pose proof (Zdigits2_succ_le mx Hm) as Hd.
    apply Qle_lt_trans with (1 := Hl). unfold x'.
    apply Qlt_le_trans with (2 ^ Zdigits2 mx * 2 ^ (ex - E)).
    - apply Qmult_lt_compat_r; [apply pow2_pos|]. lra.
    - rewrite <- pow2_add. apply pow2_le. lia. }
  exists m1.
  assert (Herr : Qabs (inject_Z m1 * 2 ^ E - x * 2 ^ ex) <= (1 # 2) * 2 ^ E).
  { rewrite <- Hxx. apply Qabs_Qle_condition in Hr2.
    apply Qabs_Qle_condition. pose proof (pow2_pos E) as HP.
    revert Hr2 HP. generalize (inject_Z m1) (2 ^ E) x'. intros a P b Hr2 HP.
    split; nra. }
  assert (Hexact : lx = loc_Exact -> E = ex -> inject_Z m1 == x).
  { intros -> HEe. pose proof (Hex HEe) as Hmrs. unfold m1.
    rewrite Hmrs in Hin |- *.
    cbn [shr_record_of_loc shr_m loc_of_shr_record inbetween
         round_nearest_even] in Hin |- *.
    rewrite <- Hin. unfold x'. rewrite HEe, Z.sub_diag.
    change (2 ^ 0) with 1. ring. }
  destruct (Z.eq_dec m1 (2 ^ prec)) as [Hc|Hc].
  - exists (E + 1)%Z. split; [lia|]. split; [exact Herr|].
    split; [exact Hexact|]. split; [right; split; [reflexivity|exact Hc]|].
    intros Hfin. unfold binary_round_aux. rewrite Hs. fold m1.
    rewrite Hc, (shr_fexp_carry E HE). cbn [shr_m].
    assert (H : (0 < 2 ^ (prec - 1))%Z) by (apply Z.pow_pos_nonneg; lia).
    destruct (2 ^ (prec - 1))%Z as [|q|q] eqn:Eq; try lia.
    apply Z.leb_le in Hfin. rewrite Hfin. eexists. split; [reflexivity|].
    rewrite <- Eq. rewrite pow2_succ.
    replace (2 ^ prec)%Z with (2 * 2 ^ (prec - 1))%Z
      by (rewrite <- Z.pow_succ_r by lia; f_equal; lia).
    rewrite inject_Z_mult. change (inject_Z 2) with 2. ring.
  - exists E. split; [lia|]. split; [exact Herr|].
    split; [exact Hexact|]. split; [left; reflexivity|].
    intros Hfin. unfold binary_round_aux. rewrite Hs. fold m1.
    rewrite (shr_fexp_small m1 E) by lia. cbn [shr_m].
    destruct m1 as [|q|q] eqn:Eq; try lia.
    + eexists. split; [reflexivity|]. change (inject_Z 0) with 0. ring.
    + apply Z.leb_le in Hfin. rewrite Hfin. eexists. split; reflexivity.
Qed.

(** Half a unit in the last place of a normal result, relative to the real
    it rounds. *)
Lemma half_ulp_relative mx ex x :
  (0 < mx)%Z -> inject_Z mx <= x ->
  (1 # 2) * 2 ^ (Zdigits2 mx + ex - prec) <= 2 ^ (- prec) * (x * 2 ^ ex).
Proof.
  intros Hm Hx. destruct (Zdigits2_bounds mx Hm) as [Hl _].
  replace (Zdigits2 mx + ex - prec)%Z
    with ((Zdigits2 mx - 1) + 1 + ex + - prec)%Z by lia.
  rewrite !pow2_add. change (2 ^ 1) with 2.
  pose proof (pow2_pos ex) as Hex. pose proof (pow2_pos (- prec)) as Hp.
  assert (H : 2 ^ (Zdigits2 mx - 1) <= x) by lra.
  revert H Hex Hp.
  generalize (2 ^ (Zdigits2 mx - 1)) (2 ^ ex) (2 ^ (- prec)).
  intros D P M H Hex Hp.
  assert (H1 : D * P <= x * P) by (apply Qmult_le_compat_r; lra).
  assert (H2 : D * P * M <= x * P * M) by (apply Qmult_le_compat_r; lra).
  lra.
Qed.

(** The same as a bound on the value: a relative error of [2^-prec], plus
    [2^(emin-1)] where the result is subnormal; no overflow below [2^k]. *)
Theorem binary_round_aux_value sx mx ex lx x k :
  (0 <= mx)%Z -> inbetween mx lx x ->
  (ex <= fexp (Zdigits2 mx + ex))%Z ->
  x * 2 ^ ex < 2 ^ k -> (k + 1 <= emax)%Z ->
  exists v,
    SFvalue (binary_round_aux prec emax sx mx ex lx) = Some v /\
    Qabs (v - signq sx * (x * 2 ^ ex))
      <= 2 ^ (- prec) * (x * 2 ^ ex) + 2 ^ (emin - 1) /\
    (lx = loc_Exact -> (emin <= ex)%Z ->
     Qabs (v - signq sx * (x * 2 ^ ex)) <= 2 ^ (- prec) * (x * 2 ^ ex)).
Proof.
  intros Hm Hx He Hk Hke.
  destruct (binary_round_aux_correct sx mx ex lx x Hm Hx He)
    as (m1 & e2 & Hm1 & Herr & Hexact & He2 & Hval).
  set (E := fexp (Zdigits2 mx + ex)) in *.
  destruct (inbetween_bounds _ _ _ Hx) as [Hxl Hxu].
  assert (Hx0 : 0 <= x).
  { apply Qle_trans with (2 := Hxl). change 0 with (inject_Z 0).
    rewrite <- Zle_Qle. exact Hm. }
  pose proof (pow2_pos ex) as Hpex.
  assert (HX0 : 0 <= x * 2 ^ ex) by (apply Qmult_le_0_compat; lra).
  assert (HEk : (E <= Z.max (k - prec) emin)%Z).
  { destruct (fexp_cases mx ex Hm He) as [H|[Hpos H]]; fold E in H; [lia|].
    destruct (Zdigits2_bounds mx Hpos) as [Hl _].
    assert (Hd : 2 ^ (Zdigits2 mx - 1 + ex) < 2 ^ k).
    { apply Qle_lt_trans with (2 := Hk). rewrite pow2_add.
      apply Qmult_le_compat_r; lra. }
    apply pow2_lt_inv in Hd. lia. }
  assert (Hfin : (e2 <= emax - prec)%Z).
  { assert (Hmin : (emin <= emax - prec)%Z) by (unfold SpecFloat.emin; lia).
    destruct He2 as [->|[-> Hc]]; [lia|].
    assert (Hd : 2 ^ (E + (prec - 1)) < 2 ^ k).
    { apply Qabs_Qle_condition in Herr. rewrite Hc in Herr.
      rewrite <- pow2_Z in Herr by lia.
      replace prec with ((prec - 1) + 1)%Z in Herr at 1 2 by lia.
      rewrite pow2_succ in Herr.
      assert (H1 : 1 <= 2 ^ (prec - 1))
        by (change 1 with (2 ^ 0); apply pow2_le; lia).
      rewrite pow2_add. pose proof (pow2_pos E) as HpE.
      revert Herr H1 HpE Hk.
      generalize (2 ^ (prec - 1)) (2 ^ E) (x * 2 ^ ex) (2 ^ k).
      intros a b c d Herr H1 HpE Hk. nra. }
    apply pow2_lt_inv in Hd. lia. }
  destruct (Hval Hfin) as (v & Hv & Hveq). exists v. split; [exact Hv|].
  assert (Habs : Qabs (v - signq sx * (x * 2 ^ ex))
                 == Qabs (inject_Z m1 * 2 ^ E - x * 2 ^ ex)).
  { rewrite Hveq. destruct sx; cbn [signq].
    - setoid_replace (- (1) * (inject_Z m1 * 2 ^ E) - - (1) * (x * 2 ^ ex))
        with (- (inject_Z m1 * 2 ^ E - x * 2 ^ ex)) by ring.
      apply Qabs_opp.
    - setoid_replace (1 * (inject_Z m1 * 2 ^ E) - 1 * (x * 2 ^ ex))
        with (inject_Z m1 * 2 ^ E - x * 2 ^ ex) by ring.
      reflexivity. }
  rewrite Habs.
  assert (Hrel : E = (Zdigits2 mx + ex - prec)%Z -> (0 < mx)%Z ->
                 (1 # 2) * 2 ^ E <= 2 ^ (- prec) * (x * 2 ^ ex)).
  { intros -> Hpos. apply half_ulp_relative; assumption. }
  pose proof (pow2_pos (emin - 1)) as Hpm. pose proof (pow2_pos (- prec)) as Hpp.
  assert (HuX : 0 <= 2 ^ (- prec) * (x * 2 ^ ex))
    by (apply Qmult_le_0_compat; lra).
  split.
  - apply Qle_trans with (1 := Herr).
    destruct (fexp_cases mx ex Hm He) as [H|[Hpos H]]; fold E in H.
    + rewrite H, pow2_pred. rewrite pow2_pred in Hpm. lra.
    + specialize (Hrel H Hpos). lra.
  - intros Hl Hemin.
    destruct (Z.eq_dec E ex) as [HEe|HEe].
    + specialize (Hexact Hl HEe).
      setoid_replace (inject_Z m1 * 2 ^ E - x * 2 ^ ex) with 0
        by (rewrite Hexact, HEe; ring).
      exact HuX.
    + apply Qle_trans with (1 := Herr).
      destruct (fexp_cases mx ex Hm He) as [H|[Hpos H]]; fold E in H; [lia|].
      exact (Hrel H Hpos).
Qed.

(** The integer division of [SFdiv]: quotient, exponent and location. *)
Lemma SFdiv_core_binary_spec m1 e1 m2 e2 :
  exists q e' l,
    SFdiv_core_binary prec emax (Zpos m1) e1 (Zpos m2) e2 = (q, e', l) /\
    (0 <= q)%Z /\
    inbetween q l
      (inject_Z (Zpos m1) / inject_Z (Zpos m2) * 2 ^ (e1 - e2 - e')) /\
    (e' <= fexp (Zdigits2 q + e'))%Z.
Proof.
  unfold SFdiv_core_binary.
  set (d1 := Zdigits2 (Zpos m1)). set (d2 := Zdigits2 (Zpos m2)).
  set (e' := Z.min (fexp (d1 + e1 - (d2 + e2))) (e1 - e2)).
  set (s := (e1 - e2 - e')%Z).
  assert (Hs : (0 <= s)%Z) by (unfold s, e'; lia).
  set (m' := match s with
             | 0%Z => Zpos m1
             | Zpos _ => Z.shiftl (Zpos m1) s
             | Zneg _ => 0%Z
             end).
  assert (Hm' : m' = (Zpos m1 * 2 ^ s)%Z).
  { unfold m'. destruct s eqn:Es;
      [rewrite Z.pow_0_r; lia|rewrite Z.shiftl_mul_pow2 by lia; reflexivity|lia]. }
  clearbody m'.
  pose proof (Z_div_mod m' (Zpos m2) eq_refl) as Hdm.
  destruct (Z.div_eucl m' (Zpos m2)) as [q r]. destruct Hdm as [Heq Hr].
  assert (Hp : (0 < 2 ^ s)%Z) by (apply Z.pow_pos_nonneg; lia).
  assert (Hq : (0 <= q)%Z) by nia.
  exists q, e', (new_location (Zpos m2) r).
  split; [reflexivity|]. split; [exact Hq|]. split.
  - eapply inbetween_ext; [|apply new_location_spec; [reflexivity|exact Hr]].
    fold s. rewrite (pow2_Z s Hs).
    assert (H : inject_Z (Zpos m1) * inject_Z (2 ^ s)
                == inject_Z (Zpos m2) * inject_Z q + inject_Z r).
    { rewrite <- !inject_Z_mult, <- inject_Z_plus, <- Heq, Hm'. reflexivity. }
    assert (H2 : 0 < inject_Z (Zpos m2)) by reflexivity.
    revert H H2. generalize (inject_Z (Zpos m1)) (inject_Z (2 ^ s))
      (inject_Z (Zpos m2)) (inject_Z q) (inject_Z r).
    intros a b c d e H H2.
    setoid_replace (a / c * b) with ((a * b) / c) by (field; lra).
    rewrite H. field. lra.
  - assert (Hd : (d1 - 1 + s < d2 + Zdigits2 q)%Z).
    { pose proof (digits2_pos_bounds m1) as [Hl1 _].
      pose proof (digits2_pos_bounds m2) as [_ Hu2].
      pose proof (Zdigits2_succ_le_Z q Hq) as Hq1.
      pose proof (Zdigits2_nonneg q) as Hdq.
      fold (Zdigits2 (Zpos m1)) in Hl1. fold (Zdigits2 (Zpos m2)) in Hu2.
      fold d1 in Hl1. fold d2 in Hu2.
      assert (Hd1 : (1 <= d1)%Z) by (unfold d1; cbn; lia).
      assert (Hd2 : (1 <= d2)%Z) by (unfold d2; cbn; lia).
      apply (Z.pow_lt_mono_r_iff 2); [lia|lia|].
      rewrite !Z.pow_add_r by lia.
      assert (Hp1 : (0 < 2 ^ (d1 - 1))%Z) by (apply Z.pow_pos_nonneg; lia).
      revert Hl1 Hu2 Hq1 Hp Hp1 Heq Hm'.
      generalize (2 ^ (d1 - 1))%Z (2 ^ d2)%Z (2 ^ Zdigits2 q)%Z (2 ^ s)%Z.
      intros A B C D Hl1 Hu2 Hq1 Hp Hp1 Heq Hm'.
      assert (H1 : (A * D <= Zpos m1 * D)%Z) by nia.
      assert (H2 : (Zpos m2 * (q + 1) <= Zpos m2 * C)%Z) by nia.
      assert (H3 : (Zpos m2 * C < B * C)%Z) by nia.
      lia. }
    unfold e', s, SpecFloat.fexp in *. lia.
Qed.

(** Division of finite values. *)
Lemma SFdiv_finite_value sx mx ex sy my ey k :
  let X := (inject_Z (Zpos mx) * 2 ^ ex) / (inject_Z (Zpos my) * 2 ^ ey) in
  X < 2 ^ k -> (k + 1 <= emax)%Z ->
  exists v,
    SFvalue (SFdiv prec emax (S754_finite sx mx ex) (S754_finite sy my ey))
      = Some v /\
    Qabs (v - signq (xorb sx sy) * X) <= 2 ^ (- prec) * X + 2 ^ (emin - 1).
Proof.
  intros X HX Hk. cbn [SFdiv].
  destruct (SFdiv_core_binary_spec mx ex my ey)
    as (q & e' & l & Hc & Hq & Hin & He).
  rewrite Hc.
  set (x := inject_Z (Zpos mx) / inject_Z (Zpos my) * 2 ^ (ex - ey - e')) in *.
  assert (HxX : x * 2 ^ e' == X).
  { unfold x, X. replace (ex - ey - e')%Z with (ex + (- ey + - e'))%Z by lia.
    rewrite !pow2_add, !Qpower_opp.
    assert (H1 : 0 < inject_Z (Zpos my)) by reflexivity.
    pose proof (pow2_pos ey) as H2. pose proof (pow2_pos e') as H3.
    revert H1 H2 H3.
    generalize (inject_Z (Zpos mx)) (inject_Z (Zpos my)) (2 ^ ex) (2 ^ ey)
      (2 ^ e').
    intros a b c d e H1 H2 H3. field. repeat split; lra. }
  destruct (binary_round_aux_value (xorb sx sy) q e' l x k Hq Hin He)
    as (v & Hv & Hb & _); [rewrite HxX; exact HX|exact Hk|].
  exists v. split; [exact Hv|]. rewrite HxX in Hb. exact Hb.
Qed.

(** Aligning a mantissa to a smaller exponent keeps the value. *)
Lemma shl_align_spec mx ex e :
  (e <= ex)%Z ->
  exists mz, shl_align mx ex e = (mz, e) /\
             Zpos mz = (Zpos mx * 2 ^ (ex - e))%Z.
Proof.
  intros He. unfold shl_align.
  destruct (e - ex)%Z as [|p|p] eqn:Ed; [|lia|].
  - assert (e = ex) as -> by lia. exists mx. split; [reflexivity|].
    rewrite Z.sub_diag. lia.
  - eexists. split; [reflexivity|]. rewrite Pos_iter_xO. f_equal. f_equal. lia.
Qed.

Lemma shl_align_fexp m e :
  (emin <= e)%Z ->
  exists mz ez,
    shl_align m e (fexp (Zpos (digits2_pos m) + e)) = (mz, ez) /\
    (emin <= ez)%Z /\
    (ez <= fexp (Zdigits2 (Zpos mz) + ez))%Z /\
    inject_Z (Zpos mz) * 2 ^ ez == inject_Z (Zpos m) * 2 ^ e.
Proof.
  intros He. set (F := fexp (Zpos (digits2_pos m) + e)).
  assert (HF : (emin <= F)%Z) by (unfold F; rewrite fexp_spec; lia).
  destruct (Z.le_gt_cases F e) as [Hle|Hgt].
  - destruct (shl_align_spec m e F Hle) as (mz & Hs & Hmz).
    exists mz, F. split; [exact Hs|]. split; [exact HF|]. split.
    + rewrite Hmz, Zdigits2_mul_pow2 by lia. cbn [Zdigits2].
      replace (Zpos (digits2_pos m) + (e - F) + F)%Z
        with (Zpos (digits2_pos m) + e)%Z by lia.
      fold F. lia.
    + rewrite Hmz, inject_Z_mult, <- pow2_Z by lia.
      rewrite <- Qmult_assoc, <- pow2_add.
      replace (e - F + F)%Z with e by lia. reflexivity.
  - exists m, e. split.
    + unfold shl_align. destruct (F - e)%Z eqn:Ed; try lia. reflexivity.
    + split; [exact He|]. split; [|reflexivity].
      cbn [Zdigits2]. fold F. lia.
Qed.

(** Rounding an integer mantissa: no absolute term, because a subnormal
    result of an exact input is exact. *)
Lemma binary_round_value s m e k :
  (emin <= e)%Z -> inject_Z (Zpos m) * 2 ^ e < 2 ^ k -> (k + 1 <= emax)%Z ->
  exists v,
    SFvalue (binary_round prec emax s m e) = Some v /\
    Qabs (v - signq s * (inject_Z (Zpos m) * 2 ^ e))
      <= 2 ^ (- prec) * (inject_Z (Zpos m) * 2 ^ e).
Proof.
  intros He HX Hk. unfold binary_round.
  destruct (shl_align_fexp m e He) as (mz & ez & Hs & Hez & Hf & Hval).
  rewrite Hs.
  destruct (binary_round_aux_value s (Zpos mz) ez loc_Exact
              (inject_Z (Zpos mz)) k)
    as (v & Hv & _ & Hb); [lia|reflexivity|exact Hf| |exact Hk|].
  - rewrite Hval. exact HX.
  - exists v. split; [exact Hv|]. specialize (Hb eq_refl Hez).
    rewrite Hval in Hb. exact Hb.
Qed.

(** Subtraction of finite values. *)
Lemma SFsub_finite_value sx mx ex sy my ey k :
  (emin <= ex)%Z -> (emin <= ey)%Z ->
  let X := signq sx * (inject_Z (Zpos mx) * 2 ^ ex)
           - signq sy * (inject_Z (Zpos my) * 2 ^ ey) in
  Qabs X < 2 ^ k -> (k + 1 <= emax)%Z ->
  exists v,
    SFvalue (SFsub prec emax (S754_finite sx mx ex) (S754_finite sy my ey))
      = Some v /\
    Qabs (v - X) <= 2 ^ (- prec) * Qabs X.
Proof.
  intros Hex Hey X HX Hk. cbn [SFsub].
  set (ez := Z.min ex ey).
  destruct (shl_align_spec mx ex ez ltac:(unfold ez; lia)) as (mx' & Hsx & Hmx).
  destruct (shl_align_spec my ey ez ltac:(unfold ez; lia)) as (my' & Hsy & Hmy).
  rewrite Hsx, Hsy. cbn [fst].
  set (D := (cond_Zopp sx (Zpos mx') - cond_Zopp sy (Zpos my'))%Z).
  assert (HD : inject_Z D * 2 ^ ez == X).
  { unfold D, X, Z.sub. rewrite inject_Z_plus, inject_Z_opp, !inject_Z_cond_Zopp.
    rewrite Hmx, Hmy, !inject_Z_mult, <- !pow2_Z by (unfold ez; lia).
    assert (Hx2 : 2 ^ (ex - ez) * 2 ^ ez == 2 ^ ex)
      by (rewrite <- pow2_add; replace (ex - ez + ez)%Z with ex by lia;
          reflexivity).
    assert (Hy2 : 2 ^ (ey - ez) * 2 ^ ez == 2 ^ ey)
      by (rewrite <- pow2_add; replace (ey - ez + ez)%Z with ey by lia;
          reflexivity).
    rewrite <- Hx2, <- Hy2. ring. }
  assert (Hez : (emin <= ez)%Z) by (unfold ez; lia).
  clearbody D. destruct D as [|p|p]; cbn [binary_normalize].
  - exists 0. split; [reflexivity|].
    assert (HX0 : X == 0)
      by (rewrite <- HD; change (inject_Z 0) with 0; ring).
    rewrite HX0. apply Qle_trans with 0; [exact (Qle_refl 0)|].
    apply Qmult_le_0_compat; [apply Qlt_le_weak, pow2_pos|apply Qabs_nonneg].
  - assert (HXp : Qabs X == inject_Z (Zpos p) * 2 ^ ez).
    { rewrite <- HD. apply Qabs_pos. apply Qmult_le_0_compat;
        [discriminate|apply Qlt_le_weak, pow2_pos]. }
    destruct (binary_round_value false p ez k Hez) as (v & Hv & Hb);
      [rewrite <- HXp; exact HX|exact Hk|].
    exists v. split; [exact Hv|]. rewrite HXp, <- HD.
    cbn [signq] in Hb.
    setoid_replace (v - inject_Z (Zpos p) * 2 ^ ez)
      with (v - 1 * (inject_Z (Zpos p) * 2 ^ ez)) by ring.
    exact Hb.
  - assert (Hneg : inject_Z (Zneg p) == - inject_Z (Zpos p))
      by (rewrite <- inject_Z_opp; reflexivity).
    assert (HXp : Qabs X == inject_Z (Zpos p) * 2 ^ ez).
    { rewrite <- HD, Hneg.
      setoid_replace (- inject_Z (Zpos p) * 2 ^ ez)
        with (- (inject_Z (Zpos p) * 2 ^ ez)) by ring.
      rewrite Qabs_opp. apply Qabs_pos. apply Qmult_le_0_compat;
        [discriminate|apply Qlt_le_weak, pow2_pos]. }
    destruct (binary_round_value true p ez k Hez) as (v & Hv & Hb);
      [rewrite <- HXp; exact HX|exact Hk|].
    exists v. split; [exact Hv|]. rewrite HXp, <- HD, Hneg.
    cbn [signq] in Hb.
    setoid_replace (v - - inject_Z (Zpos p) * 2 ^ ez)
      with (v - - (1) * (inject_Z (Zpos p) * 2 ^ ez)) by ring.
    exact Hb.
Qed.

End Rounding.

Section Binary64.

Import Fp.

Local Open Scope Q_scope.

(** A finite double has its exponent in range. *)
Lemma Prim2SF_finite_bounds x s m e :
  Prim2SF x = S754_finite s m e ->
  (SpecFloat.emin prec emax <= e)%Z /\ (Zpos (digits2_pos m) + e <= emax)%Z.
Proof.
  intros H. pose proof (Prim2SF_valid x) as V. rewrite H in V.
  cbn [valid_binary] in V. unfold bounded, canonical_mantissa in V.
  apply andb_true_iff in V. destruct V as [V1 V2].
  apply Z.eqb_eq in V1. apply Z.leb_le in V2.
  unfold SpecFloat.fexp, SpecFloat.emin, prec, emax in *. lia.
Qed.

(** A finite double is below [2^1024] in magnitude. *)
Lemma value_bound x q : value x = Some q -> Qabs q < 2 ^ 1024.
Proof.
  unfold value. destruct (Prim2SF x) as [s|s| |s m e] eqn:E; cbn [SFvalue];
    intros H; try discriminate; injection H as <-.
  - reflexivity.
  - destruct (Prim2SF_finite_bounds x s m e E) as [_ Hu].
    rewrite signq_abs by apply mag_nonneg.
    destruct (Zdigits2_bounds (Zpos m) eq_refl) as [_ Hd]. cbn [Zdigits2] in Hd.
    apply Qlt_le_trans with (2 ^ Zpos (digits2_pos m) * 2 ^ e).
    + apply Qmult_lt_compat_r; [apply pow2_pos|exact Hd].
    + rewrite <- pow2_add. apply pow2_le. exact Hu.
Qed.

(** [a - b] on doubles: relative error at most [2^-53]. *)
Lemma sub_value a b qa qb k :
  value a = Some qa -> value b = Some qb ->
  Qabs (qa - qb) < 2 ^ k -> (k + 1 <= 1024)%Z ->
  exists v, value (a - b) = Some v /\
            Qabs (v - (qa - qb)) <= 2 ^ (-53) * Qabs (qa - qb).
Proof.
  unfold value. rewrite sub_spec. unfold SF64sub.
  assert (Hz : forall q, Qabs (q - q) <= 2 ^ (-53) * Qabs q).
  { intros q. setoid_replace (q - q) with 0 by ring.
    apply Qmult_le_0_compat; [discriminate|apply Qabs_nonneg]. }
  destruct (Prim2SF a) as [sa|sa| |sa ma ea] eqn:Ea;
    destruct (Prim2SF b) as [sb|sb| |sb mb eb] eqn:Eb;
    cbn [SFvalue]; intros Ha Hb; try discriminate;
    injection Ha as <-; injection Hb as <-; intros HX Hk.
  - exists 0. split; [destruct sa, sb; reflexivity|]. apply Hz.
  - eexists. split; [reflexivity|].
    setoid_replace (signq (negb sb) * (inject_Z (Zpos mb) * 2 ^ eb)
                    - (0 - signq sb * (inject_Z (Zpos mb) * 2 ^ eb)))
      with 0 by (destruct sb; cbn [signq negb]; ring).
    apply Qmult_le_0_compat; [discriminate|apply Qabs_nonneg].
  - eexists. split; [reflexivity|].
    setoid_replace (signq sa * (inject_Z (Zpos ma) * 2 ^ ea)
                    - (signq sa * (inject_Z (Zpos ma) * 2 ^ ea) - 0))
      with 0 by ring.
    apply Qmult_le_0_compat; [discriminate|apply Qabs_nonneg].
  - destruct (Prim2SF_finite_bounds a sa ma ea Ea) as [Hea _].
    destruct (Prim2SF_finite_bounds b sb mb eb Eb) as [Heb _].
    exact (SFsub_finite_value prec emax eq_refl ltac:(discriminate)
             sa ma ea sb mb eb k Hea Heb HX Hk).
Qed.

(** [a / b] on doubles: relative error at most [2^-53], plus [2^-1075]. *)
Lemma div_value a b qa qb k :
  value a = Some qa -> value b = Some qb -> ~ qb == 0 ->
  Qabs (qa / qb) < 2 ^ k -> (k + 1 <= 1024)%Z ->
  exists v, value (a / b) = Some v /\
            Qabs (v - qa / qb) <= 2 ^ (-53) * Qabs (qa / qb) + 2 ^ (-1075).
Proof.
  unfold value. rewrite div_spec. unfold SF64div.
  destruct (Prim2SF a) as [sa|sa| |sa ma ea] eqn:Ea;
    destruct (Prim2SF b) as [sb|sb| |sb mb eb] eqn:Eb;
    cbn [SFvalue]; intros Ha Hb; try discriminate;
    injection Ha as <-; injection Hb as <-; intros Hnz HX Hk;
    try (exfalso; apply Hnz; reflexivity).
  - exists 0. split; [reflexivity|].
    set (d := signq sb * (inject_Z (Zpos mb) * 2 ^ eb)) in *.
    setoid_replace (0 / d) with 0 by (field; exact Hnz).
    discriminate.
  - set (Ma := inject_Z (Zpos ma) * 2 ^ ea) in *.
    set (Mb := inject_Z (Zpos mb) * 2 ^ eb) in *.
    assert (HMb : 0 < Mb) by apply mag_pos.
    assert (HMa : 0 < Ma) by apply mag_pos.
    assert (Hq : signq sa * Ma / (signq sb * Mb)
                 == signq (xorb sa sb) * (Ma / Mb)).
    { rewrite signq_mul. destruct sa, sb; cbn [signq]; field; lra. }
    assert (Hpos : 0 <= Ma / Mb).
    { apply Qlt_le_weak, Qlt_shift_div_l; lra. }
    rewrite Hq, signq_abs in HX by exact Hpos.
    destruct (SFdiv_finite_value prec emax eq_refl ltac:(discriminate)
                sa ma ea sb mb eb k HX Hk) as (v & Hv & Hb).
    exists v. split; [exact Hv|].
    rewrite Hq, signq_abs by exact Hpos. exact Hb.
Qed.

(** The computed [(num - den) / den] against the exact [num / den - 1], for
    [num / den] between 1/2 and 2: three unit roundoffs. *)
Lemma slope_error qn qd v1 :
  0 < qd -> qd <= 2 * qn -> qn <= 2 * qd ->
  Qabs (v1 - (qn - qd)) <= UNIT_ROUNDOFF * Qabs (qn - qd) ->
  Qabs (v1 / qd) < 2 /\
  forall a,
    Qabs (a - v1 / qd) <= UNIT_ROUNDOFF * Qabs (v1 / qd) + 2 ^ (-1075) ->
    Qabs (a - (qn / qd - 1)) <= 3 * UNIT_ROUNDOFF.
Proof.
  intros Hd H1 H2 Hs.
  set (u := UNIT_ROUNDOFF) in *.
  assert (Hu : 0 < u /\ u * u + 2 ^ (-1075) <= u /\ u < 1 # 2)
    by (repeat split; reflexivity || discriminate).
  generalize dependent (2 ^ (-1075)). intros eta Hu. clearbody u.
  set (t := qn / qd - 1). set (w := v1 / qd) in *.
  assert (Ht : t * qd == qn - qd) by (unfold t; field; lra).
  assert (Hw : w * qd == v1) by (unfold w; field; lra).
  assert (Htb : Qabs t <= 1).
  { apply Qabs_Qle_condition. split; nra. }
  assert (Hwt : Qabs (w - t) <= u * Qabs t).
  { assert (E : w - t == (v1 - (qn - qd)) * / qd)
      by (rewrite <- Hw, <- Ht; field; lra).
    assert (E2 : Qabs t == Qabs (qn - qd) * / qd).
    { rewrite <- Ht, Qabs_Qmult, (Qabs_pos qd) by lra. field. lra. }
    rewrite E, E2, Qabs_Qmult, (Qabs_pos (/ qd))
      by (apply Qlt_le_weak, Qinv_lt_0_compat; exact Hd).
    rewrite Qmult_assoc. apply Qmult_le_compat_r; [exact Hs|].
    apply Qlt_le_weak, Qinv_lt_0_compat; exact Hd. }
  assert (Hm1 : u * Qabs t <= u * 1) by (apply Qmult_le_l; lra).
  assert (Hwb : Qabs w <= 1 + u).
  { setoid_replace w with (t + (w - t)) by ring.
    eapply Qle_trans; [apply Qabs_triangle|]. lra. }
  split; [lra|]. intros a Ha.
  setoid_replace (a - t) with ((a - w) + (w - t)) by ring.
  eapply Qle_trans; [apply Qabs_triangle|].
  assert (Hm2 : u * Qabs w <= u * (1 + u)) by (apply Qmult_le_l; lra).
  lra.
Qed.

(** Two such slopes, of a ratio and of its inverse. *)
Lemma symmetric_inverse_arith x y a b :
  x * y == 1 -> 1 # 2 <= x -> x <= 2 ->
  Qabs (a - (x - 1)) <= 3 * UNIT_ROUNDOFF ->
  Qabs (b - (y - 1)) <= 3 * UNIT_ROUNDOFF ->
  Qabs ((1 + a) * (1 + b) - 1) <= 1 # 1000000000000.
Proof.
  intros Hxy Hx1 Hx2 Ha Hb.
  assert (He : 0 <= 3 * UNIT_ROUNDOFF /\ 3 * UNIT_ROUNDOFF <= 1 # 1000000000000000)
    by (split; discriminate).
  generalize dependent (3 * UNIT_ROUNDOFF). intros eps Ha Hb He.
  assert (Hy : 1 # 2 <= y /\ y <= 2) by (split; nra).
  apply Qabs_Qle_condition in Ha. apply Qabs_Qle_condition in Hb.
  set (da := a - (x - 1)) in *. set (db := b - (y - 1)) in *.
  setoid_replace ((1 + a) * (1 + b) - 1)
    with (x * y - 1 + x * db + y * da + da * db)
    by (unfold da, db; ring).
  rewrite Hxy. clearbody da db.
  assert (P1 : - (2 * eps) <= x * db /\ x * db <= 2 * eps) by (split; nra).
  assert (P2 : - (2 * eps) <= y * da /\ y * da <= 2 * eps) by (split; nra).
  assert (P3 : - (eps * eps) <= da * db /\ da * db <= eps * eps)
    by (split; nra).
  assert (P4 : eps * eps <= eps) by nra.
  apply Qabs_Qle_condition. split; lra.
Qed.

(** The two slopes computed from finite sums whose ratio lies between 1/2
    and 2: neither operation overflows, and the product of their exact
    values, each increased by 1, is 1 within 1e-12. *)
Theorem slopes_symmetric_inverse num den qn qd :
  value num = Some qn -> value den = Some qd ->
  0 < qd -> qd <= 2 * qn -> qn <= 2 * qd ->
  exists a b,
    value ((num - den) / den) = Some a /\
    value ((den - num) / num) = Some b /\
    Qabs ((1 + a) * (1 + b) - 1) <= 1 # 1000000000000.
Proof.
  intros Hn Hd Hqd H1 H2.
  assert (Hqn : 0 < qn) by lra.
  pose proof (value_bound _ _ Hn) as Bn. pose proof (value_bound _ _ Hd) as Bd.
  rewrite Qabs_pos in Bn, Bd by lra.
  change (2 ^ 1024) with (2 * 2 ^ 1023) in Bn, Bd.
  assert (Hk : (1023 + 1 <= 1024)%Z) by lia.
  assert (Hk1 : (1 + 1 <= 1024)%Z) by lia.
  destruct (sub_value num den qn qd 1023 Hn Hd) as (v1 & Hv1 & E1);
    [apply Qabs_Qlt_condition; split; lra|exact Hk|].
  destruct (sub_value den num qd qn 1023 Hd Hn) as (v2 & Hv2 & E2);
    [apply Qabs_Qlt_condition; split; lra|exact Hk|].
  destruct (slope_error qn qd v1 Hqd H1 H2 E1) as [R1 S1].
  destruct (slope_error qd qn v2 Hqn H2 H1 E2) as [R2 S2].
  destruct (div_value (num - den) den v1 qd 1 Hv1 Hd) as (a & Ha & Ea);
    [lra|exact R1|exact Hk1|].
  destruct (div_value (den - num) num v2 qn 1 Hv2 Hn) as (b & Hb & Eb);
    [lra|exact R2|exact Hk1|].
  exists a, b. split; [exact Ha|]. split; [exact Hb|].
  apply (symmetric_inverse_arith (qn / qd) (qd / qn)).
  - field. lra.
  - apply Qle_shift_div_l; lra.
  - apply Qle_shift_div_r; lra.
  - exact (S1 a Ea).
  - exact (S2 b Eb).
Qed.

End Binary64.

(** ** The regression: the two slopes are inverse to each other *)

Section CrmSlopes.

Import Crm Fp.

Local Open Scope Q_scope.

Variable Env : Type.

(** A finite sum that passed the test [!= 0] has a non-zero value. *)
Lemma value_nonzero (x : float) (q : Q) :
  (x =? 0)%float = false -> value x = Some q -> ~ q == 0.
Proof.
  rewrite eqb_spec. unfold value.
  change (Prim2SF 0%float) with (S754_zero false).
  destruct (Prim2SF x) as [s|s| |s m e]; cbn [SFvalue]; intros H Hv;
    try discriminate.
  injection Hv as <-. pose proof (mag_pos m e) as Hm.
  destruct s; cbn [signq]; intros E; lra.
Qed.

(** C7, for fits whose forward slope [num / den] lies between 1/2 and 2:
    when the regression succeeds on finite sums [num] and [den] with
    [den <= 2 * num <= 4 * den], [perform_regression] publishes
    [slope_lr_m1 = (num - den) / den] and [slope_rl_m1 = (den - num) / num],
    both finite, and the exact values of the two published doubles satisfy
    [|(1 + slope_lr_m1) * (1 + slope_rl_m1) - 1| <= 1e-12]. *)
Theorem crm_slopes_symmetric_inverse (c : crm_t Env) (qn qd : Q) :
  let r := s_regression_samples c in
  let m := model (snd (perform_regression c)) in
  fit_succeeds r ->
  value (regression_num r) = Some qn ->
  value (regression_den r) = Some qd ->
  qd <= 2 * qn -> qn <= 2 * qd ->
  fst (perform_regression c) = true /\
  crm_slope_lr_m1 m
    = ((regression_num r - regression_den r) / regression_den r)%float /\
  crm_slope_rl_m1 m
    = ((regression_den r - regression_num r) / regression_num r)%float /\
  exists e, symmetric_inverse_residual m = Some e /\
            Qabs e <= 1 # 1000000000000.
Proof.
  intros r m Hfit Hn Hd H1 H2.
  destruct (perform_regression_succeeds Env c Hfit) as (Hok & Hm & _).
  assert (Hqd : 0 < qd).
  { destruct Hfit as (_ & _ & Hden).
    pose proof (value_nonzero _ _ Hden Hd) as Hnz.
    destruct (Qlt_le_dec 0 qd) as [H|H]; [exact H|].
    exfalso. apply Hnz. lra. }
  destruct (slopes_symmetric_inverse _ _ qn qd Hn Hd Hqd H1 H2)
    as (a & b & Ha & Hb & Hab).
  split; [exact Hok|]. unfold m. rewrite Hm.
  cbn [crm_slope_lr_m1 crm_slope_rl_m1].
  split; [reflexivity|]. split; [reflexivity|].
  exists ((1 + a) * (1 + b) - 1). split; [|exact Hab].
  unfold symmetric_inverse_residual. cbn [crm_slope_lr_m1 crm_slope_rl_m1].
  fold r. rewrite Ha, Hb. reflexivity.
Qed.

End CrmSlopes.

(** The fit over the noisy samples has a forward slope of about 1.015: its
    two slopes are inverse to each other within 1e-12. *)
Lemma crm_slopes_symmetric_inverse_witness :
  exists e,
    Crm.symmetric_inverse_residual
      (Crm.model (snd (Crm.perform_regression Crm.noisy_fit_crm))) = Some e /\
    (Qabs e <= 1 # 1000000000000)%Q.
Proof.
  pose (r := Crm.s_regression_samples Crm.noisy_fit_crm).
  pose (qn := match Fp.value (Crm.regression_num r) with
              | Some q => q
              | None => 0%Q
              end).
  pose (qd := match Fp.value (Crm.regression_den r) with
              | Some q => q
              | None => 0%Q
              end).
  destruct (crm_slopes_symmetric_inverse nat Crm.noisy_fit_crm qn qd)
    as (_ & _ & _ & H).
  - unfold Crm.fit_succeeds. split; [zclosed|].
    split; vm_compute; reflexivity.
  - vm_compute. reflexivity.
  - vm_compute. reflexivity.
  - vm_compute. discriminate.
  - vm_compute. discriminate.
  - exact H.
Defined.

(** C7 as stated fails on a steep fit: with a forward slope of about 333333
    the regression succeeds and marks the model valid, and the two
    published slopes miss the identity by more than 1e-12. *)
Lemma crm_steep_fit_breaks_symmetric_inverse :
  fst (Crm.perform_regression Crm.steep_fit_crm) = true /\
  Crm.crm_valid (Crm.model (snd (Crm.perform_regression Crm.steep_fit_crm)))
    = true /\
  exists e,
    Crm.symmetric_inverse_residual
      (Crm.model (snd (Crm.perform_regression Crm.steep_fit_crm))) = Some e /\
    (1 # 1000000000000 < Qabs e)%Q.
Proof.
  split; [vm_compute; reflexivity|]. split; [vm_compute; reflexivity|].
  eexists. split; [vm_compute; reflexivity|]. vm_compute. reflexivity.
Qed.

(** ** The controller: the aligned target lies ahead *)

Section DtcFacts.

Import Dtr Crm Dtc.

Lemma to_uint64_to_int64 z : to_uint64 (to_int64 z) = to_uint64 z.
Proof.
  destruct (to_int64_eqm z) as [k Hk]. rewrite Hk.
  unfold to_uint64, to_unsigned. apply Z.mod_add. lia.
Qed.

Lemma to_uint64_add_l a b : to_uint64 (to_uint64 a + b) = to_uint64 (a + b).
Proof. unfold to_uint64, to_unsigned. apply Z.add_mod_idemp_l. lia. Qed.

(** The aligned boundary lies more than a period and a half past the
    projected position. *)
Lemma aligned_cycle_ahead rt :
  0 <= rt + 10000 ->
  rt + 30000 < ((rt + 10000) / 20000 + 2) * 20000 <= rt + 50000.
Proof.
  intros H.
  pose proof (Z.div_mod (rt + 10000) 20000 ltac:(lia)).
  pose proof (Z.mod_pos_bound (rt + 10000) 20000 ltac:(lia)). lia.
Qed.

(** [dtc_align_request] without the conversions, in range. *)
Lemma dtc_align_request_in_range m timer_base :
  dtc_in_range m timer_base ->
  let rl := crm_local_ref_ps m / 25000 in
  let rr := crm_remote_ref_ps m / 25000 in
  let c1 := rl_correction m timer_base in
  let c2 := lr_correction m timer_base in
  let rt := rr + (timer_base - rl) + c1 in
  let cyc := (rt + 10000) / 20000 + 2 in
  fst (fst (dtc_align_request m timer_base)) = cyc /\
  snd (fst (dtc_align_request m timer_base)) = rl + (cyc * 20000 - rr) + c2 - 8.
Proof.
  intros (Hl & Hr & Htb & Hc1 & Hc2 & Hrt) rl rr c1 c2 rt cyc.
  change DTR_PS_PER_TICK with 25000 in *.
  change (DTR_TIMER_PERIOD_TICKS / 2) with 10000 in *.
  fold rl rr c1 in Hrt.
  assert (Hrl : 0 <= rl < 2 ^ 62)
    by (unfold rl; split; [apply Z.div_pos; lia | apply Z.div_lt_upper_bound; lia]).
  assert (Hrr : 0 <= rr < 2 ^ 62)
    by (unfold rr; split; [apply Z.div_pos; lia | apply Z.div_lt_upper_bound; lia]).
  assert (Erl : to_int64 (to_uint64 (crm_local_ref_ps m) / 25000) = rl)
    by (cint_simpl; reflexivity).
  assert (Err : to_int64 (to_uint64 (crm_remote_ref_ps m) / 25000) = rr)
    by (cint_simpl; reflexivity).
  assert (Ec1 : Fp.to_int64_trunc
                  (Fp.of_Z (to_int64 (timer_base - rl)) * crm_slope_rl_m1 m)%float = c1).
  { unfold c1, rl_correction. change DTR_PS_PER_TICK with 25000. rewrite Erl.
    reflexivity. }
  fold c1 in Hc1.
  assert (Ert : dtc_local_to_remote m timer_base rl rr = rt).
  { unfold dtc_local_to_remote. rewrite Ec1. unfold rt. cint_simpl. lia. }
  assert (Hcyc := aligned_cycle_ahead rt ltac:(lia)). fold cyc in Hcyc.
  assert (Ecyc : fst (fst (dtc_align_request m timer_base)) = cyc).
  { unfold dtc_align_request. cbn [fst].
    change DTR_PS_PER_TICK with 25000.
    change (DTR_TIMER_PERIOD_TICKS / 2) with 10000.
    change DTR_TIMER_PERIOD_TICKS with 20000.
    rewrite Erl, Err, Ert.
    assert (0 <= (rt + 10000) / 20000 < 2 ^ 62)
      by (split; [apply Z.div_pos; lia | apply Z.div_lt_upper_bound; lia]).
    rewrite to_uint64_add_l.
    rewrite (to_uint64_id (rt + 10000)) by (unfold in_uint64; lia).
    unfold cyc. cint_simpl. reflexivity. }
  split; [exact Ecyc|].
  assert (Hcycr : 2 <= cyc < 2 ^ 62).
  { unfold cyc.
    assert (0 <= (rt + 10000) / 20000 < 2 ^ 61)
      by (split; [apply Z.div_pos; lia | apply Z.div_lt_upper_bound; lia]).
    lia. }
  assert (Ear : to_int64 (to_uint64 (to_uint64 cyc * 20000)) = cyc * 20000)
    by (cint_simpl; reflexivity).
  assert (Ec2 : Fp.to_int64_trunc
                  (Fp.of_Z (to_int64 (cyc * 20000 - rr)) * crm_slope_lr_m1 m)%float = c2).
  { unfold c2, lr_correction. change DTR_PS_PER_TICK with 25000.
    change DTR_TIMER_PERIOD_TICKS with 20000. rewrite Err, Ecyc, Ear.
    reflexivity. }
  fold c2 in Hc2.
  unfold dtc_align_request. cbn [fst snd].
  change DTR_PS_PER_TICK with 25000.
  change (DTR_TIMER_PERIOD_TICKS / 2) with 10000.
  change DTR_TIMER_PERIOD_TICKS with 20000.
  change (DTR_NS_TO_TICKS DTR_COMPENSATION_NS) with (-8).
  rewrite Erl, Err, Ert.
  replace (to_int64 (to_uint64 (to_uint64 (to_uint64 rt + 10000) / 20000 + 2)))
    with cyc.
  2:{ assert (0 <= (rt + 10000) / 20000 < 2 ^ 62)
        by (split; [apply Z.div_pos; lia | apply Z.div_lt_upper_bound; lia]).
      rewrite to_uint64_add_l.
      rewrite (to_uint64_id (rt + 10000)) by (unfold in_uint64; lia).
      unfold cyc. cint_simpl. reflexivity. }
  rewrite Ear. unfold dtc_remote_to_local. rewrite Ec2. cint_simpl. lia.
Qed.

(** C6 (as amended): a DTC update on a valid model publishes a request with
    [target_local_ticks > timer_base_ticks] (the value sampled after the TEZ
    wait) whenever the two slope corrections added by the projections sum to
    more than [-(3 * PERIOD / 2 - 7) = -29993] ticks, for tick counts in
    range. *)
Theorem dtc_target_ahead_of_timer_base align_once first m timer_base req :
  dtc_crm_updated align_once first m timer_base = Some req ->
  dtc_in_range m timer_base ->
  - 29993 < rl_correction m timer_base + lr_correction m timer_base ->
  crm_valid m = true /\ timer_base < snd (fst req).
Proof.
  unfold dtc_crm_updated. intros Hreq Hrange Hcorr.
  destruct (crm_valid m) eqn:Hv; [|discriminate]. cbn [negb] in Hreq.
  destruct (align_once && negb first); [discriminate|].
  inversion Hreq; subst req; clear Hreq. split; [reflexivity|].
  destruct (dtc_align_request_in_range m timer_base Hrange) as [Hc Hl].
  rewrite Hl.
  destruct Hrange as (_ & _ & _ & _ & _ & Hrt).
  change DTR_PS_PER_TICK with 25000 in Hrt.
  change (DTR_TIMER_PERIOD_TICKS / 2) with 10000 in Hrt.
  pose proof (aligned_cycle_ahead
                (crm_remote_ref_ps m / 25000
                 + (timer_base - crm_local_ref_ps m / 25000)
                 + rl_correction m timer_base) ltac:(lia)).
  lia.
Qed.

End DtcFacts.

(** The tracking model, sampled at 123456789 ticks. *)
Lemma dtc_target_ahead_of_timer_base_witness :
  exists req,
    Dtc.dtc_crm_updated false true Dtc.tracking_model 123456789 = Some req /\
    123456789 < snd (fst req).
Proof.
  eexists. split; [vm_compute; reflexivity|].
  apply (dtc_target_ahead_of_timer_base false true Dtc.tracking_model 123456789).
  - vm_compute. reflexivity.
  - unfold Dtc.dtc_in_range. repeat split; zclosed.
  - zclosed.
Defined.

(** C6 as stated fails on a valid model whose forward slope is [2^-13]:
    sampled at [timer_base_ticks = 0], the published target is [-3]. *)
Lemma dtc_target_behind_timer_base :
  Crm.crm_valid Dtc.slow_model = true /\
  Dtc.dtc_crm_updated false true Dtc.slow_model 0 = Some (2, -3, 160000) /\
  -3 <= 0.
Proof.
  split; [reflexivity|]. split; [vm_compute; reflexivity | lia].
Qed.

(** The slope of the model above is one the regression produces and marks
    valid: on 32 samples of the line [local = remote / 8192] the fit has
    [r_squared = 1], and the controller, sampling [timer_base_ticks = 15],
    publishes the target 12. *)
Lemma dtc_target_behind_after_fit :
  let out := Crm.crm_process_ftm_report Dtc.slow_fit_remote Dtc.slow_fit_local
               Dtc.slow_fit_local Dtc.slow_fit_remote 32 Dtc.slow_fit_crm None in
  Crm.model (fst out)
    = Crm.mk_model true (-0.9998779296875)%float 8191%float 387500 3174400000 /\
  snd out = Some (8, 12, 160000).
Proof. vm_compute. split; reflexivity. Qed.

(* ====================================================================== *)
(** * Part III -- the rest of the code                                     *)
(* ====================================================================== *)

(** ** The unwrapper follows the counter *)

Section ClockTracking.

Import Clock.

(** One call on the raw value of a counter that advanced from [T] to [T']
    by less than the modulus. *)
Lemma clock_unwrap_tracks_step W T T' st :
  wrap_value st = W -> wrap_value2 st = 0 -> 0 < W ->
  last_val st = T mod W -> 0 <= offset st ->
  T <= T' < T + W ->
  offset st + 2 * W < 2 ^ 63 ->
  fst (clock_unwrap (T' mod W) st) = last_val st + offset st + (T' - T) /\
  last_val (snd (clock_unwrap (T' mod W) st)) = T' mod W /\
  offset (snd (clock_unwrap (T' mod W) st))
    = offset st + W * (T' / W - T / W) /\
  wrap_value (snd (clock_unwrap (T' mod W) st)) = W /\
  wrap_value2 (snd (clock_unwrap (T' mod W) st)) = 0.
Proof.
  intros HW HW2 Hpos Hlast Hoff HT Hfit.
  pose proof (Z.div_mod T W ltac:(lia)) as ET.
  pose proof (Z.div_mod T' W ltac:(lia)) as ET'.
  pose proof (Z.mod_pos_bound T W Hpos) as BT.
  pose proof (Z.mod_pos_bound T' W Hpos) as BT'.
  assert (Hq : T' / W = T / W \/ T' / W = T / W + 1) by nia.
  destruct (wrap_detected_dec (T' mod W) st) as [Hw|Hw].
  - assert (Hns : ~ short_wrap st) by (unfold short_wrap; lia).
    rewrite (clock_unwrap_wrapped_long _ _ Hw Hns). cbn [fst snd last_val offset
      wrap_value wrap_value2].
    destruct Hw as [Hnz Hlt]. rewrite Hlast in Hlt.
    assert (Hq1 : T' / W = T / W + 1) by nia.
    rewrite HW, HW2.
    rewrite (to_int64_id W) by (unfold in_int64; lia).
    rewrite (to_int64_id (offset st + W)) by (unfold in_int64; lia).
    rewrite to_int64_id by (unfold in_int64; lia).
    repeat split; try reflexivity; nia.
  - rewrite (clock_unwrap_no_wrap _ _ Hw). cbn [fst snd last_val offset
      wrap_value wrap_value2].
    assert (Hq0 : T' / W = T / W).
    { destruct Hq as [Hq|Hq]; [exact Hq|]. exfalso. apply Hw.
      unfold wrap_detected. rewrite Hlast. split; nia. }
    rewrite to_int64_id by (unfold in_int64; lia).
    rewrite Hq0, Hlast. repeat split; try assumption; nia.
Qed.

Lemma last_cons_change {A : Type} (x : A) (l : list A) (d d' : A) :
  last (x :: l) d = last (x :: l) d'.
Proof.
  revert x. induction l as [|y l IH]; intros x; [reflexivity|].
  cbn [last] in *. apply IH.
Qed.

Lemma paced_last_ge W : forall Ts T0, paced W T0 Ts -> T0 <= last Ts T0.
Proof.
  induction Ts as [|T rest IH]; intros T0 H; [cbn; lia|].
  destruct H as [H1 H2]. specialize (IH T H2).
  destruct rest as [|T2 rest']; [cbn; lia|].
  change (last (T :: T2 :: rest') T0) with (last (T2 :: rest') T0).
  rewrite (last_cons_change T2 rest' T0 T). lia.
Qed.

Lemma unwrap_seq_tracks_from W : forall Ts T0 st,
  wrap_value st = W -> wrap_value2 st = 0 -> 0 < W ->
  last_val st = T0 mod W -> 0 <= offset st ->
  paced W T0 Ts ->
  offset st + W * (last Ts T0 / W - T0 / W) + 2 * W < 2 ^ 63 ->
  fst (unwrap_seq (map (fun T => T mod W) Ts) st)
    = map (fun T => last_val st + offset st + (T - T0)) Ts /\
  offset (snd (unwrap_seq (map (fun T => T mod W) Ts) st))
    = offset st + W * (last Ts T0 / W - T0 / W) /\
  last_val (snd (unwrap_seq (map (fun T => T mod W) Ts) st))
    = last Ts T0 mod W.
Proof.
  induction Ts as [|T rest IH]; intros T0 st HW HW2 Hpos Hlast Hoff Hp Hfit.
  - cbn. rewrite Z.sub_diag, Z.mul_0_r, Z.add_0_r. auto.
  - cbn [map]. rewrite unwrap_seq_cons. cbn [fst snd].
    destruct Hp as [HT Hp].
    pose proof (paced_last_ge W rest T Hp) as Hge.
    assert (Hlast_eq : last (T :: rest) T0 = last rest T).
    { destruct rest as [|T2 rest']; [reflexivity|]. cbn [last].
      apply last_cons_change. }
    rewrite Hlast_eq in *.
    assert (Hd1 : T0 / W <= T / W) by (apply Z.div_le_mono; lia).
    assert (Hd2 : T / W <= last rest T / W) by (apply Z.div_le_mono; lia).
    destruct (clock_unwrap_tracks_step W T0 T st HW HW2 Hpos Hlast Hoff HT)
      as (Hu & Hl & Ho & Hw1 & Hw2); [nia|].
    set (st1 := snd (clock_unwrap (T mod W) st)) in *.
    destruct (IH T st1 Hw1 Hw2 Hpos Hl) as (Hr & Ho' & Hl');
      [nia|exact Hp|nia|].
    rewrite Hu, Hr, Ho', Hl'. split; [|split; [nia|reflexivity]].
    f_equal. apply map_ext. intros x. rewrite Hl, Ho.
    pose proof (Z.div_mod T0 W ltac:(lia)).
    pose proof (Z.div_mod T W ltac:(lia)). nia.
Qed.

(** X1.  A tracker without a second modulus reconstructs the counter it is
    fed: when the unwrapped counter takes the values [Ts] in order, advancing
    by less than the modulus [W] between two calls, and the calls see the
    raw values [T mod W], then every output is the first output shifted by
    what the counter advanced (no wrap is missed, none is counted twice),
    and the accumulated offset is [W] times the number of wraps. *)
Theorem unwrap_seq_tracks_counter W Ts T0 st :
  wrap_value st = W -> wrap_value2 st = 0 -> 0 < W ->
  last_val st = T0 mod W -> 0 <= offset st ->
  paced W T0 Ts ->
  offset st + (last Ts T0 - T0) + 3 * W < 2 ^ 63 ->
  fst (unwrap_seq (map (fun T => T mod W) Ts) st)
    = map (fun T => last_val st + offset st + (T - T0)) Ts /\
  offset (snd (unwrap_seq (map (fun T => T mod W) Ts) st))
    = offset st + W * (last Ts T0 / W - T0 / W).
Proof.
  intros HW HW2 Hpos Hlast Hoff Hp Hfit.
  destruct (unwrap_seq_tracks_from W Ts T0 st HW HW2 Hpos Hlast Hoff Hp)
    as (H1 & H2 & _); [|split; assumption].
  pose proof (paced_last_ge W Ts T0 Hp) as Hge.
  pose proof (Z.div_mod T0 W ltac:(lia)).
  pose proof (Z.div_mod (last Ts T0) W ltac:(lia)).
  pose proof (Z.mod_pos_bound T0 W Hpos).
  pose proof (Z.mod_pos_bound (last Ts T0) W Hpos).
  nia.
Qed.

End ClockTracking.

(** A 32-bit microsecond counter sampled around two of its wraps. *)
Lemma unwrap_seq_tracks_counter_witness :
  fst (Clock.unwrap_seq
         (map (fun T => T mod 2 ^ 32)
            [2 ^ 32 - 5; 2 ^ 32 + 7; 2 ^ 33 - 1; 2 ^ 33; 2 ^ 33 + 100])
         (Clock.mk_unwrap (2 ^ 32 - 10) 0 0 Clock.MAC_CLOCK_WRAP_US 0))
    = [2 ^ 32 - 5; 2 ^ 32 + 7; 2 ^ 33 - 1; 2 ^ 33; 2 ^ 33 + 100].
Proof.
  destruct (unwrap_seq_tracks_counter (2 ^ 32)
              [2 ^ 32 - 5; 2 ^ 32 + 7; 2 ^ 33 - 1; 2 ^ 33; 2 ^ 33 + 100]
              (2 ^ 32 - 10)
              (Clock.mk_unwrap (2 ^ 32 - 10) 0 0 Clock.MAC_CLOCK_WRAP_US 0))
    as [H _].
  - reflexivity.
  - reflexivity.
  - reflexivity.
  - reflexivity.
  - cbn. lia.
  - cbn. lia.
  - cbn. lia.
  - exact H.
Defined.

(** ** The MAC clock *)

Section MacClockFacts.

Import Clock.

Lemma clock_get_us_seq_unwrap reads : forall st,
  clock_get_us_seq reads (mk_clock true st)
    = Some (fst (unwrap_seq reads st), mk_clock true (snd (unwrap_seq reads st))).
Proof.
  induction reads as [|m rest IH]; intros st; [reflexivity|].
  cbn [clock_get_us_seq]. unfold clock_get_us. cbn [s_initialized negb s_unwrap_state].
  rewrite unwrap_seq_cons.
  destruct (clock_unwrap m st) as [u st1]. cbn [fst snd].
  rewrite IH. reflexivity.
Qed.

(** X2.  [clock_get_us] after a successful [clock_init] returns the MAC
    time: when the 64-bit microsecond count of the MAC clock is [T0] at
    [clock_init] and takes the values [Ts] at the later calls, less than
    [2^32] microseconds apart (what the hourly watchdog ensures), the calls
    return [T - 2^32 * (T0 / 2^32)], and [clock_get_base_us] then returns
    [2^32] times the number of wraps since [clock_init]. *)
Theorem clock_get_us_tracks_mac_time (T0 : Z) (Ts : list Z) (m1 : Z) :
  m1 <> T0 mod 2 ^ 32 ->
  paced (2 ^ 32) T0 Ts ->
  (last Ts T0 - T0) + 3 * 2 ^ 32 < 2 ^ 63 ->
  exists c c',
    clock_init m1 (T0 mod 2 ^ 32) true true clock_boot = (ESP_OK, c) /\
    clock_get_us_seq (map (fun T => T mod 2 ^ 32) Ts) c
      = Some (map (fun T => T - 2 ^ 32 * (T0 / 2 ^ 32)) Ts, c') /\
    clock_get_base_us c'
      = Some (2 ^ 32 * (last Ts T0 / 2 ^ 32 - T0 / 2 ^ 32)).
Proof.
  intros Hm Hp Hfit.
  set (st := mk_unwrap (T0 mod 2 ^ 32) 0 0 MAC_CLOCK_WRAP_US 0).
  exists (mk_clock true st).
  exists (mk_clock true (snd (unwrap_seq (map (fun T => T mod 2 ^ 32) Ts) st))).
  split.
  - unfold clock_init, clock_boot. cbn [s_initialized s_unwrap_state negb].
    destruct (Z.eqb_spec (T0 mod 2 ^ 32) m1) as [E|E]; [congruence|].
    reflexivity.
  - rewrite clock_get_us_seq_unwrap.
    assert (Hb : offset st
                 + 2 ^ 32 * (last Ts T0 / 2 ^ 32 - T0 / 2 ^ 32) + 2 * 2 ^ 32
                 < 2 ^ 63).
    { pose proof (Z.div_mod T0 (2 ^ 32) ltac:(lia)).
      pose proof (Z.div_mod (last Ts T0) (2 ^ 32) ltac:(lia)).
      pose proof (Z.mod_pos_bound T0 (2 ^ 32) ltac:(lia)).
      pose proof (Z.mod_pos_bound (last Ts T0) (2 ^ 32) ltac:(lia)).
      cbn [offset st]. lia. }
    destruct (unwrap_seq_tracks_from (2 ^ 32) Ts T0 st) as (H1 & H2 & _);
      try reflexivity; try assumption; try (cbn [offset st]; lia).
    rewrite H1. cbn [last_val offset st].
    split.
    + f_equal. f_equal. apply map_ext. intros T.
      pose proof (Z.div_mod T0 (2 ^ 32) ltac:(lia)). lia.
    + unfold clock_get_base_us. cbn [s_initialized negb s_unwrap_state].
      rewrite H2. cbn [offset st]. f_equal.
Qed.

(** X3.  [clock_init] returns [ESP_OK] exactly when the clock was already
    initialised or the MAC counter moved between the two reads and both the
    mutex and the watchdog task could be created; a second call changes
    nothing; and after [ESP_FAIL] the clock is left uninitialised, so that
    every later [clock_get_us] and [clock_get_base_us] aborts. *)
Theorem clock_init_outcome m1 m2 mutex_ok task_ok c :
  (fst (clock_init m1 m2 mutex_ok task_ok c) = ESP_OK <->
   s_initialized c = true \/
   (m2 <> m1 /\ mutex_ok = true /\ task_ok = true)) /\
  (s_initialized c = true -> snd (clock_init m1 m2 mutex_ok task_ok c) = c) /\
  (fst (clock_init m1 m2 mutex_ok task_ok c) = ESP_OK ->
   s_initialized (snd (clock_init m1 m2 mutex_ok task_ok c)) = true) /\
  (fst (clock_init m1 m2 mutex_ok task_ok c) = ESP_FAIL ->
   s_initialized (snd (clock_init m1 m2 mutex_ok task_ok c)) = false /\
   clock_get_base_us (snd (clock_init m1 m2 mutex_ok task_ok c)) = None /\
   forall mac,
     clock_get_us mac (snd (clock_init m1 m2 mutex_ok task_ok c)) = None).
Proof.
  unfold clock_init, clock_get_us, clock_get_base_us.
  destruct (s_initialized c) eqn:Ei.
  - cbn [fst snd]. rewrite Ei. cbn [negb].
    repeat split; auto; discriminate.
  - destruct (Z.eqb_spec m2 m1) as [E|E].
    + cbn [fst snd]. rewrite Ei. cbn [negb].
      repeat split; auto; try discriminate.
      intros [H|[H _]]; [discriminate|contradiction].
    + destruct mutex_ok; cbn [negb].
      * destruct task_ok; cbn [fst snd s_initialized negb];
          repeat split; auto; try discriminate.
        intros [H|(_ & _ & H)]; discriminate.
      * cbn [fst snd]. rewrite Ei. cbn [negb].
        repeat split; auto; try discriminate.
        intros [H|(_ & H & _)]; discriminate.
Qed.

End MacClockFacts.

(** The MAC clock initialised 10 microseconds before its first wrap and
    read four times over the next two wraps. *)
Lemma clock_get_us_tracks_mac_time_witness :
  exists c c',
    Clock.clock_init 0 (2 ^ 32 - 10) true true Clock.clock_boot
      = (Clock.ESP_OK, c) /\
    Clock.clock_get_us_seq [2 ^ 32 - 5; 7; 2 ^ 32 - 1; 100] c
      = Some ([2 ^ 32 - 5; 2 ^ 32 + 7; 2 ^ 33 - 1; 2 ^ 33 + 100], c') /\
    Clock.clock_get_base_us c' = Some (2 ^ 33).
Proof.
  destruct (clock_get_us_tracks_mac_time (2 ^ 32 - 10)
              [2 ^ 32 - 5; 2 ^ 32 + 7; 2 ^ 33 - 1; 2 ^ 33 + 100] 0)
    as (c & c' & H1 & H2 & H3).
  - cbn. lia.
  - cbn. lia.
  - cbn. lia.
  - exists c, c'. split; [exact H1|]. split; [exact H2|exact H3].
Defined.

(** ** The sample ring of the regression *)

Section RingFacts.

Import Crm.

Lemma array_set_nat_length a : forall i v,
  length (array_set_nat a i v) = length a.
Proof.
  induction a as [|x t IH]; intros [|i] v; cbn; auto.
Qed.

Lemma array_set_length a i v : length (array_set a i v) = length a.
Proof.
  unfold array_set. destruct (i <? 0); [reflexivity|].
  apply array_set_nat_length.
Qed.

Lemma array_set_nat_same a : forall i v d,
  (i < length a)%nat -> nth i (array_set_nat a i v) d = v.
Proof.
  induction a as [|x t IH]; intros [|i] v d H; cbn in *; try lia; auto.
  apply IH. lia.
Qed.

Lemma array_set_nat_other a : forall i j v d,
  i <> j -> nth j (array_set_nat a i v) d = nth j a d.
Proof.
  induction a as [|x t IH]; intros [|i] [|j] v d H; cbn; auto; try lia.
Qed.

Lemma array_get_set_same a i v :
  0 <= i < Z.of_nat (length a) -> array_get (array_set a i v) i = v.
Proof.
  intros H. unfold array_get, array_set.
  destruct (Z.ltb_spec i 0); [lia|]. apply array_set_nat_same. lia.
Qed.

Lemma array_get_set_other a i j v :
  0 <= i -> 0 <= j -> i <> j -> array_get (array_set a i v) j = array_get a j.
Proof.
  intros Hi Hj H. unfold array_get, array_set.
  destruct (Z.ltb_spec i 0); [lia|]. apply array_set_nat_other. lia.
Qed.

Lemma ring_holds_add l r s :
  Z.of_nat (length l) < 2 ^ 31 ->
  ring_holds l r ->
  ring_holds (l ++ [s]) (add_regression_sample (fst s) (snd s) r).
Proof.
  unfold ring_holds. rewrite length_app. cbn [length].
  change MAX_REGRESSION_SAMPLES with 128.
  set (n := Z.of_nat (length l)).
  replace (Z.of_nat (length l + 1)) with (n + 1) by lia.
  intros Hn (Hl1 & Hl2 & Hc & Hh & Hget).
  assert (Hnth : forall j, 0 <= j < n ->
             nth (Z.to_nat j) (l ++ [s]) (0, 0) = nth (Z.to_nat j) l (0, 0))
    by (intros j Hj; apply app_nth1; lia).
  assert (Hnew : nth (Z.to_nat n) (l ++ [s]) (0, 0) = s).
  { rewrite app_nth2 by lia. replace (Z.to_nat n - length l)%nat with O by lia.
    reflexivity. }
  unfold add_regression_sample. change MAX_REGRESSION_SAMPLES with 128.
  destruct (Z.ltb_spec (count r) 128) as [Hlt|Hge].
  - assert (Hn128 : n < 128) by lia.
    assert (Hcn : count r = n) by lia.
    cbn [local_ps remote_ps count head].
    rewrite !array_set_length, Hcn.
    rewrite to_uint32_id by (unfold in_uint32; lia).
    split; [exact Hl1|]. split; [exact Hl2|]. split; [lia|].
    split.
    { destruct (Z.leb_spec n 128); [|lia].
      destruct (Z.leb_spec (n + 1) 128); [exact Hh|lia]. }
    intros j Hj Hj2.
    rewrite (Z.mod_small j 128) by lia.
    destruct (Z.eq_dec j n) as [->|Hne].
    + rewrite !array_get_set_same by lia. rewrite Hnew. auto.
    + rewrite !array_get_set_other by lia. rewrite Hnth by lia.
      specialize (Hget j ltac:(lia) ltac:(lia)).
      rewrite (Z.mod_small j 128) in Hget by lia. exact Hget.
  - assert (Hn128 : 128 <= n) by lia.
    cbn [local_ps remote_ps count head].
    rewrite !array_set_length.
    assert (Hhead : head r = n mod 128).
    { rewrite Hh. destruct (Z.leb_spec n 128); [|reflexivity].
      assert (n = 128) as -> by lia. reflexivity. }
    pose proof (Z.mod_pos_bound n 128 ltac:(lia)) as Hb.
    rewrite Hhead.
    rewrite to_uint32_id by (unfold in_uint32; lia).
    split; [exact Hl1|]. split; [exact Hl2|]. split; [lia|].
    split.
    { destruct (Z.leb_spec (n + 1) 128); [lia|].
      rewrite Z.add_mod_idemp_l by lia. reflexivity. }
    intros j Hj Hj2.
    pose proof (Z.mod_pos_bound j 128 ltac:(lia)) as Hbj.
    destruct (Z.eq_dec j n) as [->|Hne].
    + rewrite !array_get_set_same by lia. rewrite Hnew. auto.
    + assert (Hmod : n mod 128 <> j mod 128).
      { intros E.
        pose proof (Z.div_mod n 128 ltac:(lia)).
        pose proof (Z.div_mod j 128 ltac:(lia)). lia. }
      rewrite !array_get_set_other by lia. rewrite Hnth by lia.
      apply Hget; lia.
Qed.

Lemma ring_holds_add_samples l2 : forall l1 r,
  Z.of_nat (length l1 + length l2) < 2 ^ 31 ->
  ring_holds l1 r -> ring_holds (l1 ++ l2) (add_samples l2 r).
Proof.
  induction l2 as [|s l2 IH]; intros l1 r Hn H.
  - rewrite app_nil_r. exact H.
  - cbn [add_samples fold_left].
    change (fold_left _ l2 ?x) with (add_samples l2 x).
    replace (l1 ++ s :: l2) with ((l1 ++ [s]) ++ l2)
      by (rewrite <- app_assoc; reflexivity).
    apply IH.
    + rewrite length_app. cbn [length] in *. lia.
    + apply ring_holds_add; [cbn [length] in Hn; lia|exact H].
Qed.

(** X4.  The ring keeps the most recent [MAX_REGRESSION_SAMPLES] samples:
    after [n] samples were added to the empty ring, [count] is
    [min n 128], and each of the last [min n 128] samples, the [j]-th one,
    is found at index [j mod 128] of the two arrays, whose length stays
    128; older samples are the ones overwritten. *)
Theorem ring_keeps_latest_samples (l : list (Z * Z)) :
  Z.of_nat (length l) < 2 ^ 31 ->
  let n := Z.of_nat (length l) in
  let r := add_samples l empty_ring in
  count r = Z.min n MAX_REGRESSION_SAMPLES /\
  0 <= head r < MAX_REGRESSION_SAMPLES /\
  length (local_ps r) = Z.to_nat MAX_REGRESSION_SAMPLES /\
  length (remote_ps r) = Z.to_nat MAX_REGRESSION_SAMPLES /\
  forall j, 0 <= j < n -> n - MAX_REGRESSION_SAMPLES <= j ->
    (array_get (local_ps r) (j mod MAX_REGRESSION_SAMPLES),
     array_get (remote_ps r) (j mod MAX_REGRESSION_SAMPLES))
      = nth (Z.to_nat j) l (0, 0).
Proof.
  intros Hn n r.
  assert (H0 : ring_holds [] empty_ring).
  { unfold ring_holds, empty_ring. cbn [length local_ps remote_ps count head].
    rewrite !repeat_length. repeat split; try reflexivity; lia. }
  pose proof (ring_holds_add_samples l [] empty_ring ltac:(cbn [length]; lia) H0)
    as H.
  cbn [app] in H. fold r in H. destruct H as (Hl1 & Hl2 & Hc & Hh & Hget).
  fold n in Hc, Hh, Hget.
  split; [exact Hc|]. split.
  - rewrite Hh. change MAX_REGRESSION_SAMPLES with 128.
    destruct (n <=? 128); [lia|]. apply Z.mod_pos_bound. lia.
  - split; [exact Hl1|]. split; [exact Hl2|].
    intros j Hj Hj2. destruct (Hget j Hj Hj2) as [E1 E2].
    rewrite E1, E2. destruct (nth (Z.to_nat j) l (0, 0)). reflexivity.
Qed.

End RingFacts.

(** 130 samples [(j, 2 * j)]: the ring is full, the two oldest samples are
    gone, and sample 129 sits at index 1. *)
Lemma ring_keeps_latest_samples_witness :
  Crm.count (Crm.add_samples (map (fun j => (j, 2 * j)) (Crm.upto 130))
               Crm.empty_ring) = 128 /\
  (Crm.array_get
     (Crm.local_ps (Crm.add_samples (map (fun j => (j, 2 * j)) (Crm.upto 130))
                      Crm.empty_ring)) 1,
   Crm.array_get
     (Crm.remote_ps (Crm.add_samples (map (fun j => (j, 2 * j)) (Crm.upto 130))
                       Crm.empty_ring)) 1) = (129, 258).
Proof.
  destruct (ring_keeps_latest_samples (map (fun j => (j, 2 * j)) (Crm.upto 130)))
    as (Hc & _ & _ & _ & Hget).
  - vm_compute. reflexivity.
  - split; [exact Hc|].
    exact (Hget 129 ltac:(vm_compute; split; [discriminate|reflexivity])
             ltac:(vm_compute; discriminate)).
Defined.

(** ** The samples a report contributes *)

Section ReportFacts.

Import Crm.

Variable Env : Type.

Lemma fold_left_map_samples (f : Z -> Z * Z) (l : list Z) : forall r,
  fold_left (fun r i => add_regression_sample (fst (f i)) (snd (f i)) r) l r
    = add_samples (map f l) r.
Proof.
  induction l as [|i l IH]; intros r; [reflexivity|].
  cbn [fold_left map add_samples]. apply IH.
Qed.

Lemma add_report_samples_spec t1_ps t2_ps t3_ps t4_ps cnt r :
  add_report_samples t1_ps t2_ps t3_ps t4_ps cnt r
    = add_samples (map (report_sample t1_ps t2_ps t3_ps t4_ps) (upto cnt)) r.
Proof.
  unfold add_report_samples.
  rewrite <- (fold_left_map_samples (report_sample t1_ps t2_ps t3_ps t4_ps)).
  reflexivity.
Qed.

(** X5.  What a frame contributes.  [crm_process_ftm_report] adds one
    sample per frame, in frame order; and for a frame sent by the master at
    [T1] that took [d_f] to reach the slave and whose answer, sent at [T3],
    took [d_r] to come back, with the slave's clock ahead of the master's
    by [theta], the sample is [(local, remote)] with
    [local - remote = theta + d_f - (d_f + d_r) / 2]: the clock offset
    exactly when the two delays are equal, and off by half their
    difference otherwise. *)
Theorem report_sample_recovers_offset :
  (forall t1_ps t2_ps t3_ps t4_ps cnt r,
     add_report_samples t1_ps t2_ps t3_ps t4_ps cnt r
       = add_samples (map (report_sample t1_ps t2_ps t3_ps t4_ps) (upto cnt)) r) /\
  (forall t1_ps t2_ps t3_ps t4_ps i T1 T3 d_f d_r theta,
     array_get t1_ps i = T1 ->
     array_get t2_ps i = T1 + d_f + theta ->
     array_get t3_ps i = T3 ->
     array_get t4_ps i = T3 + d_r - theta ->
     0 <= d_f -> 0 <= d_r ->
     - 2 ^ 60 <= T1 <= 2 ^ 60 -> - 2 ^ 60 <= T3 <= 2 ^ 60 ->
     - 2 ^ 60 <= theta <= 2 ^ 60 -> d_f <= 2 ^ 60 -> d_r <= 2 ^ 60 ->
     report_sample t1_ps t2_ps t3_ps t4_ps i
       = (T1 + d_f + theta, T1 + (d_f + d_r) / 2) /\
     (d_f = d_r ->
      fst (report_sample t1_ps t2_ps t3_ps t4_ps i)
      - snd (report_sample t1_ps t2_ps t3_ps t4_ps i) = theta)).
Proof.
  split; [exact add_report_samples_spec|].
  intros t1_ps t2_ps t3_ps t4_ps i T1 T3 d_f d_r theta E1 E2 E3 E4
    Hf Hr HT1 HT3 Hth Hf2 Hr2.
  assert (E : report_sample t1_ps t2_ps t3_ps t4_ps i
              = (T1 + d_f + theta, T1 + (d_f + d_r) / 2)).
  { unfold report_sample. rewrite E1, E2, E3, E4.
    rewrite (to_int64_id (T3 + d_r - theta - T1)) by (unfold in_int64; lia).
    rewrite (to_int64_id (T3 - (T1 + d_f + theta))) by (unfold in_int64; lia).
    replace (T3 + d_r - theta - T1 - (T3 - (T1 + d_f + theta)))
      with (d_f + d_r) by lia.
    rewrite (to_int64_id (d_f + d_r)) by (unfold in_int64; lia).
    rewrite Z.quot_div_nonneg by lia.
    assert (0 <= (d_f + d_r) / 2 <= 2 ^ 61)
      by (split; [apply Z.div_pos; lia|apply Z.div_le_upper_bound; lia]).
    rewrite to_int64_id by (unfold in_int64; lia). reflexivity. }
  split; [exact E|]. intros ->. rewrite E. cbn [fst snd].
  replace (d_r + d_r) with (d_r * 2) by lia. rewrite Z.div_mul by lia. lia.
Qed.

Lemma add_samples_count l : forall r,
  0 <= count r -> count r + Z.of_nat (length l) <= MAX_REGRESSION_SAMPLES ->
  count (add_samples l r) = count r + Z.of_nat (length l).
Proof.
  change MAX_REGRESSION_SAMPLES with 128.
  induction l as [|s l IH]; intros r H0 H; [cbn; lia|].
  cbn [add_samples fold_left].
  change (fold_left _ l ?x) with (add_samples l x).
  cbn [length] in H.
  assert (Hc : count (add_regression_sample (fst s) (snd s) r) = count r + 1).
  { unfold add_regression_sample. change MAX_REGRESSION_SAMPLES with 128.
    destruct (Z.ltb_spec (count r) 128); [|lia].
    cbn [count]. apply to_uint32_id. unfold in_uint32. lia. }
  rewrite IH; rewrite Hc; cbn [length]; lia.
Qed.

Lemma upto_length n : 0 <= n -> Z.of_nat (length (upto n)) = n.
Proof.
  intros H. unfold upto. rewrite length_map, length_seq. lia.
Qed.

Lemma add_report_samples_count t1_ps t2_ps t3_ps t4_ps cnt r :
  0 <= cnt -> 0 <= count r -> count r + cnt <= MAX_REGRESSION_SAMPLES ->
  count (add_report_samples t1_ps t2_ps t3_ps t4_ps cnt r) = count r + cnt.
Proof.
  intros Hc H0 H. rewrite add_report_samples_spec.
  assert (E : Z.of_nat (length (map (report_sample t1_ps t2_ps t3_ps t4_ps)
                                  (upto cnt))) = cnt)
    by (rewrite length_map; apply upto_length; exact Hc).
  rewrite add_samples_count; rewrite ?E; lia.
Qed.

(** X6.  The regression needs [MIN_REGRESSION_SAMPLES] samples: as long as
    the reports received so far bring the ring to fewer than 32 samples,
    [crm_process_ftm_report] stores them and publishes nothing (every field
    of the model is as before) and the registered callback is not called. *)
Theorem crm_warm_up_publishes_nothing
  (reports : list (list Z * list Z * list Z * list Z * Z)) :
  forall (c : crm_t Env) (env : Env),
  Forall (fun rep => 0 <= snd rep) reports ->
  0 <= count (s_regression_samples c) ->
  count (s_regression_samples c) + Dtr.zsum (map snd reports)
    < MIN_REGRESSION_SAMPLES ->
  model (fst (crm_process_reports reports c env)) = model c /\
  snd (crm_process_reports reports c env) = env /\
  s_callback (fst (crm_process_reports reports c env)) = s_callback c /\
  count (s_regression_samples (fst (crm_process_reports reports c env)))
    = count (s_regression_samples c) + Dtr.zsum (map snd reports).
Proof.
  change MIN_REGRESSION_SAMPLES with 32.
  induction reports as [|[[[[t1 t2] t3] t4] cnt] rest IH]; intros c env Hall H0 H.
  - cbn. repeat split; lia.
  - inversion Hall as [|? ? Hcnt Hrest]; subst. cbn [snd] in Hcnt.
    cbn [map Dtr.zsum fold_right snd] in H |- *.
    change (fold_right Z.add 0 (map snd rest)) with (Dtr.zsum (map snd rest)) in *.
    assert (Hsum : 0 <= Dtr.zsum (map snd rest)).
    { clear - Hrest. induction Hrest as [|x l Hx Hl IHl]; cbn; [lia|].
      change (fold_right Z.add 0 (map snd l)) with (Dtr.zsum (map snd l)). lia. }
    assert (Hstep :
      model (fst (crm_process_ftm_report t1 t2 t3 t4 cnt c env)) = model c /\
      snd (crm_process_ftm_report t1 t2 t3 t4 cnt c env) = env /\
      s_callback (fst (crm_process_ftm_report t1 t2 t3 t4 cnt c env))
        = s_callback c /\
      count (s_regression_samples
               (fst (crm_process_ftm_report t1 t2 t3 t4 cnt c env)))
        = count (s_regression_samples c) + cnt).
    { unfold crm_process_ftm_report.
      destruct (Z.eqb_spec cnt 0) as [->|Hnz];
        [cbn [fst snd]; repeat split; lia|].
      set (c1 := mk_crm (model c) _ _ _ _ _).
      assert (Hcount : count (s_regression_samples c1)
                       = count (s_regression_samples c) + cnt).
      { unfold c1. cbn [s_regression_samples].
        apply add_report_samples_count; change MAX_REGRESSION_SAMPLES with 128;
          lia. }
      rewrite (perform_regression_skipped Env c1)
        by (left; change MIN_REGRESSION_SAMPLES with 32; lia).
      cbn [fst snd]. repeat split; try reflexivity. exact Hcount. }
    unfold crm_process_reports. cbn [fold_left fst snd].
    destruct (crm_process_ftm_report t1 t2 t3 t4 cnt c env) as [c1 env1].
    cbn [fst snd] in Hstep. destruct Hstep as (Hm & He & Hcb & Hc).
    change (fold_left _ rest (c1, env1)) with (crm_process_reports rest c1 env1).
    destruct (IH c1 env1 Hrest) as (Hm' & He' & Hcb' & Hc'); [lia|lia|].
    rewrite Hm', He', Hcb', Hc', Hm, He, Hcb, Hc. repeat split; lia.
Qed.

End ReportFacts.

(** A frame with 300 ps of flight each way and a slave clock 50 ps ahead. *)
Lemma report_sample_recovers_offset_witness :
  Crm.report_sample [1000] [1350] [5000] [5250] 0 = (1350, 1300) /\
  1350 - 1300 = 50.
Proof.
  destruct (proj2 report_sample_recovers_offset [1000] [1350] [5000] [5250] 0
              1000 5000 300 300 50) as [H1 H2];
    try reflexivity; try lia.
  split; [exact H1|reflexivity].
Defined.

(** Two short sessions, of 10 and 15 frames, on a CRM that holds an earlier
    model and counts the calls of its callback: nothing is published. *)
Lemma crm_warm_up_publishes_nothing_witness :
  Crm.model
    (fst (Crm.crm_process_reports
            [(Crm.noisy_remote, Crm.noisy_local, Crm.noisy_local,
              Crm.noisy_remote, 10);
             (Crm.noisy_remote, Crm.noisy_local, Crm.noisy_local,
              Crm.noisy_remote, 15)] Crm.example_crm 0%nat))
    = Crm.example_prior_model /\
  snd (Crm.crm_process_reports
         [(Crm.noisy_remote, Crm.noisy_local, Crm.noisy_local,
           Crm.noisy_remote, 10);
          (Crm.noisy_remote, Crm.noisy_local, Crm.noisy_local,
           Crm.noisy_remote, 15)] Crm.example_crm 0%nat) = 0%nat.
Proof.
  destruct (crm_warm_up_publishes_nothing nat
              [(Crm.noisy_remote, Crm.noisy_local, Crm.noisy_local,
                Crm.noisy_remote, 10);
               (Crm.noisy_remote, Crm.noisy_local, Crm.noisy_local,
                Crm.noisy_remote, 15)] Crm.example_crm 0%nat)
    as (Hm & He & _).
  - repeat constructor; cbn; lia.
  - cbn. lia.
  - cbn. lia.
  - split; [exact Hm|exact He].
Defined.

(** ** The DTR: what holds in every reachable state *)

Section DtrInvariants.

Import Dtr.

Variable CONFIG_FTS_MIN_PERIOD_CPU_CYCLES : Z.
Variable CONFIG_ESP_DEFAULT_CPU_FREQ_MHZ : Z.
Variable CONFIG_FTS_ROLE_SLAVE : bool.

Local Abbreviation dtr_tez_handler :=
  (dtr_tez_handler CONFIG_FTS_MIN_PERIOD_CPU_CYCLES
     CONFIG_ESP_DEFAULT_CPU_FREQ_MHZ CONFIG_FTS_ROLE_SLAVE).
Local Abbreviation step :=
  (step CONFIG_FTS_MIN_PERIOD_CPU_CYCLES CONFIG_ESP_DEFAULT_CPU_FREQ_MHZ
     CONFIG_FTS_ROLE_SLAVE).
Local Abbreviation run :=
  (run CONFIG_FTS_MIN_PERIOD_CPU_CYCLES CONFIG_ESP_DEFAULT_CPU_FREQ_MHZ
     CONFIG_FTS_ROLE_SLAVE).
Local Abbreviation dtr_init := (dtr_init CONFIG_FTS_ROLE_SLAVE).

(** The events of the common end, and the fields it leaves alone. *)
Lemma tez_common_end_events s s' evs :
  tez_common_end s = Ok (s', evs) ->
  evs = EvSetPeriod (period_ticks s)
        :: match s_tez_listener_task s with
           | Some task => [EvNotify task]
           | None => []
           end
        ++ (if dtr_state_eqb (s_state s) DTR_STATE_ALIGNED && s_app_callback s
            then [EvAppCallback (to_uint32 (cycle_counter s))] else []) /\
  active_period_ticks s' = active_period_ticks s /\
  hw_force_level s' = hw_force_level s /\
  s_mode s' = s_mode s /\
  s_app_callback s' = s_app_callback s /\
  s_tez_listener_task s' = s_tez_listener_task s.
Proof.
  unfold tez_common_end.
  destruct ((period_ticks s <=? 0) || (65535 <? period_ticks s)) eqn:E;
    [discriminate|].
  intros H. injection H as <- <-. cbn.
  apply orb_false_iff in E. destruct E as [E1 E2].
  rewrite to_uint16_id by (unfold in_uint16; lia). repeat split.
Qed.

(** Everything one interrupt does, by the branch it takes. *)
Lemma tez_handler_effect fuel s s' evs :
  dtr_tez_handler fuel s = Ok (s', evs) ->
  timer_base_ticks s' = to_int64 (timer_base_ticks s + active_period_ticks s) /\
  active_period_ticks s' = shadow_period_ticks s /\
  shadow_period_ticks s' = period_ticks s' /\
  1 <= period_ticks s' <= 65535 /\
  s_mode s' = s_mode s /\
  s_app_callback s' = s_app_callback s /\
  s_tez_listener_task s' = s_tez_listener_task s /\
  hw_timer_started s' = hw_timer_started s /\
  evs = EvSetPeriod (period_ticks s')
        :: match s_tez_listener_task s with
           | Some task => [EvNotify task]
           | None => []
           end
        ++ (if dtr_state_eqb (s_state s') DTR_STATE_ALIGNED && s_app_callback s
            then [EvAppCallback (to_uint32 (cycle_counter s'))] else []) /\
  ((pending (s_align_request s) = false /\
    s_align_request s' = s_align_request s /\
    s_align_feedback s' = s_align_feedback s /\
    hw_force_level s' = hw_force_level s /\
    s_state s' = s_state s /\
    cycle_counter s' = to_int64 (cycle_counter s + 1)) \/
   (pending (s_align_request s) = true /\
    ready (s_align_feedback s) = false /\
    pending (s_align_request s') = false /\
    ready (s_align_feedback s') = true /\
    fb_cycle_counter (s_align_feedback s') = cycle_counter s' /\
    fb_period_ticks (s_align_feedback s') = period_ticks s' /\
    fb_cycle_delta (s_align_feedback s')
      = to_int32 (to_int64 (cycle_counter s' - to_int64 (cycle_counter s + 1))) /\
    fb_period_ticks_delta (s_align_feedback s')
      = to_int32 (to_int64 (period_ticks s' - period_ticks s)) /\
    hw_force_level s'
      = (if dtr_state_eqb (s_state s) DTR_STATE_RUNNING && CONFIG_FTS_ROLE_SLAVE
         then None else hw_force_level s) /\
    s_state s' = (if dtr_state_eqb (s_state s) DTR_STATE_RUNNING
                  then DTR_STATE_ALIGNED else s_state s))).
Proof.
  unfold Dtr.dtr_tez_handler.
  destruct (pending (s_align_request s)) eqn:Hp.
  - destruct (roll_forward _ _ _ _ _) as [[[p3 a3] c3]|] eqn:Hr;
      [|discriminate].
    destruct (ready (s_align_feedback s)) eqn:Hrd; [discriminate|].
    intros H.
    destruct (tez_common_end_ok _ _ _ H)
      as (Hrange & Hper & _ & _ & Hreq & Hcyc & Htb & Hst & Hstarted & Hsh & Hfb).
    destruct (tez_common_end_events _ _ _ H)
      as (Hev & Hact & Hforce & Hmode & Hcb & Hl).
    cbn [period_ticks cycle_counter timer_base_ticks s_state hw_timer_started
         s_align_request s_align_feedback active_period_ticks hw_force_level
         s_mode s_app_callback s_tez_listener_task] in *.
    rewrite Hper, Htb, Hact, Hsh, Hmode, Hcb, Hl, Hstarted, Hcyc, Hst, Hev,
      Hreq, Hfb, Hforce.
    cbn [pending ready fb_cycle_counter fb_period_ticks fb_cycle_delta
         fb_period_ticks_delta].
    rewrite (to_int32_id p3) by (unfold in_int32; lia).
    repeat split; try lia. right. repeat split.
  - destruct (dither (base_period_fp16 s) (period_ticks_frac_acc s))
      as [period2 acc2] eqn:Hd.
    intros H.
    destruct (tez_common_end_ok _ _ _ H)
      as (Hrange & Hper & _ & _ & Hreq & Hcyc & Htb & Hst & Hstarted & Hsh & Hfb).
    destruct (tez_common_end_events _ _ _ H)
      as (Hev & Hact & Hforce & Hmode & Hcb & Hl).
    cbn [period_ticks cycle_counter timer_base_ticks s_state hw_timer_started
         s_align_request s_align_feedback active_period_ticks hw_force_level
         s_mode s_app_callback s_tez_listener_task] in *.
    rewrite Hper, Htb, Hact, Hsh, Hmode, Hcb, Hl, Hstarted, Hcyc, Hst, Hev,
      Hreq, Hfb, Hforce.
    repeat split; try lia. left. repeat split.
Qed.

(** The invariant of the request/feedback handshake and of the generator
    force. *)
Lemma run_handshake_invariant mode cb tr s :
  run (dtr_init mode cb) tr s ->
  (pending (s_align_request s) = true -> ready (s_align_feedback s) = false) /\
  hw_force_level s
    = (if CONFIG_FTS_ROLE_SLAVE
          && negb (dtr_state_eqb (s_state s) DTR_STATE_ALIGNED)
       then Some 0 else None) /\
  s_app_callback s = cb /\ s_mode s = mode.
Proof.
  intros H. remember (dtr_init mode cb) as s0 eqn:E0.
  induction H as [s|s tr s1 l s2 Hrun IH Hstep]; subst.
  - cbn. destruct CONFIG_FTS_ROLE_SLAVE; repeat split; discriminate.
  - specialize (IH eq_refl). destruct IH as (I1 & I2 & I3 & I4).
    inversion Hstep as [sa sb Hs|sa off|sa c l0 b|sa t|fuel sa sb evs Hst Hh];
      subst.
    + unfold dtr_start_timer_enable in Hs.
      destruct (dtr_state_eqb (s_state s1) DTR_STATE_NOT_STARTED) eqn:Est;
        [|discriminate].
      injection Hs as <-. cbn. destruct (s_state s1); try discriminate.
      cbn in I2. repeat split; assumption.
    + cbn. repeat split; assumption.
    + cbn. repeat split; auto.
    + cbn. repeat split; assumption.
    + destruct (tez_handler_effect _ _ _ _ Hh)
        as (_ & _ & _ & _ & Hmode & Hcb & _ & _ & _ & Hcase).
      rewrite Hmode, Hcb.
      destruct Hcase as [(Hp & Hreq & Hfb & Hforce & Hstate & _)
                        |(Hp & Hrd & Hp' & Hrd' & _ & _ & _ & _ & Hforce & Hstate)].
      * rewrite Hreq, Hfb, Hforce, Hstate. repeat split; auto.
      * rewrite Hp', Hforce, Hstate. split; [discriminate|].
        split; [|split; auto].
        rewrite I2. destruct (s_state s1), CONFIG_FTS_ROLE_SLAVE; reflexivity.
Qed.

(** X7.  The handshake between [dtr_set_align_request] and the interrupt
    handler keeps [assert(!s_align_feedback.ready)] true: in every state
    reached from [dtr_init] by starting the timer, adding the measured
    offset, registering listeners, issuing requests and taking interrupts,
    a pending request finds the feedback not ready, and no interrupt stops
    on that assertion. *)
Theorem tez_feedback_assert_never_fails mode cb tr s :
  run (dtr_init mode cb) tr s ->
  (pending (s_align_request s) = true -> ready (s_align_feedback s) = false) /\
  forall fuel, dtr_tez_handler fuel s <> Abort AssertFeedbackNotReady.
Proof.
  intros H. destruct (run_handshake_invariant _ _ _ _ H) as (I1 & _).
  split; [exact I1|]. intros fuel. unfold Dtr.dtr_tez_handler.
  destruct (pending (s_align_request s)) eqn:Hp.
  - rewrite (I1 eq_refl).
    destruct (roll_forward _ _ _ _ _) as [[[p3 a3] c3]|]; [|discriminate].
    unfold tez_common_end.
    destruct (_ || _); discriminate.
  - destruct (dither _ _) as [p a]. unfold tez_common_end.
    destruct (_ || _); discriminate.
Qed.

(** X8.  Nothing reaches the outside before the first alignment.  In every
    reachable state a slave holds its pulse output forced low exactly while
    the state is not [ALIGNED] (a master never forces it), and an interrupt
    calls the application callback only if it leaves the state [ALIGNED],
    once, after the period was loaded, with the new cycle counter
    converted to [uint32_t]; the interrupt that applies the first
    alignment already does so. *)
Theorem dtr_output_gated_by_alignment mode cb tr s :
  run (dtr_init mode cb) tr s ->
  hw_force_level s
    = (if CONFIG_FTS_ROLE_SLAVE
          && negb (dtr_state_eqb (s_state s) DTR_STATE_ALIGNED)
       then Some 0 else None) /\
  forall fuel s' evs,
    dtr_tez_handler fuel s = Ok (s', evs) ->
    (forall c, In (EvAppCallback c) evs ->
       s_state s' = DTR_STATE_ALIGNED /\ cb = true /\
       c = dtr_get_master_cycle s') /\
    (s_state s' = DTR_STATE_ALIGNED -> cb = true ->
     exists pre, evs = pre ++ [EvAppCallback (dtr_get_master_cycle s')] /\
                 forall c, ~ In (EvAppCallback c) pre).
Proof.
  intros H. destruct (run_handshake_invariant _ _ _ _ H) as (_ & I2 & I3 & _).
  split; [exact I2|]. intros fuel s' evs Hh.
  destruct (tez_handler_effect _ _ _ _ Hh)
    as (_ & _ & _ & _ & _ & _ & _ & _ & Hev & _).
  rewrite I3 in Hev. unfold dtr_get_master_cycle. split.
  - intros c Hin. rewrite Hev in Hin. cbn [In] in Hin.
    destruct Hin as [Hin|Hin]; [discriminate|].
    apply in_app_or in Hin. destruct Hin as [Hin|Hin].
    + destruct (s_tez_listener_task s); cbn in Hin;
        [destruct Hin as [Hin|[]]; discriminate|contradiction].
    + destruct (dtr_state_eqb (s_state s') DTR_STATE_ALIGNED) eqn:Est;
        destruct cb; cbn in Hin; try contradiction.
      destruct Hin as [Hin|[]]. injection Hin as <-.
      destruct (s_state s'); try discriminate. auto.
  - intros Hst Hcb. rewrite Hst, Hcb in Hev. cbn [dtr_state_eqb andb] in Hev.
    exists (EvSetPeriod (period_ticks s')
            :: match s_tez_listener_task s with
               | Some task => [EvNotify task]
               | None => []
               end).
    split; [rewrite Hev; reflexivity|].
    intros c [Hin|Hin]; [discriminate|].
    destruct (s_tez_listener_task s); cbn in Hin;
      [destruct Hin as [Hin|[]]; discriminate|contradiction].
Qed.

(** X9.  [dtr_start_timer] can be called once: in a state reached from
    [dtr_init] it aborts exactly when a start is part of the history, and
    otherwise starts the timer with the counters reset. *)
Theorem dtr_start_timer_only_once mode cb tr s :
  run (dtr_init mode cb) tr s ->
  (In LStartTimer tr ->
   dtr_start_timer_enable s = Abort TimerAlreadyStarted) /\
  (~ In LStartTimer tr ->
   exists s', dtr_start_timer_enable s = Ok s' /\
     s_state s' = DTR_STATE_RUNNING /\ hw_timer_started s' = true /\
     timer_base_ticks s' = 0 /\ cycle_counter s' = 0).
Proof.
  intros H.
  destruct (run_state_invariant _ _ _ _ _ _ _ H) as (_ & Hs2 & _).
  split.
  - intros Hin. unfold dtr_start_timer_enable.
    destruct (s_state s) eqn:Est; cbn; try reflexivity.
    exfalso. apply (proj1 Hs2); auto.
  - intros Hnin. apply Hs2 in Hnin. unfold dtr_start_timer_enable.
    rewrite Hnin. cbn. eexists. split; [reflexivity|]. cbn. auto.
Qed.


(** The tick at which the interrupt after next is due: the base, the period
    that runs, and the period waiting in the shadow register. *)
Lemma tez_schedule_step fuel s s' evs :
  dtr_tez_handler fuel s = Ok (s', evs) ->
  in_int64 (timer_base_ticks s + active_period_ticks s) ->
  timer_base_ticks s' + active_period_ticks s' + shadow_period_ticks s'
    = timer_base_ticks s + active_period_ticks s + shadow_period_ticks s
      + period_ticks s'.
Proof.
  intros Hh Hr.
  destruct (tez_handler_effect _ _ _ _ Hh) as (Htb & Hact & Hsh & _).
  rewrite Htb, Hact, Hsh, to_int64_id by exact Hr. lia.
Qed.

Lemma min_period_ticks_nonneg :
  0 <= DTR_MIN_PERIOD_TICKS CONFIG_FTS_MIN_PERIOD_CPU_CYCLES
         CONFIG_ESP_DEFAULT_CPU_FREQ_MHZ.
Proof.
  unfold DTR_MIN_PERIOD_TICKS.
  pose proof (to_uint64_range
                (to_uint64 CONFIG_FTS_MIN_PERIOD_CPU_CYCLES
                 * DTR_TIMER_RESOLUTION_HZ)) as [H1 _].
  pose proof (to_uint64_range
                (to_int32 (CONFIG_ESP_DEFAULT_CPU_FREQ_MHZ * 1000000))) as [H2 _].
  apply Z_div_nonneg_nonneg; assumption.
Qed.

(** X11.  When an alignment takes effect.  The interrupt that applies a
    request for [aligned_local_ticks = L] (far enough ahead for the
    roll-forward loop not to run) computes the period [L - timer_base_ticks],
    but the period loaded earlier is still to run: after the two following
    interrupts [timer_base_ticks] is [L] plus the period that was in the
    shadow register when the request was applied, and the cycle counter is
    the requested one plus 2. *)
Theorem tez_alignment_takes_effect fuel s s1 s2 s3 e1 e2 e3 :
  let req := s_align_request s in
  let L := aligned_local_ticks req in
  let tb1 := timer_base_ticks s + active_period_ticks s in
  pending req = true ->
  dtr_tez_handler fuel s = Ok (s1, e1) ->
  dtr_tez_handler fuel s1 = Ok (s2, e2) ->
  dtr_tez_handler fuel s2 = Ok (s3, e3) ->
  in_int64 tb1 -> in_int64 (aligned_cycle_counter req + 2) ->
  in_int64 (aligned_cycle_counter req) ->
  0 <= shadow_period_ticks s -> in_int64 (L + shadow_period_ticks s) ->
  DTR_MIN_PERIOD_TICKS CONFIG_FTS_MIN_PERIOD_CPU_CYCLES
    CONFIG_ESP_DEFAULT_CPU_FREQ_MHZ <= L - tb1 < 2 ^ 63 ->
  timer_base_ticks s1 + period_ticks s1 = L /\
  timer_base_ticks s3 = L + shadow_period_ticks s /\
  cycle_counter s1 = aligned_cycle_counter req /\
  cycle_counter s3 = aligned_cycle_counter req + 2.
Proof.
  intros req L tb1 Hp H1 H2 H3 Htb1 Hc2 Hc0 Hsh HL Hmin.
  pose proof min_period_ticks_nonneg as Hmin0.
  destruct (tez_handler_request _ _ _ _ _ _ _ Hp H1)
    as (p3 & a3 & c3 & Hroll & Hp3 & Hper1 & Hcyc1 & Hbase1 & Hpend1 & _).
  fold req L in Hroll. fold tb1 in Hroll, Hbase1.
  rewrite (to_int64_id tb1) in Hroll, Hbase1 by exact Htb1.
  rewrite (to_int64_id (L - tb1)) in Hroll by (unfold in_int64; lia).
  assert (Hnoroll : p3 = L - tb1 /\ c3 = aligned_cycle_counter req).
  { destruct fuel as [|fuel']; cbn [roll_forward] in Hroll;
      rewrite (to_uint64_id (L - tb1)) in Hroll by (unfold in_uint64; lia);
      (destruct (Z.ltb_spec (L - tb1)
                   (DTR_MIN_PERIOD_TICKS CONFIG_FTS_MIN_PERIOD_CPU_CYCLES
                      CONFIG_ESP_DEFAULT_CPU_FREQ_MHZ)); [lia|]);
      injection Hroll as <- _ <-; auto. }
  destruct Hnoroll as [-> ->].
  destruct (tez_handler_effect _ _ _ _ H1) as (_ & Hact1 & Hsh1 & _).
  destruct (tez_handler_effect _ _ _ _ H2)
    as (Htb2 & Hact2 & _ & _ & _ & _ & _ & _ & _ & Hcase2).
  destruct (tez_handler_effect _ _ _ _ H3)
    as (Htb3 & _ & _ & _ & _ & _ & _ & _ & _ & Hcase3).
  destruct Hcase2 as [(_ & Hreq2 & _ & _ & _ & Hcyc2)|(Hp2 & _)]; [|congruence].
  destruct Hcase3 as [(_ & _ & _ & _ & _ & Hcyc3)|(Hp3' & _)];
    [|rewrite Hreq2 in Hp3'; congruence].
  assert (E2 : timer_base_ticks s2 = tb1 + shadow_period_ticks s).
  { rewrite Htb2, Hbase1, Hact1. apply to_int64_id. unfold in_int64 in *. lia. }
  split; [rewrite Hbase1, Hper1; lia|]. split.
  - rewrite Htb3, E2, Hact2, Hsh1, Hper1.
    replace (tb1 + shadow_period_ticks s + (L - tb1))
      with (L + shadow_period_ticks s) by lia.
    apply to_int64_id. exact HL.
  - split; [exact Hcyc1|]. rewrite Hcyc3, Hcyc2, Hcyc1.
    rewrite (to_int64_id (aligned_cycle_counter req + 1))
      by (unfold in_int64 in *; lia).
    replace (aligned_cycle_counter req + 1 + 1)
      with (aligned_cycle_counter req + 2) by lia.
    apply to_int64_id. exact Hc2.
Qed.

Local Abbreviation tez_run :=
  (tez_run CONFIG_FTS_MIN_PERIOD_CPU_CYCLES
     CONFIG_ESP_DEFAULT_CPU_FREQ_MHZ CONFIG_FTS_ROLE_SLAVE).

Lemma tez_run_schedule fuel n : forall s sts,
  tez_run fuel n s = Ok sts ->
  0 <= timer_base_ticks s + active_period_ticks s ->
  0 <= shadow_period_ticks s ->
  timer_base_ticks s + active_period_ticks s + shadow_period_ticks s
    + 65535 * Z.of_nat n < 2 ^ 63 ->
  tez_due (last sts s) = tez_due s + zsum (map period_ticks sts) /\
  (in_int64 (cycle_counter s + Z.of_nat n) -> in_int64 (cycle_counter s) ->
   Forall (fun st => pending (s_align_request st) = false) (s :: sts) ->
   cycle_counter (last sts s) = cycle_counter s + Z.of_nat n).
Proof.
  unfold tez_due.
  induction n as [|n IH]; intros s sts Hrun H0 Hsh Hfit.
  - cbn in Hrun. injection Hrun as <-. cbn. split; lia.
  - cbn [Dtr.tez_run] in Hrun.
    destruct (dtr_tez_handler fuel s) as [[s1 evs]| |] eqn:E1; cbn in Hrun;
      try discriminate.
    destruct (tez_run fuel n s1) as [rest| |] eqn:E2; cbn in Hrun;
      try discriminate.
    injection Hrun as <-.
    pose proof (tez_schedule_step _ _ _ _ E1 ltac:(unfold in_int64; lia)) as Hq.
    destruct (tez_handler_effect _ _ _ _ E1)
      as (Htb & Hact & Hsh1 & Hrange & _ & _ & _ & _ & _ & Hcase).
    rewrite (to_int64_id (timer_base_ticks s + active_period_ticks s))
      in Htb by (unfold in_int64; lia).
    destruct (IH s1 rest E2) as [IH1 IH2]; [lia|lia|lia|].
    rewrite last_cons_default. split.
    + rewrite IH1. cbn [map zsum fold_right].
      change (fold_right Z.add 0 (map period_ticks rest))
        with (zsum (map period_ticks rest)). lia.
    + intros Hc Hc0 Hall. inversion Hall as [|? ? Hps Hrest]; subst.
      destruct Hcase as [(_ & _ & _ & _ & _ & Hcyc)|(Hp & _)]; [|congruence].
      rewrite (to_int64_id (cycle_counter s + 1)) in Hcyc
        by (unfold in_int64 in *; lia).
      rewrite IH2; [lia| | |exact Hrest]; unfold in_int64 in *; lia.
Qed.

(** X12.  The timer runs at the programmed rate.  [timer_base_ticks] lags
    the periods the handler computes by two interrupts (one period is
    running, one waits in the shadow register); counting both, the tick at
    which the interrupt after next is due advances at every interrupt by
    exactly the period just computed, so that after [N] interrupts without a
    request it has advanced by [N * P + (N * f) / 65536] for
    [base_period_fp16 = P * 65536 + f]: never a whole tick away from
    [N * base_period_fp16 / 65536]. *)
Theorem tez_timer_base_long_run fuel s P f N sts :
  pending (s_align_request s) = false ->
  fp16_parts (base_period_fp16 s) P f ->
  period_ticks_frac_acc s = 0 ->
  0 <= timer_base_ticks s + active_period_ticks s ->
  0 <= shadow_period_ticks s ->
  timer_base_ticks s + active_period_ticks s + shadow_period_ticks s
    + 65535 * Z.of_nat N < 2 ^ 63 ->
  tez_run fuel N s = Ok sts ->
  tez_due (last sts s)
    = tez_due s + Z.of_nat N * P + Z.of_nat N * f / FP16_SCALE /\
  0 <= Z.of_nat N * (P * FP16_SCALE + f)
       - FP16_SCALE * (tez_due (last sts s) - tez_due s) < FP16_SCALE.
Proof.
  intros Hp Hparts Hacc H0 Hsh Hfit Hrun.
  destruct (tez_run_schedule _ _ _ _ Hrun H0 Hsh Hfit) as [Hq _].
  destruct (tez_run_dither _ _ _ _ _ _ _ _ _ Hp Hparts
              ltac:(rewrite Hacc; unfold FP16_SCALE; lia) Hrun)
    as (_ & Hsum & _).
  rewrite Hacc, Z.add_0_l in Hsum.
  assert (E : tez_due (last sts s)
              = tez_due s + Z.of_nat N * P + Z.of_nat N * f / FP16_SCALE)
    by (rewrite Hq, Hsum; lia).
  split; [exact E|]. rewrite E. unfold FP16_SCALE.
  pose proof (Z.div_mod (Z.of_nat N * f) 65536 ltac:(lia)) as Hd.
  pose proof (Z.mod_pos_bound (Z.of_nat N * f) 65536 ltac:(lia)) as Hm.
  lia.
Qed.

Local Abbreviation dtr_align_master_timer :=
  (dtr_align_master_timer CONFIG_FTS_MIN_PERIOD_CPU_CYCLES
     CONFIG_ESP_DEFAULT_CPU_FREQ_MHZ CONFIG_FTS_ROLE_SLAVE).
Local Abbreviation roll_forward :=
  (roll_forward CONFIG_FTS_MIN_PERIOD_CPU_CYCLES CONFIG_ESP_DEFAULT_CPU_FREQ_MHZ).
Local Abbreviation MIN_TICKS :=
  (DTR_MIN_PERIOD_TICKS CONFIG_FTS_MIN_PERIOD_CPU_CYCLES
     CONFIG_ESP_DEFAULT_CPU_FREQ_MHZ).

(** An interrupt of a timer that runs at the nominal period, without a
    pending request. *)
Lemma tez_nominal_step fuel s :
  pending (s_align_request s) = false ->
  base_period_fp16 s = DTR_TIMER_PERIOD_TICKS * FP16_SCALE ->
  period_ticks_frac_acc s = 0 ->
  exists evs,
    dtr_tez_handler fuel s
    = Ok (mk_dtr (s_mode s) (s_state s) (to_int64 (cycle_counter s + 1))
            (shadow_period_ticks s) DTR_TIMER_PERIOD_TICKS
            (to_int64 (timer_base_ticks s + active_period_ticks s))
            DTR_TIMER_PERIOD_TICKS (base_period_fp16 s) 0
            (s_align_request s) (s_align_feedback s) (s_app_callback s)
            (s_tez_listener_task s) (hw_timer_started s) (hw_force_level s),
          evs).
Proof.
  intros Hp Hb Ha.
  rewrite (tez_handler_no_request _ _ _ _ _ Hp), Hb, Ha.
  change (dither (DTR_TIMER_PERIOD_TICKS * FP16_SCALE) 0)
    with (DTR_TIMER_PERIOD_TICKS, 0).
  cbn [fst snd]. unfold tez_common_end.
  cbn [period_ticks s_mode s_state cycle_counter active_period_ticks
       timer_base_ticks base_period_fp16 period_ticks_frac_acc s_align_request
       s_align_feedback s_app_callback s_tez_listener_task hw_timer_started
       hw_force_level].
  change ((DTR_TIMER_PERIOD_TICKS <=? 0) || (65535 <? DTR_TIMER_PERIOD_TICKS))
    with false.
  change (to_uint16 DTR_TIMER_PERIOD_TICKS) with DTR_TIMER_PERIOD_TICKS.
  cbv iota. rewrite <- Hb. eexists. reflexivity.
Qed.

Lemma roll_forward_stop fuel base period acc cycle :
  MIN_TICKS <= to_uint64 period ->
  roll_forward fuel base (period, acc, cycle) = Some (period, acc, cycle).
Proof.
  intros H. apply Z.ltb_ge in H.
  destruct fuel; cbn [Dtr.roll_forward]; rewrite H; reflexivity.
Qed.

(** The request of [dtr_align_master_timer]. *)
Lemma master_align_request_spec tb :
  0 <= tb < 2 ^ 62 ->
  master_align_request tb
  = (tb / DTR_TIMER_PERIOD_TICKS + 2,
     (tb / DTR_TIMER_PERIOD_TICKS + 2) * DTR_TIMER_PERIOD_TICKS,
     DTR_TIMER_PERIOD_TICKS * FP16_SCALE).
Proof.
  intros Htb. unfold master_align_request.
  change DTR_TIMER_PERIOD_TICKS with 20000. change FP16_SCALE with 65536.
  assert (0 <= tb / 20000) by (apply Z.div_pos; lia).
  pose proof (Z.mul_div_le tb 20000 ltac:(lia)).
  cint_simpl. reflexivity.
Qed.

(** The interrupt that applies the master's request: the loop runs at
    most once, and the interrupt after next is due on a multiple of the
    period. *)
Lemma tez_master_apply fuel s tb :
  let P := DTR_TIMER_PERIOD_TICKS in
  s_align_request s
  = mk_request true ((tb / P + 2) * P) (tb / P + 2) (P * FP16_SCALE) ->
  ready (s_align_feedback s) = false ->
  active_period_ticks s = P -> shadow_period_ticks s = P ->
  timer_base_ticks s = tb -> 0 <= tb < 2 ^ 61 ->
  MIN_TICKS <= P ->
  exists s1 evs,
    dtr_tez_handler (S fuel) s = Ok (s1, evs) /\
    pending (s_align_request s1) = false /\
    ready (s_align_feedback s1) = true /\
    base_period_fp16 s1 = P * FP16_SCALE /\
    period_ticks_frac_acc s1 = 0 /\
    timer_base_ticks s1 = tb + P /\
    active_period_ticks s1 = P /\
    1 <= shadow_period_ticks s1 <= 2 * P /\
    tez_due s1 = (cycle_counter s1 + 1) * P /\
    tb / P + 2 <= cycle_counter s1 <= tb / P + 3 /\
    s_tez_listener_task s1 = s_tez_listener_task s /\
    s_state s1 = (if dtr_state_eqb (s_state s) DTR_STATE_RUNNING
                  then DTR_STATE_ALIGNED else s_state s).
Proof.
  intros P Hreq Hrd Hact Hsh Htb Hrange Hmin.
  pose proof min_period_ticks_nonneg as Hmin0.
  unfold P in *. change DTR_TIMER_PERIOD_TICKS with 20000 in *.
  change FP16_SCALE with 65536 in *.
  pose proof (Z.div_mod tb 20000 ltac:(lia)) as Hdm.
  pose proof (Z.mod_pos_bound tb 20000 ltac:(lia)) as Hmod.
  assert (Hq : 0 <= tb / 20000) by (apply Z.div_pos; lia).
  set (p2 := 20000 - tb mod 20000).
  unfold Dtr.dtr_tez_handler. rewrite Hreq, Hrd, Hact, Hsh, Htb.
  cbn [pending aligned_local_ticks aligned_cycle_counter aligned_base_period_fp16].
  rewrite (to_int64_id (tb + 20000)) by (unfold in_int64; lia).
  replace ((tb / 20000 + 2) * 20000 - (tb + 20000)) with p2 by (unfold p2; lia).
  rewrite (to_int64_id p2) by (unfold in_int64, p2; lia).
  change (to_uint32 (20000 * 65536)) with 1310720000.
  assert (Hparts : fp16_parts 1310720000 20000 0)
    by (unfold fp16_parts, FP16_SCALE; lia).
  cbn [Dtr.roll_forward].
  rewrite (to_uint64_id p2) by (unfold in_uint64, p2; lia).
  destruct (Z.ltb_spec p2 MIN_TICKS) as [Hlt|Hge].
  - rewrite (roll_step_spec _ _ _ _ _ _ Hparts)
      by (unfold FP16_SCALE, p2; lia).
    change FP16_SCALE with 65536.
    change ((0 + 0) / 65536) with 0. change ((0 + 0) mod 65536) with 0.
    rewrite Z.add_0_r.
    rewrite (to_int64_id (tb / 20000 + 2 + 1)) by (unfold in_int64; lia).
    rewrite roll_forward_stop
      by (rewrite to_uint64_id by (unfold in_uint64, p2; lia); unfold p2; lia).
    unfold tez_common_end.
    cbn [period_ticks s_mode s_state cycle_counter active_period_ticks
         timer_base_ticks base_period_fp16 period_ticks_frac_acc s_align_request
         s_align_feedback s_app_callback s_tez_listener_task hw_timer_started
         hw_force_level].
    destruct (Z.leb_spec (p2 + 20000) 0) as [H|_]; [unfold p2 in H; lia|].
    destruct (Z.ltb_spec 65535 (p2 + 20000)) as [H|_]; [unfold p2 in H; lia|].
    cbn [orb].
    rewrite (to_uint16_id (p2 + 20000)) by (unfold in_uint16, p2; lia).
    eexists. eexists. split; [reflexivity|].
    unfold tez_due.
    cbn [period_ticks s_mode s_state cycle_counter active_period_ticks
         shadow_period_ticks
         timer_base_ticks base_period_fp16 period_ticks_frac_acc s_align_request
         s_align_feedback s_app_callback s_tez_listener_task hw_timer_started
         hw_force_level pending ready].
    unfold p2. repeat split; try reflexivity; lia.
  - unfold tez_common_end.
    cbn [period_ticks s_mode s_state cycle_counter active_period_ticks
         timer_base_ticks base_period_fp16 period_ticks_frac_acc s_align_request
         s_align_feedback s_app_callback s_tez_listener_task hw_timer_started
         hw_force_level].
    destruct (Z.leb_spec p2 0) as [H|_]; [unfold p2 in H; lia|].
    destruct (Z.ltb_spec 65535 p2) as [H|_]; [unfold p2 in H; lia|].
    cbn [orb].
    rewrite (to_uint16_id p2) by (unfold in_uint16, p2; lia).
    eexists. eexists. split; [reflexivity|].
    unfold tez_due.
    cbn [period_ticks s_mode s_state cycle_counter active_period_ticks
         shadow_period_ticks
         timer_base_ticks base_period_fp16 period_ticks_frac_acc s_align_request
         s_align_feedback s_app_callback s_tez_listener_task hw_timer_started
         hw_force_level pending ready].
    unfold p2. repeat split; try reflexivity; lia.
Qed.

(** An interrupt of a timer whose schedule is on the grid. *)
Lemma grid_step fuel s :
  let P := DTR_TIMER_PERIOD_TICKS in
  pending (s_align_request s) = false ->
  base_period_fp16 s = P * FP16_SCALE ->
  period_ticks_frac_acc s = 0 ->
  tez_due s = (cycle_counter s + 1) * P ->
  in_int64 (cycle_counter s + 1) ->
  in_int64 (timer_base_ticks s + active_period_ticks s) ->
  exists s1 evs,
    dtr_tez_handler fuel s = Ok (s1, evs) /\
    pending (s_align_request s1) = false /\
    base_period_fp16 s1 = P * FP16_SCALE /\
    period_ticks_frac_acc s1 = 0 /\
    tez_due s1 = (cycle_counter s1 + 1) * P /\
    timer_base_ticks s1 + active_period_ticks s1 = cycle_counter s1 * P /\
    cycle_counter s1 = cycle_counter s + 1 /\
    timer_base_ticks s1 = timer_base_ticks s + active_period_ticks s.
Proof.
  intros P Hp Hb Ha Hdue Hc Ht.
  destruct (tez_nominal_step fuel s Hp Hb Ha) as [evs E].
  eexists. exists evs. split; [exact E|].
  unfold tez_due in *.
  cbn [period_ticks s_mode s_state cycle_counter active_period_ticks
       shadow_period_ticks timer_base_ticks base_period_fp16
       period_ticks_frac_acc s_align_request].
  rewrite !(to_int64_id _ Hc), !(to_int64_id _ Ht).
  fold P. repeat split; auto; lia.
Qed.

Lemma grid_run fuel n : forall s,
  let P := DTR_TIMER_PERIOD_TICKS in
  pending (s_align_request s) = false ->
  base_period_fp16 s = P * FP16_SCALE ->
  period_ticks_frac_acc s = 0 ->
  tez_due s = (cycle_counter s + 1) * P ->
  timer_base_ticks s + active_period_ticks s = cycle_counter s * P ->
  0 <= cycle_counter s -> cycle_counter s + Z.of_nat n < 2 ^ 45 ->
  exists sts,
    tez_run fuel n s = Ok sts /\
    Forall (fun st => timer_base_ticks st = (cycle_counter st - 1) * P) sts.
Proof.
  induction n as [|n IH]; intros s P Hp Hb Ha Hdue Hgrid Hc0 Hc.
  - exists []. split; [reflexivity|constructor].
  - unfold P in *. change DTR_TIMER_PERIOD_TICKS with 20000 in *.
    destruct (grid_step fuel s Hp Hb Ha Hdue)
      as (s1 & evs & E & Hp1 & Hb1 & Ha1 & Hdue1 & Hgrid1 & Hc1 & Ht1);
      try (unfold in_int64; lia).
    change DTR_TIMER_PERIOD_TICKS with 20000 in *.
    destruct (IH s1 Hp1 Hb1 Ha1 Hdue1 Hgrid1) as (rest & Er & Hall); try lia.
    exists (s1 :: rest). split.
    + cbn [Dtr.tez_run]. rewrite E. cbn [bind fst]. rewrite Er. reflexivity.
    + constructor; [|exact Hall]. lia.
Qed.

(** X20.  What [dtr_align_master_timer] achieves.  On a master that runs
    at the nominal period, the function, with the two interrupts it waits
    for, returns with the feedback taken, no request pending and no listener
    registered; and from the second interrupt after it on, every interrupt
    falls on a multiple of the period, the cycle counter being one more
    than that multiple: [timer_base_ticks = (cycle_counter - 1) * P]. *)
Theorem master_alignment_puts_timer_on_grid fuel task s n :
  let P := DTR_TIMER_PERIOD_TICKS in
  pending (s_align_request s) = false ->
  base_period_fp16 s = P * FP16_SCALE ->
  period_ticks_frac_acc s = 0 ->
  active_period_ticks s = P -> shadow_period_ticks s = P ->
  0 <= timer_base_ticks s < 2 ^ 50 ->
  MIN_TICKS <= P ->
  Z.of_nat n < 2 ^ 39 ->
  exists s',
    dtr_align_master_timer (S fuel) task s = Ok (Some s') /\
    pending (s_align_request s') = false /\
    ready (s_align_feedback s') = true /\
    s_tez_listener_task s' = None /\
    s_state s' = (if dtr_state_eqb (s_state s) DTR_STATE_RUNNING
                  then DTR_STATE_ALIGNED else s_state s) /\
    exists sts,
      tez_run (S fuel) n s' = Ok sts /\
      Forall (fun st => timer_base_ticks st = (cycle_counter st - 1) * P)
        (tl sts).
Proof.
  intros P Hp Hb Ha Hact Hsh Htb Hmin Hn.
  unfold Dtr.dtr_align_master_timer.
  destruct (tez_nominal_step (S fuel) (dtr_register_tez_listener (Some task) s))
    as [evs1 E1]; [exact Hp|exact Hb|exact Ha|].
  rewrite E1. cbn [bind fst]. unfold dtr_get_timer_base_ticks.
  cbn [timer_base_ticks dtr_register_tez_listener active_period_ticks
       shadow_period_ticks].
  rewrite Hact, Hsh. fold P.
  unfold P in *. change DTR_TIMER_PERIOD_TICKS with 20000 in *.
  rewrite (to_int64_id (timer_base_ticks s + 20000)) by (unfold in_int64; lia).
  set (tb := timer_base_ticks s + 20000).
  rewrite (master_align_request_spec tb) by (unfold tb; lia).
  cbn [fst snd]. change DTR_TIMER_PERIOD_TICKS with 20000.
  match goal with
  | |- context [dtr_tez_handler (S fuel) ?x] => set (s0 := x)
  end.
  destruct (tez_master_apply fuel s0 tb)
    as (s1 & evs2 & E2 & Hp1 & Hr1 & Hb1 & Ha1 & Htb1 & Hact1 & Hsh1 & Hdue1
        & Hc1 & Hl1 & Hst1); try reflexivity;
    try (change DTR_TIMER_PERIOD_TICKS with 20000; unfold tb; lia).
  change DTR_TIMER_PERIOD_TICKS with 20000 in *.
  rewrite E2. cbn [bind fst]. rewrite Hr1.
  eexists. split; [reflexivity|].
  cbn [dtr_register_tez_listener s_align_request s_align_feedback
       s_tez_listener_task s_state].
  split; [exact Hp1|]. split; [exact Hr1|]. split; [reflexivity|].
  split; [exact Hst1|].
  set (s' := dtr_register_tez_listener None s1).
  assert (Hq : 0 <= tb / 20000 < 2 ^ 36).
  { split; [apply Z.div_pos; unfold tb; lia|].
    apply Z.div_lt_upper_bound; unfold tb; lia. }
  destruct n as [|n]; [exists []; split; [reflexivity|constructor]|].
  destruct (grid_step (S fuel) s')
    as (s2 & evs3 & E3 & Hp2 & Hb2 & Ha2 & Hdue2 & Hgrid2 & Hc2 & Ht2);
    try assumption; try (unfold in_int64; cbn [s' dtr_register_tez_listener
      cycle_counter timer_base_ticks active_period_ticks]; unfold tb in *; lia).
  change DTR_TIMER_PERIOD_TICKS with 20000 in *.
  cbn [s' dtr_register_tez_listener cycle_counter timer_base_ticks
       active_period_ticks] in Hc2, Ht2.
  destruct (grid_run (S fuel) n s2 Hp2 Hb2 Ha2 Hdue2 Hgrid2)
    as (rest & Er & Hall); try lia.
  exists (s2 :: rest). split.
  - cbn [Dtr.tez_run]. rewrite E3. cbn [bind fst]. rewrite Er. reflexivity.
  - exact Hall.
Qed.

End DtrInvariants.

(** A slave with a callback, started, with a request for cycle 5 at tick
    30000: the states of this run are reachable. *)
Lemma handshake_example_run :
  Dtr.run 5000 240 true (Dtr.dtr_init true Dtr.DTR_MODE_SLAVE true)
    [Dtr.LStartTimer; Dtr.LSetAlignRequest 5 30000 (20000 * 65536)]
    Dtr.handshake_example_state.
Proof.
  apply (Dtr.run_snoc _ _ _ _ [Dtr.LStartTimer]
           (Dtr.s_enable_and_start_timer
              (Dtr.dtr_init true Dtr.DTR_MODE_SLAVE true))
           (Dtr.LSetAlignRequest 5 30000 (20000 * 65536))).
  - apply (Dtr.run_snoc _ _ _ _ [] (Dtr.dtr_init true Dtr.DTR_MODE_SLAVE true)
             Dtr.LStartTimer).
    + apply Dtr.run_nil.
    + apply Dtr.step_start. reflexivity.
  - apply Dtr.step_request.
Qed.

Lemma tez_feedback_assert_never_fails_witness :
  Dtr.pending (Dtr.s_align_request Dtr.handshake_example_state) = true /\
  Dtr.ready (Dtr.s_align_feedback Dtr.handshake_example_state) = false.
Proof.
  destruct (tez_feedback_assert_never_fails 5000 240 true Dtr.DTR_MODE_SLAVE
              true _ _ handshake_example_run) as [H _].
  split; [reflexivity|]. apply H. reflexivity.
Defined.

Lemma dtr_output_gated_by_alignment_witness :
  Dtr.hw_force_level Dtr.handshake_example_state = Some 0 /\
  exists s' pre,
    Dtr.dtr_tez_handler 5000 240 true 0 Dtr.handshake_example_state
      = Ok (s', pre ++ [Dtr.EvAppCallback 5]) /\
    Dtr.hw_force_level s' = None.
Proof.
  destruct (dtr_output_gated_by_alignment 5000 240 true Dtr.DTR_MODE_SLAVE
              true _ _ handshake_example_run) as [H1 H2].
  split; [exact H1|].
  destruct (Dtr.dtr_tez_handler 5000 240 true 0 Dtr.handshake_example_state)
    as [[s' evs]| |] eqn:E; try (vm_compute in E; discriminate).
  pose proof E as E'. vm_compute in E'. injection E' as Es Ee.
  destruct (H2 0%nat s' evs E) as [_ H3].
  destruct H3 as (pre & Hpre & _);
    [rewrite <- Es; reflexivity|reflexivity|].
  exists s', pre. split.
  - rewrite Hpre. rewrite <- Es. reflexivity.
  - rewrite <- Es. reflexivity.
Defined.

Lemma dtr_start_timer_only_once_witness :
  Dtr.dtr_start_timer_enable Dtr.handshake_example_state
    = Abort TimerAlreadyStarted.
Proof.
  apply (proj1 (dtr_start_timer_only_once 5000 240 true Dtr.DTR_MODE_SLAVE
                  true _ _ handshake_example_run)).
  cbn. auto.
Defined.

(** Discharges the next premise of [H] when it is closed and decided by
    computation. *)
Ltac feed_computed H :=
  match type of H with
  | ?A -> _ =>
      let Ha := fresh in
      assert (Ha : A) by (vm_compute; repeat split; first [discriminate | reflexivity]);
      specialize (H Ha); clear Ha
  end.

(** The request of the example, for tick 30000 and cycle 5, is applied at
    tick 0 while a period of 20000 ticks waits in the shadow register:
    two interrupts later the timer base is 50000 and the cycle is 7. *)
Lemma tez_alignment_takes_effect_witness :
  exists s1 s2 s3 e1 e2 e3,
    Dtr.dtr_tez_handler 5000 240 true 0 Dtr.handshake_example_state = Ok (s1, e1) /\
    Dtr.dtr_tez_handler 5000 240 true 0 s1 = Ok (s2, e2) /\
    Dtr.dtr_tez_handler 5000 240 true 0 s2 = Ok (s3, e3) /\
    Dtr.timer_base_ticks s3 = 30000 + 20000 /\
    Dtr.cycle_counter s3 = 5 + 2.
Proof.
  destruct (Dtr.dtr_tez_handler 5000 240 true 0 Dtr.handshake_example_state)
    as [[s1 e1]| |] eqn:E1; try (vm_compute in E1; discriminate).
  pose proof E1 as E1'. vm_compute in E1'. injection E1' as Es1 _.
  destruct (Dtr.dtr_tez_handler 5000 240 true 0 s1)
    as [[s2 e2]| |] eqn:E2;
    try (rewrite <- Es1 in E2; vm_compute in E2; discriminate).
  pose proof E2 as E2'. rewrite <- Es1 in E2'. vm_compute in E2'.
  injection E2' as Es2 _.
  destruct (Dtr.dtr_tez_handler 5000 240 true 0 s2)
    as [[s3 e3]| |] eqn:E3;
    try (rewrite <- Es2 in E3; vm_compute in E3; discriminate).
  pose proof (tez_alignment_takes_effect 5000 240 true 0
                Dtr.handshake_example_state s1 s2 s3 e1 e2 e3) as H.
  cbv zeta in H. specialize (H eq_refl E1 E2 E3).
  do 6 feed_computed H.
  destruct H as (_ & H1 & _ & H2).
  exists s1, s2, s3, e1, e2, e3. repeat split; assumption.
Defined.

(** The slave of the dithering example, 50 interrupts on: the schedule has
    advanced by 50 periods of 20000 ticks and one carried tick. *)
Lemma tez_timer_base_long_run_witness :
  exists sts,
    Dtr.tez_run 5000 240 true 0 50 Dtr.dither_example_state = Ok sts /\
    Dtr.tez_due (last sts Dtr.dither_example_state)
      = Dtr.tez_due Dtr.dither_example_state + 50 * 20000 + 50 * 2621 / 65536.
Proof.
  destruct (Dtr.tez_run 5000 240 true 0 50 Dtr.dither_example_state)
    as [sts| |] eqn:E; try (vm_compute in E; discriminate).
  exists sts. split; [reflexivity|].
  pose proof (tez_timer_base_long_run 5000 240 true 0
                Dtr.dither_example_state 20000 2621 50 sts) as H.
  specialize (H eq_refl).
  do 5 feed_computed H.
  exact (proj1 (H E)).
Defined.

(** The master of the example aligns from a timer base of 59500 ticks: the
    target, tick 80000, is 500 ticks after the next interrupt, so the loop
    runs once. *)
Lemma master_alignment_puts_timer_on_grid_witness :
  exists s',
    Dtr.dtr_align_master_timer 5000 240 false 1 1 Dtr.master_example_state
    = Ok (Some s') /\
    exists sts,
      Dtr.tez_run 5000 240 false 1 5 s' = Ok sts /\
      Forall (fun st => Dtr.timer_base_ticks st
                        = (Dtr.cycle_counter st - 1) * Dtr.DTR_TIMER_PERIOD_TICKS)
        (tl sts).
Proof.
  pose proof (master_alignment_puts_timer_on_grid 5000 240 false 0 1%nat
                Dtr.master_example_state 5) as H.
  cbv zeta in H. do 8 feed_computed H.
  destruct H as (s' & E & _ & _ & _ & _ & sts & Er & Hall).
  exists s'. split; [exact E|]. exists sts. split; [exact Er|exact Hall].
Defined.

(** ** The sync packets *)

Section SyncFacts.

Import Ftm.

Lemma le_value_le_bytes n : forall v,
  0 <= v < 256 ^ Z.of_nat n -> le_value (le_bytes n v) = v.
Proof.
  induction n as [|n IH]; intros v Hv.
  - cbn in *. lia.
  - cbn [le_bytes le_value].
    rewrite Nat2Z.inj_succ, Z.pow_succ_r in Hv by lia.
    rewrite IH.
    + pose proof (Z.div_mod v 256 ltac:(lia)). lia.
    + split; [apply Z.div_pos; lia|apply Z.div_lt_upper_bound; lia].
Qed.

Lemma le_bytes_length n v : length (le_bytes n v) = n.
Proof. revert v. induction n; intros v; cbn; [reflexivity|now rewrite IHn]. Qed.

Lemma firstn_le_bytes n : forall v rest,
  firstn n (le_bytes n v ++ rest) = le_bytes n v.
Proof.
  induction n as [|n IH]; intros v rest; [reflexivity|].
  cbn [le_bytes app firstn]. now rewrite IH.
Qed.

Lemma skipn_le_bytes n : forall v rest,
  skipn n (le_bytes n v ++ rest) = rest.
Proof.
  induction n as [|n IH]; intros v rest; [reflexivity|].
  cbn [le_bytes app skipn]. apply IH.
Qed.

Lemma packet_of_bytes_packet_bytes p :
  in_uint32 (magic p) -> in_uint32 (run_id p) -> in_uint64 (pkt_mac_clock_us p) ->
  packet_of_bytes (packet_bytes p) = p /\
  Z.of_nat (length (packet_bytes p)) = SIZEOF_SYNC_PACKET.
Proof.
  intros Hm Hr Hc. unfold in_uint32, in_uint64 in *. split.
  - unfold packet_of_bytes, packet_bytes.
    change 8%nat with (4 + 4)%nat at 2. rewrite <- (skipn_skipn 4 4).
    rewrite !skipn_le_bytes, !firstn_le_bytes.
    rewrite <- (app_nil_r (le_bytes (4 + 4) _)), firstn_le_bytes.
    rewrite (le_value_le_bytes 4 (magic p)), (le_value_le_bytes 4 (run_id p)),
      (le_value_le_bytes (4 + 4) (pkt_mac_clock_us p)).
    2-4: try (change (256 ^ Z.of_nat (4 + 4)) with (2 ^ 64); lia);
      change (256 ^ Z.of_nat 4) with (2 ^ 32); lia.
    destruct p; reflexivity.
  - unfold packet_bytes. rewrite !length_app, !le_bytes_length. reflexivity.
Qed.

(** X13.  What the master broadcasts, the slave stores: the datagram
    [ftm_sync_broadcast_task] builds from its run id and from the value of
    [clock_get_us()] passes both checks of [ftm_sync_recv_cb], which then
    holds the master's run id and clock reading (as an unsigned 64-bit
    count) and has [s_sync_valid] set, whatever it held before. *)
Theorem sync_packet_round_trip (s_run_id clock_us : Z) (s : sync_t) :
  in_uint32 s_run_id ->
  ftm_sync_recv_cb (fst (ftm_sync_broadcast s_run_id clock_us))
    (snd (ftm_sync_broadcast s_run_id clock_us)) s
  = mk_sync s_run_id true (to_uint64 clock_us).
Proof.
  intros Hr. unfold ftm_sync_broadcast, ftm_sync_recv_cb. cbn [fst snd].
  rewrite Z.eqb_refl. cbn [negb].
  destruct (packet_of_bytes_packet_bytes
              (mk_packet FTM_SYNC_MAGIC s_run_id (to_uint64 clock_us))) as [E _].
  - cbn [magic]. unfold in_uint32, FTM_SYNC_MAGIC. lia.
  - exact Hr.
  - cbn [pkt_mac_clock_us]. apply to_uint64_range.
  - rewrite E. cbn [magic run_id pkt_mac_clock_us]. rewrite Z.eqb_refl.
    reflexivity.
Qed.

Lemma le_value_four a b c d :
  0 <= a < 256 -> 0 <= b < 256 -> 0 <= c < 256 -> 0 <= d < 256 ->
  le_value [a; b; c; d] = FTM_SYNC_MAGIC ->
  [a; b; c; d] = [48; 83; 84; 70].
Proof.
  intros Ha Hb Hc Hd. unfold FTM_SYNC_MAGIC. cbn [le_value]. intros H.
  assert (a = 48 /\ b = 83 /\ c = 84 /\ d = 70) as (-> & -> & -> & ->) by lia.
  reflexivity.
Qed.

Lemma sync_recv_all_valid datagrams : forall s,
  s_sync_valid s = true -> s_sync_valid (ftm_sync_recv_all datagrams s) = true.
Proof.
  unfold ftm_sync_recv_all.
  induction datagrams as [|d rest IH]; intros s Hs; [exact Hs|].
  cbn [fold_left]. apply IH. unfold ftm_sync_recv_cb.
  destruct (Z.of_nat (length d) =? SIZEOF_SYNC_PACKET); cbn [negb]; [|exact Hs].
  destruct (magic (packet_of_bytes d) =? FTM_SYNC_MAGIC); cbn [negb];
    [reflexivity|exact Hs].
Qed.

(** X14.  What the slave does with foreign traffic.  A datagram is taken
    only if it is 16 bytes long and starts with the bytes [30 53 54 46]
    (hexadecimal) of the magic number; any other datagram leaves the three
    variables as they were.  And no datagram, well formed or not, clears
    [s_sync_valid] once it is set. *)
Theorem sync_recv_ignores_foreign_datagrams (d : list Z) (s : sync_t) :
  Forall (fun b => 0 <= b < 256) d ->
  (firstn 4 d <> [48; 83; 84; 70] \/ length d <> 16%nat ->
   ftm_sync_recv_cb d (Z.of_nat (length d)) s = s) /\
  (firstn 4 d = [48; 83; 84; 70] -> length d = 16%nat ->
   ftm_sync_recv_cb d (Z.of_nat (length d)) s
   = mk_sync (le_value (firstn 4 (skipn 4 d))) true
       (le_value (firstn 8 (skipn 8 d)))) /\
  (forall datagrams,
     s_sync_valid s = true ->
     s_sync_valid (ftm_sync_recv_all datagrams s) = true).
Proof.
  intros Hb. split; [|split; [|intros ds; apply sync_recv_all_valid]].
  - intros H. unfold ftm_sync_recv_cb, SIZEOF_SYNC_PACKET.
    destruct (Z.eqb_spec (Z.of_nat (length d)) 16) as [E|E]; cbn [negb];
      [|reflexivity].
    destruct (Z.eqb_spec (magic (packet_of_bytes d)) FTM_SYNC_MAGIC) as [M|M];
      cbn [negb]; [|reflexivity].
    exfalso. destruct H as [H|H]; [|lia]. apply H.
    unfold packet_of_bytes in M. cbn [magic] in M.
    destruct d as [|a [|b [|c [|x rest]]]]; cbn [length] in E; try lia.
    cbn [firstn] in M |- *.
    inversion Hb as [|? ? Ha Hb1]; subst.
    inversion Hb1 as [|? ? Hb' Hb2]; subst.
    inversion Hb2 as [|? ? Hc Hb3]; subst.
    inversion Hb3 as [|? ? Hx _]; subst.
    apply le_value_four; assumption.
  - intros H Hl. unfold ftm_sync_recv_cb, SIZEOF_SYNC_PACKET.
    rewrite Hl. cbn [Z.of_nat Pos.of_succ_nat Pos.succ Z.eqb Pos.eqb negb].
    unfold packet_of_bytes. cbn [magic run_id pkt_mac_clock_us].
    rewrite H. cbn [le_value]. reflexivity.
Qed.

End SyncFacts.

(** A master with run id [0xCAFE0001] whose clock reads 123456789 us. *)
Lemma sync_packet_round_trip_witness :
  Ftm.ftm_sync_recv_cb
    [48; 83; 84; 70; 1; 0; 254; 202; 21; 205; 91; 7; 0; 0; 0; 0] 16
    Ftm.sync_boot
  = Ftm.mk_sync 0xCAFE0001 true 123456789.
Proof.
  exact (sync_packet_round_trip 0xCAFE0001 123456789 Ftm.sync_boot
           ltac:(unfold in_uint32; lia)).
Defined.

(** A datagram of 16 bytes that starts with other bytes is dropped. *)
Lemma sync_recv_ignores_foreign_datagrams_witness :
  Ftm.ftm_sync_recv_cb
    [49; 83; 84; 70; 1; 0; 254; 202; 21; 205; 91; 7; 0; 0; 0; 0] 16
    (Ftm.mk_sync 7 true 9)
  = Ftm.mk_sync 7 true 9.
Proof.
  apply (sync_recv_ignores_foreign_datagrams
           [49; 83; 84; 70; 1; 0; 254; 202; 21; 205; 91; 7; 0; 0; 0; 0]
           (Ftm.mk_sync 7 true 9)).
  - repeat constructor; lia.
  - left. cbn. discriminate.
Defined.

(** ** From the driver's reports to the regression *)

Section FtmFacts.

Import Clock Crm Ftm.

Variable Env : Type.

Lemma unwrap_seq_app l1 : forall l2 st,
  unwrap_seq (l1 ++ l2) st
  = (fst (unwrap_seq l1 st) ++ fst (unwrap_seq l2 (snd (unwrap_seq l1 st))),
     snd (unwrap_seq l2 (snd (unwrap_seq l1 st)))).
Proof.
  induction l1 as [|x l1 IH]; intros l2 st.
  - cbn. now destruct (unwrap_seq l2 st).
  - cbn [app]. rewrite !unwrap_seq_cons, IH. reflexivity.
Qed.

Lemma unwrap_seq_length l : forall st, length (fst (unwrap_seq l st)) = length l.
Proof.
  induction l as [|x l IH]; intros st; [reflexivity|].
  rewrite unwrap_seq_cons. cbn [fst length]. now rewrite IH.
Qed.

Lemma unwrap_entry_eq buffer u a1 a2 a3 a4 i :
  let e := nth (Z.to_nat i) buffer entry_zero in
  unwrap_entry buffer (u, (a1, a2, a3, a4)) i
  = (mk_unwraps (snd (clock_unwrap (to_int64 (t1 e)) (t1_unwrap u)))
       (snd (clock_unwrap (to_int64 (t2 e)) (t2_unwrap u)))
       (snd (clock_unwrap (to_int64 (t3 e)) (t3_unwrap u)))
       (snd (clock_unwrap (to_int64 (t4 e)) (t4_unwrap u))),
     (array_set a1 i (fst (clock_unwrap (to_int64 (t1 e)) (t1_unwrap u))),
      array_set a2 i (fst (clock_unwrap (to_int64 (t2 e)) (t2_unwrap u))),
      array_set a3 i (fst (clock_unwrap (to_int64 (t3 e)) (t3_unwrap u))),
      array_set a4 i (fst (clock_unwrap (to_int64 (t4 e)) (t4_unwrap u))))).
Proof.
  intros e. unfold unwrap_entry. fold e.
  destruct (clock_unwrap (to_int64 (t1 e)) (t1_unwrap u)).
  destruct (clock_unwrap (to_int64 (t2 e)) (t2_unwrap u)).
  destruct (clock_unwrap (to_int64 (t3 e)) (t3_unwrap u)).
  destruct (clock_unwrap (to_int64 (t4 e)) (t4_unwrap u)).
  reflexivity.
Qed.

Lemma array_set_append r : forall a v,
  (length r < length a)%nat ->
  array_set (r ++ skipn (length r) a) (Z.of_nat (length r)) v
  = (r ++ [v]) ++ skipn (S (length r)) a.
Proof.
  intros a v Hlt. unfold array_set.
  destruct (Z.ltb_spec (Z.of_nat (length r)) 0) as [H|_]; [lia|].
  rewrite Nat2Z.id. rewrite <- app_assoc. cbn [app].
  assert (E : skipn (length r) a = nth (length r) a 0 :: skipn (S (length r)) a).
  { clear v. revert a Hlt. induction r as [|x r IH]; intros a Hlt.
    - destruct a; [cbn in Hlt; lia|reflexivity].
    - destruct a as [|y a]; [cbn in Hlt; lia|]. cbn [length skipn nth].
      apply IH. cbn in Hlt. lia. }
  rewrite E. generalize (skipn (S (length r)) a) as t.
  generalize (nth (length r) a 0) as y. clear.
  induction r as [|x r IH]; intros y t; [reflexivity|].
  cbn [length app array_set_nat]. now rewrite IH.
Qed.

Lemma firstn_snoc {A : Type} (d : A) (l : list A) k :
  (k < length l)%nat -> firstn (S k) l = firstn k l ++ [nth k l d].
Proof.
  revert l. induction k as [|k IH]; intros l Hk.
  - destruct l; [cbn in Hk; lia|reflexivity].
  - destruct l as [|x l]; [cbn in Hk; lia|].
    cbn [firstn nth app]. rewrite <- IH by (cbn in Hk; lia). reflexivity.
Qed.

Lemma upto_succ k : upto (Z.of_nat (S k)) = upto (Z.of_nat k) ++ [Z.of_nat k].
Proof.
  unfold upto. rewrite !Nat2Z.id. rewrite seq_S, map_app. reflexivity.
Qed.

(** The loop of [process_ftm_report] after [k] passes: the trackers have
    seen the first [k] entries, whose unwrapped stamps fill the first [k]
    slots of the arrays. *)
Lemma unwrap_loop buffer u a1 a2 a3 a4 : forall k,
  (k <= length buffer)%nat ->
  (k <= length a1)%nat -> (k <= length a2)%nat ->
  (k <= length a3)%nat -> (k <= length a4)%nat ->
  let r := unwrap_session (firstn k buffer) u in
  fold_left (unwrap_entry buffer) (upto (Z.of_nat k)) (u, (a1, a2, a3, a4))
  = (snd r,
     (fst (fst (fst (fst (fst r)))) ++ skipn k a1,
      snd (fst (fst (fst (fst r)))) ++ skipn k a2,
      snd (fst (fst (fst r))) ++ skipn k a3,
      snd (fst (fst r)) ++ skipn k a4)).
Proof.
  induction k as [|k IH]; intros Hb H1 H2 H3 H4.
  - cbn. destruct u; reflexivity.
  - cbv zeta in IH |- *. rewrite upto_succ, fold_left_app, IH by lia.
    cbn [fold_left]. rewrite unwrap_entry_eq. cbv zeta.
    rewrite Nat2Z.id.
    rewrite (firstn_snoc entry_zero buffer k) by lia.
    unfold unwrap_session. cbn [fst snd t1_unwrap t2_unwrap t3_unwrap t4_unwrap].
    rewrite !map_app. cbn [map].
    rewrite !unwrap_seq_app. cbn [fst snd].
    rewrite !(unwrap_seq_cons _ []). cbn [unwrap_seq fst snd].
    set (e := nth k buffer entry_zero).
    set (r1 := unwrap_seq (map (fun e => to_int64 (t1 e)) (firstn k buffer)) (t1_unwrap u)).
    set (r2 := unwrap_seq (map (fun e => to_int64 (t2 e)) (firstn k buffer)) (t2_unwrap u)).
    set (r3 := unwrap_seq (map (fun e => to_int64 (t3 e)) (firstn k buffer)) (t3_unwrap u)).
    set (r4 := unwrap_seq (map (fun e => to_int64 (t4 e)) (firstn k buffer)) (t4_unwrap u)).
    assert (L : forall (f : ftm_report_entry -> Z) st,
              length (fst (unwrap_seq (map f (firstn k buffer)) st)) = k).
    { intros f st. rewrite unwrap_seq_length, length_map, length_firstn. lia. }
    assert (L1 : length (fst r1) = k) by apply L.
    assert (L2 : length (fst r2) = k) by apply L.
    assert (L3 : length (fst r3) = k) by apply L.
    assert (L4 : length (fst r4) = k) by apply L.
    f_equal. f_equal; [f_equal; [f_equal|]|].
    + rewrite <- L1 at 1 2 3. rewrite array_set_append by lia. now rewrite L1.
    + rewrite <- L2 at 1 2 3. rewrite array_set_append by lia. now rewrite L2.
    + rewrite <- L3 at 1 2 3. rewrite array_set_append by lia. now rewrite L3.
    + rewrite <- L4 at 1 2 3. rewrite array_set_append by lia. now rewrite L4.
Qed.

Lemma In_upto i n : In i (upto n) -> 0 <= i < n.
Proof.
  unfold upto. rewrite in_map_iff. intros (k & <- & Hk).
  apply in_seq in Hk. lia.
Qed.

(** [crm_process_ftm_report] reads the first [count] entries of its four
    arrays and nothing else. *)
Lemma crm_process_ftm_report_ext a1 a2 a3 a4 b1 b2 b3 b4 n (c : crm_t Env) env :
  (forall i, 0 <= i < n ->
     array_get a1 i = array_get b1 i /\ array_get a2 i = array_get b2 i /\
     array_get a3 i = array_get b3 i /\ array_get a4 i = array_get b4 i) ->
  crm_process_ftm_report a1 a2 a3 a4 n c env
  = crm_process_ftm_report b1 b2 b3 b4 n c env.
Proof.
  intros H. unfold crm_process_ftm_report.
  destruct (n =? 0); [reflexivity|].
  rewrite !add_report_samples_spec.
  rewrite (map_ext_in (report_sample a1 a2 a3 a4) (report_sample b1 b2 b3 b4));
    [reflexivity|].
  intros i Hi. apply In_upto in Hi. destruct (H i Hi) as (E1 & E2 & E3 & E4).
  unfold report_sample. now rewrite E1, E2, E3, E4.
Qed.

Lemma array_get_app_l r t i :
  0 <= i < Z.of_nat (length r) -> array_get (r ++ t) i = array_get r i.
Proof.
  intros Hi. unfold array_get. apply app_nth1. lia.
Qed.


Lemma get_report_length entries buffer n :
  0 <= n <= Z.of_nat (length buffer) ->
  length (get_report entries buffer n) = length buffer.
Proof.
  intros Hn. unfold get_report.
  rewrite length_app, length_firstn, length_app, repeat_length, length_skipn.
  lia.
Qed.

(** [process_ftm_report] on a report of [n] entries: the CRM is called on
    their unwrapped stamps. *)
Lemma process_ftm_report_spec u s (c : crm_t Env) env :
  ftm_wf s -> 0 < s_ftm_report_count s ->
  let entries := firstn (Z.to_nat (s_ftm_report_count s)) (s_ftm_report_buffer s) in
  let r := unwrap_session entries u in
  exists s',
    process_ftm_report u s c env
    = (snd r, s',
       crm_process_ftm_report (fst (fst (fst (fst (fst r)))))
         (snd (fst (fst (fst (fst r))))) (snd (fst (fst (fst r))))
         (snd (fst (fst r))) (s_ftm_report_count s) c env) /\
    ftm_wf s' /\ s_ftm_report_count s' = 0 /\
    s_ftm_session_number s' = to_uint32 (s_ftm_session_number s + 1) /\
    FTM_REPORT_BIT s' = FTM_REPORT_BIT s /\
    FTM_FAILURE_BIT s' = FTM_FAILURE_BIT s.
Proof.
  intros (Hc & Hb & H1 & H2 & H3 & H4) Hpos entries r.
  change FTM_REPORT_MAX_ENTRIES with 64 in *.
  unfold process_ftm_report.
  destruct (Z.eqb_spec (s_ftm_report_count s) 0) as [E|_]; [lia|].
  set (k := Z.to_nat (s_ftm_report_count s)).
  assert (Hk : s_ftm_report_count s = Z.of_nat k) by (unfold k; lia).
  replace (upto (s_ftm_report_count s)) with (upto (Z.of_nat k))
    by (now rewrite <- Hk).
  rewrite (unwrap_loop (s_ftm_report_buffer s) u (s_t1_ps s) (s_t2_ps s)
             (s_t3_ps s) (s_t4_ps s) k) by lia.
  fold entries. fold r.
  assert (L : forall (f : ftm_report_entry -> Z) st,
            length (fst (unwrap_seq (map f entries) st)) = k).
  { intros f st. unfold entries. fold k.
    rewrite unwrap_seq_length, length_map, length_firstn. lia. }
  cbv beta iota.
  eexists. split.
  { apply (f_equal2 pair); [reflexivity|].
    apply crm_process_ftm_report_ext. intros i Hi.
    unfold r, unwrap_session. cbn [fst snd].
    rewrite !array_get_app_l by (rewrite L; lia). auto. }
  split.
  { unfold ftm_wf. cbn [s_ftm_report_count s_ftm_report_buffer s_t1_ps s_t2_ps
                        s_t3_ps s_t4_ps].
    change FTM_REPORT_MAX_ENTRIES with 64.
    unfold unwrap_session. cbn [fst snd].
    rewrite !length_app, !L, !length_skipn. repeat split; lia. }
  cbn [s_ftm_report_count s_ftm_session_number FTM_REPORT_BIT FTM_FAILURE_BIT].
  repeat split; reflexivity.
Qed.





Lemma ftm_event_handler_wf ev s s' :
  ftm_wf s -> ftm_event_handler ev s = Some s' -> ftm_wf s'.
Proof.
  intros Hwf. pose proof Hwf as (Hc & Hb & H1 & H2 & H3 & H4).
  unfold ftm_event_handler.
  destruct ev as [ok n report|]; [|intros E; inversion E; subst; exact Hwf].
  destruct (ok && (0 <? n)) eqn:E1.
  - apply andb_true_iff in E1. destruct E1 as [_ E1]. apply Z.ltb_lt in E1.
    destruct (Z.ltb_spec FTM_REPORT_MAX_ENTRIES n) as [|Hn]; [discriminate|].
    destruct report as [entries|]; intros E; inversion E; subst; clear E;
      unfold ftm_wf; cbn [s_ftm_report_count s_ftm_report_buffer s_t1_ps
                          s_t2_ps s_t3_ps s_t4_ps]; auto.
    rewrite get_report_length by lia. repeat split; auto; lia.
  - intros E; inversion E; subst; clear E. exact Hwf.
Qed.

Lemma ftm_poll_pass_wf initiated u s (c : crm_t Env) env :
  ftm_wf s -> ftm_wf (snd (fst (ftm_poll_pass initiated u s c env))).
Proof.
  intros Hwf. unfold ftm_poll_pass.
  destruct initiated; cbn [negb]; [|exact Hwf].
  match goal with
  | |- context [process_ftm_report u ?x c env] => set (s1 := x)
  end.
  assert (Hwf1 : ftm_wf s1) by exact Hwf.
  destruct (FTM_REPORT_BIT s); [|exact Hwf1].
  destruct (Z.eq_dec (s_ftm_report_count s1) 0) as [E|E].
  - unfold process_ftm_report. rewrite E. cbn [Z.eqb fst snd]. exact Hwf1.
  - destruct (process_ftm_report_spec u s1 c env Hwf1) as (s' & E' & Hwf' & _).
    { destruct Hwf1 as [? _]. lia. }
    rewrite E'. exact Hwf'.
Qed.

(** X16.  The report buffers are never overrun.  Whatever events the
    driver delivers and however they interleave with the passes of the poll
    task, as long as the program has not aborted the number of entries
    waiting to be processed stays between 0 and [FTM_REPORT_MAX_ENTRIES] and
    the five static arrays keep that size, so that every index the loop of
    [process_ftm_report] uses is inside them; and the handler aborts exactly
    on a successful report of more than 64 entries. *)
Theorem ftm_buffers_never_overrun (actions : list ftm_action) :
  forall u s (c : crm_t Env) env,
  ftm_wf s ->
  (forall u' s' ce',
     ftm_run actions (u, s, (c, env)) = Some (u', s', ce') -> ftm_wf s') /\
  (forall ev,
     ftm_event_handler ev s = None <->
     exists n report,
       ev = WIFI_EVENT_FTM_REPORT true n report /\ FTM_REPORT_MAX_ENTRIES < n).
Proof.
  induction actions as [|a rest IH]; intros u s c env Hwf; split.
  - intros u' s' ce' E. cbn in E. inversion E; subst. exact Hwf.
  - intros ev. unfold ftm_event_handler. change FTM_REPORT_MAX_ENTRIES with 64.
    destruct ev as [ok n report|].
    + destruct ok; cbn [andb].
      * destruct (Z.ltb_spec 0 n).
        -- destruct (Z.ltb_spec 64 n).
           ++ split; [intros _; exists n, report; auto|reflexivity].
           ++ destruct report; (split; [discriminate|]);
                intros (n' & r' & E & Hn); inversion E; subst; lia.
        -- split; [discriminate|].
           intros (n' & r' & E & Hn); inversion E; subst; lia.
      * split; [discriminate|]. intros (n' & r' & E & Hn); discriminate.
    + split; [discriminate|]. intros (n' & r' & E & Hn); discriminate.
  - intros u' s' ce' E. cbn [ftm_run ftm_step] in E.
    destruct a as [ev|initiated].
    + destruct (ftm_event_handler ev s) as [s1|] eqn:Eh; [|discriminate].
      destruct (IH u s1 c env (ftm_event_handler_wf ev s s1 Hwf Eh)) as [H _].
      exact (H u' s' ce' E).
    + pose proof (ftm_poll_pass_wf initiated u s c env Hwf) as Hwf1.
      destruct (ftm_poll_pass initiated u s c env) as [[u1 s1] [c1 env1]].
      cbn [fst snd] in Hwf1.
      destruct (IH u1 s1 c1 env1 Hwf1) as [H _].
      exact (H u' s' ce' E).
  - destruct (IH u s c env Hwf) as [_ H]. exact H.
Qed.

Lemma unwrap_sessions_t2 sessions : forall u,
  concat (map report_t2 (fst (unwrap_sessions sessions u)))
  = fst (unwrap_seq (concat (map (map (fun e => to_int64 (t2 e))) sessions))
           (t2_unwrap u)).
Proof.
  induction sessions as [|entries rest IH]; intros u; [reflexivity|].
  cbn [unwrap_sessions map concat].
  destruct (unwrap_session entries u) as [r u1] eqn:Eu.
  destruct (unwrap_sessions rest u1) as [rs u2] eqn:Er.
  cbn [fst map concat]. rewrite unwrap_seq_app. cbn [fst].
  unfold unwrap_session in Eu. inversion Eu; subst; clear Eu.
  unfold report_t2 at 1. cbn [fst snd]. f_equal.
  specialize (IH (mk_unwraps
    (snd (unwrap_seq (map (fun e => to_int64 (t1 e)) entries) (t1_unwrap u)))
    (snd (unwrap_seq (map (fun e => to_int64 (t2 e)) entries) (t2_unwrap u)))
    (snd (unwrap_seq (map (fun e => to_int64 (t3 e)) entries) (t3_unwrap u)))
    (snd (unwrap_seq (map (fun e => to_int64 (t4 e)) entries) (t4_unwrap u))))).
  rewrite Er in IH. cbn [fst t2_unwrap] in IH. exact IH.
Qed.

(** X17.  The slave's receive stamps keep their place on one time line
    across sessions.  When the slave's picosecond counter takes the values
    [Ts] at the frames of the successive sessions, the driver reports them
    modulo [WRAP_32BIT_1E6] and two consecutive frames, of one session or of
    two, are less than [WRAP_32BIT_1E6] ps (about 4295 s) apart, the [t2]
    stamps handed to the CRM are the values [Ts] up to one constant: no wrap
    is lost between sessions. *)
Theorem ftm_slave_stamps_track_counter
  (sessions : list (list ftm_report_entry)) (u : unwraps_t) (Ts : list Z) (T0 : Z) :
  wrap_value (t2_unwrap u) = WRAP_32BIT_1E6 ->
  wrap_value2 (t2_unwrap u) = 0 ->
  last_val (t2_unwrap u) = T0 mod WRAP_32BIT_1E6 ->
  0 <= offset (t2_unwrap u) ->
  concat (map (map t2) sessions) = map (fun T => T mod WRAP_32BIT_1E6) Ts ->
  paced WRAP_32BIT_1E6 T0 Ts ->
  offset (t2_unwrap u) + (last Ts T0 - T0) + 3 * WRAP_32BIT_1E6 < 2 ^ 63 ->
  concat (map report_t2 (fst (unwrap_sessions sessions u)))
  = map (fun T => last_val (t2_unwrap u) + offset (t2_unwrap u) + (T - T0)) Ts.
Proof.
  intros HW HW2 Hlast Hoff Hraw Hp Hfit.
  rewrite unwrap_sessions_t2.
  assert (E : concat (map (map (fun e => to_int64 (t2 e))) sessions)
              = map (fun T => T mod WRAP_32BIT_1E6) Ts).
  { assert (E0 : forall ss : list (list ftm_report_entry),
              concat (map (map (fun e => to_int64 (t2 e))) ss)
              = map to_int64 (concat (map (map t2) ss))).
    { induction ss as [|x ss IHs]; [reflexivity|].
      cbn [map concat]. now rewrite map_app, map_map, IHs. }
    rewrite E0, Hraw, map_map. apply map_ext_in. intros T _.
    apply to_int64_id.
    pose proof (Z.mod_pos_bound T WRAP_32BIT_1E6 ltac:(unfold WRAP_32BIT_1E6; lia)).
    unfold in_int64, WRAP_32BIT_1E6 in *. lia. }
  rewrite E.
  assert (Hpos : 0 < WRAP_32BIT_1E6) by (unfold WRAP_32BIT_1E6; lia).
  destruct (unwrap_seq_tracks_from WRAP_32BIT_1E6 Ts T0 (t2_unwrap u)
              HW HW2 Hpos Hlast Hoff Hp) as (H & _); [|exact H].
  pose proof (paced_last_ge WRAP_32BIT_1E6 Ts T0 Hp) as Hge.
  pose proof (Z.div_mod T0 WRAP_32BIT_1E6 ltac:(lia)).
  pose proof (Z.div_mod (last Ts T0) WRAP_32BIT_1E6 ltac:(lia)).
  pose proof (Z.mod_pos_bound T0 WRAP_32BIT_1E6 Hpos).
  pose proof (Z.mod_pos_bound (last Ts T0) WRAP_32BIT_1E6 Hpos).
  lia.
Qed.

End FtmFacts.


(** A report, a pass of the poll task and a failed session leave the
    buffers well formed; a report of 65 entries aborts. *)
Lemma ftm_buffers_never_overrun_witness :
  (exists u' s' ce',
     Ftm.ftm_run
       [Ftm.FtmEvent (Ftm.WIFI_EVENT_FTM_REPORT true 2
          (Some [Ftm.mk_entry 10 20 30 40; Ftm.mk_entry 110 120 130 140]));
        Ftm.FtmPoll true;
        Ftm.FtmEvent (Ftm.WIFI_EVENT_FTM_REPORT false 0 None)]
       (Ftm.unwraps_init, Ftm.ftm_boot, (Crm.crm_init, 0%nat))
     = Some (u', s', ce') /\ Ftm.ftm_wf s') /\
  Ftm.ftm_event_handler (Ftm.WIFI_EVENT_FTM_REPORT true 65 None) Ftm.ftm_boot
  = None.
Proof.
  assert (Hwf : Ftm.ftm_wf Ftm.ftm_boot)
    by (vm_compute; repeat split; first [discriminate | reflexivity]).
  split.
  - destruct (Ftm.ftm_run
       [Ftm.FtmEvent (Ftm.WIFI_EVENT_FTM_REPORT true 2
          (Some [Ftm.mk_entry 10 20 30 40; Ftm.mk_entry 110 120 130 140]));
        Ftm.FtmPoll true;
        Ftm.FtmEvent (Ftm.WIFI_EVENT_FTM_REPORT false 0 None)]
       (Ftm.unwraps_init, Ftm.ftm_boot, (Crm.crm_init, 0%nat)))
      as [[[u' s'] ce']|] eqn:E; [|vm_compute in E; discriminate].
    exists u', s', ce'. split; [reflexivity|].
    destruct (ftm_buffers_never_overrun nat
       [Ftm.FtmEvent (Ftm.WIFI_EVENT_FTM_REPORT true 2
          (Some [Ftm.mk_entry 10 20 30 40; Ftm.mk_entry 110 120 130 140]));
        Ftm.FtmPoll true;
        Ftm.FtmEvent (Ftm.WIFI_EVENT_FTM_REPORT false 0 None)]
       Ftm.unwraps_init Ftm.ftm_boot Crm.crm_init 0%nat Hwf) as [H _].
    exact (H u' s' ce' E).
  - destruct (ftm_buffers_never_overrun nat [] Ftm.unwraps_init Ftm.ftm_boot
                Crm.crm_init 0%nat Hwf) as [_ H].
    apply H. exists 65, None. split; reflexivity.
Defined.

(** Three frames in two sessions, the slave's counter wrapping between the
    first and the second: the stamps handed on are 4294967295999995,
    4294967296000003 and 4294967296000010. *)
Lemma ftm_slave_stamps_track_counter_witness :
  concat (map Ftm.report_t2
            (fst (Ftm.unwrap_sessions
                    [[Ftm.mk_entry 0 4294967295999995 0 0;
                      Ftm.mk_entry 0 3 0 0];
                     [Ftm.mk_entry 0 10 0 0]] Ftm.unwraps_init)))
  = [4294967295999995; 4294967296000003; 4294967296000010].
Proof.
  pose proof (ftm_slave_stamps_track_counter
                [[Ftm.mk_entry 0 4294967295999995 0 0; Ftm.mk_entry 0 3 0 0];
                 [Ftm.mk_entry 0 10 0 0]] Ftm.unwraps_init
                [4294967295999995; 4294967296000003; 4294967296000010] 0) as H.
  do 7 feed_computed H.
  exact H.
Defined.

(** ** The result of the offset measurement *)

Section MeasureFacts.

Import Dtr.

(** A kept sample, refined into any bounds: the assertions hold when the
    timer is behind the MAC clock, and the bounds become their intersection
    with the sample's bracket. *)
Lemma refine_kept_sample r b m a its mn mx :
  reads_in_range r ->
  s_catch_mac_clock_transition r = Ok (Some (b, m, a, its)) ->
  0 < m * TIMER_TICKS_PER_US - a ->
  s_refine_mac_clock_timer_start_offset mn mx b m a
  = Ok (Z.max mn (m * TIMER_TICKS_PER_US - a),
        Z.min mx (m * TIMER_TICKS_PER_US - b)) /\
  m * TIMER_TICKS_PER_US - a <= m * TIMER_TICKS_PER_US - b /\
  m * TIMER_TICKS_PER_US - b < 2 ^ 62.
Proof.
  intros (Hloop & Hpre & Hpost & Hmpre & Hmpost & Htb & Hmb) Hcatch.
  destruct (s_catch_kept _ _ _ _ _ Hcatch)
    as (tb & m1 & m2 & ta & Hin & Ht1 & Ht2 & Hm1 & Hm2 & -> & -> & ->).
  rewrite Forall_forall in Hloop. specialize (Hloop _ Hin). cbn in Hloop.
  destruct Hloop as (Htbr & Hm1r & Hm2r & Htar).
  unfold in_uint32 in *.
  rewrite (to_int64_id (timer_base_ticks_pre r + tb)) by (unfold in_int64; lia).
  rewrite (to_int64_id (timer_base_ticks_pre r + ta)) by (unfold in_int64; lia).
  rewrite (to_int64_id (mac_clock_base_us r + m2)) by (unfold in_int64; lia).
  set (mt := (mac_clock_base_us r + m2) * TIMER_TICKS_PER_US).
  assert (Hmt : mt = (mac_clock_base_us r + m2) * 40) by reflexivity.
  intros Hpos.
  unfold s_refine_mac_clock_timer_start_offset.
  rewrite to_uint64_mul_l, to_int64_of_uint64. fold mt.
  rewrite (to_int64_id mt) by (unfold in_int64; lia).
  destruct (Z.ltb_spec (timer_base_ticks_pre r + ta) mt) as [_|H]; [|lia].
  cbn [negb].
  rewrite (to_int64_id (mt - (timer_base_ticks_pre r + ta)))
    by (unfold in_int64; lia).
  rewrite (to_int64_id (mt - (timer_base_ticks_pre r + tb)))
    by (unfold in_int64; lia).
  destruct (Z.leb_spec (mt - (timer_base_ticks_pre r + ta))
              (mt - (timer_base_ticks_pre r + tb))) as [_|H]; [|lia].
  cbn [negb]. split; [|lia].
  f_equal. f_equal.
  - destruct (Z.ltb_spec mn (mt - (timer_base_ticks_pre r + ta))); lia.
  - destruct (Z.ltb_spec (mt - (timer_base_ticks_pre r + tb)) mx); lia.
Qed.

Lemma sample_bracket_some r lo hi :
  sample_bracket r = Some (lo, hi) ->
  exists b m a its,
    s_catch_mac_clock_transition r = Ok (Some (b, m, a, its)) /\
    lo = m * TIMER_TICKS_PER_US - a /\ hi = m * TIMER_TICKS_PER_US - b.
Proof.
  unfold sample_bracket.
  destruct (s_catch_mac_clock_transition r) as [[[[[b m] a] its]|]| |];
    try discriminate.
  intros H. inversion H; subst. exists b, m, a, its. auto.
Qed.

Lemma measure_loop_brackets theta used : forall mn mx,
  Forall reads_in_range used ->
  Forall (fun r => s_catch_mac_clock_transition r <> Diverge) used ->
  (forall r lo hi, In r used -> sample_bracket r = Some (lo, hi) ->
     0 < lo /\ lo <= theta <= hi) ->
  0 <= mn <= theta -> theta <= mx ->
  (mn = 0 /\ mx = INT64_MAX) \/ mx < 2 ^ 62 ->
  exists mn' mx',
    measure_loop used (mn, mx) = Ok (mn', mx') /\
    mn <= mn' <= theta /\ theta <= mx' <= mx /\
    ((mn' = 0 /\ mx' = INT64_MAX) \/ mx' < 2 ^ 62) /\
    (forall r lo hi, In r used -> sample_bracket r = Some (lo, hi) ->
       lo <= mn' /\ mx' <= hi) /\
    ((forall r, In r used -> sample_bracket r = None) ->
     mn' = mn /\ mx' = mx).
Proof.
  induction used as [|r rest IH]; intros mn mx Hrange Hdiv Hbr Hmn Hmx Hsum.
  - exists mn, mx. cbn. repeat split; auto; try lia; intros ? ? ? [].
  - inversion Hrange as [|? ? Hr Hrange']; subst.
    inversion Hdiv as [|? ? Hd Hdiv']; subst.
    assert (Hbr' : forall r0 lo hi, In r0 rest ->
              sample_bracket r0 = Some (lo, hi) -> 0 < lo /\ lo <= theta <= hi)
      by (intros r0 lo hi Hin; apply Hbr; right; exact Hin).
    cbn [measure_loop]. unfold bind.
    pose proof (Hbr r) as Hbr0. unfold sample_bracket in Hbr0 |- *.
    assert (Hsb : forall x, sample_bracket r = x -> True) by auto.
    destruct (s_catch_mac_clock_transition r)
      as [[[[[b m] a] its]|]| why |] eqn:Ec.
    + destruct (Hbr0 _ _ (or_introl eq_refl) eq_refl) as (Hpos & Hlo & Hhi).
      destruct (refine_kept_sample r b m a its mn mx Hr Ec Hpos)
        as (Eref & Hle & Hbig).
      cbn [fst snd]. rewrite Eref.
      destruct (IH (Z.max mn (m * TIMER_TICKS_PER_US - a))
                  (Z.min mx (m * TIMER_TICKS_PER_US - b)) Hrange' Hdiv' Hbr')
        as (mn' & mx' & E & Hmn' & Hmx' & Hsum' & Hin' & _); try lia.
      exists mn', mx'. split; [exact E|].
      split; [lia|]. split; [lia|]. split; [exact Hsum'|]. split.
      * intros r0 lo hi [<-|Hin] Hs.
        -- unfold sample_bracket in Hs. rewrite Ec in Hs.
           inversion Hs; subst. lia.
        -- apply (Hin' r0 lo hi Hin Hs).
      * intros Hnone. specialize (Hnone r (or_introl eq_refl)).
        unfold sample_bracket in Hnone. rewrite Ec in Hnone. discriminate.
    + destruct (IH mn mx Hrange' Hdiv' Hbr' Hmn Hmx Hsum)
        as (mn' & mx' & E & Hmn' & Hmx' & Hsum' & Hin' & Hnone').
      exists mn', mx'. split; [exact E|].
      split; [lia|]. split; [lia|]. split; [exact Hsum'|]. split.
      * intros r0 lo hi [<-|Hin] Hs.
        -- unfold sample_bracket in Hs. rewrite Ec in Hs. discriminate.
        -- apply (Hin' r0 lo hi Hin Hs).
      * intros Hnone. apply Hnone'. intros r0 Hin. apply Hnone. right. exact Hin.
    + exfalso. unfold s_catch_mac_clock_transition in Ec.
      destruct (catch_loop (loop_reads r) 0) as [[[[[? ?] ?] ?] ?]|];
        [|discriminate].
      repeat match type of Ec with
             | (if ?c then _ else _) = _ => destruct c
             end; discriminate.
    + contradiction.
Qed.

(** X18.  What the measured offset is worth.  Suppose every iteration
    finds a transition of the MAC counter, the reads are in range, and
    every sample that is kept has the timer behind the MAC clock and
    brackets the offset [theta] of the two clocks.  Then neither assertion
    fires, the measurement returns, the final bounds lie inside every kept
    bracket and still contain [theta], and the returned midpoint is off by
    at most half their distance. *)
Theorem measured_offset_within_brackets (samples : list catch_reads) (theta : Z) :
  let used := firstn (Z.to_nat DTR_MAC_TIMER_ALIGNMENT_MAX_SAMPLES) samples in
  Forall reads_in_range used ->
  Forall (fun r => s_catch_mac_clock_transition r <> Diverge) used ->
  (forall r lo hi, In r used -> sample_bracket r = Some (lo, hi) ->
     0 < lo /\ lo <= theta <= hi) ->
  0 <= theta <= INT64_MAX ->
  exists offset_ticks mn mx,
    s_measure_mac_clock_timer_start_offset samples = Ok (offset_ticks, (mn, mx)) /\
    mn <= theta <= mx /\
    mn <= offset_ticks <= mx /\
    2 * Z.abs (offset_ticks - theta) <= mx - mn + 1 /\
    (forall r lo hi, In r used -> sample_bracket r = Some (lo, hi) ->
       lo <= mn /\ mx <= hi).
Proof.
  intros used Hrange Hdiv Hbr Hth.
  destruct (measure_loop_brackets theta used 0 INT64_MAX Hrange Hdiv Hbr)
    as (mn & mx & E & Hmn & Hmx & Hsum & Hin & _); try lia.
  unfold s_measure_mac_clock_timer_start_offset. fold used. rewrite E.
  cbn [bind fst snd]. exists (Z.quot (to_int64 (mn + mx)) 2), mn, mx.
  assert (Hs : 0 <= mn + mx < 2 ^ 63) by (unfold INT64_MAX in *; lia).
  rewrite to_int64_id by (unfold in_int64; lia).
  rewrite Z.quot_div_nonneg by lia.
  pose proof (Z.div_mod (mn + mx) 2 ltac:(lia)).
  pose proof (Z.mod_pos_bound (mn + mx) 2 ltac:(lia)).
  split; [reflexivity|]. split; [lia|]. split; [lia|]. split; [lia|exact Hin].
Qed.

(** X19.  A measurement with no usable sample still returns.  When every
    iteration is discarded (a wrap of the timer or of the MAC counter was
    seen each time), the bounds are never refined and the function returns
    the midpoint of [0, INT64_MAX], 4611686018427387903 ticks, as the
    offset. *)
Theorem measurement_without_samples (samples : list catch_reads) :
  let used := firstn (Z.to_nat DTR_MAC_TIMER_ALIGNMENT_MAX_SAMPLES) samples in
  Forall (fun r => s_catch_mac_clock_transition r = Ok None) used ->
  s_measure_mac_clock_timer_start_offset samples
    = Ok (4611686018427387903, (0, INT64_MAX)).
Proof.
  intros used Hall.
  unfold s_measure_mac_clock_timer_start_offset. fold used.
  assert (E : forall bounds, measure_loop used bounds = Ok bounds).
  { induction Hall as [|r rest Hr _ IH]; intros bounds; [reflexivity|].
    cbn [measure_loop]. rewrite Hr. cbn [bind]. apply IH. }
  rewrite E. reflexivity.
Qed.

End MeasureFacts.

(** One kept sample, which allows the offsets 279919 to 279925, and one
    discarded sample; the offset is 279920 ticks. *)
Lemma measured_offset_within_brackets_witness :
  exists offset_ticks mn mx,
    Dtr.s_measure_mac_clock_timer_start_offset
      [Dtr.catch_example_reads; Dtr.discarded_example_reads]
    = Ok (offset_ticks, (mn, mx)) /\
    mn <= 279920 <= mx /\ mn <= offset_ticks <= mx /\
    2 * Z.abs (offset_ticks - 279920) <= mx - mn + 1.
Proof.
  pose proof (measured_offset_within_brackets
                [Dtr.catch_example_reads; Dtr.discarded_example_reads] 279920)
    as H.
  cbv zeta in H.
  assert (Hused : firstn (Z.to_nat Dtr.DTR_MAC_TIMER_ALIGNMENT_MAX_SAMPLES)
                    [Dtr.catch_example_reads; Dtr.discarded_example_reads]
                  = [Dtr.catch_example_reads; Dtr.discarded_example_reads])
    by (vm_compute; reflexivity).
  rewrite Hused in H.
  destruct H as (off & mn & mx & E & H1 & H2 & H3 & _).
  - apply Forall_cons; [|apply Forall_cons; [|apply Forall_nil]];
      unfold Dtr.reads_in_range, in_uint32; cbn;
      repeat split; repeat constructor; lia.
  - apply Forall_cons; [|apply Forall_cons; [|apply Forall_nil]];
      vm_compute; discriminate.
  - intros r lo hi [<-|[<-|[]]] Hs; vm_compute in Hs;
      [inversion Hs; subst; lia|discriminate].
  - unfold INT64_MAX. lia.
  - exists off, mn, mx. auto.
Defined.

(** The only iteration sees the timer go backwards. *)
Lemma measurement_without_samples_witness :
  Dtr.s_measure_mac_clock_timer_start_offset [Dtr.discarded_example_reads]
  = Ok (4611686018427387903, (0, INT64_MAX)).
Proof.
  apply (measurement_without_samples [Dtr.discarded_example_reads]).
  assert (Hused : firstn (Z.to_nat Dtr.DTR_MAC_TIMER_ALIGNMENT_MAX_SAMPLES)
                    [Dtr.discarded_example_reads]
                  = [Dtr.discarded_example_reads])
    by (vm_compute; reflexivity).
  rewrite Hused. apply Forall_cons; [reflexivity|apply Forall_nil].
Defined.

(** ** The controller's requests *)

Section DtcRequests.

Import Crm Dtc.

Lemma dtc_updates_spent updates :
  dtc_updates true false updates = repeat None (length updates).
Proof.
  induction updates as [|[m tb] rest IH]; [reflexivity|].
  cbn [dtc_updates length repeat]. unfold dtc_update, dtc_crm_updated.
  destruct (crm_valid m); cbn [negb andb]; now rewrite IH.
Qed.

(** X21.  Which updates lead to a request.  Without
    [CONFIG_FTS_TEST_ALIGN_ONCE] every update with a valid model hands one
    request to the DTR and an update with an invalid model none.  With it,
    only the first valid model does: the updates before it and all the
    updates after it, valid or not, hand over nothing. *)
Theorem dtc_requests_follow_valid_models (updates : list (crm_model_t * Z)) :
  dtc_updates false true updates
  = map (fun u => if crm_valid (fst u)
                  then Some (dtc_align_request (fst u) (snd u)) else None)
      updates /\
  (Forall (fun u => crm_valid (fst u) = false) updates ->
   dtc_updates true true updates = repeat None (length updates)) /\
  (forall before m timer_base after,
     updates = before ++ (m, timer_base) :: after ->
     Forall (fun u => crm_valid (fst u) = false) before ->
     crm_valid m = true ->
     dtc_updates true true updates
     = repeat None (length before)
       ++ Some (dtc_align_request m timer_base)
       :: repeat None (length after)).
Proof.
  split; [|split].
  - assert (H : forall st, dtc_updates false st updates
              = map (fun u => if crm_valid (fst u)
                              then Some (dtc_align_request (fst u) (snd u))
                              else None) updates).
    { induction updates as [|[m tb] rest IH]; intros st; [reflexivity|].
      cbn [dtc_updates map fst snd]. unfold dtc_update, dtc_crm_updated.
      destruct (crm_valid m); cbn [negb andb]; now rewrite IH. }
    apply H.
  - induction 1 as [|[m tb] rest Hm _ IH]; [reflexivity|].
    cbn [fst] in Hm. cbn [dtc_updates length repeat].
    unfold dtc_update, dtc_crm_updated. rewrite Hm. cbn [negb].
    now rewrite IH.
  - intros before m tb after -> Hb Hm.
    induction Hb as [|[m0 tb0] rest Hm0 _ IH].
    + cbn [app length repeat dtc_updates]. unfold dtc_update, dtc_crm_updated.
      rewrite Hm. cbn [negb andb]. now rewrite dtc_updates_spent.
    + cbn [fst] in Hm0. cbn [app length repeat dtc_updates].
      unfold dtc_update, dtc_crm_updated. rewrite Hm0. cbn [negb].
      now rewrite IH.
Qed.

End DtcRequests.

(** ** Rounding gives a float of the format *)

Section RoundingValid.

Import Fp.

Local Open Scope Q_scope.

Variables prec emax : Z.
Hypothesis Hprec : (0 < prec)%Z.

Local Abbreviation emin := (SpecFloat.emin prec emax).
Local Abbreviation fexp := (SpecFloat.fexp prec emax).

(** The result of [binary_round_aux] is canonical and bounded. *)
Lemma binary_round_aux_valid sx mx ex lx x :
  (0 <= mx)%Z -> inbetween mx lx x ->
  (ex <= fexp (Zdigits2 mx + ex))%Z ->
  SpecFloat.valid_binary prec emax (binary_round_aux prec emax sx mx ex lx) = true.
Proof.
  intros Hm Hx He.
  destruct (shr_fexp_inbetween prec emax mx ex lx x Hm Hx He)
    as (mrs & Hs & Hms & Hin & _).
  set (E := fexp (Zdigits2 mx + ex)) in *.
  assert (HE : (emin <= E)%Z) by (unfold E; rewrite fexp_spec; lia).
  assert (HEd : (Zdigits2 mx + ex - prec <= E)%Z)
    by (unfold E; rewrite fexp_spec; lia).
  set (x' := x * 2 ^ (ex - E)) in *.
  destruct (round_nearest_even_spec _ _ _ Hms Hin) as (Hr1 & _ & _).
  set (m1 := round_nearest_even (shr_m mrs) (loc_of_shr_record mrs)) in *.
  assert (Hlt : (shr_m mrs < 2 ^ prec)%Z).
  { rewrite Zlt_Qlt, <- pow2_Z by lia.
    destruct (inbetween_bounds _ _ _ Hin) as [Hl _].
    destruct (inbetween_bounds _ _ _ Hx) as [_ Hu].
    pose proof (Zdigits2_succ_le mx Hm) as Hd.
    apply Qle_lt_trans with (1 := Hl). unfold x'.
    apply Qlt_le_trans with (2 ^ Zdigits2 mx * 2 ^ (ex - E)).
    - apply Qmult_lt_compat_r; [apply pow2_pos|]. lra.
    - rewrite <- pow2_add. apply pow2_le. lia. }
  unfold binary_round_aux. rewrite Hs. fold m1.
  destruct (Z.eq_dec m1 (2 ^ prec)) as [Hc|Hc].
  - rewrite Hc, (shr_fexp_carry prec emax Hprec E HE). cbn [shr_m].
    assert (H : (0 < 2 ^ (prec - 1))%Z) by (apply Z.pow_pos_nonneg; lia).
    pose proof (Zdigits2_pow2 (prec - 1) ltac:(lia)) as Hd.
    destruct (2 ^ (prec - 1))%Z as [|q|q] eqn:Eq; try lia.
    destruct (Z.leb_spec (E + 1) (emax - prec)) as [Hfin|Hfin]; [|reflexivity].
    cbn [SpecFloat.valid_binary]. unfold bounded, canonical_mantissa.
    cbn [Zdigits2] in Hd. rewrite Hd, fexp_spec.
    apply andb_true_iff. split; [apply Z.eqb_eq; lia|apply Z.leb_le; lia].
  - rewrite (shr_fexp_small prec emax Hprec m1 E) by lia. cbn [shr_m].
    destruct m1 as [|q|q] eqn:Eq; try lia; [reflexivity|].
    destruct (Z.leb_spec E (emax - prec)) as [Hfin|Hfin]; [|reflexivity].
    cbn [SpecFloat.valid_binary]. unfold bounded, canonical_mantissa.
    apply andb_true_iff. split; [|apply Z.leb_le; lia].
    apply Z.eqb_eq. rewrite fexp_spec.
    pose proof (Zdigits2_le (Zpos q) prec ltac:(lia) ltac:(lia)) as Hdq.
    cbn [Zdigits2] in Hdq.
    destruct (fexp_cases prec emax Hprec mx ex Hm He) as [Hmin|[Hpos Hnorm]].
    + fold E in Hmin. lia.
    + fold E in Hnorm.
      assert (Hq : (2 ^ (prec - 1) <= Zpos q)%Z).
      { assert (H : (2 ^ (prec - 1) < shr_m mrs + 1)%Z).
        { rewrite Zlt_Qlt, <- pow2_Z by lia.
          rewrite inject_Z_plus. change (inject_Z 1) with 1.
          destruct (inbetween_bounds _ _ _ Hin) as [_ Hu].
          destruct (inbetween_bounds _ _ _ Hx) as [Hl _].
          destruct (Zdigits2_bounds mx Hpos) as [Hd _].
          apply Qle_lt_trans with (2 := Hu). unfold x'.
          apply Qle_trans with (2 ^ (Zdigits2 mx - 1) * 2 ^ (ex - E)).
          - rewrite <- pow2_add. apply pow2_le. lia.
          - apply Qmult_le_compat_r; [lra|apply Qlt_le_weak, pow2_pos]. }
        lia. }
      assert (Hdq' : Zdigits2 (Zpos q) = prec)
        by (apply Zdigits2_unique; lia).
      cbn [Zdigits2] in Hdq'. lia.
Qed.

Lemma binary_round_valid s m e :
  (emin <= e)%Z -> SpecFloat.valid_binary prec emax (binary_round prec emax s m e) = true.
Proof.
  intros He. unfold binary_round.
  destruct (shl_align_fexp prec emax m e He) as (mz & ez & Hs & _ & Hf & _).
  rewrite Hs.
  apply (binary_round_aux_valid s (Zpos mz) ez loc_Exact (inject_Z (Zpos mz)));
    [lia|reflexivity|exact Hf].
Qed.

End RoundingValid.

(** ** Products, sums and conversions of doubles *)

Section Binary64Ops.

Import Fp.

Local Open Scope Q_scope.

(** The mantissa of a finite double is canonical. *)
Lemma Prim2SF_canonical x s m e :
  Prim2SF x = S754_finite s m e ->
  SpecFloat.fexp prec emax (Zpos (digits2_pos m) + e) = e.
Proof.
  intros H. pose proof (Prim2SF_valid x) as V. rewrite H in V.
  cbn [valid_binary] in V. unfold bounded, canonical_mantissa in V.
  apply andb_true_iff in V. destruct V as [V1 _].
  apply Z.eqb_eq in V1. exact V1.
Qed.

Lemma digits2_pos_mul_lower mx my :
  (Zpos (digits2_pos mx) + Zpos (digits2_pos my) - 1
   <= Zpos (digits2_pos (mx * my)))%Z.
Proof.
  pose proof (digits2_pos_bounds mx) as [Hx _].
  pose proof (digits2_pos_bounds my) as [Hy _].
  pose proof (digits2_pos_bounds (mx * my)) as [_ Hu].
  assert (H : (2 ^ (Zpos (digits2_pos mx) - 1 + (Zpos (digits2_pos my) - 1))
               < 2 ^ Zpos (digits2_pos (mx * my)))%Z).
  { rewrite Z.pow_add_r by lia. rewrite Pos2Z.inj_mul in Hu.
    assert (0 < 2 ^ (Zpos (digits2_pos mx) - 1))%Z
      by (apply Z.pow_pos_nonneg; lia).
    assert (0 < 2 ^ (Zpos (digits2_pos my) - 1))%Z
      by (apply Z.pow_pos_nonneg; lia).
    nia. }
  apply Z.pow_lt_mono_r_iff in H; lia.
Qed.

(** The product of two doubles: one rounding. *)
Lemma mul_value a b qa qb k :
  value a = Some qa -> value b = Some qb ->
  Qabs (qa * qb) < 2 ^ k -> (k + 1 <= 1024)%Z ->
  exists v, value (a * b) = Some v /\
            Qabs (v - qa * qb) <= 2 ^ (-53) * Qabs (qa * qb) + 2 ^ (-1075).
Proof.
  unfold value. rewrite mul_spec. unfold SF64mul.
  assert (Hz : forall q, q == 0 ->
            Qabs (0 - q) <= 2 ^ (-53) * Qabs q + 2 ^ (-1075)).
  { intros q Hq. rewrite Hq. discriminate. }
  destruct (Prim2SF a) as [sa|sa| |sa ma ea] eqn:Ea;
    destruct (Prim2SF b) as [sb|sb| |sb mb eb] eqn:Eb;
    cbn [SFvalue SFmul]; intros Ha Hb; try discriminate;
    injection Ha as <-; injection Hb as <-; intros HX Hk.
  - exists 0. split; [reflexivity|]. apply Hz. ring.
  - exists 0. split; [reflexivity|]. apply Hz. ring.
  - exists 0. split; [reflexivity|]. apply Hz. ring.
  - set (Ma := inject_Z (Zpos ma) * 2 ^ ea) in *.
    set (Mb := inject_Z (Zpos mb) * 2 ^ eb) in *.
    assert (HMa : 0 < Ma) by apply mag_pos.
    assert (HMb : 0 < Mb) by apply mag_pos.
    assert (Hq : signq sa * Ma * (signq sb * Mb)
                 == signq (xorb sa sb) * (Ma * Mb))
      by (rewrite signq_mul; ring).
    assert (Hpos : 0 <= Ma * Mb) by (apply Qlt_le_weak; nra).
    assert (Hm : inject_Z (Zpos (ma * mb)) * 2 ^ (ea + eb) == Ma * Mb).
    { unfold Ma, Mb. rewrite Pos2Z.inj_mul, inject_Z_mult, pow2_add. ring. }
    rewrite Hq, signq_abs in HX by exact Hpos.
    pose proof (Prim2SF_canonical a sa ma ea Ea) as Ca.
    pose proof (Prim2SF_canonical b sb mb eb Eb) as Cb.
    pose proof (digits2_pos_mul_lower ma mb) as Hd.
    destruct (binary_round_aux_value prec emax eq_refl ltac:(discriminate)
                (xorb sa sb) (Zpos (ma * mb)) (ea + eb) loc_Exact
                (inject_Z (Zpos (ma * mb))) k)
      as (v & Hv & Hb & _).
    + lia.
    + reflexivity.
    + cbn [Zdigits2]. unfold SpecFloat.fexp, SpecFloat.emin, prec, emax in *.
      lia.
    + rewrite Hm. exact HX.
    + exact Hk.
    + exists v. split; [exact Hv|].
      rewrite Hm in Hb. rewrite Hq, signq_abs by exact Hpos. exact Hb.
Qed.

(** The sum of two doubles: one rounding, exact on subnormal results. *)
Lemma add_value a b qa qb k :
  value a = Some qa -> value b = Some qb ->
  Qabs (qa + qb) < 2 ^ k -> (k + 1 <= 1024)%Z ->
  exists v, value (a + b) = Some v /\
            Qabs (v - (qa + qb)) <= 2 ^ (-53) * Qabs (qa + qb).
Proof.
  unfold value. rewrite add_spec. unfold SF64add.
  assert (Hz : forall p q, p == q -> Qabs (p - q) <= 2 ^ (-53) * Qabs q).
  { intros p q Hq. setoid_replace (p - q) with 0 by (rewrite Hq; ring).
    apply Qmult_le_0_compat; [discriminate|apply Qabs_nonneg]. }
  destruct (Prim2SF a) as [sa|sa| |sa ma ea] eqn:Ea;
    destruct (Prim2SF b) as [sb|sb| |sb mb eb] eqn:Eb;
    cbn [SFvalue SFadd]; intros Ha Hb; try discriminate;
    injection Ha as <-; injection Hb as <-; intros HX Hk.
  - exists 0. split; [destruct sa, sb; reflexivity|]. apply Hz. ring.
  - eexists. split; [reflexivity|]. apply Hz. ring.
  - eexists. split; [reflexivity|]. apply Hz. ring.
  - destruct (Prim2SF_finite_bounds a sa ma ea Ea) as [Hea _].
    destruct (Prim2SF_finite_bounds b sb mb eb Eb) as [Heb _].
    assert (Hs : signq sb == - signq (negb sb)) by (destruct sb; reflexivity).
    destruct (SFsub_finite_value prec emax eq_refl ltac:(discriminate)
                sa ma ea (negb sb) mb eb k Hea Heb) as (v & Hv & Hbound).
    + cbv zeta. rewrite Hs in HX.
      setoid_replace (signq sa * (inject_Z (Zpos ma) * 2 ^ ea)
                      - signq (negb sb) * (inject_Z (Zpos mb) * 2 ^ eb))
        with (signq sa * (inject_Z (Zpos ma) * 2 ^ ea)
              + - signq (negb sb) * (inject_Z (Zpos mb) * 2 ^ eb)) by ring.
      exact HX.
    + exact Hk.
    + exists v. split.
      * rewrite <- Hv. f_equal. cbn [SFsub]. f_equal.
        destruct sb; cbn [negb cond_Zopp]; lia.
      * cbv zeta in Hbound. rewrite Hs.
        setoid_replace (signq sa * (inject_Z (Zpos ma) * 2 ^ ea)
                        + - signq (negb sb) * (inject_Z (Zpos mb) * 2 ^ eb))
          with (signq sa * (inject_Z (Zpos ma) * 2 ^ ea)
                - signq (negb sb) * (inject_Z (Zpos mb) * 2 ^ eb)) by ring.
        exact Hbound.
Qed.

(** [(int64_t)x] of a double below [2^63] in magnitude: the integer part,
    towards zero. *)
Lemma to_int64_trunc_value x q :
  value x = Some q -> Qabs q < 2 ^ 63 ->
  Qabs (inject_Z (to_int64_trunc x) - q) < 1 /\
  Qabs (inject_Z (to_int64_trunc x)) <= Qabs q /\
  (0 <= q -> 0 <= inject_Z (to_int64_trunc x)) /\
  (q <= 0 -> inject_Z (to_int64_trunc x) <= 0).
Proof.
  unfold value, to_int64_trunc.
  destruct (Prim2SF x) as [s0|s0| |s0 m e] eqn:Ex; cbn [SFvalue];
    intros Hq; try discriminate; injection Hq as <-; intros HX.
  - repeat split; try reflexivity; discriminate.
  - set (M := inject_Z (Zpos m) * 2 ^ e) in *.
    assert (HM : 0 < M) by apply mag_pos.
    rewrite signq_abs in HX by lra.
    set (mag := if (0 <=? e)%Z then Z.shiftl (Zpos m) e
                else Z.shiftr (Zpos m) (- e)).
    assert (Hmag : (0 <= mag)%Z /\ inject_Z mag <= M /\ M < inject_Z mag + 1).
    { unfold mag. destruct (Z.leb_spec 0 e) as [He|He].
      - rewrite Z.shiftl_mul_pow2 by lia.
        assert (0 < 2 ^ e)%Z by (apply Z.pow_pos_nonneg; lia).
        split; [lia|]. rewrite inject_Z_mult, <- pow2_Z by lia. fold M. lra.
      - rewrite Z.shiftr_div_pow2 by lia.
        set (d := (2 ^ (- e))%Z).
        assert (Hd : (0 < d)%Z) by (apply Z.pow_pos_nonneg; lia).
        pose proof (Z.div_mod (Zpos m) d ltac:(lia)) as Hdm.
        pose proof (Z.mod_pos_bound (Zpos m) d Hd) as Hr.
        assert (Hq0 : (0 <= Zpos m / d)%Z) by (apply Z.div_pos; lia).
        split; [exact Hq0|].
        assert (Hinv : 2 ^ e * inject_Z d == 1).
        { unfold d. rewrite <- pow2_Z by lia. rewrite <- pow2_add.
          replace (e + - e)%Z with 0%Z by lia. reflexivity. }
        assert (Hpe : 0 < 2 ^ e) by apply pow2_pos.
        assert (HMeq : M == inject_Z (Zpos m / d)
                            + inject_Z (Zpos m mod d) * 2 ^ e).
        { unfold M. rewrite Hdm at 1.
          rewrite inject_Z_plus, inject_Z_mult.
          setoid_replace ((inject_Z d * inject_Z (Zpos m / d)
                           + inject_Z (Zpos m mod d)) * 2 ^ e)
            with (inject_Z (Zpos m / d) * (2 ^ e * inject_Z d)
                  + inject_Z (Zpos m mod d) * 2 ^ e) by ring.
          rewrite Hinv. ring. }
        assert (Hr0 : 0 <= inject_Z (Zpos m mod d))
          by (change 0 with (inject_Z 0); rewrite <- Zle_Qle; lia).
        assert (Hr1 : inject_Z (Zpos m mod d) < inject_Z d)
          by (rewrite <- Zlt_Qlt; lia).
        assert (Hf0 : 0 <= inject_Z (Zpos m mod d) * 2 ^ e)
          by (apply Qmult_le_0_compat; lra).
        assert (Hf1 : inject_Z (Zpos m mod d) * 2 ^ e < 1).
        { rewrite <- Hinv. rewrite (Qmult_comm (2 ^ e)).
          apply Qmult_lt_compat_r; assumption. }
        lra. }
    fold mag. destruct Hmag as (Hm0 & Hlo & Hhi).
    assert (Hlt : (mag < 2 ^ 63)%Z).
    { rewrite Zlt_Qlt, <- pow2_Z by lia. lra. }
    assert (Hclamp : Z.max (- 2 ^ 63) (Z.min INT64_MAX (if s0 then - mag else mag))
                     = (if s0 then - mag else mag)%Z)
      by (unfold INT64_MAX; destruct s0; lia).
    rewrite Hclamp.
    assert (Hv : inject_Z (if s0 then - mag else mag)%Z == signq s0 * inject_Z mag).
    { destruct s0; cbn [signq]; [rewrite inject_Z_opp|]; ring. }
    assert (Hm0q : 0 <= inject_Z mag)
      by (change 0 with (inject_Z 0); rewrite <- Zle_Qle; exact Hm0).
    rewrite Hv.
    split; [|split; [|split]].
    + setoid_replace (signq s0 * inject_Z mag - signq s0 * M)
        with (- (signq s0 * (M - inject_Z mag))) by ring.
      rewrite Qabs_opp, signq_abs by lra. lra.
    + rewrite (signq_abs s0 (inject_Z mag)), (signq_abs s0 M) by lra.
      exact Hlo.
    + destruct s0; cbn [signq]; intros; lra.
    + destruct s0; cbn [signq]; intros; lra.
Qed.

(** [(double)z]: one rounding. *)
Lemma of_Z_value z :
  (Z.abs z < 2 ^ 64)%Z ->
  exists v, value (of_Z z) = Some v /\
            Qabs (v - inject_Z z) <= 2 ^ (-53) * Qabs (inject_Z z).
Proof.
  intros Hz. unfold of_Z, value.
  assert (Hemin : (SpecFloat.emin 53 1024 <= 0)%Z) by discriminate.
  rewrite Prim2SF_SF2Prim.
  2:{ destruct z as [|m|m]; cbn [binary_normalize]; [reflexivity| |];
        apply (binary_round_valid 53 1024 eq_refl); exact Hemin. }
  destruct z as [|m|m]; cbn [binary_normalize].
  - exists 0. split; [reflexivity|]. discriminate.
  - destruct (binary_round_value 53 1024 eq_refl ltac:(discriminate)
                false m 0 64 Hemin) as (v & Hv & Hb).
    + change (2 ^ 0) with 1. rewrite Qmult_1_r.
      change (2 ^ 64) with (inject_Z (2 ^ 64)). rewrite <- Zlt_Qlt. lia.
    + lia.
    + exists v. split; [exact Hv|].
      assert (E1 : signq false * (inject_Z (Zpos m) * 2 ^ 0)
                   == inject_Z (Zpos m))
        by (cbn [signq]; change (2 ^ 0) with 1; ring).
      assert (E2 : inject_Z (Zpos m) * 2 ^ 0 == inject_Z (Zpos m))
        by (change (2 ^ 0) with 1; ring).
      rewrite E1, E2 in Hb.
      rewrite (Qabs_pos (inject_Z (Zpos m))) by discriminate.
      exact Hb.
  - destruct (binary_round_value 53 1024 eq_refl ltac:(discriminate)
                true m 0 64 Hemin) as (v & Hv & Hb).
    + change (2 ^ 0) with 1. rewrite Qmult_1_r.
      change (2 ^ 64) with (inject_Z (2 ^ 64)). rewrite <- Zlt_Qlt. lia.
    + lia.
    + exists v. split; [exact Hv|].
      assert (E1 : signq true * (inject_Z (Zpos m) * 2 ^ 0)
                   == inject_Z (Zneg m))
        by (cbn [signq]; change (2 ^ 0) with 1;
            change (inject_Z (Zneg m)) with (- inject_Z (Zpos m)); ring).
      assert (E2 : inject_Z (Zpos m) * 2 ^ 0 == Qabs (inject_Z (Zneg m))).
      { change (inject_Z (Zneg m)) with (- inject_Z (Zpos m)).
        rewrite Qabs_opp, Qabs_pos by discriminate.
        change (2 ^ 0) with 1. ring. }
      rewrite E1, E2 in Hb. exact Hb.
Qed.

End Binary64Ops.

(** ** The period the controller asks for *)

Section DtcPeriod.

Import Fp Dtr Crm Dtc.

Local Open Scope Q_scope.

Lemma Qabs_le_iff x y : Qabs x <= y <-> - y <= x /\ x <= y.
Proof. apply Qabs_Qle_condition. Qed.

(** X22.  The period follows the slope.  For a published slope
    [crm_slope_lr_m1 = s] of at most one half in magnitude,
    [dtc_calculate_period_fp16] returns the nominal period
    [DTR_TIMER_PERIOD_TICKS * 65536 = 1310720000] scaled by [1 + s], cut to
    an integer: the two roundings of the double arithmetic cost less than a
    millionth of a unit.  The result fits the [uint32_t] into which the
    interrupt handler stores it, and its integer part is a period the timer
    accepts. *)
Theorem dtc_period_follows_slope (m : crm_model_t) (s : Q) :
  value (crm_slope_lr_m1 m) = Some s -> Qabs s <= 1 # 2 ->
  Qabs (inject_Z (dtc_calculate_period_fp16 m) - 1310720000 * (1 + s))
    < 1 + (1 # 1000000) /\
  (655359999 <= dtc_calculate_period_fp16 m <= 1966080000)%Z /\
  in_uint32 (dtc_calculate_period_fp16 m) /\
  (1 <= dtc_calculate_period_fp16 m / FP16_SCALE < 65535)%Z.
Proof.
  intros Hs Hsb. apply Qabs_le_iff in Hsb. destruct Hsb as [Hs1 Hs2].
  unfold dtc_calculate_period_fp16.
  set (M := (of_Z DTR_TIMER_PERIOD_TICKS * of_Z FP16_SCALE)%float).
  assert (HM : exists qM, value M = Some qM /\ qM == 1310720000)
    by (vm_compute; eexists; split; reflexivity).
  destruct HM as (qM & HM & HqM).
  assert (Hu : 2 ^ (-53) == 1 # 9007199254740992) by reflexivity.
  assert (He : 0 < 2 ^ (-1075) /\ 2 ^ (-1075) <= 1 # 9007199254740992).
  { split; [apply pow2_pos|]. rewrite <- Hu. apply pow2_le. lia. }
  destruct (mul_value M (crm_slope_lr_m1 m) qM s 30 HM Hs)
    as (v1 & Hv1 & Hb1).
  { apply Qabs_Qlt_condition. rewrite HqM.
    change (2 ^ 30) with 1073741824. split; lra. }
  { lia. }
  assert (HA : Qabs (qM * s) <= 655360000).
  { apply Qabs_le_iff. rewrite HqM. split; lra. }
  rewrite Hu in Hb1.
  assert (Hb1' : Qabs (v1 - qM * s) <= 1 # 10000000).
  { eapply Qle_trans; [exact Hb1|].
    generalize (Qabs (qM * s)) HA (2 ^ (-1075)) He. intros A HA' e0 He0. lra. }
  apply Qabs_le_iff in Hb1'. rewrite HqM in Hb1'. destruct Hb1' as [Hb1l Hb1u].
  destruct (add_value M (M * crm_slope_lr_m1 m)%float qM v1 31 HM Hv1)
    as (v2 & Hv2 & Hb2).
  { apply Qabs_Qlt_condition. rewrite HqM.
    change (2 ^ 31) with 2147483648. split; lra. }
  { lia. }
  assert (HB : Qabs (qM + v1) <= 1966080001).
  { apply Qabs_le_iff. rewrite HqM. split; lra. }
  rewrite Hu in Hb2.
  assert (Hb2' : Qabs (v2 - (qM + v1)) <= 1 # 4000000).
  { eapply Qle_trans; [exact Hb2|].
    generalize (Qabs (qM + v1)) HB. intros B HB'. lra. }
  apply Qabs_le_iff in Hb2'. rewrite HqM in Hb2'. destruct Hb2' as [Hb2l Hb2u].
  destruct (to_int64_trunc_value (M + M * crm_slope_lr_m1 m)%float v2 Hv2)
    as (Ht1 & Ht2 & Ht3 & _).
  { apply Qabs_Qlt_condition. change (2 ^ 63) with 9223372036854775808.
    split; lra. }
  set (p := to_int64_trunc (M + M * crm_slope_lr_m1 m)%float) in *.
  assert (Hv2pos : 0 <= v2) by lra.
  specialize (Ht3 Hv2pos).
  rewrite (Qabs_pos v2), (Qabs_pos (inject_Z p)) in Ht2 by assumption.
  apply Qabs_Qlt_condition in Ht1. destruct Ht1 as [Ht1l Ht1u].
  assert (Hlo : (655359999 <= p)%Z).
  { assert (H : inject_Z 655359998 < inject_Z p)
      by (change (inject_Z 655359998) with 655359998; lra).
    rewrite <- Zlt_Qlt in H. lia. }
  assert (Hhi : (p <= 1966080000)%Z).
  { assert (H : inject_Z p < inject_Z 1966080001)
      by (change (inject_Z 1966080001) with 1966080001; lra).
    rewrite <- Zlt_Qlt in H. lia. }
  split; [apply Qabs_Qlt_condition; split; lra|].
  split; [lia|]. split; [unfold in_uint32; lia|].
  change FP16_SCALE with 65536%Z. split.
  - apply Z.div_le_lower_bound; lia.
  - apply Z.div_lt_upper_bound; lia.
Qed.

(** The slope correction of a projection: [(int64_t)((double)d * slope)]
    against the exact [d * s]. *)
Lemma slope_correction_value (d : Z) (slope : float) (s : Q) :
  value slope = Some s -> Qabs s <= 1 # 1000 ->
  (Z.abs d <= 2 ^ 40)%Z ->
  Qabs (inject_Z (to_int64_trunc (of_Z d * slope)) - inject_Z d * s)
    < 1 + (1 # 1000000) /\
  (Z.abs (to_int64_trunc (of_Z d * slope)) <= 2 ^ 31)%Z.
Proof.
  intros Hs Hsb Hd. apply Qabs_le_iff in Hsb. destruct Hsb as [Hs1 Hs2].
  assert (Hu : 2 ^ (-53) == 1 # 9007199254740992) by reflexivity.
  assert (He : 0 < 2 ^ (-1075) /\ 2 ^ (-1075) <= 1 # 9007199254740992).
  { split; [apply pow2_pos|]. rewrite <- Hu. apply pow2_le. lia. }
  assert (HD : - 1099511627776 <= inject_Z d /\ inject_Z d <= 1099511627776).
  { change (- 1099511627776) with (inject_Z (- 2 ^ 40)).
    change 1099511627776 with (inject_Z (2 ^ 40)).
    rewrite <- !Zle_Qle. lia. }
  set (D := inject_Z d) in *.
  destruct (of_Z_value d ltac:(lia)) as (v0 & Hv0 & Hb0). fold D in Hb0.
  assert (HA : Qabs D <= 1099511627776) by (apply Qabs_le_iff; lra).
  rewrite Hu in Hb0.
  assert (Hb0' : Qabs (v0 - D) <= 1 # 8000).
  { eapply Qle_trans; [exact Hb0|].
    generalize (Qabs D) HA. intros A HA'. lra. }
  apply Qabs_le_iff in Hb0'. destruct Hb0' as [Hb0l Hb0u].
  assert (Hv0s : - 1100000000 <= v0 * s /\ v0 * s <= 1100000000)
    by (split; nra).
  destruct (mul_value (of_Z d) slope v0 s 31 Hv0 Hs) as (v1 & Hv1 & Hb1).
  { apply Qabs_Qlt_condition. change (2 ^ 31) with 2147483648. split; lra. }
  { lia. }
  assert (HB : Qabs (v0 * s) <= 1100000000) by (apply Qabs_le_iff; lra).
  rewrite Hu in Hb1.
  assert (Hb1' : Qabs (v1 - v0 * s) <= 1 # 4000000).
  { eapply Qle_trans; [exact Hb1|].
    generalize (Qabs (v0 * s)) HB (2 ^ (-1075)) He. intros A HA' e0 He0. lra. }
  apply Qabs_le_iff in Hb1'. destruct Hb1' as [Hb1l Hb1u].
  destruct (to_int64_trunc_value (of_Z d * slope)%float v1 Hv1)
    as (Ht1 & Ht2 & _).
  { apply Qabs_Qlt_condition. change (2 ^ 63) with 9223372036854775808.
    split; lra. }
  set (c := to_int64_trunc (of_Z d * slope)%float) in *.
  apply Qabs_Qlt_condition in Ht1. destruct Ht1 as [Ht1l Ht1u].
  assert (Hds : - (1 # 8000000) <= v0 * s - D * s
                /\ v0 * s - D * s <= 1 # 8000000) by (split; nra).
  split.
  - apply Qabs_Qlt_condition. split; lra.
  - assert (Hc : Qabs (inject_Z c) <= 1100000001).
    { eapply Qle_trans; [exact Ht2|]. apply Qabs_le_iff. split; lra. }
    apply Qabs_le_iff in Hc. destruct Hc as [Hc1 Hc2].
    assert (H1 : inject_Z (- 1100000001) <= inject_Z c) by exact Hc1.
    assert (H2 : inject_Z c <= inject_Z 1100000001) by exact Hc2.
    rewrite <- Zle_Qle in H1, H2. lia.
Qed.

Lemma dtc_local_to_remote_value (m : crm_model_t) (x ref_l ref_r : Z) (b : Q) :
  value (crm_slope_rl_m1 m) = Some b -> Qabs b <= 1 # 1000 ->
  (- 2 ^ 61 <= ref_l <= 2 ^ 61)%Z -> (- 2 ^ 61 <= ref_r <= 2 ^ 61)%Z ->
  (Z.abs (x - ref_l) <= 2 ^ 40)%Z ->
  Qabs (inject_Z (dtc_local_to_remote m x ref_l ref_r)
        - (inject_Z ref_r + inject_Z (x - ref_l) * (1 + b)))
    < 1 + (1 # 1000000) /\
  (Z.abs (dtc_local_to_remote m x ref_l ref_r - ref_r - (x - ref_l)) <= 2 ^ 31)%Z.
Proof.
  intros Hb Hbb Hl Hr Hd. unfold dtc_local_to_remote.
  rewrite (to_int64_id (x - ref_l)) by (unfold in_int64; lia).
  destruct (slope_correction_value (x - ref_l) (crm_slope_rl_m1 m) b Hb Hbb Hd)
    as (Hc & Hcz).
  set (c := to_int64_trunc (of_Z (x - ref_l) * crm_slope_rl_m1 m)%float) in *.
  rewrite (to_int64_id (x - ref_l + c)) by (unfold in_int64; lia).
  rewrite to_int64_id by (unfold in_int64; lia).
  split; [|lia].
  rewrite !inject_Z_plus.
  apply Qabs_Qlt_condition in Hc. apply Qabs_Qlt_condition.
  split; lra.
Qed.

Lemma dtc_remote_to_local_value (m : crm_model_t) (x ref_l ref_r : Z) (a : Q) :
  value (crm_slope_lr_m1 m) = Some a -> Qabs a <= 1 # 1000 ->
  (- 2 ^ 61 <= ref_l <= 2 ^ 61)%Z -> (- 2 ^ 61 <= ref_r <= 2 ^ 61)%Z ->
  (Z.abs (x - ref_r) <= 2 ^ 40)%Z ->
  Qabs (inject_Z (dtc_remote_to_local m x ref_l ref_r)
        - (inject_Z ref_l + inject_Z (x - ref_r) * (1 + a)))
    < 1 + (1 # 1000000).
Proof.
  intros Ha Hab Hl Hr Hd. unfold dtc_remote_to_local.
  rewrite (to_int64_id (x - ref_r)) by (unfold in_int64; lia).
  destruct (slope_correction_value (x - ref_r) (crm_slope_lr_m1 m) a Ha Hab Hd)
    as (Hc & Hcz).
  set (c := to_int64_trunc (of_Z (x - ref_r) * crm_slope_lr_m1 m)%float) in *.
  rewrite (to_int64_id (x - ref_r + c)) by (unfold in_int64; lia).
  rewrite to_int64_id by (unfold in_int64; lia).
  rewrite !inject_Z_plus.
  apply Qabs_Qlt_condition in Hc. apply Qabs_Qlt_condition.
  split; lra.
Qed.

(** X23.  The projections are exact to a tick.  For a slope of at most
    1000 ppm and a distance of at most [2^40] ticks from the reference
    point, [dtc_local_to_remote] returns the remote reference plus the
    distance scaled by [1 + slope_rl_m1], and [dtc_remote_to_local] the
    local reference plus the distance scaled by [1 + slope_lr_m1], each off
    by less than one tick and a millionth: neither the conversions nor the
    sums overflow. *)
Theorem dtc_projection_within_tick (m : crm_model_t) (x ref_l ref_r : Z) (a b : Q) :
  value (crm_slope_lr_m1 m) = Some a -> value (crm_slope_rl_m1 m) = Some b ->
  Qabs a <= 1 # 1000 -> Qabs b <= 1 # 1000 ->
  (- 2 ^ 61 <= ref_l <= 2 ^ 61)%Z -> (- 2 ^ 61 <= ref_r <= 2 ^ 61)%Z ->
  ((Z.abs (x - ref_l) <= 2 ^ 40)%Z ->
   Qabs (inject_Z (dtc_local_to_remote m x ref_l ref_r)
         - (inject_Z ref_r + inject_Z (x - ref_l) * (1 + b)))
     < 1 + (1 # 1000000)) /\
  ((Z.abs (x - ref_r) <= 2 ^ 40)%Z ->
   Qabs (inject_Z (dtc_remote_to_local m x ref_l ref_r)
         - (inject_Z ref_l + inject_Z (x - ref_r) * (1 + a)))
     < 1 + (1 # 1000000)).
Proof.
  intros Ha Hb Hab Hbb Hl Hr. split; intros Hd.
  - apply (dtc_local_to_remote_value m x ref_l ref_r b Hb Hbb Hl Hr Hd).
  - apply (dtc_remote_to_local_value m x ref_l ref_r a Ha Hab Hl Hr Hd).
Qed.

(** X24.  There and back.  When the two published slopes are inverse to
    each other up to [10^-12] (what the regression delivers for a slope
    between 1/2 and 2) and at most 1000 ppm, a tick count within [2^39]
    ticks of the reference, projected to the remote time line and back,
    returns to within 2 ticks of itself. *)
Theorem dtc_round_trip_within_two_ticks
  (m : crm_model_t) (x ref_l ref_r : Z) (a b : Q) :
  value (crm_slope_lr_m1 m) = Some a -> value (crm_slope_rl_m1 m) = Some b ->
  Qabs a <= 1 # 1000 -> Qabs b <= 1 # 1000 ->
  Qabs ((1 + a) * (1 + b) - 1) <= 1 # 1000000000000 ->
  (- 2 ^ 61 <= ref_l <= 2 ^ 61)%Z -> (- 2 ^ 61 <= ref_r <= 2 ^ 61)%Z ->
  (Z.abs (x - ref_l) <= 2 ^ 39)%Z ->
  (Z.abs (dtc_remote_to_local m (dtc_local_to_remote m x ref_l ref_r)
            ref_l ref_r - x) <= 2)%Z.
Proof.
  intros Ha Hb Hab Hbb Hinv Hl Hr Hd.
  destruct (dtc_local_to_remote_value m x ref_l ref_r b Hb Hbb Hl Hr
              ltac:(lia)) as (H1 & H1z).
  set (r := dtc_local_to_remote m x ref_l ref_r) in *.
  pose proof (dtc_remote_to_local_value m r ref_l ref_r a Ha Hab Hl Hr
                ltac:(lia)) as H2.
  set (l := dtc_remote_to_local m r ref_l ref_r) in *.
  apply Qabs_le_iff in Hab, Hbb, Hinv.
  apply Qabs_Qlt_condition in H1, H2.
  assert (HD : - 549755813888 <= inject_Z (x - ref_l)
               /\ inject_Z (x - ref_l) <= 549755813888).
  { split.
    - assert (H : inject_Z (- 2 ^ 39) <= inject_Z (x - ref_l))
        by (rewrite <- Zle_Qle; lia).
      exact H.
    - assert (H : inject_Z (x - ref_l) <= inject_Z (2 ^ 39))
        by (rewrite <- Zle_Qle; lia).
      exact H. }
  assert (Er : inject_Z (r - ref_r) == inject_Z r - inject_Z ref_r).
  { unfold Z.sub. rewrite inject_Z_plus, inject_Z_opp. ring. }
  assert (Ex : inject_Z (l - x)
               == inject_Z l - inject_Z ref_l - inject_Z (x - ref_l)).
  { unfold Z.sub. rewrite !inject_Z_plus, !inject_Z_opp. ring. }
  rewrite Er in H2.
  set (D := inject_Z (x - ref_l)) in *.
  set (R := inject_Z r) in *. set (L := inject_Z l) in *.
  set (Rl := inject_Z ref_l) in *. set (Rr := inject_Z ref_r) in *.
  set (e := (1 + a) * (1 + b) - 1) in *.
  set (e1 := R - (Rr + D * (1 + b))) in *.
  assert (HDe : - (6 # 10) <= D * e /\ D * e <= 6 # 10) by (split; nra).
  assert (He1a : - (1002 # 1000) <= e1 * (1 + a)
                 /\ e1 * (1 + a) <= 1002 # 1000) by (split; nra).
  assert (Eq : (R - Rr) * (1 + a) == D + D * e + e1 * (1 + a)).
  { unfold e1, e. ring. }
  assert (Hlx : - 3 < inject_Z (l - x) /\ inject_Z (l - x) < 3).
  { rewrite Ex. fold L Rl D. destruct H2 as [H2l H2u].
    rewrite Eq in H2l, H2u. split; lra. }
  destruct Hlx as [Hlo Hhi].
  assert (Hlo' : inject_Z (- 3) < inject_Z (l - x)) by exact Hlo.
  assert (Hhi' : inject_Z (l - x) < inject_Z 3) by exact Hhi.
  rewrite <- Zlt_Qlt in Hlo', Hhi'. lia.
Qed.

End DtcPeriod.

(** The model of the example: a slope of [2^-20]. *)
Lemma dtc_period_follows_slope_witness :
  655359999 <= Dtc.dtc_calculate_period_fp16 Dtc.matched_model <= 1966080000.
Proof.
  destruct (Fp.value (Crm.crm_slope_lr_m1 Dtc.matched_model)) as [a|] eqn:Ea;
    [|vm_compute in Ea; discriminate].
  pose proof (dtc_period_follows_slope Dtc.matched_model a Ea) as H.
  vm_compute in Ea. injection Ea as <-.
  feed_computed H. exact (proj1 (proj2 H)).
Defined.

(** A local tick count one million ticks after the reference. *)
Lemma dtc_projection_within_tick_witness :
  exists b,
    Fp.value (Crm.crm_slope_rl_m1 Dtc.matched_model) = Some b /\
    (Qabs (inject_Z (Dtc.dtc_local_to_remote Dtc.matched_model 1000000 0 500)
           - (inject_Z 500 + inject_Z (1000000 - 0) * (1 + b)))
     < 1 + (1 # 1000000))%Q.
Proof.
  destruct (Fp.value (Crm.crm_slope_lr_m1 Dtc.matched_model)) as [a|] eqn:Ea;
    [|vm_compute in Ea; discriminate].
  destruct (Fp.value (Crm.crm_slope_rl_m1 Dtc.matched_model)) as [b|] eqn:Eb;
    [|vm_compute in Eb; discriminate].
  exists b. split; [reflexivity|].
  pose proof (dtc_projection_within_tick Dtc.matched_model 1000000 0 500 a b
                Ea Eb) as H.
  vm_compute in Ea, Eb. injection Ea as <-. injection Eb as <-.
  do 4 feed_computed H. destruct H as [H _].
  feed_computed H. exact H.
Defined.

Lemma dtc_round_trip_within_two_ticks_witness :
  Z.abs (Dtc.dtc_remote_to_local Dtc.matched_model
           (Dtc.dtc_local_to_remote Dtc.matched_model 1000000 0 500) 0 500
         - 1000000) <= 2.
Proof.
  destruct (Fp.value (Crm.crm_slope_lr_m1 Dtc.matched_model)) as [a|] eqn:Ea;
    [|vm_compute in Ea; discriminate].
  destruct (Fp.value (Crm.crm_slope_rl_m1 Dtc.matched_model)) as [b|] eqn:Eb;
    [|vm_compute in Eb; discriminate].
  pose proof (dtc_round_trip_within_two_ticks Dtc.matched_model 1000000 0 500
                a b Ea Eb) as H.
  vm_compute in Ea, Eb. injection Ea as <-. injection Eb as <-.
  do 6 feed_computed H. exact H.
Defined.

(** ** The LED *)

Section LedFacts.

Import Main.

Lemma fts_callback_period c :
  0 <= c -> c + 2500 < 2 ^ 32 -> fts_callback (c + 2500) = fts_callback c.
Proof.
  intros H0 H1. unfold fts_callback, TOGGLE_LED_GPIO_DTR_CYCLES.
  change (to_uint32 2500) with 2500.
  rewrite !to_uint32_id by (unfold in_uint32; lia).
  replace (c + 2500) with (c + 1 * 2500) by lia.
  rewrite Z.mod_add by lia. reflexivity.
Qed.

Lemma led_count_slide (p : Z -> bool) a n :
  (length (filter p (map Z.of_nat (seq (S a) n)))
   + (if p (Z.of_nat a) then 1 else 0)
   = length (filter p (map Z.of_nat (seq a n)))
     + (if p (Z.of_nat (a + n)) then 1 else 0))%nat.
Proof.
  assert (E : Z.of_nat a :: map Z.of_nat (seq (S a) n)
              = map Z.of_nat (seq a n) ++ [Z.of_nat (a + n)]).
  { change (Z.of_nat a :: map Z.of_nat (seq (S a) n))
      with (map Z.of_nat (seq a (S n))).
    rewrite seq_S, map_app. reflexivity. }
  apply (f_equal (fun l => length (filter p l))) in E.
  rewrite filter_app, length_app in E. cbn [filter] in E.
  destruct (p (Z.of_nat a)), (p (Z.of_nat (a + n))); cbn [length] in E; lia.
Qed.

(** X25.  The LED is lit one cycle in five.  In any 2500 consecutive
    cycles that do not pass the wrap of the 32-bit cycle number,
    [fts_callback] drives the pin low (LED on) in exactly 500 of them, and
    the pattern repeats every 2500 cycles. *)
Theorem led_lit_one_cycle_in_five (first : Z) :
  0 <= first -> first + 2500 <= 2 ^ 32 ->
  led_on_count first 2500 = 500%nat /\
  (first + 2500 < 2 ^ 32 -> fts_callback (first + 2500) = fts_callback first).
Proof.
  intros H0 H1. split; [|apply fts_callback_period; exact H0].
  unfold led_on_count, cycles_from.
  assert (H : forall a : nat, Z.of_nat a + 2500 <= 2 ^ 32 ->
            length (filter (fun c => fts_callback c =? 0)
                      (map Z.of_nat (seq a 2500))) = 500%nat).
  { induction a as [|a IH]; intros Ha; [reflexivity|].
    pose proof (led_count_slide (fun c => fts_callback c =? 0) a 2500) as Hs.
    cbv beta in Hs.
    rewrite IH in Hs by lia.
    replace (Z.of_nat (a + 2500)) with (Z.of_nat a + 2500) in Hs by lia.
    rewrite fts_callback_period in Hs by lia.
    destruct (fts_callback (Z.of_nat a) =? 0); lia. }
  apply H. lia.
Qed.

End LedFacts.

(** The 2500 cycles from cycle 1234 on. *)
Lemma led_lit_one_cycle_in_five_witness :
  Main.led_on_count 1234 2500 = 500%nat.
Proof.
  apply (led_lit_one_cycle_in_five 1234); lia.
Defined.
